(* ===== verification/_CoqProject ===== *)
-Q . S2P
Prelude.v
Python.v
Utf8.v
Struct.v
Enums.v
Messages.v
Wire.v
Codec.v
WireFacts.v
ReadLoop.v
CodecFacts.v
RoundTrip.v
DecodeFacts.v
ProtocolProps.v
Values.v
ResponseDict.v
Effects.v
Journal.v
JournalFacts.v
JournalProps.v
SlurmVerifier.v
Adapter.v
VerifierProps.v
DefwClient.v
AdapterProps.v
Service.v
Sample.v
ServiceFacts.v
ServiceProps.v
Triples.v
OperationProps.v
WriteAhead.v
Consistency.v
ReserveFacts.v
HandlerFacts.v
ReleaseProps.v
ExtensionProps.v
ConsistencyProps.v
Ledger.v
LedgerFacts.v
ReserveLedger.v
LedgerProps.v
Tasks.v
TaskFacts.v
Interleaving.v
Replay.v
Locality.v
Shapes.v
InterleavingProps.v
RetryRace.v
Hoare.v
TextFacts.v
BurstBuffer.v
DirectiveProps.v
HelperSample.v
AttemptProps.v
HelperReleaseProps.v
Config.v
ConfigProps.v
Server.v
ServerProps.v
Authentication.v
AuthenticationProps.v
Paths.v
Launcher.v
LauncherProps.v
Entry.v
EntryProps.v
Lifecycle.v
LifecycleProps.v
Grouping.v
Render.v
RenderProps.v
Inspect.v
Squeue.v
SqueueProps.v
Sinfo.v
SinfoProps.v
