(* ===== verification/Prelude.v ===== *)
(** * qfw-slurm gateway: verification development

    The Slurm integration of QFw is a gateway process that turns the
    lifecycle of a Slurm allocation into reservations at quantum platform
    managers (QPMs), a helper that Slurm runs at each step of an allocation
    and that talks to the gateway, and two commands that show the
    reservations beside [squeue] and [sinfo]. This library models the Python
    of the repository, under [src/gateway] and [src/slurm], as functions and
    proves what makes it correct.

    ** The parts and how they interact

    A client (the burst-buffer helper through a native driver) sends a QSGP
    frame inside a MUNGE credential. The server authenticates it, decodes the
    frame with the codec of the protocol module and hands the request to the
    transaction coordinator. The coordinator asks the Slurm verifier whether
    the request is about a job of the sender, writes the operation, the
    allocation and each reservation to the SQLite journal, and asks the QFw
    adapter, which resolves a service to the binding of a QPM and calls it.
    The answer is stored in the journal as a document, encoded, and sent back.

    ** Which file models what

    Python itself: [Python] (code points, string methods, [int], the
    exceptions and their class hierarchy), [Utf8], [Struct] ([struct.pack]),
    [Values] (the JSON-like values, their conversions and [json.dumps]),
    [Effects] (a method as a function of the state it runs in to its outcome
    and the state it leaves; state persists when an exception is raised) and
    [Hoare] (triples over it). [Prelude] has results, sorting and tactics.

    - [protocol.py]: [Enums], [Messages], [Wire] (frames and TLVs), [Codec]
      (encoders and decoders), [ResponseDict] (stored documents). Facts and
      properties: [WireFacts], [ReadLoop], [CodecFacts], [RoundTrip],
      [DecodeFacts], [ProtocolProps].
    - [journal.py]: [Journal], the three tables as finite maps and a
      definition per method; [JournalFacts], [JournalProps].
    - [slurm_verifier.py]: [SlurmVerifier]; [VerifierProps].
    - [defw_client.py]: [DefwClient], and the start of the adapter in [Entry];
      [AdapterProps].
    - [service.py]: [Service], a definition per method of [GatewayService],
      against the interfaces of [Adapter] ([AdapterOps] and [VerifierOps], with
      the laws that the two implementations are proved to satisfy).
      [ServiceFacts], [ServiceProps] and [OperationProps] state what single
      requests do, [Triples] is the program logic for the rest: [WriteAhead],
      [Consistency], [ReserveFacts], [HandlerFacts], [ReleaseProps],
      [ExtensionProps], [ConsistencyProps]. [Ledger] is the abstract service,
      which [LedgerFacts], [ReserveLedger] and [LedgerProps] show the
      coordinator to implement. [Sample] is a concrete site on which the
      witnesses run.
    - [service.py] again, with the await points: [Tasks] gives each method as a
      tree of journal calls and awaited calls, which [TaskFacts] proves to be
      the method of [Service] when nothing interrupts it. [Interleaving] is the
      process: the lock of each allocation, the tasks that hold one, and their
      turns. [Replay] turns a run of a task whose awaited calls return what
      they like into a run of the handler on a site that answers from a script;
      [Locality] proves each journal method local to its allocation, [Shapes]
      which journal calls each task makes, and [InterleavingProps] puts the
      task that others interrupted back to a run alone. [RetryRace] is a retry
      in a process of its own, which those locks do not cover.
    - [server.py]: [Server], a connection; [ServerProps]. The listener, the
      set of clients and the shutdown are with [_serve] in [Lifecycle];
      [LifecycleProps].
    - [authentication.py]: [Authentication], an authenticator for the server
      over libmunge, with the memory the library hands out;
      [AuthenticationProps].
    - [config.py]: [Config]; [ConfigProps].
    - [launcher.py], [qfw_slurm_inspect/bootstrap.py] (Module [Bootstrap]) and
      [qfw_slurm_common/defw.py]: [Launcher] over the paths of [Paths];
      [LauncherProps].
    - [__main__.py]: [Entry]; [EntryProps].
    - [slurm/qfw_slurm_bb.py]: [BurstBuffer]; [TextFacts], [DirectiveProps],
      [AttemptProps], [HelperReleaseProps], on runs of [HelperSample].
    - [qfw_slurm_inspect]: [Inspect] ([models.py], [slurm.py], [qpm.py]),
      [Render], [Squeue], [Sinfo], over [Grouping]; [RenderProps],
      [SqueueProps], [SinfoProps].

    The definitions keep the names of the code. A class is a Module with a
    record [t], a dictionary that the code builds for output is the list of its
    items in order, an exception is a constructor of [Python.exn], and an
    integer is a [Z] with the bounds the code checks.

    ** What the theorems show

    - The protocol: what a client can encode is decoded to the same request; on
      every byte string the decoder returns or raises [ProtocolError]; what it
      accepts is within the bounds of the wire, so it encodes again; every
      answer fits a frame; diagnostics are cut at a character, as long as can
      be; the reader of TLVs ends after at most one turn for 8 bytes.
    - The journal: [begin_allocation] refuses the rows it must not go on from,
      keeps an accepted set and plans exactly the services missing from it, or
      starts over; a completed operation replays and never runs again;
      [reservation_context] succeeds exactly for complete accepted sets. What
      is stored reads back.
    - One request: the verifications are sound for the controller's records; an
      attempt holds all its services or none; the journal is written ahead of
      every call to a QPM; a recorded operation asks no QPM again; a release
      answers and records one outcome per reservation, the one its calls had;
      a request touches no other job; a resolved binding is of one runtime of
      its service; a malformed acceptance is released before it is reported.
    - All requests: the states that a healthy gateway reaches are consistent,
      so that a lookup of an accepted allocation answers exactly what its
      reserve announced, and each request is a step of the ledger: an abstract
      state of who holds which reservations that only accepted reserves and
      releases change, as their answers say, while a repeated request gets the
      answer on record or the entry as it is.
    - Concurrent requests: however the tasks of one process take turns, an
      allocation whose lock is free is consistent, unless a cancelled task has
      left it; what a task answers is what its handler answers alone on the
      rows that the task found, so that each answered request is a step of the
      ledger at its allocation; and a lookup of an accepted allocation at rest
      returns what was announced.
    - The connection: a request of an accepted sender is answered with the
      encoding of what the coordinator returns, and nothing but such a request
      reaches the coordinator; no [Exception] leaves the connection. A
      credential is accepted only when libmunge vouches for its very bytes. A
      service that is stopped closes its journal only after its listener and
      the clients it found, and comes to that by its own events where the close
      of the listener does not wait for clients.
    - The helper: the parser of the directive accepts exactly a grammar and
      reads back what is rendered in it; over all runs the driver decides at
      most the configured number of reserves; what a teardown asks and
      records.
    - The configuration and the launchers: an accepted configuration is what
      its document says, in range, and what the launcher executes. The
      commands: [qfw-squeue] shows the join of jobs and allocations, and
      [qfw-sinfo] the registered and the configured services on each of their
      hosts; a failing source is reported and shows in the exit status.

    The specifications are stated over the data: what [Squeue] computes with
    grouping and sorting is a relation between a row, the jobs and the
    allocations in [SqueueProps], the mapping keys of [Config] are positions in
    the document in [ConfigProps], the states that a teardown releases are
    written out in [HelperReleaseProps].

    Some theorems state what the code does where its documentation says
    otherwise: an extension whose rollback is incomplete reopens its allocation
    ([ExtensionProps]), a release that is refused once stays refused under its
    request id ([ReleaseProps]), a reserve that is interrupted in the helper is
    not released by the teardown ([HelperReleaseProps]), the payload of a
    replayed credential is not freed ([AuthenticationProps]), the
    [retry-release] command, which takes the locks of its own process only, can release an allocation under a reserve of the
    gateway ([RetryRace]), and a stop that cannot be notified closes nothing
    ([LifecycleProps]).

    ** Fuel

    [Utf8.utf8_decode_go], [Authentication.utf8_decode_replace_go] and
    [Wire.collect_go] recur on fuel. The decoders consume a byte in each turn
    and their fuel is the number of bytes. The loop
    of the TLV reader has the length of the payload as fuel and advances by 8
    bytes or more; [ReadLoop] gives the loop without fuel as a relation and
    proves that it ends and agrees. Everything else recurs on its data.

    ** Parameters and assumptions

    What is not in the repository is an argument of the definitions:
    [UnicodeData] (the character tables behind [str.strip] and [int]),
    [JournalEnv] (which statement SQLite fails, what a failed statement says,
    the order in which Python lists a set, the clock), [Sha256], [SlurmEnv]
    ([scontrol] and the password database), [DefwEnv] and [DefwImport] (the
    DEFw library), [Authenticator] and below it [Libmunge], [ConfigEnv] (YAML, [lstat], users,
    path expansion), [ServeEnv] (the service manager, the outcome of opening and
    closing, whether [wait_closed] waits for clients), [LauncherEnv] (files, the resolver, the environment),
    [HelperEnv] (the native driver, the state directory), [InspectEnv] and
    [QfwRuntime] (the Slurm commands, the QPM directory, the QFw runtime). They
    answer anything, or raise, unless a theorem says otherwise: the laws are
    [AdapterLaws] and [VerifierLaws], proved of the two implementations,
    [JournalEnvLaws] (listing a set keeps its elements) and [no_faults] (a
    healthy disk), which the theorems about all reachable states need and
    [Sample] satisfies.

    - The theorems on single requests and [reachable] run a handler to its end;
      [Interleaving] does not. There, tasks switch at every journal call and
      every awaited call, which allows more than the event loop does, and one
      process serves the journal.
    - [CancelledError] and [SystemExit] are no [Exception]; a cancellation is
      what an external call raises at its await point.
    - JSON numbers are integers where the code reads external documents; floats
      occur in the configuration, as IEEE doubles.
    - The limit that CPython sets on the number of digits [int] reads or [str]
      writes is not modelled, nor is the context in which [str.lower] maps a
      final sigma.

    ** Not modelled

    - [argparse] and logging: the commands start from parsed arguments.
    - Opening the database, its schema and file modes; [os.execv].
    - The native client, driver and SPANK plugin (C) and the Slurm hooks (Lua),
      which are other languages.

    ** Plan

    Next: lookups in the ledger of interleaved requests; the connection of
    [Server] inside the loop of [Lifecycle]; the properties of [retry_release]
    beside those of [_release]. *)

From Stdlib Require Export ZArith Lia Bool.
From stdpp Require Export base tactics sorting numbers strings gmap list.

(** ** Results of Python code

    A Python function either returns a value or raises an exception; the
    exception type is a parameter here and is fixed in [Python]. *)
Inductive res (E A : Type) : Type :=
| Ok (a : A)
| Raise (e : E).
Arguments Ok {E A} a.
Arguments Raise {E A} e.

Definition res_bind {E A B} (f : A -> res E B) (r : res E A) : res E B :=
  match r with Ok a => f a | Raise e => Raise e end.

#[export] Instance res_mret E : MRet (res E) := fun A a => Ok a.
#[export] Instance res_mbind E : MBind (res E) := fun A B f r => res_bind f r.
#[export] Instance res_fmap E : FMap (res E) :=
  fun A B f r => res_bind (fun a => Ok (f a)) r.

(** [if b: raise e] *)
Definition raise_if {E} (b : bool) (e : E) : res E unit :=
  if b then Raise e else Ok tt.

(** A list comprehension whose body may raise: left to right, the first
    exception wins. *)
Fixpoint mapR {E A B} (f : A -> res E B) (l : list A) : res E (list B) :=
  match l with
  | [] => Ok []
  | x :: l => y ← f x; ys ← mapR f l; Ok (y :: ys)
  end.

(** [for x in l: f(x)] *)
Definition iterR {E A} (f : A -> res E unit) (l : list A) : res E unit :=
  _ ← mapR f l; Ok tt.

Definition is_ok {E A} (r : res E A) : bool :=
  match r with Ok _ => true | Raise _ => false end.

(** ** Stable insertion sort by a boolean order on keys ([sorted(l, key=k)]) *)
Section sort.
Context {A K : Type} (leb : K -> K -> bool) (key : A -> K).

Fixpoint insert_by (x : A) (l : list A) : list A :=
  match l with
  | [] => [x]
  | y :: l' => if leb (key x) (key y) then x :: l else y :: insert_by x l'
  end.

Definition sort_by (l : list A) : list A := foldr insert_by [] l.
End sort.

(** ** Tactics *)

Lemma bind_ok {E A B} (f : A -> res E B) (r : res E A) b :
  res_bind f r = Ok b <-> exists a, r = Ok a /\ f a = Ok b.
Proof.
  destruct r as [a|e]; simpl; split.
  - eauto.
  - by intros (? & [= ->] & ?).
  - done.
  - by intros (? & ? & ?).
Qed.

Lemma raise_if_ok {E} b (e : E) u : raise_if b e = Ok u <-> b = false.
Proof. destruct b, u; simpl; naive_solver. Qed.

Lemma raise_if_false {E} b (e : E) : b = false -> raise_if b e = Ok tt.
Proof. by intros ->. Qed.

Lemma ok_bind {E A B} (a : A) (f : A -> res E B) : Ok a ≫= f = f a.
Proof. done. Qed.

Lemma bind_step {E A B} (r : res E A) (f : A -> res E B) a R :
  r = Ok a -> f a = R -> r ≫= f = R.
Proof. by intros -> <-. Qed.

Lemma raise_if_bind {E A} b (e : E) (f : unit -> res E A) :
  b = false -> raise_if b e ≫= f = f tt.
Proof. by intros ->. Qed.

(** Split the monadic binds of a hypothesis [H : ... = Ok _] into one
    equation per step. *)
Ltac inv_ok :=
  repeat match goal with
  | H : mbind _ _ = Ok _ |- _ =>
      let a := fresh "a" in let E := fresh "E" in
      apply bind_ok in H as (a & E & H)
  | H : res_bind _ _ = Ok _ |- _ =>
      let a := fresh "a" in let E := fresh "E" in
      apply bind_ok in H as (a & E & H)
  | H : fmap _ _ = Ok _ |- _ =>
      let a := fresh "a" in let E := fresh "E" in
      apply bind_ok in H as (a & E & H)
  | H : match ?r with Ok _ => _ | Raise _ => _ end = Ok _ |- _ =>
      let E := fresh "E" in destruct r eqn:E; [|discriminate H]
  | H : raise_if _ _ = Ok _ |- _ => apply raise_if_ok in H
  | H : @eq unit _ _ |- _ => clear H
  | H : Ok _ = Ok _ |- _ => injection H as H; subst
  | H : mret _ = Ok _ |- _ => injection H as H; subst
  | H : Raise _ = Ok _ |- _ => discriminate H
  end.

(** Case analysis on every [match] and [if] of the goal, closing the trivial
    branches. *)
Ltac cases := repeat (case_match; simplify_eq/=; try done).

Create HintDb gateway discriminated.

(** ** Lemmas on results *)
Section res_lemmas.
Context {E : Type}.

Lemma mapR_ok_length {A B} (f : A -> res E B) l l' :
  mapR f l = Ok l' -> length l' = length l.
Proof.
  revert l'. induction l as [|x l IH]; simpl; intros l' H; inv_ok; [done|].
  simpl. f_equal. by apply IH.
Qed.

Lemma mapR_ext {A B} (f g : A -> res E B) l :
  (forall x, f x = g x) -> mapR f l = mapR g l.
Proof. intros Hfg. induction l as [|x l IH]; simpl; [done|]. by rewrite Hfg, IH. Qed.

Lemma mapR_ok_Forall2 {A B} (f : A -> res E B) l l' :
  mapR f l = Ok l' <-> Forall2 (fun x y => f x = Ok y) l l'.
Proof.
  revert l'. induction l as [|x l IH]; intros l'; simpl.
  - split; [by intros [= <-]|by inversion 1].
  - split.
    + intros H. inv_ok. constructor; [done|]. by apply IH.
    + inversion 1 as [|? y ? ys Hy Hys]; subst. rewrite Hy. simpl.
      unfold mbind, res_mbind. simpl. by rewrite (proj2 (IH ys) Hys).
Qed.

Lemma mapR_app {A B} (f : A -> res E B) l1 l2 :
  mapR f (l1 ++ l2) = (ys ← mapR f l1; zs ← mapR f l2; Ok (ys ++ zs)).
Proof.
  induction l1 as [|x l1 IH]; simpl.
  - unfold mbind, res_mbind. simpl. by destruct (mapR f l2).
  - rewrite IH. unfold mbind, res_mbind. destruct (f x); simpl; [|done].
    destruct (mapR f l1); simpl; [|done]. by destruct (mapR f l2).
Qed.

Lemma iterR_ok {A} (f : A -> res E unit) l :
  iterR f l = Ok tt <-> Forall (fun x => f x = Ok tt) l.
Proof.
  unfold iterR. split.
  - intros H. inv_ok. apply mapR_ok_Forall2 in E0. clear H.
    induction E0 as [|x [] l l' Hx _ IH]; constructor; auto.
  - intros H. assert (mapR f l = Ok (replicate (length l) tt)) as ->; [|done].
    apply mapR_ok_Forall2. induction H; simpl; constructor; auto.
Qed.

Lemma iterR_raise {A} (f : A -> res E unit) l e :
  iterR f l = Raise e -> exists x, x ∈ l /\ f x = Raise e.
Proof.
  unfold iterR. unfold mbind, res_mbind. destruct (mapR f l) as [us|e'] eqn:H; [done|].
  intros [= <-]. induction l as [|x l IH]; [done|]. simpl in H. unfold mbind, res_mbind in H.
  destruct (f x) as [u|e1] eqn:Hx; [|injection H as ->; exists x; split; [left|done]].
  destruct (mapR f l) as [us|e1]; [done|]. destruct (IH H) as (y & Hy & Hf).
  exists y. split; [by right|done].
Qed.
End res_lemmas.

(** An injective partial map keeps a list duplicate-free. *)
Lemma NoDup_omap {A B} (f : A -> option B) l :
  (forall x y b, f x = Some b -> f y = Some b -> x = y) -> NoDup l -> NoDup (omap f l).
Proof.
  intros Hf H. induction H as [|x l Hx _ IH]; [constructor|].
  cbn [omap list_omap]. destruct (f x) as [b|] eqn:E; [|done]. constructor; [|done].
  intros (y & Hy & Hb)%list_elem_of_omap. by rewrite (Hf x y b) in Hx.
Qed.

(** ** Boolean list filters *)

Lemma elem_of_filter_bool {A} (P : A -> bool) (l : list A) x :
  x ∈ List.filter P l <-> x ∈ l /\ P x = true.
Proof. by rewrite !list_elem_of_In, List.filter_In. Qed.

Lemma existsb_false_elem {A} (P : A -> bool) (l : list A) :
  existsb P l = false <-> forall x, x ∈ l -> P x = false.
Proof.
  rewrite <-not_true_iff_false, existsb_exists. split.
  - intros H x Hx. apply not_true_is_false. intros HP. apply H. exists x.
    by rewrite <-list_elem_of_In.
  - intros H (x & Hx & HP). rewrite (H x) in HP; [done|]. by apply list_elem_of_In.
Qed.

Lemma NoDup_map_filter {A B} (f : A -> B) P (l : list A) :
  NoDup (map f l) -> NoDup (map f (List.filter P l)).
Proof.
  induction l as [|x l IH]; simpl; [done|]. intros [Hx Hl]%NoDup_cons.
  destruct (P x); simpl; [|by apply IH]. constructor; [|by apply IH].
  intros (y & Hy & [Hin _]%elem_of_filter_bool)%list_elem_of_fmap.
  apply Hx. rewrite Hy. by apply list_elem_of_fmap_2.
Qed.

(** ** Lemmas on the sort *)
Section sort_lemmas.
Context {A K : Type} (leb : K -> K -> bool) (key : A -> K).
Local Abbreviation srt := (sort_by leb key).
Local Abbreviation ins := (insert_by leb key).

Lemma insert_by_perm x l : ins x l ≡ₚ x :: l.
Proof.
  induction l as [|y l IH]; simpl; [done|].
  destruct (leb (key x) (key y)); [done|].
  rewrite IH. apply perm_swap.
Qed.

Lemma sort_by_perm l : srt l ≡ₚ l.
Proof.
  induction l as [|x l IH]; simpl; [done|]. by rewrite insert_by_perm, IH.
Qed.

Lemma sort_by_length l : length (srt l) = length l.
Proof. by rewrite sort_by_perm. Qed.

Lemma elem_of_sort_by x l : x ∈ srt l <-> x ∈ l.
Proof. by rewrite sort_by_perm. Qed.

Lemma NoDup_sort_by l : NoDup (srt l) <-> NoDup l.
Proof. by rewrite sort_by_perm. Qed.

Hypothesis leb_total : forall a b, leb a b = true \/ leb b a = true.

Lemma sort_by_sorted l :
  Sorted (fun x y => leb (key x) (key y) = true) (srt l).
Proof.
  induction l as [|x l IH]; simpl; [constructor|].
  induction IH as [|y l' Hl' IH Hy]; simpl; [repeat constructor|].
  destruct (leb (key x) (key y)) eqn:E; [repeat (constructor; auto)|].
  destruct (leb_total (key x) (key y)) as [?|Hyx]; [congruence|].
  constructor; [done|].
  destruct l' as [|z l']; simpl; [by constructor|].
  inversion Hy; subst.
  destruct (leb (key x) (key z)); by constructor.
Qed.
End sort_lemmas.

(** A sorted list with pairwise distinct keys is determined by its elements:
    sorting two permutations of it gives the same list. *)
Lemma sort_by_unique {A K} (leb : K -> K -> bool) (key : A -> K) l1 l2 :
  (forall a b, leb a b = true \/ leb b a = true) ->
  (forall a b c, leb a b = true -> leb b c = true -> leb a c = true) ->
  (forall x y, x ∈ l1 -> y ∈ l1 ->
     leb (key x) (key y) = true -> leb (key y) (key x) = true -> x = y) ->
  l1 ≡ₚ l2 -> sort_by leb key l1 = sort_by leb key l2.
Proof.
  intros Htot Htr Hanti Hp.
  set (R := fun x y => leb (key x) (key y) = true).
  assert (Transitive R) by (intros a b c; apply Htr).
  apply (StronglySorted_unique_strong R).
  - intros x1 x2 H1 H2 ??. apply elem_of_sort_by in H1.
    apply elem_of_sort_by in H2. rewrite <-Hp in H2. by apply Hanti.
  - by apply (Sorted_StronglySorted R), sort_by_sorted.
  - by apply (Sorted_StronglySorted R), sort_by_sorted.
  - by rewrite !sort_by_perm.
Qed.

Create Rewrite HintDb gateway.

#[export] Hint Resolve sort_by_perm sort_by_sorted : gateway.
#[export] Hint Rewrite @sort_by_length @elem_of_sort_by @NoDup_sort_by : gateway.
