(* ===== verification/Python.v ===== *)
(** * Python runtime values used by the gateway

    Strings as lists of code points, the built-in string operations and
    integer conversions the gateway calls, bytes, and the exceptions of the
    gateway's modules with their class hierarchy. *)

From S2P Require Import Prelude.
From Stdlib Require Import Decimal DecimalZ.
From Stdlib Require Ascii String.
Local Open Scope Z_scope.

(** ** Strings *)

(** A [str] is a list of code points. *)
Definition str := list Z.

(** An ASCII literal. *)
Definition txt (s : string) : str :=
  map (fun c => Z.of_N (Ascii.N_of_ascii c)) (String.list_ascii_of_string s).

(** What the runtime reads from the Unicode character database about code
    points above U+007F; the ASCII part is written out below. *)
Class UnicodeData := {
  ucd_lower : Z -> str;
  ucd_upper : Z -> str;
  ucd_printable : Z -> bool;
  ucd_space : Z -> bool;
  ucd_decimal : Z -> option Z;
}.

(** A database that knows ASCII only; used to evaluate examples. *)
Definition ascii_ucd : UnicodeData := {|
  ucd_lower := fun c => [c];
  ucd_upper := fun c => [c];
  ucd_printable := fun _ => true;
  ucd_space := fun _ => false;
  ucd_decimal := fun _ => None;
|}.

(** Lexicographic order by code point ([a <= b] on [str]). *)
Fixpoint str_leb (a b : str) : bool :=
  match a, b with
  | [], _ => true
  | _ :: _, [] => false
  | x :: a, y :: b => if x =? y then str_leb a b else x <? y
  end.

(** [sorted(l)] on strings *)
Definition sorted_str (l : list str) : list str := sort_by str_leb id l.

(** ** Integers *)

Fixpoint uint_str (u : uint) : str :=
  match u with
  | Nil => []
  | D0 u => 48 :: uint_str u | D1 u => 49 :: uint_str u
  | D2 u => 50 :: uint_str u | D3 u => 51 :: uint_str u
  | D4 u => 52 :: uint_str u | D5 u => 53 :: uint_str u
  | D6 u => 54 :: uint_str u | D7 u => 55 :: uint_str u
  | D8 u => 56 :: uint_str u | D9 u => 57 :: uint_str u
  end.

(** [str(z)] of an integer *)
Definition str_of_Z (z : Z) : str :=
  match Z.to_int z with
  | Pos u => uint_str u
  | Neg u => 45 :: uint_str u
  end.

Definition digit_uint (d : Z) : option (uint -> uint) :=
  match d with
  | 0 => Some D0 | 1 => Some D1 | 2 => Some D2 | 3 => Some D3 | 4 => Some D4
  | 5 => Some D5 | 6 => Some D6 | 7 => Some D7 | 8 => Some D8 | 9 => Some D9
  | _ => None
  end.

Section unicode.
Context {ucd : UnicodeData}.

Definition is_space (c : Z) : bool :=
  if c <? 128 then
    ((9 <=? c) && (c <=? 13)) || ((28 <=? c) && (c <=? 32))
  else ucd_space c.

Definition dec_digit (c : Z) : option Z :=
  if c <? 128 then
    if (48 <=? c) && (c <=? 57) then Some (c - 48) else None
  else ucd_decimal c.

Definition is_decimal_char (c : Z) : bool :=
  match dec_digit c with Some _ => true | None => false end.

(** [s.isdecimal()] *)
Definition isdecimal (s : str) : bool :=
  negb (bool_decide (s = [])) && forallb is_decimal_char s.

Fixpoint lstrip (s : str) : str :=
  match s with
  | c :: s' => if is_space c then lstrip s' else s
  | [] => []
  end.

(** [s.strip()] *)
Definition strip (s : str) : str := reverse (lstrip (reverse (lstrip s))).

(** Decimal digits with single underscores between them; [after_digit] is
    whether an underscore may follow here. *)
Fixpoint parse_uint (after_digit : bool) (s : str) : option uint :=
  match s with
  | [] => if after_digit then Some Nil else None
  | c :: s' =>
      if c =? 95 then
        if after_digit then parse_uint false s' else None
      else
        match dec_digit c with
        | Some d =>
            match digit_uint d, parse_uint true s' with
            | Some D, Some u => Some (D u)
            | _, _ => None
            end
        | None => None
        end
  end.

(** [int(s)] of a string; [None] for [ValueError] *)
Definition int_of_str (s : str) : option Z :=
  match strip s with
  | 45 :: s' => u ← parse_uint false s'; Some (Z.of_int (Neg u))
  | 43 :: s' => u ← parse_uint false s'; Some (Z.of_int (Pos u))
  | s' => u ← parse_uint false s'; Some (Z.of_int (Pos u))
  end.

(** [s.lower()] and [s.upper()] *)
Definition lower (s : str) : str :=
  s ≫= fun c =>
    if c <? 128 then [if (65 <=? c) && (c <=? 90) then c + 32 else c]
    else ucd_lower c.

Definition upper (s : str) : str :=
  s ≫= fun c =>
    if c <? 128 then [if (97 <=? c) && (c <=? 122) then c - 32 else c]
    else ucd_upper c.

Definition hex_digit (d : Z) : Z := if d <? 10 then 48 + d else 87 + d.

Fixpoint hex (width : nat) (c : Z) : str :=
  match width with
  | O => []
  | S n => hex n (c / 16) ++ [hex_digit (c mod 16)]
  end.

Definition printable (c : Z) : bool :=
  if c <? 128 then (32 <=? c) && (c <=? 126) else ucd_printable c.

Definition repr_char (quote c : Z) : str :=
  if (c =? quote) || (c =? 92) then [92; c]
  else if c =? 9 then txt "\t"
  else if c =? 10 then txt "\n"
  else if c =? 13 then txt "\r"
  else if printable c then [c]
  else if c <? 256 then txt "\x" ++ hex 2 c
  else if c <? 65536 then txt "\u" ++ hex 4 c
  else txt "\U" ++ hex 8 c.

(** [repr(s)], the [!r] conversion of an f-string *)
Definition repr (s : str) : str :=
  let quote :=
    if bool_decide (39 ∈ s) && negb (bool_decide (34 ∈ s)) then 34 else 39 in
  quote :: (s ≫= repr_char quote) ++ [quote].
End unicode.

(** Split at the first occurrence of a code point, if any. *)
Fixpoint split_at (c : Z) (s : str) : option (str * str) :=
  match s with
  | [] => None
  | x :: s' =>
      if x =? c then Some ([], s')
      else '(a, b) ← split_at c s'; Some (x :: a, b)
  end.

(** [sep.join(l)] *)
Fixpoint join (sep : str) (l : list str) : str :=
  match l with
  | [] => []
  | [s] => s
  | s :: l => s ++ sep ++ join sep l
  end.

(** [s.splitlines()]: the line boundaries of the runtime, [\r\n] being one. *)
Definition is_line_break (c : Z) : bool :=
  bool_decide (c ∈ [10; 11; 12; 13; 28; 29; 30; 133; 8232; 8233]).

Fixpoint splitlines (s : str) : list str :=
  match s with
  | [] => []
  | c :: s' =>
      if c =? 13 then
        match s' with
        | 10 :: s'' => [] :: splitlines s''
        | _ => [] :: splitlines s'
        end
      else if is_line_break c then [] :: splitlines s'
      else match splitlines s' with
           | line :: lines => (c :: line) :: lines
           | [] => [[c]]
           end
  end.

(** [s.split(sep)] for a one-character separator *)
Fixpoint split_on (sep : Z) (s : str) : list str :=
  match s with
  | [] => [[]]
  | c :: s' =>
      if c =? sep then [] :: split_on sep s'
      else match split_on sep s' with
           | part :: parts => (c :: part) :: parts
           | [] => [[c]]
           end
  end.

(** [s.split()]: the maximal runs of characters that are not white space *)
Fixpoint words {ucd : UnicodeData} (s : str) : list str :=
  match s with
  | [] => []
  | c :: s' =>
      if is_space c then words s'
      else match s' with
           | [] => [[c]]
           | c' :: _ =>
               if is_space c' then [c] :: words s'
               else match words s' with
                    | w :: ws => (c :: w) :: ws
                    | [] => [[c]]
                    end
           end
  end.

(** [s.startswith(p)] and [s.endswith(p)] *)
Definition startswith (p s : str) : bool := bool_decide (take (length p) s = p).
Definition endswith (p s : str) : bool := startswith (reverse p) (reverse s).

(** ** Bytes *)

Abbreviation byte := Byte.byte.
Definition bytes := list byte.

#[export] Instance byte_eq_dec : EqDecision byte := Byte.byte_eq_dec.

Definition b2z (b : byte) : Z := Z.of_N (Byte.to_N b).
Definition z2b (z : Z) : byte :=
  match Byte.of_N (Z.to_N (z mod 256)) with Some b => b | None => Byte.x00 end.

(** ** Exceptions *)

(** Built-in exception classes the gateway's code can see. *)
Inductive py_class :=
| ValueError | TypeError | KeyError | AttributeError | UnicodeEncodeError
| SqliteError | OSError | TimeoutExpired | JSONDecodeError | RuntimeError
| UnicodeDecodeError | TimeoutError | IncompleteReadError | OverflowError.

(** Every exception carries the text [str(error)]. [RequestConflict],
    [AllocationNotFound], [AllocationNotAccepted], [AllocationReleased] and
    [RollbackIncomplete] are subclasses of [JournalError]; the constructor
    [JournalError] is the class itself. [CancelledError] is the exception of a
    cancelled task and [SystemExit] ends the process: [BaseException]s that no
    [except Exception] clause catches. [PyError] is any other exception. *)
Inductive exn :=
| ProtocolError (msg : str)
| JournalError (msg : str)
| RequestConflict (msg : str)
| AllocationNotFound (msg : str)
| AllocationNotAccepted (msg : str)
| AllocationReleased (msg : str)
| RollbackIncomplete (msg : str)
| SlurmVerificationError (msg : str)
| QFwAdapterError (msg : str)
| AuthenticationError (msg : str)
| HelperError (msg : str)
| ConfigurationError (msg : str)
| SlurmCommandError (msg : str)
| QPMInspectionError (msg : str)
| InspectionBootstrapError (msg : str)
| SystemExit (msg : str)
| CancelledError
| PyError (cls : py_class) (msg : str).

#[export] Instance py_class_eq_dec : EqDecision py_class.
Proof. solve_decision. Defined.
#[export] Instance exn_eq_dec : EqDecision exn.
Proof. solve_decision. Defined.

(** [str(error)] *)
Definition exn_str (e : exn) : str :=
  match e with
  | ProtocolError m | JournalError m | RequestConflict m
  | AllocationNotFound m | AllocationNotAccepted m | AllocationReleased m
  | RollbackIncomplete m | SlurmVerificationError m | QFwAdapterError m
  | AuthenticationError m | HelperError m | ConfigurationError m
  | SlurmCommandError m | QPMInspectionError m | InspectionBootstrapError m | SystemExit m
  | PyError _ m => m
  | CancelledError => []
  end.

(** [except Exception] *)
Definition isa_Exception (e : exn) : bool :=
  match e with CancelledError | SystemExit _ => false | _ => true end.

(** [isinstance(error, C)] for the gateway's classes *)
Definition isa_ProtocolError (e : exn) : bool :=
  match e with ProtocolError _ => true | _ => false end.
Definition isa_JournalError (e : exn) : bool :=
  match e with
  | JournalError _ | RequestConflict _ | AllocationNotFound _
  | AllocationNotAccepted _ | AllocationReleased _ | RollbackIncomplete _ => true
  | _ => false
  end.
Definition isa_RequestConflict (e : exn) : bool :=
  match e with RequestConflict _ => true | _ => false end.
Definition isa_RollbackIncomplete (e : exn) : bool :=
  match e with RollbackIncomplete _ => true | _ => false end.
Definition isa_SlurmVerificationError (e : exn) : bool :=
  match e with SlurmVerificationError _ => true | _ => false end.
Definition isa_QFwAdapterError (e : exn) : bool :=
  match e with QFwAdapterError _ => true | _ => false end.

Abbreviation result := (res exn).

(** [str.encode]/[bytes.decode] failures *)
Definition unicode_error : exn := PyError UnicodeEncodeError (txt "surrogates not allowed").
Definition key_error : exn := PyError KeyError (txt "key").

(** ** Facts *)

Lemma str_leb_refl a : str_leb a a = true.
Proof. induction a as [|x a IH]; simpl; [done|]. by rewrite Z.eqb_refl. Qed.

Lemma str_leb_total a b : str_leb a b = true \/ str_leb b a = true.
Proof.
  revert b. induction a as [|x a IH]; intros [|y b]; simpl; auto.
  rewrite (Z.eqb_sym y x). destruct (Z.eqb_spec x y); [apply IH|].
  rewrite !Z.ltb_lt. lia.
Qed.

Lemma str_leb_trans a b c :
  str_leb a b = true -> str_leb b c = true -> str_leb a c = true.
Proof.
  revert b c. induction a as [|x a IH]; intros [|y b] [|z c]; simpl; auto; try done.
  destruct (Z.eqb_spec x y), (Z.eqb_spec y z), (Z.eqb_spec x z);
    rewrite ?Z.ltb_lt; subst; try lia; eauto.
Qed.

Lemma str_leb_antisym a b : str_leb a b = true -> str_leb b a = true -> a = b.
Proof.
  revert b. induction a as [|x a IH]; intros [|y b]; simpl; try done.
  rewrite (Z.eqb_sym y x). destruct (Z.eqb_spec x y) as [->|].
  - intros. f_equal. by apply IH.
  - rewrite !Z.ltb_lt. lia.
Qed.

#[export] Hint Resolve str_leb_refl str_leb_total str_leb_antisym : gateway.

Lemma sorted_str_perm l : sorted_str l ≡ₚ l.
Proof. apply sort_by_perm. Qed.

Lemma elem_of_sorted_str x l : x ∈ sorted_str l <-> x ∈ l.
Proof. apply elem_of_sort_by. Qed.

Lemma sorted_str_unique l1 l2 : l1 ≡ₚ l2 -> sorted_str l1 = sorted_str l2.
Proof.
  apply sort_by_unique.
  - apply str_leb_total.
  - apply str_leb_trans.
  - intros. by apply str_leb_antisym.
Qed.

Lemma b2z_range b : 0 <= b2z b < 256.
Proof. unfold b2z. pose proof (Byte.to_N_bounded b). lia. Qed.

Lemma z2b_b2z b : z2b (b2z b) = b.
Proof.
  unfold z2b. rewrite Z.mod_small by apply b2z_range. unfold b2z.
  by rewrite N2Z.id, Byte.of_to_N.
Qed.

Lemma b2z_z2b z : b2z (z2b z) = z mod 256.
Proof.
  unfold z2b, b2z. pose proof (Z.mod_pos_bound z 256).
  destruct (Byte.of_N (Z.to_N (z mod 256))) as [b|] eqn:E.
  - apply Byte.to_of_N in E. rewrite E. lia.
  - apply Byte.of_N_None_iff in E. lia.
Qed.

Lemma b2z_z2b_small z : 0 <= z < 256 -> b2z (z2b z) = z.
Proof. intros. rewrite b2z_z2b. by apply Z.mod_small. Qed.

#[export] Instance b2z_inj : Inj (=) (=) b2z.
Proof. intros a b H. by rewrite <-(z2b_b2z a), H, z2b_b2z. Qed.

(** *** Decimal round trip *)
Section decimal.
Context {ucd : UnicodeData}.

Lemma parse_uint_str b u :
  (b = true \/ u <> Nil) -> parse_uint b (uint_str u) = Some u.
Proof.
  revert b. induction u; intros b Hb; simpl;
    [by destruct Hb as [->|]|..]; rewrite IHu by auto; done.
Qed.

Lemma uint_str_spaces u : lstrip (uint_str u) = uint_str u.
Proof. by destruct u. Qed.

Lemma uint_str_decimal u : forallb is_decimal_char (uint_str u) = true.
Proof. by induction u. Qed.

Lemma strip_no_space s : Forall (fun c => is_space c = false) s -> strip s = s.
Proof.
  assert (forall s, Forall (fun c => is_space c = false) s -> lstrip s = s) as Hl.
  { intros [|c s'] H; [done|]. inversion H; subst. simpl.
    by replace (is_space c) with false. }
  intros H. unfold strip. rewrite (Hl s) by done.
  rewrite Hl by by rewrite Forall_reverse. apply reverse_involutive.
Qed.

Lemma uint_str_no_space u : Forall (fun c => is_space c = false) (uint_str u).
Proof. induction u; simpl; constructor; auto. Qed.

Lemma to_int_not_nil z u :
  Z.to_int z = Pos u \/ Z.to_int z = Neg u -> u <> Nil.
Proof.
  intros H ->. destruct H as [H|H];
    pose proof (f_equal Z.of_int H) as H'; rewrite DecimalZ.of_to in H';
    simpl in H'; subst; discriminate H.
Qed.

(** [int(str(z)) == z] *)
Lemma int_of_str_of_Z z : int_of_str (str_of_Z z) = Some z.
Proof.
  unfold int_of_str, str_of_Z. destruct (Z.to_int z) as [u|u] eqn:E.
  - rewrite strip_no_space by apply uint_str_no_space.
    pose proof (parse_uint_str false u (or_intror (to_int_not_nil z u (or_introl E)))) as Hp.
    assert (Z.of_int (Pos u) = z) as Hz by (rewrite <-E; apply DecimalZ.of_to).
    destruct u; rewrite ?Hp; simpl in Hp |- *; rewrite ?Hp; simpl;
      try (by rewrite <-Hz); done.
  - rewrite strip_no_space by (constructor; [done|apply uint_str_no_space]).
    pose proof (parse_uint_str false u (or_intror (to_int_not_nil z u (or_intror E)))) as Hp.
    assert (Z.of_int (Neg u) = z) as Hz by (rewrite <-E; apply DecimalZ.of_to).
    simpl. rewrite Hp. simpl. by rewrite <-Hz.
Qed.
End decimal.

#[export] Instance str_of_Z_inj : Inj (=) (=) str_of_Z.
Proof.
  intros x y H. pose proof (int_of_str_of_Z (ucd := ascii_ucd) x) as Hx.
  rewrite H, int_of_str_of_Z in Hx. congruence.
Qed.

#[global] Arguments txt : simpl never.
#[global] Arguments z2b : simpl never.
#[global] Arguments str_of_Z : simpl never.
