(* ===== verification/Utf8.v ===== *)
(** * UTF-8, as [str.encode] and [bytes.decode] implement it

    The strict codec, the encoder with the [replace] handler and the decoder
    with the [ignore] handler (which drops the maximal ill-formed subsequence
    CPython drops), with their round trips and the effect of truncation. *)

From S2P Require Import Prelude Python.
Local Open Scope Z_scope.

(** ** Encoder *)

Definition is_surrogate (c : Z) : bool := (55296 <=? c) && (c <? 57344).

(** One code point; [None] for a surrogate (or a value that is no code point). *)
Definition utf8_char (c : Z) : option bytes :=
  if c <? 0 then None
  else if c <? 128 then Some [z2b c]
  else if c <? 2048 then Some [z2b (192 + c / 64); z2b (128 + c mod 64)]
  else if is_surrogate c then None
  else if c <? 65536 then
    Some [z2b (224 + c / 4096); z2b (128 + c / 64 mod 64); z2b (128 + c mod 64)]
  else if c <? 1114112 then
    Some [z2b (240 + c / 262144); z2b (128 + c / 4096 mod 64);
          z2b (128 + c / 64 mod 64); z2b (128 + c mod 64)]
  else None.

(** [s.encode("utf-8")]; [None] for [UnicodeEncodeError] *)
Fixpoint utf8_encode (s : str) : option bytes :=
  match s with
  | [] => Some []
  | c :: s => b ← utf8_char c; bs ← utf8_encode s; Some (b ++ bs)
  end.

(** What the [replace] handler makes of a string before it is encoded. *)
Definition utf8_sanitize (s : str) : str :=
  map (fun c => if utf8_char c is Some _ then c else 63) s.

(** [s.encode("utf-8", "replace")] *)
Definition utf8_encode_replace (s : str) : bytes :=
  s ≫= fun c => default [z2b 63] (utf8_char c).

(** ** Decoder *)

Definition is_cont (b : byte) : bool := (128 <=? b2z b) && (b2z b <? 192).

(** One decoding step on a nonempty input: a code point, or an ill-formed
    subsequence; with the rest of the input. *)
Inductive utf8_item :=
| UChar (c : Z) (rest : bytes)
| UBad (rest : bytes).

(** Bounds of the second byte after the lead byte [x]. *)
Definition second_ok (x : Z) (b : byte) : bool :=
  is_cont b &&
  (if x =? 224 then 160 <=? b2z b
   else if x =? 237 then b2z b <? 160
   else if x =? 240 then 144 <=? b2z b
   else if x =? 244 then b2z b <? 144
   else true).

Definition utf8_step (b1 : byte) (r : bytes) : utf8_item :=
  let x := b2z b1 in
  if x <? 128 then UChar x r
  else if x <? 194 then UBad r
  else if 245 <=? x then UBad r
  else
    match r with
    | [] => UBad []
    | b2 :: r2 =>
        if negb (second_ok x b2) then UBad r
        else if x <? 224 then UChar ((x - 192) * 64 + (b2z b2 - 128)) r2
        else
          match r2 with
          | [] => UBad []
          | b3 :: r3 =>
              if negb (is_cont b3) then UBad r2
              else if x <? 240 then
                UChar ((x - 224) * 4096 + (b2z b2 - 128) * 64 + (b2z b3 - 128)) r3
              else
                match r3 with
                | [] => UBad []
                | b4 :: r4 =>
                    if negb (is_cont b4) then UBad r3
                    else UChar ((x - 240) * 262144 + (b2z b2 - 128) * 4096
                                + (b2z b3 - 128) * 64 + (b2z b4 - 128)) r4
                end
          end
    end.

(** Every step consumes at least one byte, so [length bs] is enough fuel. *)
Fixpoint utf8_decode_go (ignore : bool) (fuel : nat) (bs : bytes) : option str :=
  match bs, fuel with
  | [], _ => Some []
  | _, O => None
  | b :: r, S n =>
      match utf8_step b r with
      | UChar c rest => s ← utf8_decode_go ignore n rest; Some (c :: s)
      | UBad rest => if ignore then utf8_decode_go ignore n rest else None
      end
  end.

(** [bs.decode("utf-8")]; [None] for [UnicodeDecodeError] *)
Definition utf8_decode (bs : bytes) : option str :=
  utf8_decode_go false (length bs) bs.

(** [bs.decode("utf-8", "ignore")] *)
Definition utf8_decode_ignore (bs : bytes) : str :=
  default [] (utf8_decode_go true (length bs) bs).

(** ** Facts *)

Definition item_rest (i : utf8_item) : bytes :=
  match i with UChar _ r | UBad r => r end.

Lemma utf8_step_shrinks b r : (length (item_rest (utf8_step b r)) <= length r)%nat.
Proof. unfold utf8_step. repeat case_match; simpl; lia. Qed.

Lemma utf8_decode_go_more ignore n m bs :
  (length bs <= n)%nat -> (n <= m)%nat ->
  utf8_decode_go ignore m bs = utf8_decode_go ignore n bs.
Proof.
  revert m bs. induction n as [|n IH]; intros m [|b r] Hn Hm; simpl in *; try lia;
    [by destruct m..|].
  destruct m as [|m]; [lia|]. simpl.
  pose proof (utf8_step_shrinks b r) as Hs.
  destruct (utf8_step b r) as [c rest|rest]; simpl in Hs.
  - by rewrite (IH m rest) by lia.
  - destruct ignore; [|done]. apply IH; lia.
Qed.

(** The fuel is enough: the [ignore] decoder always produces a string. *)
Lemma utf8_decode_ignore_total n bs :
  (length bs <= n)%nat -> is_Some (utf8_decode_go true n bs).
Proof.
  revert bs. induction n as [|n IH]; intros [|b r] Hn; simpl in *; try lia; eauto.
  pose proof (utf8_step_shrinks b r) as Hs.
  destruct (utf8_step b r) as [c rest|rest]; simpl in Hs.
  - destruct (IH rest) as [s ->]; [lia|]. simpl. eauto.
  - apply IH. lia.
Qed.

(** Unfolding equations of the decoders, without fuel. *)
Lemma utf8_decode_cons b r :
  utf8_decode (b :: r) =
  match utf8_step b r with
  | UChar c rest => s ← utf8_decode rest; Some (c :: s)
  | UBad _ => None
  end.
Proof.
  unfold utf8_decode. simpl. pose proof (utf8_step_shrinks b r) as Hs.
  destruct (utf8_step b r) as [c rest|rest]; simpl in Hs; [|done].
  by rewrite (utf8_decode_go_more false (length rest) (length r)) by lia.
Qed.

Lemma utf8_decode_ignore_cons b r :
  utf8_decode_ignore (b :: r) =
  match utf8_step b r with
  | UChar c rest => c :: utf8_decode_ignore rest
  | UBad rest => utf8_decode_ignore rest
  end.
Proof.
  unfold utf8_decode_ignore. simpl. pose proof (utf8_step_shrinks b r) as Hs.
  destruct (utf8_step b r) as [c rest|rest]; simpl in Hs;
    rewrite (utf8_decode_go_more true (length rest) (length r)) by lia; [|done].
  destruct (utf8_decode_ignore_total (length rest) rest) as [s ->]; done.
Qed.

Ltac zdiv := intros; Z.to_euclidean_division_equations; lia.

Lemma is_cont_z2b y : 128 <= y < 192 -> is_cont (z2b y) = true.
Proof. intros. unfold is_cont. rewrite b2z_z2b_small by lia. lia. Qed.

Lemma second_ok_z2b x y :
  128 <= y < 192 -> (x = 224 -> 160 <= y) -> (x = 237 -> y < 160) ->
  (x = 240 -> 144 <= y) -> (x = 244 -> y < 144) ->
  second_ok x (z2b y) = true.
Proof.
  intros. unfold second_ok. rewrite is_cont_z2b, b2z_z2b_small by lia.
  simpl. repeat case_match; lia.
Qed.

Lemma utf8_step_1 x r : 0 <= x < 128 -> utf8_step (z2b x) r = UChar x r.
Proof.
  intros. unfold utf8_step. rewrite b2z_z2b_small by lia.
  by rewrite (proj2 (Z.ltb_lt x 128)) by lia.
Qed.

Lemma utf8_step_lead x b2 r2 :
  194 <= x < 245 -> second_ok x b2 = true ->
  utf8_step (z2b x) (b2 :: r2) =
  if x <? 224 then UChar ((x - 192) * 64 + (b2z b2 - 128)) r2
  else
    match r2 with
    | [] => UBad []
    | b3 :: r3 =>
        if negb (is_cont b3) then UBad r2
        else if x <? 240 then
          UChar ((x - 224) * 4096 + (b2z b2 - 128) * 64 + (b2z b3 - 128)) r3
        else
          match r3 with
          | [] => UBad []
          | b4 :: r4 =>
              if negb (is_cont b4) then UBad r3
              else UChar ((x - 240) * 262144 + (b2z b2 - 128) * 4096
                          + (b2z b3 - 128) * 64 + (b2z b4 - 128)) r4
          end
    end.
Proof.
  intros Hx H2. unfold utf8_step. rewrite b2z_z2b_small by lia.
  rewrite (proj2 (Z.ltb_ge x 128)), (proj2 (Z.ltb_ge x 194)),
    (proj2 (Z.leb_gt 245 x)), H2 by lia. done.
Qed.

Lemma utf8_step_lead_nil x : 194 <= x < 245 -> utf8_step (z2b x) [] = UBad [].
Proof.
  intros Hx. unfold utf8_step. rewrite b2z_z2b_small by lia.
  by rewrite (proj2 (Z.ltb_ge x 128)), (proj2 (Z.ltb_ge x 194)),
    (proj2 (Z.leb_gt 245 x)) by lia.
Qed.

(** Decoding an encoded code point gives it back. *)
Lemma utf8_step_char c b bs r :
  utf8_char c = Some (b :: bs) -> utf8_step b (bs ++ r) = UChar c r.
Proof.
  unfold utf8_char, is_surrogate. intros H.
  destruct (Z.ltb_spec c 0); [done|]. destruct (Z.ltb_spec c 128).
  { injection H as <- <-. by apply utf8_step_1. }
  destruct (Z.ltb_spec c 2048).
  { injection H as <- <-. cbn [app].
    rewrite utf8_step_lead; [|zdiv|apply second_ok_z2b; zdiv].
    rewrite (proj2 (Z.ltb_lt _ 224)), b2z_z2b_small by zdiv. f_equal. zdiv. }
  destruct ((55296 <=? c) && (c <? 57344)) eqn:Es; [done|].
  assert (c < 55296 \/ 57344 <= c) by lia. clear Es.
  destruct (Z.ltb_spec c 65536).
  { injection H as <- <-. cbn [app].
    rewrite utf8_step_lead; [|zdiv|apply second_ok_z2b; zdiv].
    rewrite (proj2 (Z.ltb_ge _ 224)), is_cont_z2b, (proj2 (Z.ltb_lt _ 240)),
      !b2z_z2b_small by zdiv.
    cbn [negb]. f_equal. zdiv. }
  destruct (Z.ltb_spec c 1114112); [|done].
  injection H as <- <-. cbn [app].
  rewrite utf8_step_lead; [|zdiv|apply second_ok_z2b; zdiv].
  rewrite (proj2 (Z.ltb_ge _ 224)), !is_cont_z2b, (proj2 (Z.ltb_ge _ 240)),
    !b2z_z2b_small by zdiv.
  cbn [negb]. f_equal. zdiv.
Qed.

Lemma z2b_eq e b : e = b2z b -> z2b e = b.
Proof. intros ->. apply z2b_b2z. Qed.

Lemma is_cont_range b : is_cont b = true -> 128 <= b2z b < 192.
Proof. unfold is_cont. lia. Qed.

(** Decide the range tests of [utf8_char] and rebuild its bytes. *)
Ltac utf8_char_eq :=
  unfold utf8_char, is_surrogate;
  repeat match goal with
  | |- context [if ?t then _ else _] =>
      first [ replace t with false by (symmetry; zdiv)
            | replace t with true by (symmetry; zdiv) ]
  end; repeat f_equal; apply z2b_eq; zdiv.

(** Conversely a step that produces a code point consumed its encoding. *)
Lemma utf8_step_encode b r c rest :
  utf8_step b r = UChar c rest ->
  exists bs, utf8_char c = Some (b :: bs) /\ r = bs ++ rest.
Proof.
  intros H. unfold utf8_step in H. pose proof (b2z_range b) as Hb.
  destruct (Z.ltb_spec (b2z b) 128).
  { injection H as <- <-. exists []. split; [utf8_char_eq|done]. }
  destruct (Z.ltb_spec (b2z b) 194); [done|].
  destruct (Z.leb_spec 245 (b2z b)); [done|].
  destruct r as [|b2 r2]; [done|].
  destruct (second_ok (b2z b) b2) eqn:E2; [|done]; simpl in H.
  unfold second_ok in E2. apply andb_true_iff in E2 as [Hc2%is_cont_range E2].
  destruct (Z.ltb_spec (b2z b) 224).
  { injection H as <- <-. exists [b2]. split; [utf8_char_eq|done]. }
  destruct r2 as [|b3 r3]; [done|].
  destruct (is_cont b3) eqn:Hc3; [|done]; apply is_cont_range in Hc3; simpl in H.
  destruct (Z.ltb_spec (b2z b) 240).
  { injection H as <- <-. exists [b2; b3]. split; [|done].
    assert (b2z b = 224 -> 160 <= b2z b2) by (intros Hx; rewrite Hx in E2; simpl in E2; lia).
    assert (b2z b = 237 -> b2z b2 < 160) by (intros Hx; rewrite Hx in E2; simpl in E2; lia).
    clear E2. utf8_char_eq. }
  destruct r3 as [|b4 r4]; [done|].
  destruct (is_cont b4) eqn:Hc4; [|done]; apply is_cont_range in Hc4; simpl in H.
  injection H as <- <-. exists [b2; b3; b4]. split; [|done].
  assert (b2z b = 240 -> 144 <= b2z b2) by (intros Hx; rewrite Hx in E2; simpl in E2; lia).
  assert (b2z b = 244 -> b2z b2 < 144) by (intros Hx; rewrite Hx in E2; simpl in E2; lia).
  clear E2. utf8_char_eq.
Qed.

Lemma utf8_char_nonempty c b : utf8_char c = Some b -> exists x bs, b = x :: bs.
Proof. unfold utf8_char. intros H. repeat case_match; simplify_eq; eauto. Qed.

(** ** Round trips of the strict codec *)

Lemma utf8_decode_app_encode s bs r :
  utf8_encode s = Some bs ->
  utf8_decode (bs ++ r) = (s' ← utf8_decode r; Some (s ++ s')).
Proof.
  revert bs. induction s as [|c s IH]; intros bs H; simpl in H.
  - injection H as <-. simpl. by destruct (utf8_decode r).
  - apply bind_Some in H as (b & Hb & H). apply bind_Some in H as (bs' & Hs & [= <-]).
    destruct (utf8_char_nonempty c b Hb) as (x & bx & ->).
    rewrite <-app_assoc. simpl. rewrite utf8_decode_cons.
    rewrite (utf8_step_char c) by done. rewrite (IH bs' Hs).
    by destruct (utf8_decode r).
Qed.

Lemma utf8_decode_encode s bs : utf8_encode s = Some bs -> utf8_decode bs = Some s.
Proof.
  intros H. rewrite <-(app_nil_r bs), (utf8_decode_app_encode s) by done.
  simpl. by rewrite app_nil_r.
Qed.

Lemma utf8_encode_decode bs s : utf8_decode bs = Some s -> utf8_encode s = Some bs.
Proof.
  remember (length bs) as n eqn:Hn. revert bs s Hn.
  induction (lt_wf n) as [n _ IH]. intros [|b r] s Hn H; [by injection H as <-|].
  rewrite utf8_decode_cons in H.
  destruct (utf8_step b r) as [c rest|] eqn:E; [|done].
  apply bind_Some in H as (s' & Hs & [= <-]).
  destruct (utf8_step_encode b r c rest E) as (bs & Hc & ->). simpl in *.
  rewrite Hc. simpl. rewrite (IH (length rest)) with (bs := rest); [done| |done|done].
  rewrite length_app in Hn. lia.
Qed.

#[export] Hint Resolve utf8_decode_encode utf8_encode_decode : gateway.

Lemma utf8_encode_app s1 s2 :
  utf8_encode (s1 ++ s2) =
  (b1 ← utf8_encode s1; b2 ← utf8_encode s2; Some (b1 ++ b2)).
Proof.
  induction s1 as [|c s1 IH]; simpl.
  - by destruct (utf8_encode s2).
  - rewrite IH. destruct (utf8_char c); simpl; [|done].
    destruct (utf8_encode s1); simpl; [|done].
    destruct (utf8_encode s2); simpl; [|done]. by rewrite <-app_assoc.
Qed.

Lemma utf8_encode_nil_inv s : utf8_encode s = Some [] -> s = [].
Proof. intros H%utf8_decode_encode. by injection H. Qed.

Lemma utf8_encode_inj s1 s2 bs :
  utf8_encode s1 = Some bs -> utf8_encode s2 = Some bs -> s1 = s2.
Proof. intros H1%utf8_decode_encode H2%utf8_decode_encode. congruence. Qed.

(** A NUL byte only comes from a NUL character. *)
Lemma utf8_char_nul c b : utf8_char c = Some b -> Byte.x00 ∈ b -> c = 0.
Proof.
  unfold utf8_char, is_surrogate. intros H Hin.
  assert (forall e, Byte.x00 = z2b e -> 0 <= e < 256 -> e = 0) as Hz.
  { intros e He ?. apply (f_equal b2z) in He. rewrite b2z_z2b_small in He by done.
    by rewrite <-He. }
  repeat case_match; simplify_eq; repeat rewrite elem_of_cons in Hin;
    rewrite elem_of_nil in Hin; destruct_or?; try done;
    match goal with H : Byte.x00 = z2b _ |- _ => apply Hz in H; zdiv end.
Qed.

Lemma utf8_encode_nul s bs : utf8_encode s = Some bs -> Byte.x00 ∈ bs -> 0 ∈ s.
Proof.
  revert bs. induction s as [|c s IH]; simpl; intros bs H Hin.
  - injection H as <-. by apply elem_of_nil in Hin.
  - apply bind_Some in H as (b & Hb & H). apply bind_Some in H as (bs' & Hs & [= <-]).
    apply elem_of_app in Hin as [Hin|Hin].
    + rewrite (utf8_char_nul c b) by done. set_solver.
    + apply elem_of_cons. right. by eapply IH.
Qed.

(** ** The [replace] and [ignore] handlers *)

Lemma utf8_encode_replace_sanitize s :
  utf8_encode (utf8_sanitize s) = Some (utf8_encode_replace s).
Proof.
  induction s as [|c s IH]; [done|]. simpl.
  destruct (utf8_char c) as [b|] eqn:E.
  - by rewrite E, IH.
  - change (utf8_char 63) with (Some [z2b 63]). simpl in *. by rewrite IH.
Qed.

Lemma utf8_decode_ignore_app s bs r :
  utf8_encode s = Some bs ->
  utf8_decode_ignore (bs ++ r) = s ++ utf8_decode_ignore r.
Proof.
  revert bs. induction s as [|c s IH]; intros bs H; simpl in H.
  - by injection H as <-.
  - apply bind_Some in H as (b & Hb & H). apply bind_Some in H as (bs' & Hs & [= <-]).
    destruct (utf8_char_nonempty c b Hb) as (x & bx & ->).
    rewrite <-app_assoc. simpl. rewrite utf8_decode_ignore_cons.
    rewrite (utf8_step_char c) by done. by rewrite (IH bs' Hs).
Qed.

(** A proper prefix of one encoded code point decodes to nothing. *)
Lemma utf8_decode_ignore_partial c b m :
  utf8_char c = Some b -> (m < length b)%nat -> utf8_decode_ignore (take m b) = [].
Proof.
  intros H Hm. destruct m as [|m]; [by destruct b|].
  unfold utf8_char, is_surrogate in H.
  repeat case_match; simplify_eq; simpl in Hm;
    (destruct m as [|[|[|m]]]; try lia); cbn [take];
    rewrite utf8_decode_ignore_cons.
  all: try (rewrite utf8_step_lead_nil by zdiv; done).
  all: rewrite utf8_step_lead; [|zdiv|apply second_ok_z2b; zdiv].
  all: rewrite (proj2 (Z.ltb_ge _ 224)) by zdiv; try done.
  all: rewrite is_cont_z2b by zdiv; cbn [negb].
  all: by rewrite (proj2 (Z.ltb_ge _ 240)) by zdiv.
Qed.

(** Truncating an encoded string at [n] bytes and decoding with [ignore] gives
    its longest prefix that fits in [n] bytes. *)
Lemma utf8_ignore_take s bs n :
  utf8_encode s = Some bs ->
  exists k b, utf8_decode_ignore (take n bs) = take k s /\
    utf8_encode (take k s) = Some b /\ (length b <= n)%nat /\
    forall b', (k < length s)%nat -> utf8_encode (take (S k) s) = Some b' ->
      (n < length b')%nat.
Proof.
  revert bs n. induction s as [|c s IH]; intros bs n H; simpl in H.
  - injection H as <-. exists O, []. rewrite take_nil. simpl.
    split_and!; [done..|simpl; lia|simpl; lia].
  - apply bind_Some in H as (b & Hb & H). apply bind_Some in H as (bs' & Hs & [= <-]).
    destruct (decide (n < length b)%nat) as [Hn|Hn].
    + exists O, []. rewrite take_app_le by lia.
      rewrite (utf8_decode_ignore_partial c) by done. simpl.
      split_and!; [done..|simpl; lia|]. intros b' _. rewrite Hb. simpl. intros [= <-].
      rewrite length_app. lia.
    + destruct (IH bs' (n - length b)%nat Hs) as (k & b1 & E & Hk & Hl & Hmax).
      exists (S k), (b ++ b1). rewrite take_app_ge by lia.
      rewrite (utf8_decode_ignore_app [c]) by (simpl; rewrite Hb; simpl; by rewrite app_nil_r).
      rewrite E. simpl. rewrite Hb, Hk. simpl.
      split_and!; [done..|rewrite length_app; lia|].
      intros b' Hlt Hb'. apply bind_Some in Hb' as (b2 & Hb2 & [= <-]).
      pose proof (Hmax b2 ltac:(lia) Hb2). rewrite length_app. lia.
Qed.
