(* ===== verification/Struct.v ===== *)
(** * Network-order integers ([struct.pack]/[unpack] with ["!"]) *)

From S2P Require Import Prelude Python.
Local Open Scope Z_scope.

(** [n] bytes, most significant first. *)
Fixpoint be_encode (n : nat) (z : Z) : bytes :=
  match n with
  | O => []
  | S n => be_encode n (z / 256) ++ [z2b z]
  end.

Fixpoint be_decode_acc (acc : Z) (l : bytes) : Z :=
  match l with
  | [] => acc
  | b :: l => be_decode_acc (acc * 256 + b2z b) l
  end.

Definition be_decode (l : bytes) : Z := be_decode_acc 0 l.

(** Bytes [off .. off + len) of a frame. *)
Definition slice (off len : nat) (l : bytes) : bytes := take len (drop off l).

Lemma be_encode_length n z : length (be_encode n z) = n.
Proof.
  revert z. induction n as [|n IH]; intros z; simpl; [done|].
  rewrite length_app, IH. simpl. lia.
Qed.

Lemma be_decode_acc_app acc l1 l2 :
  be_decode_acc acc (l1 ++ l2) = be_decode_acc (be_decode_acc acc l1) l2.
Proof. revert acc. induction l1; simpl; auto. Qed.

Lemma be_decode_snoc l b : be_decode (l ++ [b]) = be_decode l * 256 + b2z b.
Proof. unfold be_decode. by rewrite be_decode_acc_app. Qed.

Lemma be_decode_encode n z : be_decode (be_encode n z) = z mod 256 ^ Z.of_nat n.
Proof.
  revert z. induction n as [|n IH]; intros z; simpl.
  - by rewrite Z.mod_1_r.
  - rewrite be_decode_snoc, IH, b2z_z2b.
    replace (Z.of_nat (S n)) with (1 + Z.of_nat n) by lia.
    rewrite Z.pow_add_r, Z.pow_1_r by lia.
    rewrite (Z.rem_mul_r z 256) by lia. lia.
Qed.

Lemma be_decode_encode_small n z :
  0 <= z < 256 ^ Z.of_nat n -> be_decode (be_encode n z) = z.
Proof. intros. rewrite be_decode_encode. by apply Z.mod_small. Qed.

Lemma be_decode_u16_encode z : 0 <= z < 2 ^ 16 -> be_decode (be_encode 2 z) = z.
Proof. apply (be_decode_encode_small 2). Qed.
Lemma be_decode_u32_encode z : 0 <= z < 2 ^ 32 -> be_decode (be_encode 4 z) = z.
Proof. apply (be_decode_encode_small 4). Qed.
Lemma be_decode_u64_encode z : 0 <= z < 2 ^ 64 -> be_decode (be_encode 8 z) = z.
Proof. apply (be_decode_encode_small 8). Qed.

Lemma be_decode_range l : 0 <= be_decode l < 256 ^ Z.of_nat (length l).
Proof.
  induction l as [|b l IH] using rev_ind; [done|].
  rewrite be_decode_snoc, length_app. simpl.
  replace (Z.of_nat (length l + 1)) with (1 + Z.of_nat (length l)) by lia.
  rewrite Z.pow_add_r, Z.pow_1_r by lia. pose proof (b2z_range b). lia.
Qed.

Lemma be_encode_decode l : be_encode (length l) (be_decode l) = l.
Proof.
  induction l as [|b l IH] using rev_ind; [done|].
  rewrite be_decode_snoc, length_app, Nat.add_comm. simpl.
  pose proof (b2z_range b).
  rewrite Z.div_add_l, (Z.div_small (b2z b)), Z.add_0_r, IH by lia. f_equal. f_equal.
  apply (inj b2z). rewrite b2z_z2b, Z.add_comm, Z.mod_add by lia. by apply Z.mod_small.
Qed.

Lemma be_decode_u32 l : length l = 4%nat -> 0 <= be_decode l < 2 ^ 32.
Proof. intros H. pose proof (be_decode_range l). by rewrite H in *. Qed.

Lemma be_decode_u64 l : length l = 8%nat -> 0 <= be_decode l < 2 ^ 64.
Proof. intros H. pose proof (be_decode_range l). by rewrite H in *. Qed.

Lemma be_encode_inj n x y :
  0 <= x < 256 ^ Z.of_nat n -> 0 <= y < 256 ^ Z.of_nat n ->
  be_encode n x = be_encode n y -> x = y.
Proof.
  intros Hx Hy H. by rewrite <-(be_decode_encode_small n x), H,
    be_decode_encode_small by done.
Qed.

#[export] Hint Rewrite be_encode_length : gateway.

#[global] Arguments be_encode : simpl never.
#[global] Arguments be_decode : simpl never.
#[global] Arguments slice : simpl never.
