(* ===== verification/Enums.v ===== *)
(** * Protocol constants and enumerations ([protocol.py], lines 11-112)

    Every [enum.IntEnum] is an inductive type in a module of its name, with
    the numeric code of each member; looking a code up ([MessageType(kind)])
    is [enum_of_code]. *)

From S2P Require Import Prelude Python.
Local Open Scope Z_scope.

Definition MAGIC : bytes := map z2b (txt "QSGP").
Definition VERSION_MAJOR : Z := 1.
Definition VERSION_MINOR : Z := 0.
Definition HEADER_SIZE : nat := 32.
Definition MAX_FRAME_SIZE : Z := 256 * 1024.
Definition MAX_CREDENTIAL_SIZE : Z := 512 * 1024.
Definition MAX_CLUSTER_NAME : Z := 128.
Definition MAX_SERVICE_ID : Z := 256.
Definition MAX_DIAGNOSTIC : Z := 4096.
Definition MAX_SERVICES : Z := 32.
Definition TLV_REQUIRED : Z := 1.

(** An [IntEnum]: its members in order, their codes and their names. *)
Class IntEnum (E : Type) := {
  enum_all : list E;
  enum_code : E -> Z;
  enum_name : E -> str;
  enum_lookup : forall e,
    head (filter (fun e' => enum_code e' = enum_code e) enum_all) = Some e;
}.

(** [E(code)]; [None] for [ValueError] *)
Definition enum_of_code {E} `{IntEnum E} (c : Z) : option E :=
  head (filter (fun e => enum_code e = c) enum_all).

Module MessageType.
Inductive t :=
| RESERVE_REQUEST | RELEASE_REQUEST | EVALUATE_REQUEST
| GET_RESERVATIONS_REQUEST | RESERVE_RESPONSE | RELEASE_RESPONSE
| EVALUATE_RESPONSE | GET_RESERVATIONS_RESPONSE | ERROR_RESPONSE.

Definition code (m : t) : Z :=
  match m with
  | RESERVE_REQUEST => 0x0001
  | RELEASE_REQUEST => 0x0002
  | EVALUATE_REQUEST => 0x0003
  | GET_RESERVATIONS_REQUEST => 0x0004
  | RESERVE_RESPONSE => 0x8001
  | RELEASE_RESPONSE => 0x8002
  | EVALUATE_RESPONSE => 0x8003
  | GET_RESERVATIONS_RESPONSE => 0x8004
  | ERROR_RESPONSE => 0x8FFF
  end.

Definition name (m : t) : str :=
  match m with
  | RESERVE_REQUEST => txt "RESERVE_REQUEST"
  | RELEASE_REQUEST => txt "RELEASE_REQUEST"
  | EVALUATE_REQUEST => txt "EVALUATE_REQUEST"
  | GET_RESERVATIONS_REQUEST => txt "GET_RESERVATIONS_REQUEST"
  | RESERVE_RESPONSE => txt "RESERVE_RESPONSE"
  | RELEASE_RESPONSE => txt "RELEASE_RESPONSE"
  | EVALUATE_RESPONSE => txt "EVALUATE_RESPONSE"
  | GET_RESERVATIONS_RESPONSE => txt "GET_RESERVATIONS_RESPONSE"
  | ERROR_RESPONSE => txt "ERROR_RESPONSE"
  end.

Definition all : list t :=
  [RESERVE_REQUEST; RELEASE_REQUEST; EVALUATE_REQUEST;
   GET_RESERVATIONS_REQUEST; RESERVE_RESPONSE; RELEASE_RESPONSE;
   EVALUATE_RESPONSE; GET_RESERVATIONS_RESPONSE; ERROR_RESPONSE].

#[global] Instance eq_dec : EqDecision t.
Proof. solve_decision. Defined.
#[global] Program Instance enum : IntEnum t :=
  {| enum_all := all; enum_code := code; enum_name := name |}.
Next Obligation. by intros []. Qed.
End MessageType.

Module Field.
Inductive t :=
| CLUSTER_NAME | CANONICAL_JOB_ID | HETERO_JOB_ID | HETERO_COMPONENT
| JOB_UID | JOB_GID | SERVICE_ID | WORKLOAD_KIND | WALLTIME_NS
| CIRCUIT_COUNT | MAX_QUBITS | MAX_DEPTH | MAX_SHOTS | MAX_ONE_Q_GATES
| MAX_TWO_Q_GATES | MAX_MEASUREMENTS | RESERVATION_ID | RELEASE_REASON
| ADMISSION_DECISION | REASON_CODE | RETRY_AFTER_NS | DIAGNOSTIC
| QPM_RUNTIME_ID | QPM_GENERATION | RESERVATION_STATE | REQUEST_ID
| SERVICE_REQUEST | ESTIMATED_START_NS | ESTIMATED_FINISH_NS
| GATEWAY_ERROR_CODE | SERVICE_RESULT | RELEASE_RESULT | OBSERVED_JOB_ID
| RESERVATION.

Definition code (f : t) : Z :=
  match f with
  | CLUSTER_NAME => 0x0001
  | CANONICAL_JOB_ID => 0x0002
  | HETERO_JOB_ID => 0x0003
  | HETERO_COMPONENT => 0x0004
  | JOB_UID => 0x0005
  | JOB_GID => 0x0006
  | SERVICE_ID => 0x0007
  | WORKLOAD_KIND => 0x0008
  | WALLTIME_NS => 0x0009
  | CIRCUIT_COUNT => 0x000A
  | MAX_QUBITS => 0x000B
  | MAX_DEPTH => 0x000C
  | MAX_SHOTS => 0x000D
  | MAX_ONE_Q_GATES => 0x000E
  | MAX_TWO_Q_GATES => 0x000F
  | MAX_MEASUREMENTS => 0x0010
  | RESERVATION_ID => 0x0011
  | RELEASE_REASON => 0x0012
  | ADMISSION_DECISION => 0x0013
  | REASON_CODE => 0x0014
  | RETRY_AFTER_NS => 0x0015
  | DIAGNOSTIC => 0x0016
  | QPM_RUNTIME_ID => 0x0017
  | QPM_GENERATION => 0x0018
  | RESERVATION_STATE => 0x0019
  | REQUEST_ID => 0x001A
  | SERVICE_REQUEST => 0x001B
  | ESTIMATED_START_NS => 0x001C
  | ESTIMATED_FINISH_NS => 0x001D
  | GATEWAY_ERROR_CODE => 0x001E
  | SERVICE_RESULT => 0x001F
  | RELEASE_RESULT => 0x0020
  | OBSERVED_JOB_ID => 0x0021
  | RESERVATION => 0x0022
  end.

Definition name (f : t) : str :=
  match f with
  | CLUSTER_NAME => txt "CLUSTER_NAME"
  | CANONICAL_JOB_ID => txt "CANONICAL_JOB_ID"
  | HETERO_JOB_ID => txt "HETERO_JOB_ID"
  | HETERO_COMPONENT => txt "HETERO_COMPONENT"
  | JOB_UID => txt "JOB_UID"
  | JOB_GID => txt "JOB_GID"
  | SERVICE_ID => txt "SERVICE_ID"
  | WORKLOAD_KIND => txt "WORKLOAD_KIND"
  | WALLTIME_NS => txt "WALLTIME_NS"
  | CIRCUIT_COUNT => txt "CIRCUIT_COUNT"
  | MAX_QUBITS => txt "MAX_QUBITS"
  | MAX_DEPTH => txt "MAX_DEPTH"
  | MAX_SHOTS => txt "MAX_SHOTS"
  | MAX_ONE_Q_GATES => txt "MAX_ONE_Q_GATES"
  | MAX_TWO_Q_GATES => txt "MAX_TWO_Q_GATES"
  | MAX_MEASUREMENTS => txt "MAX_MEASUREMENTS"
  | RESERVATION_ID => txt "RESERVATION_ID"
  | RELEASE_REASON => txt "RELEASE_REASON"
  | ADMISSION_DECISION => txt "ADMISSION_DECISION"
  | REASON_CODE => txt "REASON_CODE"
  | RETRY_AFTER_NS => txt "RETRY_AFTER_NS"
  | DIAGNOSTIC => txt "DIAGNOSTIC"
  | QPM_RUNTIME_ID => txt "QPM_RUNTIME_ID"
  | QPM_GENERATION => txt "QPM_GENERATION"
  | RESERVATION_STATE => txt "RESERVATION_STATE"
  | REQUEST_ID => txt "REQUEST_ID"
  | SERVICE_REQUEST => txt "SERVICE_REQUEST"
  | ESTIMATED_START_NS => txt "ESTIMATED_START_NS"
  | ESTIMATED_FINISH_NS => txt "ESTIMATED_FINISH_NS"
  | GATEWAY_ERROR_CODE => txt "GATEWAY_ERROR_CODE"
  | SERVICE_RESULT => txt "SERVICE_RESULT"
  | RELEASE_RESULT => txt "RELEASE_RESULT"
  | OBSERVED_JOB_ID => txt "OBSERVED_JOB_ID"
  | RESERVATION => txt "RESERVATION"
  end.

Definition all : list t :=
  [CLUSTER_NAME; CANONICAL_JOB_ID; HETERO_JOB_ID; HETERO_COMPONENT;
   JOB_UID; JOB_GID; SERVICE_ID; WORKLOAD_KIND; WALLTIME_NS; CIRCUIT_COUNT;
   MAX_QUBITS; MAX_DEPTH; MAX_SHOTS; MAX_ONE_Q_GATES; MAX_TWO_Q_GATES;
   MAX_MEASUREMENTS; RESERVATION_ID; RELEASE_REASON; ADMISSION_DECISION;
   REASON_CODE; RETRY_AFTER_NS; DIAGNOSTIC; QPM_RUNTIME_ID; QPM_GENERATION;
   RESERVATION_STATE; REQUEST_ID; SERVICE_REQUEST; ESTIMATED_START_NS;
   ESTIMATED_FINISH_NS; GATEWAY_ERROR_CODE; SERVICE_RESULT; RELEASE_RESULT;
   OBSERVED_JOB_ID; RESERVATION].

#[global] Instance eq_dec : EqDecision t.
Proof. solve_decision. Defined.
#[global] Program Instance enum : IntEnum t :=
  {| enum_all := all; enum_code := code; enum_name := name |}.
Next Obligation. by intros []. Qed.
#[global] Program Instance countable : Countable t :=
  inj_countable code enum_of_code _.
Next Obligation. by intros []. Qed.
End Field.

Module WorkloadKind.
Inductive t := QUANTUM | HYBRID.

Definition code (k : t) : Z := match k with QUANTUM => 1 | HYBRID => 2 end.
Definition name (k : t) : str :=
  match k with QUANTUM => txt "QUANTUM" | HYBRID => txt "HYBRID" end.

#[global] Instance eq_dec : EqDecision t.
Proof. solve_decision. Defined.
#[global] Program Instance enum : IntEnum t :=
  {| enum_all := [QUANTUM; HYBRID]; enum_code := code; enum_name := name |}.
Next Obligation. by intros []. Qed.
End WorkloadKind.

Module AdmissionDecision.
Inductive t := ACCEPTED | DELAYED | REJECTED.

Definition code (d : t) : Z :=
  match d with ACCEPTED => 1 | DELAYED => 2 | REJECTED => 3 end.
Definition name (d : t) : str :=
  match d with
  | ACCEPTED => txt "ACCEPTED"
  | DELAYED => txt "DELAYED"
  | REJECTED => txt "REJECTED"
  end.

#[global] Instance eq_dec : EqDecision t.
Proof. solve_decision. Defined.
#[global] Program Instance enum : IntEnum t :=
  {| enum_all := [ACCEPTED; DELAYED; REJECTED];
     enum_code := code; enum_name := name |}.
Next Obligation. by intros []. Qed.
End AdmissionDecision.

Module ReservationState.
Inductive t :=
| RELEASED | ALREADY_TERMINAL | NOT_FOUND | STALE_RUNTIME
| AUTHORIZATION_FAILURE | QPM_FAILURE | GATEWAY_FAILURE.

Definition code (s : t) : Z :=
  match s with
  | RELEASED => 1
  | ALREADY_TERMINAL => 2
  | NOT_FOUND => 3
  | STALE_RUNTIME => 4
  | AUTHORIZATION_FAILURE => 5
  | QPM_FAILURE => 6
  | GATEWAY_FAILURE => 7
  end.
Definition name (s : t) : str :=
  match s with
  | RELEASED => txt "RELEASED"
  | ALREADY_TERMINAL => txt "ALREADY_TERMINAL"
  | NOT_FOUND => txt "NOT_FOUND"
  | STALE_RUNTIME => txt "STALE_RUNTIME"
  | AUTHORIZATION_FAILURE => txt "AUTHORIZATION_FAILURE"
  | QPM_FAILURE => txt "QPM_FAILURE"
  | GATEWAY_FAILURE => txt "GATEWAY_FAILURE"
  end.

#[global] Instance eq_dec : EqDecision t.
Proof. solve_decision. Defined.
#[global] Program Instance enum : IntEnum t :=
  {| enum_all := [RELEASED; ALREADY_TERMINAL; NOT_FOUND; STALE_RUNTIME;
       AUTHORIZATION_FAILURE; QPM_FAILURE; GATEWAY_FAILURE];
     enum_code := code; enum_name := name |}.
Next Obligation. by intros []. Qed.
End ReservationState.

Module GatewayError.
Inductive t :=
| INVALID_REQUEST | UNAUTHORIZED | DIRECTORY | QPM | TIMEOUT | INTERNAL
| REQUEST_CONFLICT | UNSUPPORTED_VERSION | ALLOCATION_NOT_FOUND
| ALLOCATION_NOT_ACCEPTED | ALLOCATION_RELEASED.

Definition code (e : t) : Z :=
  match e with
  | INVALID_REQUEST => 1
  | UNAUTHORIZED => 2
  | DIRECTORY => 3
  | QPM => 4
  | TIMEOUT => 5
  | INTERNAL => 6
  | REQUEST_CONFLICT => 7
  | UNSUPPORTED_VERSION => 8
  | ALLOCATION_NOT_FOUND => 9
  | ALLOCATION_NOT_ACCEPTED => 10
  | ALLOCATION_RELEASED => 11
  end.
Definition name (e : t) : str :=
  match e with
  | INVALID_REQUEST => txt "INVALID_REQUEST"
  | UNAUTHORIZED => txt "UNAUTHORIZED"
  | DIRECTORY => txt "DIRECTORY"
  | QPM => txt "QPM"
  | TIMEOUT => txt "TIMEOUT"
  | INTERNAL => txt "INTERNAL"
  | REQUEST_CONFLICT => txt "REQUEST_CONFLICT"
  | UNSUPPORTED_VERSION => txt "UNSUPPORTED_VERSION"
  | ALLOCATION_NOT_FOUND => txt "ALLOCATION_NOT_FOUND"
  | ALLOCATION_NOT_ACCEPTED => txt "ALLOCATION_NOT_ACCEPTED"
  | ALLOCATION_RELEASED => txt "ALLOCATION_RELEASED"
  end.

#[global] Instance eq_dec : EqDecision t.
Proof. solve_decision. Defined.
#[global] Program Instance enum : IntEnum t :=
  {| enum_all := [INVALID_REQUEST; UNAUTHORIZED; DIRECTORY; QPM; TIMEOUT;
       INTERNAL; REQUEST_CONFLICT; UNSUPPORTED_VERSION; ALLOCATION_NOT_FOUND;
       ALLOCATION_NOT_ACCEPTED; ALLOCATION_RELEASED];
     enum_code := code; enum_name := name |}.
Next Obligation. by intros []. Qed.
End GatewayError.

(** ** Facts *)

Lemma enum_of_code_code {E} `{IntEnum E} (e : E) : enum_of_code (enum_code e) = Some e.
Proof. apply enum_lookup. Qed.

Lemma enum_code_of_code {E} `{IntEnum E} c (e : E) :
  enum_of_code c = Some e -> enum_code e = c.
Proof.
  unfold enum_of_code. intros Hc.
  assert (e ∈ filter (fun e => enum_code e = c) enum_all) as Hin.
  { destruct (filter _ _); simplify_eq/=. set_solver. }
  by apply list_elem_of_filter in Hin as [? _].
Qed.

#[export] Hint Rewrite @enum_of_code_code : gateway.

Lemma field_code_range f : 0 <= Field.code f < 2 ^ 16.
Proof. destruct f; vm_compute; intuition congruence. Qed.

Lemma message_code_range m : 0 <= MessageType.code m < 2 ^ 16.
Proof. destruct m; vm_compute; intuition congruence. Qed.

#[export] Hint Resolve field_code_range message_code_range : gateway.
