(* ===== verification/Messages.v ===== *)
(** * QSGP messages ([protocol.py], lines 115-231)

    The frozen dataclasses of the protocol, one record per class in a module of
    its name. [EvaluateRequest] and [EvaluateResponse] are subclasses with the
    fields of [ReserveRequest] and [ReserveResponse]: the sums [request] and
    [response] carry the class. *)

From S2P Require Import Prelude Python Enums.
Local Open Scope Z_scope.

Module Header.
Record t := mk {
  message_type : MessageType.t;
  correlation_id : Z;
  payload_size : Z;
  major_version : Z;
  minor_version : Z;
}.
End Header.

Module Workload.
Record t := mk {
  kind : WorkloadKind.t;
  walltime_ns : Z;
  circuit_count : Z;
  max_qubits : Z;
  max_depth : Z;
  max_shots : Z;
  max_one_q_gates : option Z;
  max_two_q_gates : option Z;
  max_measurements : option Z;
}.
#[global] Instance eq_dec : EqDecision t.
Proof. solve_decision. Defined.
End Workload.

Module ReserveRequest.
Record t := mk {
  request_id : Z;
  cluster_name : str;
  canonical_job_id : Z;
  job_uid : Z;
  job_gid : Z;
  workload : option Workload.t;
  service_ids : list str;
  hetero_job_id : option Z;
  hetero_component : option Z;
}.
#[global] Instance eq_dec : EqDecision t.
Proof. solve_decision. Defined.
End ReserveRequest.

Module ServiceResult.
Record t := mk {
  service_id : str;
  decision : AdmissionDecision.t;
  reason_code : Z;
  reservation_id : option Z;
  retry_after_ns : option Z;
  estimated_start_ns : option Z;
  estimated_finish_ns : option Z;
  qpm_runtime_id : option str;
  qpm_generation : option Z;
  diagnostic : option str;
}.
#[global] Instance eq_dec : EqDecision t.
Proof. solve_decision. Defined.
End ServiceResult.

Module ReserveResponse.
Record t := mk {
  request_id : Z;
  decision : AdmissionDecision.t;
  results : list ServiceResult.t;
}.
#[global] Instance eq_dec : EqDecision t.
Proof. solve_decision. Defined.

(** [dataclasses.replace(response, request_id=rid)] *)
Definition with_request_id (r : t) (rid : Z) : t :=
  mk rid (decision r) (results r).
End ReserveResponse.

Module ReleaseRequest.
Record t := mk {
  request_id : Z;
  cluster_name : str;
  canonical_job_id : Z;
  reason : Z;
}.
#[global] Instance eq_dec : EqDecision t.
Proof. solve_decision. Defined.
End ReleaseRequest.

Module ReleaseResult.
Record t := mk {
  service_id : str;
  reservation_id : Z;
  state : ReservationState.t;
  gateway_error : option GatewayError.t;
  diagnostic : option str;
}.
#[global] Instance eq_dec : EqDecision t.
Proof. solve_decision. Defined.
End ReleaseResult.

Module ReleaseResponse.
Record t := mk {
  request_id : Z;
  results : list ReleaseResult.t;
}.
#[global] Instance eq_dec : EqDecision t.
Proof. solve_decision. Defined.
End ReleaseResponse.

Module GetReservationsRequest.
Record t := mk {
  request_id : Z;
  cluster_name : str;
  observed_job_id : Z;
  job_uid : Z;
  job_gid : Z;
}.
#[global] Instance eq_dec : EqDecision t.
Proof. solve_decision. Defined.
End GetReservationsRequest.

Module Reservation.
Record t := mk {
  service_id : str;
  reservation_id : Z;
}.
#[global] Instance eq_dec : EqDecision t.
Proof. solve_decision. Defined.
End Reservation.

Module GetReservationsResponse.
Record t := mk {
  request_id : Z;
  canonical_job_id : Z;
  reservations : list Reservation.t;
}.
#[global] Instance eq_dec : EqDecision t.
Proof. solve_decision. Defined.
End GetReservationsResponse.

Module ErrorResponse.
Record t := mk {
  error_code : GatewayError.t;
  request_id : option Z;
  diagnostic : option str;
}.
#[global] Instance eq_dec : EqDecision t.
Proof. solve_decision. Defined.
End ErrorResponse.

(** A decoded request, by class. *)
Inductive request :=
| EvaluateRequest (r : ReserveRequest.t)
| ReserveRequest (r : ReserveRequest.t)
| ReleaseRequest (r : ReleaseRequest.t)
| GetReservationsRequest (r : GetReservationsRequest.t).

(** A response of the gateway, by class. *)
Inductive response :=
| EvaluateResponse (r : ReserveResponse.t)
| ReserveResponse (r : ReserveResponse.t)
| ReleaseResponse (r : ReleaseResponse.t)
| GetReservationsResponse (r : GetReservationsResponse.t)
| ErrorResponse (r : ErrorResponse.t).

#[export] Instance request_eq_dec : EqDecision request.
Proof. solve_decision. Defined.
#[export] Instance response_eq_dec : EqDecision response.
Proof. solve_decision. Defined.
