(* ===== verification/Wire.v ===== *)
(** * QSGP frames and TLVs ([protocol.py], lines 233-386)

    Bounded integers and strings, the TLV encoder, the 32-byte frame header,
    the TLV reader and the scalar decoders. [_tlvs] is a generator: the model
    is its [next] function [_tlvs_next] on the unread rest of the payload
    ([payload[offset:]]), and [_collect] drives it one item at a time, so that
    the exceptions of the two interleave as they do in the code. *)

From S2P Require Import Prelude Python Utf8 Struct Enums Messages.
Local Open Scope Z_scope.

Definition bounded_diagnostic (value : str) : str :=
  let encoded := utf8_encode_replace value in
  if Z.of_nat (length encoded) <=? MAX_DIAGNOSTIC then
    default [] (utf8_decode encoded)
  else utf8_decode_ignore (take (Z.to_nat MAX_DIAGNOSTIC) encoded).

(** The type test of [_uint] holds for every [Z]. *)
Definition _uint (value bits : Z) (label : str) (nonzero : bool) : result Z :=
  if (value <? 0) || (2 ^ bits <=? value) || (nonzero && (value =? 0)) then
    Raise (ProtocolError (label ++ txt " is outside uint" ++ str_of_Z bits))
  else Ok value.

Definition _string (value : str) (maximum : Z) (label : str) : result bytes :=
  if bool_decide (value = []) then
    Raise (ProtocolError (label ++ txt " must be a nonempty string"))
  else
    match utf8_encode value with
    | None => Raise unicode_error
    | Some encoded =>
        if (maximum <? Z.of_nat (length encoded))
           || bool_decide (Byte.x00 ∈ encoded) then
          Raise (ProtocolError (label ++ txt " exceeds its wire bound"))
        else Ok encoded
    end.

Definition TLV_HEADER_size : nat := 8.

(** [(-n) % 4] *)
Definition padding (n : nat) : nat := Z.to_nat ((- Z.of_nat n) mod 4).

Definition _tlv (field : Field.t) (value : bytes) : bytes :=
  be_encode 2 (enum_code field) ++ be_encode 2 TLV_REQUIRED
  ++ be_encode 4 (Z.of_nat (length value))
  ++ value ++ replicate (padding (length value)) Byte.x00.

Definition _u32 (field : Field.t) (value : Z) : result bytes :=
  v ← _uint value 32 (enum_name field) false;
  Ok (_tlv field (be_encode 4 v)).

Definition _u64 (field : Field.t) (value : Z) : result bytes :=
  v ← _uint value 64 (enum_name field) false;
  Ok (_tlv field (be_encode 8 v)).

Definition _text (field : Field.t) (value : str) (maximum : Z) : result bytes :=
  v ← _string value maximum (enum_name field);
  Ok (_tlv field v).

(** [f(x) if x is not None else b""] *)
Definition if_some {A} (f : A -> result bytes) (o : option A) : result bytes :=
  match o with Some a => f a | None => Ok [] end.

(** [b"".join((...))]: the parts are evaluated left to right. *)
Definition bjoin (parts : list (result bytes)) : result bytes :=
  bs ← mapR id parts; Ok (concat bs).

Definition _frame (message_type : MessageType.t) (correlation_id : Z)
    (payload : bytes) : result bytes :=
  _ ← _uint correlation_id 64 (txt "correlation_id") true;
  _ ← raise_if (MAX_FRAME_SIZE - Z.of_nat HEADER_SIZE <? Z.of_nat (length payload))
        (ProtocolError (txt "QSGP payload is too large"));
  Ok (MAGIC ++ be_encode 2 VERSION_MAJOR ++ be_encode 2 VERSION_MINOR
      ++ be_encode 2 (enum_code message_type) ++ be_encode 2 0
      ++ be_encode 4 (Z.of_nat HEADER_SIZE) ++ be_encode 8 correlation_id
      ++ be_encode 4 (Z.of_nat (length payload)) ++ be_encode 4 0 ++ payload).

(** [HEADER.unpack_from(frame)]: magic, major, minor, kind, flags, header
    size, correlation, size, reserved *)
Definition unpack_header (frame : bytes) :=
  let u off len := be_decode (slice off len frame) in
  (slice 0 4 frame, u 4 2, u 6 2, u 8 2, u 10 2, u 12 4, u 16 8, u 24 4, u 28 4)%nat.

Definition decode_header (frame : bytes) : result Header.t :=
  _ ← raise_if (negb ((Z.of_nat HEADER_SIZE <=? Z.of_nat (length frame))
                      && (Z.of_nat (length frame) <=? MAX_FRAME_SIZE)))
        (ProtocolError (txt "QSGP frame size is invalid"));
  let '(magic, major, minor, kind, flags, header_size, correlation, size, reserved) :=
    unpack_header frame in
  _ ← raise_if (negb (bool_decide (magic = MAGIC)))
        (ProtocolError (txt "QSGP magic is invalid"));
  _ ← raise_if (negb (major =? VERSION_MAJOR) || (VERSION_MINOR <? minor))
        (ProtocolError (txt "QSGP version is unsupported"));
  _ ← raise_if (negb (flags =? 0) || negb (header_size =? Z.of_nat HEADER_SIZE)
                || negb (reserved =? 0))
        (ProtocolError (txt "QSGP header contains unsupported fields"));
  _ ← _uint correlation 64 (txt "correlation_id") true;
  _ ← raise_if (negb (size =? Z.of_nat (length frame) - Z.of_nat HEADER_SIZE))
        (ProtocolError (txt "QSGP payload size does not match the frame"));
  match enum_of_code kind with
  | None => Raise (ProtocolError (txt "QSGP message type is unsupported"))
  | Some message_type =>
      Ok (Header.mk message_type correlation size major minor)
  end.

(** [frame[HEADER_SIZE:]] *)
Definition payload_of (frame : bytes) : bytes := drop HEADER_SIZE frame.

(** One step of the generator: [None] when the payload is exhausted, else the
    yielded field, flags and value and the rest of the payload, or the
    exception the generator raises. *)
Definition _tlvs_next (payload : bytes)
    : option (result (option Field.t * Z * bytes * bytes)) :=
  if bool_decide (payload = []) then None
  else Some (
    _ ← raise_if (length payload <? TLV_HEADER_size)%nat
          (ProtocolError (txt "truncated QSGP TLV header"));
    let raw_type := be_decode (slice 0 2 payload) in
    let flags := be_decode (slice 2 2 payload) in
    let length_ := Z.to_nat (be_decode (slice 4 4 payload)) in
    let rest := drop TLV_HEADER_size payload in
    _ ← raise_if (negb (Z.land flags (Z.lnot TLV_REQUIRED) =? 0))
          (ProtocolError (txt "QSGP TLV flags are unsupported"));
    let padded := (length_ + padding length_)%nat in
    _ ← raise_if (length rest <? padded)%nat
          (ProtocolError (txt "truncated QSGP TLV value"));
    _ ← raise_if (existsb (fun b => negb (bool_decide (b = Byte.x00)))
                    (slice length_ (padding length_) rest))
          (ProtocolError (txt "QSGP TLV padding must be zero"));
    match enum_of_code raw_type with
    | Some field => Ok (Some field, flags, take length_ rest, drop padded rest)
    | None =>
        if negb (Z.land flags TLV_REQUIRED =? 0) then
          Raise (ProtocolError (txt "unknown required QSGP field"))
        else Ok (None, flags, take length_ rest, drop padded rest)
    end).

Abbreviation scalars := (gmap Field.t bytes).
Abbreviation groups := (gmap Field.t (list bytes)).

Definition _one (values : scalars) (field : Field.t) : result bytes :=
  match values !! field with
  | None => Raise (ProtocolError (txt "missing required field " ++ enum_name field))
  | Some value => Ok value
  end.

(** [values[field]] *)
Definition getitem (values : scalars) (field : Field.t) : result bytes :=
  match values !! field with Some v => Ok v | None => Raise key_error end.

(** [groups[field]] *)
Definition getgroup (g : groups) (field : Field.t) : result (list bytes) :=
  match g !! field with Some v => Ok v | None => Raise key_error end.

(** The body of the loop of [_collect] for one item. *)
Definition collect_item (repeated : gset Field.t) (field : option Field.t)
    (value : bytes) (acc : scalars * groups) : result (scalars * groups) :=
  let '(scalar, grps) := acc in
  match field with
  | None => Ok acc
  | Some field =>
      if bool_decide (field ∈ repeated) then
        g ← getgroup grps field;
        Ok (scalar, <[field := g ++ [value]]> grps)
      else if bool_decide (is_Some (scalar !! field)) then
        Raise (ProtocolError (txt "duplicate scalar field " ++ enum_name field))
      else Ok (<[field := value]> scalar, grps)
  end.

(** Every item takes at least [TLV_HEADER_size] bytes, so a fuel above the
    length of the payload is enough. *)
Fixpoint collect_go (fuel : nat) (payload : bytes) (repeated : gset Field.t)
    (acc : scalars * groups) : result (scalars * groups) :=
  match _tlvs_next payload with
  | None => Ok acc
  | Some item =>
      match fuel with
      | O => Raise (PyError RuntimeError (txt "fuel"))
      | S fuel =>
          '(field, _, value, rest) ← item;
          acc ← collect_item repeated field value acc;
          collect_go fuel rest repeated acc
      end
  end.

Definition _collect (payload : bytes) (repeated : gset Field.t)
    : result (scalars * groups) :=
  collect_go (length payload) payload repeated (∅, gset_to_gmap [] repeated).

Definition _decode_u32 (value : bytes) (label : str) : result Z :=
  if negb (length value =? 4)%nat then
    Raise (ProtocolError (label ++ txt " must contain uint32"))
  else Ok (be_decode value).

Definition _decode_u64 (value : bytes) (label : str) : result Z :=
  if negb (length value =? 8)%nat then
    Raise (ProtocolError (label ++ txt " must contain uint64"))
  else Ok (be_decode value).

Definition _decode_text (value : bytes) (maximum : Z) (label : str) : result str :=
  if bool_decide (value = []) || (maximum <? Z.of_nat (length value))
     || bool_decide (Byte.x00 ∈ value) then
    Raise (ProtocolError (label ++ txt " is not a valid bounded string"))
  else
    match utf8_decode value with
    | None => Raise (ProtocolError (label ++ txt " is not UTF-8"))
    | Some s => Ok s
    end.

#[global] Arguments padding : simpl never.
#[global] Arguments _tlv : simpl never.
