(* ===== verification/Codec.v ===== *)
(** * Message codecs ([protocol.py], lines 389-1002)

    One definition per encoder, decoder and validator of the protocol module.
    The classes of the code's records are Rocq types, so the run-time checks
    [WorkloadKind(workload.kind)], [AdmissionDecision(item.decision)],
    [ReservationState(item.state)] and [GatewayError(...)] of the encoders,
    which test that an enumeration field holds a member, hold by typing. *)

From S2P Require Import Prelude Python Utf8 Struct Enums Messages Wire.
Import Enums.Field.
Local Open Scope Z_scope.

(** Two strings of the list are equal ([len(set(l)) != len(l)]). *)
Definition has_dup (l : list str) : bool := negb (bool_decide (NoDup l)).

(** [not 0 < n <= MAX_SERVICES] *)
Definition bad_count {A} (l : list A) : bool :=
  negb ((0 <? Z.of_nat (length l)) && (Z.of_nat (length l) <=? MAX_SERVICES)).

(** ** Validation of admission requests *)

Definition _validate_workload (w : Workload.t) : result unit :=
  _ ← _uint (Workload.walltime_ns w) 64 (txt "walltime_ns") true;
  _ ← _uint (Workload.circuit_count w) 64 (txt "circuit_count") true;
  _ ← _uint (Workload.max_qubits w) 32 (txt "max_qubits") true;
  _ ← _uint (Workload.max_depth w) 64 (txt "max_depth") true;
  _ ← _uint (Workload.max_shots w) 64 (txt "max_shots") true;
  let opt o label :=
    match o with
    | Some v => _ ← _uint v 64 label false; Ok tt
    | None => Ok tt
    end in
  _ ← opt (Workload.max_one_q_gates w) (txt "max_one_q_gates");
  _ ← opt (Workload.max_two_q_gates w) (txt "max_two_q_gates");
  opt (Workload.max_measurements w) (txt "max_measurements").

Definition _validate_reserve_request (r : ReserveRequest.t) : result unit :=
  _ ← _uint (ReserveRequest.request_id r) 64 (txt "request_id") true;
  _ ← _uint (ReserveRequest.canonical_job_id r) 64 (txt "canonical_job_id") true;
  _ ← _uint (ReserveRequest.job_uid r) 32 (txt "job_uid") false;
  _ ← _uint (ReserveRequest.job_gid r) 32 (txt "job_gid") false;
  _ ← _string (ReserveRequest.cluster_name r) MAX_CLUSTER_NAME (txt "cluster_name");
  _ ← raise_if (bad_count (ReserveRequest.service_ids r))
        (ProtocolError (txt "reserve request service count is invalid"));
  _ ← raise_if (has_dup (ReserveRequest.service_ids r))
        (ProtocolError (txt "reserve request service set is invalid"));
  _ ← iterR (fun s => _ ← _string s MAX_SERVICE_ID (txt "service_id"); Ok tt)
        (ReserveRequest.service_ids r);
  _ ← match ReserveRequest.hetero_job_id r, ReserveRequest.hetero_component r with
      | Some h, Some c =>
          _ ← _uint h 64 (txt "hetero_job_id") true;
          _ ← _uint c 32 (txt "hetero_component") false;
          Ok tt
      | None, None => Ok tt
      | _, _ =>
          Raise (ProtocolError (txt "heterogeneous allocation fields are incomplete"))
      end;
  match ReserveRequest.workload r with
  | None => Ok tt
  | Some w => _validate_workload w
  end.

(** ** Admission requests *)

Definition _encode_admission_request (r : ReserveRequest.t) (correlation_id : Z)
    (message_type : MessageType.t) : result bytes :=
  _ ← _validate_reserve_request r;
  let of_workload (f : Workload.t -> result bytes) :=
    if_some f (ReserveRequest.workload r) in
  payload ← bjoin [
    _u64 REQUEST_ID (ReserveRequest.request_id r);
    _text CLUSTER_NAME (ReserveRequest.cluster_name r) MAX_CLUSTER_NAME;
    _u64 CANONICAL_JOB_ID (ReserveRequest.canonical_job_id r);
    if_some (_u64 HETERO_JOB_ID) (ReserveRequest.hetero_job_id r);
    if_some (_u32 HETERO_COMPONENT) (ReserveRequest.hetero_component r);
    _u32 JOB_UID (ReserveRequest.job_uid r);
    _u32 JOB_GID (ReserveRequest.job_gid r);
    of_workload (fun w => _u32 WORKLOAD_KIND (enum_code (Workload.kind w)));
    of_workload (fun w => _u64 WALLTIME_NS (Workload.walltime_ns w));
    of_workload (fun w => _u64 CIRCUIT_COUNT (Workload.circuit_count w));
    of_workload (fun w => _u32 MAX_QUBITS (Workload.max_qubits w));
    of_workload (fun w => _u64 MAX_DEPTH (Workload.max_depth w));
    of_workload (fun w => _u64 MAX_SHOTS (Workload.max_shots w));
    of_workload (fun w => if_some (_u64 MAX_ONE_Q_GATES) (Workload.max_one_q_gates w));
    of_workload (fun w => if_some (_u64 MAX_TWO_Q_GATES) (Workload.max_two_q_gates w));
    of_workload (fun w => if_some (_u64 MAX_MEASUREMENTS) (Workload.max_measurements w))];
  services ← bjoin (map (fun s =>
    nested ← _text SERVICE_ID s MAX_SERVICE_ID;
    Ok (_tlv SERVICE_REQUEST nested)) (ReserveRequest.service_ids r));
  _frame message_type correlation_id (payload ++ services).

Definition encode_reserve_request (r : ReserveRequest.t) (correlation_id : Z)
    : result bytes :=
  _ ← raise_if (bool_decide (ReserveRequest.workload r = None))
        (ProtocolError (txt "reserve request requires a workload envelope"));
  _encode_admission_request r correlation_id MessageType.RESERVE_REQUEST.

Definition encode_evaluate_request (r : ReserveRequest.t) (correlation_id : Z)
    : result bytes :=
  _ ← raise_if (bool_decide (ReserveRequest.workload r = None))
        (ProtocolError (txt "evaluate request requires a workload envelope"));
  _encode_admission_request r correlation_id MessageType.EVALUATE_REQUEST.

Definition _decode_service_request (payload : bytes) : result str :=
  '(values, repeated) ← _collect payload ∅;
  _ ← raise_if (negb (bool_decide (repeated = ∅))
                || negb (bool_decide (dom values = {[SERVICE_ID]})))
        (ProtocolError (txt "service request contains invalid fields"));
  v ← getitem values SERVICE_ID;
  _decode_text v MAX_SERVICE_ID (txt "service_id").

(** [_decode_u64(values[f], label) if f in values else None] *)
Definition opt_u64 (values : scalars) (f : Field.t) (label : str)
    : result (option Z) :=
  match values !! f with
  | Some v => z ← _decode_u64 v label; Ok (Some z)
  | None => Ok None
  end.

Definition opt_u32 (values : scalars) (f : Field.t) (label : str)
    : result (option Z) :=
  match values !! f with
  | Some v => z ← _decode_u32 v label; Ok (Some z)
  | None => Ok None
  end.

(** [_decode_u64(values[f], label)] *)
Definition item_u64 (values : scalars) (f : Field.t) (label : str) : result Z :=
  v ← getitem values f; _decode_u64 v label.
Definition item_u32 (values : scalars) (f : Field.t) (label : str) : result Z :=
  v ← getitem values f; _decode_u32 v label.
Definition item_text (values : scalars) (f : Field.t) (maximum : Z) (label : str)
    : result str :=
  v ← getitem values f; _decode_text v maximum label.

Definition _decode_workload (values : scalars) : result Workload.t :=
  code ← item_u32 values WORKLOAD_KIND (txt "workload_kind");
  kind ← match enum_of_code code with
         | Some k => Ok k
         | None => Raise (ProtocolError (txt "workload kind is invalid"))
         end;
  walltime_ns ← item_u64 values WALLTIME_NS (txt "walltime_ns");
  circuit_count ← item_u64 values CIRCUIT_COUNT (txt "circuit_count");
  max_qubits ← item_u32 values MAX_QUBITS (txt "max_qubits");
  max_depth ← item_u64 values MAX_DEPTH (txt "max_depth");
  max_shots ← item_u64 values MAX_SHOTS (txt "max_shots");
  one_q ← opt_u64 values MAX_ONE_Q_GATES (txt "max_one_q_gates");
  two_q ← opt_u64 values MAX_TWO_Q_GATES (txt "max_two_q_gates");
  measurements ← opt_u64 values MAX_MEASUREMENTS (txt "max_measurements");
  Ok (Workload.mk kind walltime_ns circuit_count max_qubits max_depth max_shots
        one_q two_q measurements).

Definition admission_fields : gset Field.t :=
  {[REQUEST_ID; CLUSTER_NAME; CANONICAL_JOB_ID; HETERO_JOB_ID; HETERO_COMPONENT;
    JOB_UID; JOB_GID; WORKLOAD_KIND; WALLTIME_NS; CIRCUIT_COUNT; MAX_QUBITS;
    MAX_DEPTH; MAX_SHOTS; MAX_ONE_Q_GATES; MAX_TWO_Q_GATES; MAX_MEASUREMENTS]}.

Definition workload_fields : gset Field.t :=
  {[WORKLOAD_KIND; WALLTIME_NS; CIRCUIT_COUNT; MAX_QUBITS; MAX_DEPTH; MAX_SHOTS]}.

Definition _decode_admission_request (frame : bytes) (message_type : MessageType.t)
    : result (Header.t * ReserveRequest.t) :=
  header ← decode_header frame;
  _ ← raise_if (negb (bool_decide (Header.message_type header = message_type)))
        (ProtocolError (txt "unexpected admission request type"));
  '(values, repeated) ← _collect (payload_of frame) {[SERVICE_REQUEST]};
  _ ← raise_if (negb (bool_decide (dom values ∖ admission_fields = ∅)))
        (ProtocolError (txt "reserve request contains invalid fields"));
  items ← getgroup repeated SERVICE_REQUEST;
  services ← mapR _decode_service_request items;
  _ ← raise_if (bad_count services || has_dup services)
        (ProtocolError (txt "reserve request service set is invalid"));
  let present := workload_fields ∩ dom values in
  _ ← raise_if (negb (bool_decide (present = ∅))
                && negb (bool_decide (present = workload_fields)))
        (ProtocolError (txt "workload envelope is incomplete"));
  _ ← raise_if (bool_decide (present = ∅)
                && existsb (fun f => bool_decide (is_Some (values !! f)))
                     [MAX_ONE_Q_GATES; MAX_TWO_Q_GATES; MAX_MEASUREMENTS])
        (ProtocolError (txt "optional workload fields lack an envelope"));
  workload ← (if bool_decide (present = ∅) then Ok None
              else w ← _decode_workload values; Ok (Some w));
  v ← _one values REQUEST_ID;
  request_id ← _decode_u64 v (txt "request_id");
  v ← _one values CLUSTER_NAME;
  cluster_name ← _decode_text v MAX_CLUSTER_NAME (txt "cluster_name");
  v ← _one values CANONICAL_JOB_ID;
  canonical_job_id ← _decode_u64 v (txt "canonical_job_id");
  v ← _one values JOB_UID;
  job_uid ← _decode_u32 v (txt "job_uid");
  v ← _one values JOB_GID;
  job_gid ← _decode_u32 v (txt "job_gid");
  hetero_job_id ← opt_u64 values HETERO_JOB_ID (txt "hetero_job_id");
  hetero_component ← opt_u32 values HETERO_COMPONENT (txt "hetero_component");
  let request := ReserveRequest.mk request_id cluster_name canonical_job_id
    job_uid job_gid workload services hetero_job_id hetero_component in
  _ ← _validate_reserve_request request;
  Ok (header, request).

Definition decode_reserve_request (frame : bytes)
    : result (Header.t * ReserveRequest.t) :=
  '(header, request) ← _decode_admission_request frame MessageType.RESERVE_REQUEST;
  _ ← raise_if (bool_decide (ReserveRequest.workload request = None))
        (ProtocolError (txt "reserve request requires a workload envelope"));
  Ok (header, request).

Definition decode_evaluate_request (frame : bytes)
    : result (Header.t * ReserveRequest.t) :=
  '(header, request) ← _decode_admission_request frame MessageType.EVALUATE_REQUEST;
  _ ← raise_if (bool_decide (ReserveRequest.workload request = None))
        (ProtocolError (txt "evaluate request requires a workload envelope"));
  Ok (header, request).

(** ** Release and lookup requests *)

Definition encode_release_request (r : ReleaseRequest.t) (correlation_id : Z)
    : result bytes :=
  _ ← _uint (ReleaseRequest.request_id r) 64 (txt "request_id") true;
  _ ← _string (ReleaseRequest.cluster_name r) MAX_CLUSTER_NAME (txt "cluster_name");
  _ ← _uint (ReleaseRequest.canonical_job_id r) 64 (txt "canonical_job_id") true;
  _ ← _uint (ReleaseRequest.reason r) 32 (txt "release_reason") false;
  payload ← bjoin [
    _u64 REQUEST_ID (ReleaseRequest.request_id r);
    _text CLUSTER_NAME (ReleaseRequest.cluster_name r) MAX_CLUSTER_NAME;
    _u64 CANONICAL_JOB_ID (ReleaseRequest.canonical_job_id r);
    _u32 RELEASE_REASON (ReleaseRequest.reason r)];
  _frame MessageType.RELEASE_REQUEST correlation_id payload.

Definition decode_release_request (frame : bytes)
    : result (Header.t * ReleaseRequest.t) :=
  header ← decode_header frame;
  _ ← raise_if (negb (bool_decide (Header.message_type header = MessageType.RELEASE_REQUEST)))
        (ProtocolError (txt "expected release request"));
  '(values, repeated) ← _collect (payload_of frame) ∅;
  _ ← raise_if (negb (bool_decide (repeated = ∅))
                || negb (bool_decide (dom values =
                     {[REQUEST_ID; CLUSTER_NAME; CANONICAL_JOB_ID; RELEASE_REASON]})))
        (ProtocolError (txt "release request fields are invalid"));
  request_id ← item_u64 values REQUEST_ID (txt "request_id");
  cluster_name ← item_text values CLUSTER_NAME MAX_CLUSTER_NAME (txt "cluster_name");
  canonical_job_id ← item_u64 values CANONICAL_JOB_ID (txt "canonical_job_id");
  reason ← item_u32 values RELEASE_REASON (txt "release_reason");
  _ ← _uint request_id 64 (txt "request_id") true;
  _ ← _uint canonical_job_id 64 (txt "canonical_job_id") true;
  Ok (header, ReleaseRequest.mk request_id cluster_name canonical_job_id reason).

Definition encode_get_reservations_request (r : GetReservationsRequest.t)
    (correlation_id : Z) : result bytes :=
  _ ← _uint (GetReservationsRequest.request_id r) 64 (txt "request_id") true;
  _ ← _string (GetReservationsRequest.cluster_name r) MAX_CLUSTER_NAME (txt "cluster_name");
  _ ← _uint (GetReservationsRequest.observed_job_id r) 64 (txt "observed_job_id") true;
  _ ← _uint (GetReservationsRequest.job_uid r) 32 (txt "job_uid") false;
  _ ← _uint (GetReservationsRequest.job_gid r) 32 (txt "job_gid") false;
  payload ← bjoin [
    _u64 REQUEST_ID (GetReservationsRequest.request_id r);
    _text CLUSTER_NAME (GetReservationsRequest.cluster_name r) MAX_CLUSTER_NAME;
    _u64 OBSERVED_JOB_ID (GetReservationsRequest.observed_job_id r);
    _u32 JOB_UID (GetReservationsRequest.job_uid r);
    _u32 JOB_GID (GetReservationsRequest.job_gid r)];
  _frame MessageType.GET_RESERVATIONS_REQUEST correlation_id payload.

Definition decode_get_reservations_request (frame : bytes)
    : result (Header.t * GetReservationsRequest.t) :=
  header ← decode_header frame;
  _ ← raise_if (negb (bool_decide
        (Header.message_type header = MessageType.GET_RESERVATIONS_REQUEST)))
        (ProtocolError (txt "expected get-reservations request"));
  '(values, repeated) ← _collect (payload_of frame) ∅;
  _ ← raise_if (negb (bool_decide (repeated = ∅))
                || negb (bool_decide (dom values =
                     {[REQUEST_ID; CLUSTER_NAME; OBSERVED_JOB_ID; JOB_UID; JOB_GID]})))
        (ProtocolError (txt "get-reservations request fields are invalid"));
  request_id ← item_u64 values REQUEST_ID (txt "request_id");
  cluster_name ← item_text values CLUSTER_NAME MAX_CLUSTER_NAME (txt "cluster_name");
  observed_job_id ← item_u64 values OBSERVED_JOB_ID (txt "observed_job_id");
  job_uid ← item_u32 values JOB_UID (txt "job_uid");
  job_gid ← item_u32 values JOB_GID (txt "job_gid");
  _ ← _uint request_id 64 (txt "request_id") true;
  _ ← _uint observed_job_id 64 (txt "observed_job_id") true;
  Ok (header, GetReservationsRequest.mk request_id cluster_name observed_job_id
                job_uid job_gid).

(** ** Responses *)

Definition _encode_service_result (r : ServiceResult.t) (reserve : bool) : result bytes :=
  nested ← bjoin [
    _text SERVICE_ID (ServiceResult.service_id r) MAX_SERVICE_ID;
    _u32 ADMISSION_DECISION (enum_code (ServiceResult.decision r));
    _u64 REASON_CODE (ServiceResult.reason_code r);
    if_some (_u64 RESERVATION_ID) (ServiceResult.reservation_id r);
    if_some (_u64 RETRY_AFTER_NS) (ServiceResult.retry_after_ns r);
    if_some (_u64 ESTIMATED_START_NS) (ServiceResult.estimated_start_ns r);
    if_some (_u64 ESTIMATED_FINISH_NS) (ServiceResult.estimated_finish_ns r);
    if_some (fun s => _text QPM_RUNTIME_ID s MAX_SERVICE_ID) (ServiceResult.qpm_runtime_id r);
    if_some (_u64 QPM_GENERATION) (ServiceResult.qpm_generation r);
    if_some (fun s => _text DIAGNOSTIC s MAX_DIAGNOSTIC) (ServiceResult.diagnostic r)];
  _ ← (if reserve && bool_decide (ServiceResult.decision r = AdmissionDecision.ACCEPTED) then
         match ServiceResult.reservation_id r with
         | Some rid => _ ← _uint rid 64 (txt "reservation_id") true; Ok tt
         | None => Raise (ProtocolError (txt "reservation_id must be an unsigned integer"))
         end
       else raise_if (bool_decide (is_Some (ServiceResult.reservation_id r)))
              (ProtocolError (txt "result must not contain reservation_id")));
  Ok (_tlv SERVICE_RESULT nested).

Definition _validate_service_result (reserve : bool) (item : ServiceResult.t) : result unit :=
  _ ← _string (ServiceResult.service_id item) MAX_SERVICE_ID (txt "service_id");
  _ ← _uint (ServiceResult.reason_code item) 64 (txt "reason_code") false;
  _ ← match ServiceResult.reservation_id item with
      | Some rid => _ ← _uint rid 64 (txt "reservation_id") true; Ok tt
      | None => Ok tt
      end;
  _ ← raise_if (negb reserve && bool_decide (is_Some (ServiceResult.reservation_id item)))
        (ProtocolError (txt "evaluate result contains reservation_id"));
  _ ← match ServiceResult.qpm_generation item with
      | Some g => _ ← _uint g 64 (txt "qpm_generation") false; Ok tt
      | None => Ok tt
      end;
  _ ← match ServiceResult.qpm_runtime_id item with
      | Some s => _ ← _string s MAX_SERVICE_ID (txt "qpm_runtime_id"); Ok tt
      | None => Ok tt
      end;
  match ServiceResult.diagnostic item with
  | Some s => _ ← _string s MAX_DIAGNOSTIC (txt "diagnostic"); Ok tt
  | None => Ok tt
  end.

Definition _validate_admission_response (r : ReserveResponse.t) (reserve : bool)
    : result unit :=
  _ ← _uint (ReserveResponse.request_id r) 64 (txt "request_id") true;
  _ ← raise_if (bad_count (ReserveResponse.results r))
        (ProtocolError (txt "reserve response result count is invalid"));
  _ ← raise_if (has_dup (map ServiceResult.service_id (ReserveResponse.results r)))
        (ProtocolError (txt "reserve response contains duplicate services"));
  _ ← iterR (_validate_service_result reserve) (ReserveResponse.results r);
  let decisions := map ServiceResult.decision (ReserveResponse.results r) in
  let has d := bool_decide (d ∈ decisions) in
  let overall d := bool_decide (ReserveResponse.decision r = d) in
  _ ← raise_if (overall AdmissionDecision.ACCEPTED
                && negb (has AdmissionDecision.ACCEPTED
                         && negb (has AdmissionDecision.DELAYED)
                         && negb (has AdmissionDecision.REJECTED)))
        (ProtocolError (txt "accepted response contains non-accepted result"));
  _ ← raise_if (overall AdmissionDecision.REJECTED
                && negb (has AdmissionDecision.REJECTED))
        (ProtocolError (txt "rejected response lacks a rejected result"));
  raise_if (overall AdmissionDecision.DELAYED
            && (negb (has AdmissionDecision.DELAYED) || has AdmissionDecision.REJECTED))
    (ProtocolError (txt "delayed response has inconsistent results")).

Definition _encode_admission_response (r : ReserveResponse.t) (correlation_id : Z)
    (message_type : MessageType.t) (reserve : bool) : result bytes :=
  _ ← _validate_admission_response r reserve;
  payload ← bjoin ([
    _u64 REQUEST_ID (ReserveResponse.request_id r);
    _u32 ADMISSION_DECISION (enum_code (ReserveResponse.decision r))]
    ++ map (fun item => _encode_service_result item reserve) (ReserveResponse.results r));
  _frame message_type correlation_id payload.

Definition encode_reserve_response (r : ReserveResponse.t) (correlation_id : Z) : result bytes :=
  _encode_admission_response r correlation_id MessageType.RESERVE_RESPONSE true.

Definition encode_evaluate_response (r : ReserveResponse.t) (correlation_id : Z) : result bytes :=
  _encode_admission_response r correlation_id MessageType.EVALUATE_RESPONSE false.

Definition _encode_release_result (r : ReleaseResult.t) : result bytes :=
  nested ← bjoin [
    _text SERVICE_ID (ReleaseResult.service_id r) MAX_SERVICE_ID;
    _u64 RESERVATION_ID (ReleaseResult.reservation_id r);
    _u32 RESERVATION_STATE (enum_code (ReleaseResult.state r));
    if_some (fun e => _u32 GATEWAY_ERROR_CODE (enum_code e)) (ReleaseResult.gateway_error r);
    if_some (fun s => _text DIAGNOSTIC s MAX_DIAGNOSTIC) (ReleaseResult.diagnostic r)];
  Ok (_tlv RELEASE_RESULT nested).

Definition _validate_release_result (item : ReleaseResult.t) : result unit :=
  _ ← _string (ReleaseResult.service_id item) MAX_SERVICE_ID (txt "service_id");
  _ ← _uint (ReleaseResult.reservation_id item) 64 (txt "reservation_id") true;
  match ReleaseResult.diagnostic item with
  | Some s => _ ← _string s MAX_DIAGNOSTIC (txt "diagnostic"); Ok tt
  | None => Ok tt
  end.

Definition encode_release_response (r : ReleaseResponse.t) (correlation_id : Z) : result bytes :=
  _ ← _uint (ReleaseResponse.request_id r) 64 (txt "request_id") true;
  _ ← raise_if (MAX_SERVICES <? Z.of_nat (length (ReleaseResponse.results r)))
        (ProtocolError (txt "release response result count is invalid"));
  _ ← raise_if (has_dup (map ReleaseResult.service_id (ReleaseResponse.results r)))
        (ProtocolError (txt "release response contains duplicate services"));
  _ ← iterR _validate_release_result (ReleaseResponse.results r);
  payload ← bjoin (_u64 REQUEST_ID (ReleaseResponse.request_id r)
                   :: map _encode_release_result (ReleaseResponse.results r));
  _frame MessageType.RELEASE_RESPONSE correlation_id payload.

Definition _encode_reservation (r : Reservation.t) : result bytes :=
  _ ← _string (Reservation.service_id r) MAX_SERVICE_ID (txt "service_id");
  _ ← _uint (Reservation.reservation_id r) 64 (txt "reservation_id") true;
  nested ← bjoin [
    _text SERVICE_ID (Reservation.service_id r) MAX_SERVICE_ID;
    _u64 RESERVATION_ID (Reservation.reservation_id r)];
  Ok (_tlv RESERVATION nested).

Definition encode_get_reservations_response (r : GetReservationsResponse.t)
    (correlation_id : Z) : result bytes :=
  _ ← _uint (GetReservationsResponse.request_id r) 64 (txt "request_id") true;
  _ ← _uint (GetReservationsResponse.canonical_job_id r) 64 (txt "canonical_job_id") true;
  _ ← raise_if (bad_count (GetReservationsResponse.reservations r))
        (ProtocolError (txt "reservation response count is invalid"));
  _ ← raise_if (has_dup (map Reservation.service_id (GetReservationsResponse.reservations r)))
        (ProtocolError (txt "reservation response contains duplicate services"));
  payload ← bjoin ([
    _u64 REQUEST_ID (GetReservationsResponse.request_id r);
    _u64 CANONICAL_JOB_ID (GetReservationsResponse.canonical_job_id r)]
    ++ map _encode_reservation (GetReservationsResponse.reservations r));
  _frame MessageType.GET_RESERVATIONS_RESPONSE correlation_id payload.

Definition _decode_reservation (payload : bytes) : result Reservation.t :=
  '(values, repeated) ← _collect payload ∅;
  _ ← raise_if (negb (bool_decide (repeated = ∅))
                || negb (bool_decide (dom values = {[SERVICE_ID; RESERVATION_ID]})))
        (ProtocolError (txt "reservation tuple fields are invalid"));
  service_id ← item_text values SERVICE_ID MAX_SERVICE_ID (txt "service_id");
  reservation_id ← item_u64 values RESERVATION_ID (txt "reservation_id");
  _ ← _uint reservation_id 64 (txt "reservation_id") true;
  Ok (Reservation.mk service_id reservation_id).

Definition decode_get_reservations_response (frame : bytes)
    : result (Header.t * GetReservationsResponse.t) :=
  header ← decode_header frame;
  _ ← raise_if (negb (bool_decide
        (Header.message_type header = MessageType.GET_RESERVATIONS_RESPONSE)))
        (ProtocolError (txt "expected get-reservations response"));
  '(values, repeated) ← _collect (payload_of frame) {[RESERVATION]};
  _ ← raise_if (negb (bool_decide (dom values = {[REQUEST_ID; CANONICAL_JOB_ID]})))
        (ProtocolError (txt "get-reservations response fields are invalid"));
  items ← getgroup repeated RESERVATION;
  reservations ← mapR _decode_reservation items;
  _ ← raise_if (bad_count reservations)
        (ProtocolError (txt "reservation response count is invalid"));
  _ ← raise_if (has_dup (map Reservation.service_id reservations))
        (ProtocolError (txt "reservation response contains duplicate services"));
  request_id ← item_u64 values REQUEST_ID (txt "request_id");
  canonical_job_id ← item_u64 values CANONICAL_JOB_ID (txt "canonical_job_id");
  _ ← _uint request_id 64 (txt "request_id") true;
  _ ← _uint canonical_job_id 64 (txt "canonical_job_id") true;
  Ok (header, GetReservationsResponse.mk request_id canonical_job_id reservations).

Definition encode_error_response (r : ErrorResponse.t) (correlation_id : Z) : result bytes :=
  payload ← bjoin [
    if_some (_u64 REQUEST_ID) (ErrorResponse.request_id r);
    _u32 GATEWAY_ERROR_CODE (enum_code (ErrorResponse.error_code r));
    if_some (fun s => _text DIAGNOSTIC s MAX_DIAGNOSTIC) (ErrorResponse.diagnostic r)];
  _frame MessageType.ERROR_RESPONSE correlation_id payload.

(** ** Dispatch *)

Definition decode_request (frame : bytes) : result (Header.t * request) :=
  header ← decode_header frame;
  match Header.message_type header with
  | MessageType.EVALUATE_REQUEST =>
      '(h, r) ← decode_evaluate_request frame; Ok (h, EvaluateRequest r)
  | MessageType.RESERVE_REQUEST =>
      '(h, r) ← decode_reserve_request frame; Ok (h, ReserveRequest r)
  | MessageType.RELEASE_REQUEST =>
      '(h, r) ← decode_release_request frame; Ok (h, ReleaseRequest r)
  | MessageType.GET_RESERVATIONS_REQUEST =>
      '(h, r) ← decode_get_reservations_request frame; Ok (h, GetReservationsRequest r)
  | _ => Raise (ProtocolError (txt "gateway accepts only request message types"))
  end.

Definition encode_response (r : response) (correlation_id : Z) : result bytes :=
  match r with
  | EvaluateResponse r => encode_evaluate_response r correlation_id
  | ReserveResponse r => encode_reserve_response r correlation_id
  | ReleaseResponse r => encode_release_response r correlation_id
  | GetReservationsResponse r => encode_get_reservations_response r correlation_id
  | ErrorResponse r => encode_error_response r correlation_id
  end.
