(* ===== verification/WireFacts.v ===== *)
(** * Facts about frames and TLVs

    Bounds of the scalar encoders, the reader of a concatenation of encoded
    TLVs, the header round trip, and the absence of any exception other than
    [ProtocolError] in the readers. *)

From S2P Require Import Prelude Python Utf8 Struct Enums Messages Wire.
Local Open Scope Z_scope.

(** ** Scalars *)

Lemma uint_ok v bits label nz v' :
  _uint v bits label nz = Ok v' <->
  v' = v /\ 0 <= v < 2 ^ bits /\ (nz = true -> v <> 0).
Proof.
  unfold _uint. destruct (Z.ltb_spec v 0), (Z.leb_spec (2 ^ bits) v); simpl;
    try (split; [done|lia]).
  destruct nz, (Z.eqb_spec v 0); simpl; split; try done; try (intros; lia);
    try (by intros [= <-]); try (by intros (-> & _)).
Qed.

Lemma uint_intro v bits label nz :
  0 <= v < 2 ^ bits -> (nz = true -> v <> 0) -> _uint v bits label nz = Ok v.
Proof. intros. by apply uint_ok. Qed.

Lemma string_ok s maximum label b :
  _string s maximum label = Ok b <->
  s <> [] /\ utf8_encode s = Some b /\ Z.of_nat (length b) <= maximum /\ Byte.x00 ∉ b.
Proof.
  unfold _string. case_bool_decide as Hs; [naive_solver|].
  destruct (utf8_encode s) as [b'|]; [|naive_solver].
  destruct (Z.ltb_spec maximum (Z.of_nat (length b'))); simpl.
  - split; [done|]. intros (_ & [= ->] & ? & _). lia.
  - case_bool_decide; naive_solver.
Qed.

Lemma decode_text_string s maximum label label' b :
  _string s maximum label = Ok b -> _decode_text b maximum label' = Ok s.
Proof.
  intros H. apply string_ok in H as (Hs & He & Hl & Hn). unfold _decode_text.
  rewrite (utf8_decode_encode s b He).
  rewrite bool_decide_eq_false_2 by (intros ->; by apply Hs, utf8_encode_nil_inv).
  rewrite (proj2 (Z.ltb_ge _ _)) by done. by rewrite bool_decide_eq_false_2.
Qed.

Lemma decode_text_ok b maximum label s :
  _decode_text b maximum label = Ok s ->
  forall label', _string s maximum label' = Ok b.
Proof.
  unfold _decode_text. intros H label'.
  case_bool_decide as Hb; [done|].
  destruct (Z.ltb_spec maximum (Z.of_nat (length b))); [done|].
  case_bool_decide as Hn; [done|]. simpl in H.
  destruct (utf8_decode b) as [s'|] eqn:E; [|done]. injection H as ->.
  apply string_ok. split_and!; [|by apply utf8_encode_decode|done|done].
  intros ->. apply utf8_encode_decode in E. by injection E as <-.
Qed.

Lemma decode_u64_encode z label : 0 <= z < 2 ^ 64 -> _decode_u64 (be_encode 8 z) label = Ok z.
Proof.
  intros. unfold _decode_u64. rewrite be_encode_length. simpl.
  by rewrite be_decode_encode_small.
Qed.

Lemma decode_u32_encode z label : 0 <= z < 2 ^ 32 -> _decode_u32 (be_encode 4 z) label = Ok z.
Proof.
  intros. unfold _decode_u32. rewrite be_encode_length. simpl.
  by rewrite be_decode_encode_small.
Qed.

Lemma decode_u64_ok v label z : _decode_u64 v label = Ok z -> 0 <= z < 2 ^ 64.
Proof.
  unfold _decode_u64. destruct (Nat.eqb_spec (length v) 8); simpl; [|done].
  intros [= <-]. by apply be_decode_u64.
Qed.

Lemma decode_u32_ok v label z : _decode_u32 v label = Ok z -> 0 <= z < 2 ^ 32.
Proof.
  unfold _decode_u32. destruct (Nat.eqb_spec (length v) 4); simpl; [|done].
  intros [= <-]. by apply be_decode_u32.
Qed.

(** ** Encoded TLVs *)

(** A payload as the list of its (field, value) pairs. *)
Definition tlvs (l : list (Field.t * bytes)) : bytes :=
  l ≫= fun p => _tlv p.1 p.2.

Lemma tlvs_app l1 l2 : tlvs (l1 ++ l2) = tlvs l1 ++ tlvs l2.
Proof. apply bind_app. Qed.

Lemma padding_small n : (padding n < 4)%nat.
Proof. unfold padding. pose proof (Z.mod_pos_bound (- Z.of_nat n) 4). lia. Qed.

Lemma padding_aligned n : (Z.of_nat (n + padding n)) mod 4 = 0.
Proof.
  unfold padding. rewrite Nat2Z.inj_add, Z2Nat.id by (apply Z.mod_pos_bound; lia).
  Z.to_euclidean_division_equations; lia.
Qed.

Lemma tlv_length f v : length (_tlv f v) = (8 + length v + padding (length v))%nat.
Proof.
  unfold _tlv. rewrite !length_app, !be_encode_length, length_replicate. lia.
Qed.

(** Every TLV keeps the payload four-byte aligned. *)
Lemma tlv_aligned f v : Z.of_nat (length (_tlv f v)) mod 4 = 0.
Proof.
  rewrite tlv_length. pose proof (padding_aligned (length v)).
  Z.to_euclidean_division_equations; lia.
Qed.

Lemma slice_app_l off len l1 l2 :
  (off + len <= length l1)%nat -> slice off len (l1 ++ l2) = slice off len l1.
Proof.
  intros. unfold slice. rewrite drop_app_le, take_app_le; [done|rewrite length_drop; lia|lia].
Qed.

Lemma slice_app_r off len n l1 l2 :
  length l1 = n -> (n <= off)%nat -> slice off len (l1 ++ l2) = slice (off - n) len l2.
Proof. intros <- ?. unfold slice. by rewrite drop_app_ge by lia. Qed.

Lemma slice_all n l : length l = n -> slice 0 n l = l.
Proof. intros <-. unfold slice. rewrite drop_0. apply firstn_all. Qed.

Lemma slice_prefix n l1 l2 : length l1 = n -> slice 0 n (l1 ++ l2) = l1.
Proof. intros <-. unfold slice. by rewrite drop_0, take_app_length. Qed.

Lemma drop_prefix n (l1 l2 : bytes) : length l1 = n -> drop n (l1 ++ l2) = l2.
Proof. intros <-. apply drop_app_length. Qed.

(** Reduce the slices of a concatenation of fixed-width fields. *)
Ltac slices :=
  repeat match goal with
  | |- context [slice ?o ?l (?a ++ ?b)] =>
      first [ rewrite (slice_prefix l a b)
                by (by rewrite ?be_encode_length)
            | rewrite (slice_app_r o l (length a) a b)
                by (rewrite ?be_encode_length; simpl; lia);
              rewrite ?be_encode_length; simpl Nat.sub ]
  end.

Lemma existsb_zero n :
  existsb (fun b => negb (bool_decide (b = Byte.x00))) (replicate n Byte.x00) = false.
Proof. induction n; simpl; [done|]. by rewrite IHn. Qed.

(** The generator yields what [_tlv] wrote. *)
Lemma tlvs_next_tlv f v rest :
  Z.of_nat (length v) < 2 ^ 32 ->
  _tlvs_next (_tlv f v ++ rest) = Some (Ok (Some f, TLV_REQUIRED, v, rest)).
Proof.
  intros Hv. unfold _tlvs_next.
  assert (length (_tlv f v ++ rest) >= 8)%nat as Hlen
    by (rewrite length_app, tlv_length; lia).
  rewrite bool_decide_eq_false_2 by (intros E; rewrite E in Hlen; simpl in Hlen; lia).
  f_equal. rewrite raise_if_bind by (apply Nat.ltb_ge; unfold TLV_HEADER_size; lia).
  clear Hlen.
  set (r := v ++ replicate (padding (length v)) Byte.x00).
  assert (_tlv f v ++ rest = be_encode 2 (enum_code f) ++ be_encode 2 TLV_REQUIRED
      ++ be_encode 4 (Z.of_nat (length v)) ++ r ++ rest) as E.
  { unfold _tlv, r. by repeat rewrite <-app_assoc. }
  rewrite E. unfold TLV_HEADER_size.
  assert (drop 8 (be_encode 2 (enum_code f) ++ be_encode 2 TLV_REQUIRED
      ++ be_encode 4 (Z.of_nat (length v)) ++ r ++ rest) = r ++ rest) as ->.
  { rewrite !app_assoc. rewrite <-(app_assoc _ r rest), drop_prefix; [done|].
    by rewrite !length_app, !be_encode_length. }
  slices.
  assert (0 <= TLV_REQUIRED < 2 ^ 16) by done.
  rewrite be_decode_u32_encode, (be_decode_u16_encode TLV_REQUIRED) by lia.
  rewrite be_decode_u16_encode by apply field_code_range.
  rewrite Nat2Z.id, raise_if_bind by done. subst r.
  rewrite raise_if_bind
    by (apply Nat.ltb_ge; rewrite !length_app, length_replicate; lia).
  rewrite <-app_assoc, take_app_length, (slice_app_r _ _ (length v)), Nat.sub_diag by lia.
  rewrite slice_prefix by (by rewrite length_replicate).
  rewrite raise_if_bind by apply existsb_zero.
  rewrite app_assoc, drop_prefix by (by rewrite length_app, length_replicate).
  by rewrite enum_of_code_code.
Qed.

(** ** [_collect] *)

Definition item_rest_of (i : result (option Field.t * Z * bytes * bytes)) : bytes :=
  match i with Ok (_, _, _, rest) => rest | Raise _ => [] end.

Lemma tlvs_next_shrinks p i :
  _tlvs_next p = Some i -> (length (item_rest_of i) < length p)%nat.
Proof.
  unfold _tlvs_next. case_bool_decide as Hp; [done|]. intros [= <-].
  assert (0 < length p)%nat by (destruct p; simpl; [done|lia]).
  unfold mbind, res_mbind, res_bind, raise_if.
  repeat case_match; simpl; rewrite ?length_drop; unfold TLV_HEADER_size; lia.
Qed.

(** The fuel is enough: a larger one gives the same result. *)
Lemma collect_go_more n m p rep acc :
  (length p <= n)%nat -> (n <= m)%nat ->
  collect_go m p rep acc = collect_go n p rep acc.
Proof.
  revert m p acc. induction n as [|n IH]; intros m p acc Hn Hm.
  - destruct p; [|simpl in Hn; lia]. by destruct m.
  - destruct m as [|m]; [lia|]. simpl.
    destruct (_tlvs_next p) as [i|] eqn:E; [|done].
    pose proof (tlvs_next_shrinks p i E) as Hs.
    destruct i as [[[[f fl] v] rest]|]; simpl; [|done].
    destruct (collect_item rep f v acc); simpl; [|done].
    apply IH; simpl in Hs; lia.
Qed.

(** [_collect] on an unread payload and an accumulator, without fuel. *)
Definition collect_from (p : bytes) (rep : gset Field.t) (acc : scalars * groups) :=
  collect_go (length p) p rep acc.

Lemma collect_from_eq p rep acc :
  collect_from p rep acc =
  match _tlvs_next p with
  | None => Ok acc
  | Some item =>
      '(field, _, value, rest) ← item;
      acc ← collect_item rep field value acc;
      collect_from rest rep acc
  end.
Proof.
  unfold collect_from. destruct p as [|b p]; [done|].
  change (length (b :: p)) with (S (length p)). cbn [collect_go].
  destruct (_tlvs_next (b :: p)) as [i|] eqn:E; [|done].
  pose proof (tlvs_next_shrinks _ i E) as Hs.
  destruct i as [[[[f fl] v] rest]|]; simpl; [|done].
  destruct (collect_item rep f v acc); simpl; [|done].
  simpl in Hs. apply collect_go_more; lia.
Qed.

(** The fold of [collect_item] over decoded pairs. *)
Fixpoint collect_pairs (rep : gset Field.t) (l : list (Field.t * bytes))
    (acc : scalars * groups) : result (scalars * groups) :=
  match l with
  | [] => Ok acc
  | (f, v) :: l => acc ← collect_item rep (Some f) v acc; collect_pairs rep l acc
  end.

Definition fits (p : Field.t * bytes) : Prop := Z.of_nat (length p.2) < 2 ^ 32.

Lemma collect_from_tlvs rep l acc :
  Forall fits l -> collect_from (tlvs l) rep acc = collect_pairs rep l acc.
Proof.
  intros H. revert acc. induction H as [|[f v] l Hv _ IH]; intros acc; [done|].
  rewrite collect_from_eq. change (tlvs ((f, v) :: l)) with (_tlv f v ++ tlvs l).
  rewrite tlvs_next_tlv by done. simpl.
  destruct (collect_item rep (Some f) v acc) as [a|]; simpl; [|done]. apply IH.
Qed.

Lemma collect_tlvs rep l :
  Forall fits l ->
  _collect (tlvs l) rep = collect_pairs rep l (∅, gset_to_gmap [] rep).
Proof. apply collect_from_tlvs. Qed.

Lemma collect_pairs_app rep l1 l2 acc :
  collect_pairs rep (l1 ++ l2) acc =
  (acc ← collect_pairs rep l1 acc; collect_pairs rep l2 acc).
Proof.
  revert acc. induction l1 as [|[f v] l1 IH]; intros acc; [done|]. simpl.
  destruct (collect_item rep (Some f) v acc); simpl; [apply IH|done].
Qed.

(** A run of one repeated field only extends its group. *)
Lemma collect_pairs_repeated rep f vs scalar grps g :
  f ∈ rep -> grps !! f = Some g ->
  collect_pairs rep (map (pair f) vs) (scalar, grps) =
  Ok (scalar, <[f := g ++ vs]> grps).
Proof.
  intros Hf. revert grps g. induction vs as [|v vs IH]; intros grps g Hg; simpl.
  - by rewrite app_nil_r, insert_id.
  - rewrite bool_decide_eq_true_2 by done. unfold getgroup. rewrite Hg. simpl.
    unfold res_mbind. simpl. rewrite (IH _ (g ++ [v])) by apply lookup_insert_eq.
    by rewrite insert_insert_eq, <-app_assoc.
Qed.

(** ** Frames *)

(** The 32 bytes [HEADER.pack] writes. *)
Definition packed_header (mt : MessageType.t) (c size : Z) : bytes :=
  MAGIC ++ be_encode 2 VERSION_MAJOR ++ be_encode 2 VERSION_MINOR
  ++ be_encode 2 (enum_code mt) ++ be_encode 2 0
  ++ be_encode 4 (Z.of_nat HEADER_SIZE) ++ be_encode 8 c
  ++ be_encode 4 size ++ be_encode 4 0.

Lemma packed_header_length mt c size : length (packed_header mt c size) = HEADER_SIZE.
Proof. unfold packed_header. by rewrite !length_app, !be_encode_length. Qed.

Lemma unpack_packed_header mt c size p :
  0 <= c < 2 ^ 64 -> 0 <= size < 2 ^ 32 ->
  unpack_header (packed_header mt c size ++ p) =
  (MAGIC, VERSION_MAJOR, VERSION_MINOR, enum_code mt, 0, Z.of_nat HEADER_SIZE,
   c, size, 0).
Proof.
  intros Hc Hs. unfold unpack_header, packed_header.
  repeat rewrite <-app_assoc. slices.
  rewrite be_decode_u64_encode, (be_decode_u32_encode size) by done.
  rewrite (be_decode_u16_encode (enum_code mt)) by apply message_code_range.
  done.
Qed.

Lemma frame_inv mt c p f :
  _frame mt c p = Ok f <->
  f = packed_header mt c (Z.of_nat (length p)) ++ p /\
  0 < c < 2 ^ 64 /\
  Z.of_nat (length p) <= MAX_FRAME_SIZE - Z.of_nat HEADER_SIZE.
Proof.
  unfold _frame, packed_header. split.
  - intros H. inv_ok. apply uint_ok in E as (-> & Hc & Hnz).
    apply Z.ltb_ge in E0. specialize (Hnz eq_refl).
    split_and!; [by repeat rewrite <-app_assoc|lia..].
  - intros (-> & Hc & Hl). rewrite uint_intro by lia. simpl.
    unfold mbind, res_mbind. simpl.
    rewrite (proj2 (Z.ltb_ge _ _)) by done. simpl. by repeat rewrite <-app_assoc.
Qed.

(** Every frame the encoders build is within the bound, its header decodes to
    what was framed, and its payload is the one given. *)
Lemma frame_ok mt c p f :
  _frame mt c p = Ok f ->
  0 < c < 2 ^ 64 /\
  Z.of_nat (length f) = Z.of_nat HEADER_SIZE + Z.of_nat (length p) /\
  Z.of_nat (length f) <= MAX_FRAME_SIZE /\
  payload_of f = p /\
  decode_header f = Ok (Header.mk mt c (Z.of_nat (length p)) VERSION_MAJOR VERSION_MINOR).
Proof.
  intros (-> & Hc & Hl)%frame_inv.
  assert (MAX_FRAME_SIZE = 262144 /\ Z.of_nat HEADER_SIZE = 32) as [HM HH] by done.
  assert (Z.of_nat (length (packed_header mt c (Z.of_nat (length p)) ++ p))
          = 32 + Z.of_nat (length p)) as Hlen
    by (rewrite length_app, packed_header_length; unfold HEADER_SIZE; lia).
  split_and!; [lia..| |].
  - apply drop_prefix, packed_header_length.
  - unfold decode_header. rewrite raise_if_bind, unpack_packed_header by lia.
    rewrite raise_if_bind by by rewrite bool_decide_eq_true_2.
    rewrite !raise_if_bind by done. rewrite uint_intro, ok_bind by lia.
    rewrite raise_if_bind by (rewrite Hlen, HH; lia).
    by rewrite enum_of_code_code.
Qed.
