(* ===== verification/ReadLoop.v ===== *)
(** * The loop of the TLV reader ends

    [_collect] drives the generator [_tlvs] until the payload is read. The loop
    as the code runs it, without fuel, is the relation below. *)

From S2P Require Import Prelude Python Struct Enums Messages Wire WireFacts.
Local Open Scope Z_scope.

(** [reads p acc r n]: from the unread payload [p] the loop completes [n] turns
    and ends with [r]. *)
Inductive reads (repeated : gset Field.t) : bytes -> scalars * groups ->
    result (scalars * groups) -> nat -> Prop :=
| reads_end p acc : _tlvs_next p = None -> reads repeated p acc (Ok acc) 0
| reads_malformed p acc e :
    _tlvs_next p = Some (Raise e) -> reads repeated p acc (Raise e) 0
| reads_refused p acc field flags value rest e :
    _tlvs_next p = Some (Ok (field, flags, value, rest)) ->
    collect_item repeated field value acc = Raise e -> reads repeated p acc (Raise e) 0
| reads_item p acc field flags value rest acc' r n :
    _tlvs_next p = Some (Ok (field, flags, value, rest)) ->
    collect_item repeated field value acc = Ok acc' ->
    reads repeated rest acc' r n -> reads repeated p acc r (S n).

(** The relation is the run of a deterministic loop. *)
Lemma reads_functional repeated p acc r n :
  reads repeated p acc r n -> forall r' n', reads repeated p acc r' n' -> r = r' /\ n = n'.
Proof.
  induction 1 as [p acc E|p acc e E|p acc f fl v rest e E Ei|p acc f fl v rest acc' r n E Ei _ IH];
    intros r' n' H'; inversion H'; subst; try congruence; simplify_eq; try (split; congruence).
  match goal with H : collect_item _ _ _ _ = Ok ?a |- _ => assert (a = acc') as -> by congruence end.
  match goal with H : reads _ rest _ _ _ |- _ => by apply IH in H as [-> ->] end.
Qed.

(** An item takes its header and the padded value. *)
Lemma tlvs_next_consumes p field flags value rest :
  _tlvs_next p = Some (Ok (field, flags, value, rest)) ->
  (length rest + 8 + length value <= length p)%nat.
Proof.
  unfold _tlvs_next. case_bool_decide as Hp; [done|]. intros [= E]. unfold TLV_HEADER_size in E.
  apply bind_ok in E as (_ & H8%raise_if_ok%Nat.ltb_ge & E).
  apply bind_ok in E as (_ & _ & E). apply bind_ok in E as (_ & Hlen%raise_if_ok%Nat.ltb_ge & E).
  apply bind_ok in E as (_ & _ & E).
  assert (length (drop 8 p) = length p - 8)%nat as Hd by apply length_drop.
  set (n := Z.to_nat (be_decode (slice 4 4 p))) in *.
  assert (take n (drop 8 p) = value /\ drop (n + padding n) (drop 8 p) = rest) as [<- <-].
  { destruct (enum_of_code _); [by injection E|]. destruct (negb _); [done|by injection E]. }
  rewrite length_take, length_drop. lia.
Qed.

Lemma collect_reads fuel p repeated acc :
  (length p <= fuel)%nat ->
  exists n, reads repeated p acc (collect_go fuel p repeated acc) n /\ (8 * n <= length p)%nat.
Proof.
  revert p acc. induction fuel as [|fuel IH]; intros p acc Hf.
  - destruct p; [|simpl in Hf; lia]. exists 0%nat. split; [by apply reads_end|simpl; lia].
  - cbn [collect_go]. destruct (_tlvs_next p) as [[[[[f fl] v] rest]|e]|] eqn:E; simpl.
    + pose proof (tlvs_next_consumes _ _ _ _ _ E) as Hs.
      destruct (collect_item repeated f v acc) as [acc'|e] eqn:Ei; simpl.
      * destruct (IH rest acc') as (n & Hn & Hb); [lia|]. exists (S n).
        split; [by eapply reads_item|lia].
      * exists 0%nat. split; [by eapply reads_refused|lia].
    + exists 0%nat. split; [by apply reads_malformed|lia].
    + exists 0%nat. split; [by apply reads_end|lia].
Qed.

(** ** Properties *)

(** C40 The reader ends on every payload, whatever lengths its headers claim:
    the loop, run without any bound, completes after at most one turn for every
    8 bytes, and ends with what [_collect] returns or raises; no other run is
    possible. *)
Theorem collect_terminates payload repeated :
  exists n, (8 * n <= length payload)%nat /\
    reads repeated payload (∅, gset_to_gmap [] repeated) (_collect payload repeated) n /\
    forall r n', reads repeated payload (∅, gset_to_gmap [] repeated) r n' ->
      r = _collect payload repeated /\ n' = n.
Proof.
  destruct (collect_reads (length payload) payload repeated (∅, gset_to_gmap [] repeated))
    as (n & Hn & Hb); [done|].
  exists n. split_and!; [done..|]. intros r n' Hr.
  by destruct (reads_functional _ _ _ _ _ Hr _ _ Hn).
Qed.
