(* ===== verification/CodecFacts.v ===== *)
(** * Round trips of the message codecs

    Each encoder part is described by the (field, value) pairs it writes; the
    payload of a message is then the [tlvs] of the concatenated pairs, and the
    decoder reads the same pairs back. *)

From S2P Require Import Prelude Python Utf8 Struct Enums Messages Wire WireFacts Codec.
Import Enums.Field.
Local Open Scope Z_scope.

(** ** Encoder parts *)

(** When the part evaluates, it writes the pairs [l]. *)
Definition part_is (part : result bytes) (l : list (Field.t * bytes)) : Prop :=
  forall b, part = Ok b -> b = tlvs l /\ Forall fits l.

(** The bytes of a string that has passed [_string]. *)
Definition enc (s : str) : bytes := default [] (utf8_encode s).

Lemma string_enc s maximum label b : _string s maximum label = Ok b -> b = enc s.
Proof. intros H. apply string_ok in H as (_ & H & _). unfold enc. by rewrite H. Qed.

Lemma part_u64 f v : part_is (_u64 f v) [(f, be_encode 8 v)].
Proof.
  intros b H. unfold _u64 in H. inv_ok. apply uint_ok in E as [-> _].
  split; [by rewrite <-(app_nil_r (_tlv _ _))|]. by repeat constructor.
Qed.

Lemma part_u32 f v : part_is (_u32 f v) [(f, be_encode 4 v)].
Proof.
  intros b H. unfold _u32 in H. inv_ok. apply uint_ok in E as [-> _].
  split; [by rewrite <-(app_nil_r (_tlv _ _))|]. by repeat constructor.
Qed.

Lemma part_text f s maximum :
  maximum < 2 ^ 32 -> part_is (_text f s maximum) [(f, enc s)].
Proof.
  intros Hm b H. unfold _text in H. inv_ok. pose proof (string_enc _ _ _ _ E) as ->.
  apply string_ok in E as (_ & _ & Hl & _).
  split; [by rewrite <-(app_nil_r (_tlv _ _))|].
  constructor; [|done]. unfold fits. simpl. lia.
Qed.

Lemma part_if_some {A} (f : A -> result bytes) g o :
  (forall a, part_is (f a) (g a)) -> part_is (if_some f o) (from_option g [] o).
Proof. intros H. destruct o; simpl; [apply H|]. by intros b [= <-]. Qed.

Lemma bjoin_parts parts ls :
  Forall2 part_is parts ls -> part_is (bjoin parts) (concat ls).
Proof.
  intros H b Hb. unfold bjoin in Hb. inv_ok.
  apply mapR_ok_Forall2 in E. revert a E.
  induction H as [|part l parts ls Hp _ IH]; intros bs E.
  - inversion E; subst. by split.
  - inversion E as [|? b ? bs' Hb Hbs]; subst. simpl. apply Hp in Hb as [-> Hf].
    destruct (IH bs' Hbs) as [IHb IHf]. rewrite tlvs_app, IHb.
    split; [done|]. by apply Forall_app.
Qed.

Create HintDb parts discriminated.
#[export] Hint Resolve part_u64 part_u32 part_if_some : parts.
#[export] Hint Extern 1 (part_is (_text _ _ _) _) => apply part_text; done : parts.
#[export] Hint Extern 1 (part_is (if_some _ _) _) =>
  apply part_if_some; intros : parts.

(** ** Decoder lookups *)

(** A run of distinct scalar fields extends the scalar map. *)
Lemma collect_pairs_scalars rep l m g :
  NoDup l.*1 -> Forall (fun p => (p.1 ∉ rep) /\ m !! p.1 = None) l ->
  collect_pairs rep l (m, g) = Ok (list_to_map l ∪ m, g).
Proof.
  revert m. induction l as [|[f v] l IH]; intros m Hnd Hl; simpl.
  - by rewrite (left_id_L ∅ (∪)).
  - apply NoDup_cons in Hnd as [Hf Hnd]. apply Forall_cons in Hl as [[Hr Hm] Hl].
    simpl in *. rewrite bool_decide_eq_false_2 by done.
    rewrite bool_decide_eq_false_2 by (rewrite Hm; by intros [? ?]).
    simpl. unfold res_mbind. simpl. rewrite IH; [|done|].
    + rewrite <-insert_union_r, insert_union_l; [done|].
      by apply not_elem_of_list_to_map_1.
    + rewrite Forall_forall in Hl |- *. intros [f' v'] Hin. simpl.
      destruct (Hl _ Hin) as [? ?]. split; [done|].
      rewrite lookup_insert_ne; [done|]. intros ->. apply Hf.
      by apply (list_elem_of_fmap_2 fst) in Hin.
Qed.

Lemma collect_scalars rep l1 l2 :
  Forall fits (l1 ++ l2) -> NoDup l1.*1 -> Forall (fun f => f ∉ rep) l1.*1 ->
  _collect (tlvs (l1 ++ l2)) rep =
  collect_pairs rep l2 (list_to_map l1, gset_to_gmap [] rep).
Proof.
  intros Hf Hnd Hr. rewrite collect_tlvs, collect_pairs_app by done.
  rewrite collect_pairs_scalars; [|done|].
  - by rewrite ok_bind, (right_id_L ∅ (∪)).
  - apply (Forall_fmap fst (fun f => f ∉ rep)) in Hr. eapply Forall_impl; [exact Hr|]. intros p ?.
    by rewrite lookup_empty.
Qed.

Lemma collect_scalars_only rep l :
  Forall fits l -> NoDup l.*1 -> Forall (fun f => f ∉ rep) l.*1 ->
  _collect (tlvs l) rep = Ok (list_to_map l, gset_to_gmap [] rep).
Proof.
  intros. rewrite <-(app_nil_r l) at 1. rewrite collect_scalars; [done|..|done|done].
  by rewrite app_nil_r.
Qed.

Lemma gset_to_gmap_none : gset_to_gmap (A := list bytes) [] (∅ : gset Field.t) = ∅.
Proof. done. Qed.

(** Decide the side conditions on concrete field lists. *)
Ltac fields :=
  cbn [fmap list_fmap map concat app fst from_option]; refine (bool_decide_unpack _ _);
  vm_compute; exact I.

(** ** Decoded values *)

Lemma item_u64_ok (m : scalars) f z label :
  m !! f = Some (be_encode 8 z) -> 0 <= z < 2 ^ 64 -> item_u64 m f label = Ok z.
Proof.
  intros H ?. unfold item_u64, getitem. rewrite H, ok_bind. by apply decode_u64_encode.
Qed.

Lemma item_u32_ok (m : scalars) f z label :
  m !! f = Some (be_encode 4 z) -> 0 <= z < 2 ^ 32 -> item_u32 m f label = Ok z.
Proof.
  intros H ?. unfold item_u32, getitem. rewrite H, ok_bind. by apply decode_u32_encode.
Qed.

Lemma decode_text_enc s maximum label label' b :
  _string s maximum label = Ok b -> _decode_text (enc s) maximum label' = Ok s.
Proof. intros H. rewrite <-(string_enc _ _ _ _ H). by eapply decode_text_string. Qed.

Lemma item_text_ok (m : scalars) f s maximum label label' b :
  m !! f = Some (enc s) -> _string s maximum label' = Ok b ->
  item_text m f maximum label = Ok s.
Proof.
  intros H ?. unfold item_text, getitem. rewrite H, ok_bind. by eapply decode_text_enc.
Qed.

(** The fields of a concrete list are exactly [X]. *)
Lemma dom_scalars (l : list (Field.t * bytes)) (X : gset Field.t) :
  list_to_set l.*1 = X -> dom (list_to_map (M := scalars) l) = X.
Proof. intros <-. apply dom_list_to_map_L. Qed.

Lemma bad_fields_false (g : groups) (m : scalars) X :
  g = ∅ -> dom m = X ->
  negb (bool_decide (g = ∅)) || negb (bool_decide (dom m = X)) = false.
Proof. intros -> ->. by rewrite !bool_decide_eq_true_2. Qed.

Lemma lookup_scalars (l : list (Field.t * bytes)) f v :
  NoDup l.*1 -> (f, v) ∈ l -> (list_to_map l : scalars) !! f = Some v.
Proof. apply elem_of_list_to_map. Qed.

(** ** Repeated and optional parts *)

(** Parts made from the elements of a list, one pair each. *)
Lemma parts_map {A} (f : A -> result bytes) (g : A -> Field.t * bytes) l b :
  (forall x, part_is (f x) [g x]) -> bjoin (map f l) = Ok b ->
  b = tlvs (map g l) /\ Forall fits (map g l).
Proof.
  intros Hf Hb. eapply (bjoin_parts _ (map (fun x => [g x]) l)) in Hb.
  - replace (concat (map (fun x => [g x]) l)) with (map g l) in Hb; [done|].
    clear. induction l as [|x l IH]; simpl; [done|]. by rewrite <-IH.
  - clear Hb. induction l; simpl; constructor; auto.
Qed.

(** Pairs nested in an outer field: [_tlv outer nested]. *)
Lemma part_nested outer parts ls :
  Forall2 part_is parts ls ->
  (forall b, bjoin parts = Ok b -> Z.of_nat (length b) < 2 ^ 32) ->
  part_is (nested ← bjoin parts; Ok (_tlv outer nested)) [(outer, tlvs (concat ls))].
Proof.
  intros Hp Hl b Hb. inv_ok. pose proof (Hl _ E) as Hlen.
  destruct (bjoin_parts _ _ Hp _ E) as [-> _].
  split; [by rewrite <-(app_nil_r (_tlv _ _))|]. by repeat constructor.
Qed.

Lemma opt_u64_some (m : scalars) f z label :
  m !! f = Some (be_encode 8 z) -> 0 <= z < 2 ^ 64 -> opt_u64 m f label = Ok (Some z).
Proof. intros H ?. unfold opt_u64. by rewrite H, decode_u64_encode. Qed.

Lemma opt_u32_some (m : scalars) f z label :
  m !! f = Some (be_encode 4 z) -> 0 <= z < 2 ^ 32 -> opt_u32 m f label = Ok (Some z).
Proof. intros H ?. unfold opt_u32. by rewrite H, decode_u32_encode. Qed.

Lemma opt_u64_none (m : scalars) f label : m !! f = None -> opt_u64 m f label = Ok None.
Proof. intros H. unfold opt_u64. by rewrite H. Qed.

Lemma opt_u32_none (m : scalars) f label : m !! f = None -> opt_u32 m f label = Ok None.
Proof. intros H. unfold opt_u32. by rewrite H. Qed.

Lemma one_some (m : scalars) f v : m !! f = Some v -> _one m f = Ok v.
Proof. intros H. unfold _one. by rewrite H. Qed.

Lemma getitem_some (m : scalars) f v : m !! f = Some v -> getitem m f = Ok v.
Proof. intros H. unfold getitem. by rewrite H. Qed.

Lemma getgroup_some (g : groups) f v : g !! f = Some v -> getgroup g f = Ok v.
Proof. intros H. unfold getgroup. by rewrite H. Qed.

(** One repeated field after the scalars. *)
Lemma collect_scalars_group f l vs :
  Forall fits (l ++ map (pair f) vs) -> NoDup l.*1 -> f ∉ l.*1 ->
  _collect (tlvs (l ++ map (pair f) vs)) {[f]} = Ok (list_to_map l, {[f := vs]}).
Proof.
  intros Hf Hnd Hin. rewrite collect_scalars; [|done|done|].
  - rewrite gset_to_gmap_singleton.
    rewrite (collect_pairs_repeated _ _ _ _ _ []); [|set_solver|by rewrite lookup_singleton_eq].
    by rewrite insert_singleton_eq.
  - apply Forall_forall. intros g Hg ->%elem_of_singleton. done.
Qed.
