(* ===== verification/RoundTrip.v ===== *)
(** * Every request and the lookup response survive encoding and decoding *)

From S2P Require Import Prelude Python Utf8 Struct Enums Messages Wire WireFacts Codec CodecFacts.
Import Enums.Field.
Local Open Scope Z_scope.

(** The header of an encoded message of type [mt]. *)
Definition is_header (h : Header.t) (mt : MessageType.t) (c : Z) (frame : bytes) : Prop :=
  h = Header.mk mt c (Z.of_nat (length frame) - Z.of_nat HEADER_SIZE)
        VERSION_MAJOR VERSION_MINOR.

Lemma frame_header mt c p f :
  _frame mt c p = Ok f ->
  exists h, is_header h mt c f /\ decode_header f = Ok h /\
    Header.message_type h = mt /\ payload_of f = p.
Proof.
  intros (_ & Hl & _ & Hp & Hd)%frame_ok. eexists. split_and!; [|exact Hd|done|done].
  unfold is_header. rewrite Hl. f_equal. lia.
Qed.

(** Turn the successful checks of an encoder into ranges. *)
Ltac checks :=
  repeat match goal with
  | H : _uint _ _ _ _ = Ok _ |- _ => apply uint_ok in H as (-> & ? & ?)
  end.

Ltac parts_ok :=
  repeat first [apply List.Forall2_nil | apply List.Forall2_cons]; auto with parts.

(** What the encoder parts [ps] write is what [ls] lists. *)
Lemma payload_pairs ps ls b :
  bjoin ps = Ok b -> Forall2 part_is ps ls -> b = tlvs (concat ls) /\ Forall fits (concat ls).
Proof. intros ? H. by apply (bjoin_parts _ _ H). Qed.

(** Look a field of a concrete field list up. *)
Ltac find_field :=
  apply lookup_scalars;
  [fields | cbn [concat app from_option];
            repeat first [apply list_elem_of_here | apply list_elem_of_further]].

Ltac find_none := apply not_elem_of_list_to_map_1; fields.

(** Run a decoder that reads the scalar items of a concrete field list. *)
Ltac run_step :=
  lazymatch goal with
  | |- item_u64 _ _ _ = _ => eapply item_u64_ok; [find_field | lia]
  | |- item_u32 _ _ _ = _ => eapply item_u32_ok; [find_field | lia]
  | |- item_text _ _ _ _ = _ => eapply item_text_ok; [find_field | eassumption]
  | |- _one _ _ = _ => eapply one_some; find_field
  | |- getitem _ _ = _ => eapply getitem_some; find_field
  | |- _decode_u64 _ _ = _ => eapply decode_u64_encode; lia
  | |- _decode_u32 _ _ = _ => eapply decode_u32_encode; lia
  | |- _decode_text _ _ _ = _ => eapply decode_text_enc; eassumption
  | |- opt_u64 _ _ _ = _ =>
      first [eapply opt_u64_some; [find_field | lia] | apply opt_u64_none; find_none]
  | |- opt_u32 _ _ _ = _ =>
      first [eapply opt_u32_some; [find_field | lia] | apply opt_u32_none; find_none]
  | |- raise_if _ _ = _ =>
      apply raise_if_false;
      first [done | apply bad_fields_false, dom_scalars; [done | fields]]
  | |- _uint _ _ _ _ = _ => apply uint_intro; [lia | first [by auto | lia]]
  | |- _collect _ _ = _ => apply collect_scalars_only; [done | fields | fields]
  | |- match enum_of_code _ with _ => _ end = _ => rewrite enum_of_code_code; reflexivity
  end.
Ltac run := repeat (eapply bind_step; [run_step | cbv beta iota zeta]).

(** Introduce the header of a frame and pass the header checks. *)
Ltac open_frame H :=
  let h := fresh "h" in let Hh := fresh "Hh" in let Hd := fresh "Hd" in
  let Hm := fresh "Hm" in let Hp := fresh "Hp" in
  apply frame_header in H as (h & Hh & Hd & Hm & Hp);
  exists h; split; [exact Hh|].

Lemma release_roundtrip r c frame :
  encode_release_request r c = Ok frame ->
  exists h, is_header h MessageType.RELEASE_REQUEST c frame /\
    decode_release_request frame = Ok (h, r).
Proof.
  intros H. unfold encode_release_request in H. inv_ok. checks.
  eapply payload_pairs in E3 as [Hpay Hf]; cycle 1; [parts_ok|].
  open_frame H. unfold decode_release_request.
  rewrite Hd, ok_bind, raise_if_bind, Hp, Hpay by (by rewrite Hm).
  run. by destruct r.
Qed.

Lemma lookup_roundtrip r c frame :
  encode_get_reservations_request r c = Ok frame ->
  exists h, is_header h MessageType.GET_RESERVATIONS_REQUEST c frame /\
    decode_get_reservations_request frame = Ok (h, r).
Proof.
  intros H. unfold encode_get_reservations_request in H. inv_ok. checks.
  eapply payload_pairs in E4 as [Hpay Hf]; cycle 1; [parts_ok|].
  open_frame H. unfold decode_get_reservations_request.
  rewrite Hd, ok_bind, raise_if_bind, Hp, Hpay by (by rewrite Hm).
  run. by destruct r.
Qed.

(** ** Admission requests *)

(** What a service writes inside its [SERVICE_REQUEST]. *)
Definition service_pair (s : str) : Field.t * bytes :=
  (SERVICE_REQUEST, _tlv SERVICE_ID (enc s)).

Lemma part_service s :
  part_is (nested ← _text SERVICE_ID s MAX_SERVICE_ID; Ok (_tlv SERVICE_REQUEST nested))
    [service_pair s].
Proof.
  intros b H. inv_ok. unfold _text in E. inv_ok.
  pose proof (string_enc _ _ _ _ E0) as ->. apply string_ok in E0 as (_ & _ & Hl & _).
  split; [by rewrite <-(app_nil_r (_tlv _ _))|]. constructor; [|done].
  unfold fits, service_pair. cbn [snd]. rewrite tlv_length.
  pose proof (padding_small (length (enc s))). unfold MAX_SERVICE_ID in Hl. lia.
Qed.

Lemma decode_service s b :
  _string s MAX_SERVICE_ID (txt "service_id") = Ok b ->
  _decode_service_request (_tlv SERVICE_ID (enc s)) = Ok s.
Proof.
  intros H. unfold _decode_service_request.
  rewrite <-(app_nil_r (_tlv _ _)). change (_tlv SERVICE_ID (enc s) ++ [])
    with (tlvs [(SERVICE_ID, enc s)]).
  assert (Forall fits [(SERVICE_ID, enc s)]).
  { constructor; [|done]. apply string_ok in H as (_ & He & Hl & _).
    unfold fits, enc. rewrite He. simpl. unfold MAX_SERVICE_ID in Hl. lia. }
  run. by eapply decode_text_enc.
Qed.

Lemma decode_services l :
  iterR (fun s => _ ← _string s MAX_SERVICE_ID (txt "service_id"); Ok tt) l = Ok tt ->
  mapR _decode_service_request (map (fun s => _tlv SERVICE_ID (enc s)) l) = Ok l.
Proof.
  intros H%iterR_ok. apply mapR_ok_Forall2. induction H as [|s l Hs _ IH]; [constructor|].
  constructor; [|done]. inv_ok. by eapply decode_service.
Qed.

Lemma validated_opt (o : option Z) label :
  match o with Some v => _ ← _uint v 64 label false; Ok tt | None => Ok tt end = Ok tt ->
  forall v, o = Some v -> 0 <= v < 2 ^ 64.
Proof. intros H v ->. inv_ok. by apply uint_ok in E as (_ & ? & _). Qed.

(** The scalar fields of an encoded admission request with workload [w]. *)
Definition admission_pairs (r : ReserveRequest.t) (w : Workload.t)
    : list (list (Field.t * bytes)) :=
  let u64 f z := [(f, be_encode 8 z)] in
  let u32 f z := [(f, be_encode 4 z)] in
  [u64 REQUEST_ID (ReserveRequest.request_id r);
   [(CLUSTER_NAME, enc (ReserveRequest.cluster_name r))];
   u64 CANONICAL_JOB_ID (ReserveRequest.canonical_job_id r);
   from_option (u64 HETERO_JOB_ID) [] (ReserveRequest.hetero_job_id r);
   from_option (u32 HETERO_COMPONENT) [] (ReserveRequest.hetero_component r);
   u32 JOB_UID (ReserveRequest.job_uid r);
   u32 JOB_GID (ReserveRequest.job_gid r);
   u32 WORKLOAD_KIND (enum_code (Workload.kind w));
   u64 WALLTIME_NS (Workload.walltime_ns w);
   u64 CIRCUIT_COUNT (Workload.circuit_count w);
   u32 MAX_QUBITS (Workload.max_qubits w);
   u64 MAX_DEPTH (Workload.max_depth w);
   u64 MAX_SHOTS (Workload.max_shots w);
   from_option (u64 MAX_ONE_Q_GATES) [] (Workload.max_one_q_gates w);
   from_option (u64 MAX_TWO_Q_GATES) [] (Workload.max_two_q_gates w);
   from_option (u64 MAX_MEASUREMENTS) [] (Workload.max_measurements w)].

(** What the encoder frames. *)
Lemma admission_frame r w c mt frame :
  ReserveRequest.workload r = Some w ->
  _encode_admission_request r c mt = Ok frame ->
  _validate_reserve_request r = Ok tt /\
  let l := concat (admission_pairs r w)
             ++ map (pair SERVICE_REQUEST)
                  (map (fun s => _tlv SERVICE_ID (enc s)) (ReserveRequest.service_ids r)) in
  Forall fits l /\ _frame mt c (tlvs l) = Ok frame.
Proof.
  intros Hw H. unfold _encode_admission_request in H. rewrite Hw in H. cbn [if_some] in H.
  inv_ok. destruct a. split; [done|].
  eapply (payload_pairs _ (admission_pairs r w)) in E0 as [-> Hf0];
    [|unfold admission_pairs; parts_ok].
  eapply (parts_map _ service_pair) in E1 as [-> Hf1]; [|apply part_service].
  cbv zeta. rewrite map_map, tlvs_app. split; [|exact H].
  apply Forall_app. split; [done|exact Hf1].
Qed.


(** What a validated request guarantees. *)
Lemma validated_request r :
  _validate_reserve_request r = Ok tt ->
  let u64 z := 0 <= z < 2 ^ 64 in let u32 z := 0 <= z < 2 ^ 32 in
  u64 (ReserveRequest.request_id r) /\ u64 (ReserveRequest.canonical_job_id r) /\
  u32 (ReserveRequest.job_uid r) /\ u32 (ReserveRequest.job_gid r) /\
  (exists b, _string (ReserveRequest.cluster_name r) MAX_CLUSTER_NAME (txt "cluster_name") = Ok b) /\
  bad_count (ReserveRequest.service_ids r) || has_dup (ReserveRequest.service_ids r) = false /\
  iterR (fun s => _ ← _string s MAX_SERVICE_ID (txt "service_id"); Ok tt)
    (ReserveRequest.service_ids r) = Ok tt /\
  match ReserveRequest.hetero_job_id r, ReserveRequest.hetero_component r with
  | Some h, Some c => u64 h /\ u32 c
  | None, None => True
  | _, _ => False
  end /\
  (forall w, ReserveRequest.workload r = Some w -> _validate_workload w = Ok tt).
Proof.
  unfold _validate_reserve_request. intros H. inv_ok. checks. destruct a6.
  split_and!; try lia; [by eexists|by rewrite E4, E5|done| |].
  - destruct (ReserveRequest.hetero_job_id r), (ReserveRequest.hetero_component r);
      inv_ok; checks; done.
  - intros w Hw. by rewrite Hw in H.
Qed.


(** Reduce the projections of records. *)
Ltac proj :=
  cbn [ReserveRequest.request_id ReserveRequest.cluster_name
    ReserveRequest.canonical_job_id ReserveRequest.job_uid ReserveRequest.job_gid
    ReserveRequest.workload ReserveRequest.service_ids ReserveRequest.hetero_job_id
    ReserveRequest.hetero_component Workload.kind Workload.walltime_ns
    Workload.circuit_count Workload.max_qubits Workload.max_depth Workload.max_shots
    Workload.max_one_q_gates Workload.max_two_q_gates Workload.max_measurements] in *.

(** The cases of the optional fields; the heterogeneous ones come together. *)
Ltac split_optionals w r Hh :=
  destruct w as [????? ? [?|] [?|] [?|]], r as [??????? [?|] [?|]]; cbn in Hh;
  try (let H1 := fresh in let H2 := fresh in
       exfalso; destruct Hh as [H1 H2];
       first [by destruct (H1 (mk_is_Some _ _ eq_refl))
             | by destruct (H2 (mk_is_Some _ _ eq_refl))]).

(** The scalar fields of the request are distinct and make a complete envelope. *)
Lemma admission_fields_ok r w :
  (is_Some (ReserveRequest.hetero_job_id r) <-> is_Some (ReserveRequest.hetero_component r)) ->
  let l := concat (admission_pairs r w) in
  let m : scalars := list_to_map l in
  NoDup l.*1 /\ (SERVICE_REQUEST ∉ l.*1) /\ dom m ∖ admission_fields = ∅ /\
  workload_fields ∩ dom m = workload_fields.
Proof.
  intros Hh l m. unfold m. rewrite (dom_scalars l _ eq_refl). unfold l, admission_pairs.
  split_optionals w r Hh.
  all: split_and!; fields.
Qed.

Lemma kind_code_range (k : WorkloadKind.t) : 0 <= enum_code k < 2 ^ 32.
Proof. by destruct k. Qed.

Lemma decode_workload_ok r w :
  _validate_workload w = Ok tt ->
  (is_Some (ReserveRequest.hetero_job_id r) <-> is_Some (ReserveRequest.hetero_component r)) ->
  _decode_workload (list_to_map (concat (admission_pairs r w))) = Ok w.
Proof.
  intros H Hh. pose proof (kind_code_range (Workload.kind w)).
  unfold _decode_workload, admission_pairs, _validate_workload in *.
  split_optionals w r Hh.
  all: proj; inv_ok; checks.
  all: run; reflexivity.
Qed.

Lemma admission_roundtrip r w c mt frame :
  ReserveRequest.workload r = Some w ->
  _encode_admission_request r c mt = Ok frame ->
  exists h, is_header h mt c frame /\
    _decode_admission_request frame mt = Ok (h, r).
Proof.
  intros Hw (Hv & Hf & H)%(admission_frame r w); [|done].
  open_frame H. unfold _decode_admission_request.
  rewrite Hd, ok_bind, raise_if_bind, Hp by (by rewrite Hm, bool_decide_eq_true_2).
  destruct (validated_request r Hv)
    as (Hrid & Hjob & Huid & Hgid & [b Hcl] & Hcount & Hsvc & Hhet & Hwl).
  assert (Hpair : is_Some (ReserveRequest.hetero_job_id r)
            <-> is_Some (ReserveRequest.hetero_component r)).
  { clear -Hhet. destruct (ReserveRequest.hetero_job_id r),
      (ReserveRequest.hetero_component r); split; (done || by intros []). }
  destruct (admission_fields_ok r w Hpair) as (Hnd & Hnin & Hdom & Hpres).
  specialize (Hwl w Hw).
  rewrite collect_scalars_group, ok_bind by done. cbv beta iota zeta.
  rewrite raise_if_bind by (by rewrite Hdom).
  erewrite getgroup_some, ok_bind by apply lookup_singleton_eq.
  rewrite decode_services, ok_bind by done.
  rewrite raise_if_bind, Hpres by done.
  rewrite !raise_if_bind by done.
  rewrite (bool_decide_eq_false_2 (workload_fields = ∅)) by done.
  rewrite decode_workload_ok, !ok_bind by done.
  unfold admission_pairs. clear Hnd Hnin Hdom Hpres Hf Hsvc Hcount Hwl.
  split_optionals w r Hpair; proj; subst; try done.
  all: run; by rewrite Hv.
Qed.

(** ** The lookup response *)

Definition reservation_pairs (r : Reservation.t) : list (Field.t * bytes) :=
  [(SERVICE_ID, enc (Reservation.service_id r));
   (RESERVATION_ID, be_encode 8 (Reservation.reservation_id r))].

Definition reservation_pair (r : Reservation.t) : Field.t * bytes :=
  (RESERVATION, tlvs (reservation_pairs r)).

(** A reservation that [_encode_reservation] accepts. *)
Definition reservation_ok (r : Reservation.t) : Prop :=
  (exists b, _string (Reservation.service_id r) MAX_SERVICE_ID (txt "service_id") = Ok b) /\
  0 < Reservation.reservation_id r < 2 ^ 64.

Lemma reservation_pairs_fit r b :
  _string (Reservation.service_id r) MAX_SERVICE_ID (txt "service_id") = Ok b ->
  Forall fits (reservation_pairs r) /\ fits (reservation_pair r).
Proof.
  intros H. apply string_ok in H as (_ & He & Hl & _).
  assert (Hb : length (enc (Reservation.service_id r)) = length b)
    by (unfold enc; by rewrite He).
  unfold fits, reservation_pair, reservation_pairs, MAX_SERVICE_ID in *. split.
  - repeat constructor. cbn [snd]. lia.
  - unfold tlvs. cbn [snd mbind list_bind fst]. rewrite !length_app, !tlv_length.
    rewrite be_encode_length. pose proof (padding_small (length (enc (Reservation.service_id r)))).
    pose proof (padding_small 8). simpl length. lia.
Qed.

Lemma encode_reservation_ok r b :
  _encode_reservation r = Ok b -> reservation_ok r /\ b = tlvs [reservation_pair r].
Proof.
  intros H. unfold _encode_reservation in H. inv_ok. checks.
  eapply payload_pairs in E1 as [-> _]; cycle 1; [parts_ok|].
  unfold reservation_ok. split.
  - split; [by eexists|]. assert (Reservation.reservation_id r <> 0) by auto. lia.
  - by rewrite <-(app_nil_r (_tlv _ _)).
Qed.

Lemma part_reservation r : part_is (_encode_reservation r) [reservation_pair r].
Proof.
  intros b ([[b' Hs] _] & ->)%encode_reservation_ok. split; [done|].
  constructor; [|done]. by eapply reservation_pairs_fit.
Qed.

Lemma decode_reservation r :
  reservation_ok r -> _decode_reservation (tlvs (reservation_pairs r)) = Ok r.
Proof.
  intros [[b Hs] Hr]. unfold _decode_reservation.
  pose proof (proj1 (reservation_pairs_fit _ _ Hs)) as Hf.
  unfold reservation_pairs in *. run. by destruct r.
Qed.

Lemma bjoin_app l1 l2 b :
  bjoin (l1 ++ l2) = Ok b -> exists b1 b2, bjoin l1 = Ok b1 /\ bjoin l2 = Ok b2 /\ b = b1 ++ b2.
Proof.
  unfold bjoin. rewrite mapR_app. intros H. inv_ok. exists (concat a0), (concat a1).
  rewrite E0, E1. split_and!; try done. apply concat_app.
Qed.

Lemma mapR_inverse {A B} (enc' : A -> B) (dec : B -> result A) (l : list A) :
  Forall (fun x => dec (enc' x) = Ok x) l -> mapR dec (map enc' l) = Ok l.
Proof. intros H. apply mapR_ok_Forall2. induction H; constructor; auto. Qed.

Lemma response_roundtrip r c frame :
  encode_get_reservations_response r c = Ok frame ->
  exists h, is_header h MessageType.GET_RESERVATIONS_RESPONSE c frame /\
    decode_get_reservations_response frame = Ok (h, r).
Proof.
  intros H. unfold encode_get_reservations_response in H. inv_ok. checks.
  apply bjoin_app in E3 as (b1 & b2 & Hb1 & Hb2 & ->).
  assert (Forall reservation_ok (GetReservationsResponse.reservations r)) as Hall.
  { apply bind_ok in Hb2 as (bs & E3%mapR_ok_Forall2 & _).
    apply Forall_forall. intros x Hx.
    apply (list_elem_of_fmap_2 _encode_reservation) in Hx.
    apply list_elem_of_lookup in Hx as [i Hi].
    destruct (Forall2_lookup_l _ _ _ _ _ E3 Hi) as (y & _ & Hy).
    exact (proj1 (encode_reservation_ok _ _ Hy)). }
  eapply payload_pairs in Hb1 as [Hb1 Hf1]; cycle 1; [parts_ok|]. rewrite Hb1 in H.
  eapply (parts_map _ reservation_pair) in Hb2 as [-> Hf2]; [|apply part_reservation].
  rewrite <-tlvs_app in H. open_frame H. unfold decode_get_reservations_response.
  rewrite Hd, ok_bind, raise_if_bind, Hp by (by rewrite Hm).
  replace (map reservation_pair _) with (map (pair RESERVATION)
    (map (fun x => tlvs (reservation_pairs x)) (GetReservationsResponse.reservations r)))
    in * by by rewrite map_map.
  rewrite collect_scalars_group, ok_bind; [|by apply Forall_app|fields|fields].
  rewrite raise_if_bind; [|rewrite bool_decide_eq_true_2; [done|apply dom_scalars; fields]].
  erewrite getgroup_some, ok_bind by apply lookup_singleton_eq.
  rewrite (mapR_inverse (fun x => tlvs (reservation_pairs x))), ok_bind
    by (eapply Forall_impl; [exact Hall|apply decode_reservation]).
  rewrite E1, E2. run. by destruct r.
Qed.
