(* ===== verification/DecodeFacts.v ===== *)
(** * The decoders fail only with [ProtocolError], and what they accept is valid

    The server answers a [ProtocolError] of [decode_request] with a protocol
    error; any other exception would drop the connection. The lemmas follow the
    decoders: a lookup [values[f]] is always guarded by a comparison of the
    field set, and the strings that are validated again after decoding are the
    decoded ones, so that re-encoding them cannot fail. *)

From S2P Require Import Prelude Python Utf8 Struct Enums Messages Wire WireFacts Codec CodecFacts.
Import Enums.Field.
Local Open Scope Z_scope.

Definition is_protocol_error (e : exn) : Prop := exists m, e = ProtocolError m.

(** When [r] raises, it raises [ProtocolError]. *)
Definition safe {A} (r : result A) : Prop := forall e, r = Raise e -> is_protocol_error e.

Lemma safe_ok {A} (a : A) : safe (Ok a).
Proof. by intros e. Qed.

Lemma safe_raise {A} m : safe (A := A) (Raise (ProtocolError m)).
Proof. intros e [= <-]. by eexists. Qed.

Lemma safe_bind {A B} (r : result A) (f : A -> result B) :
  safe r -> (forall a, r = Ok a -> safe (f a)) -> safe (r ≫= f).
Proof.
  intros Hr Hf e H. destruct r as [a|e']; [by apply (Hf a eq_refl)|].
  apply Hr. injection H as ->. done.
Qed.

Lemma safe_raise_if b m : safe (raise_if b (ProtocolError m)).
Proof. destruct b; [apply safe_raise|apply safe_ok]. Qed.

Lemma safe_mapR {A B} (f : A -> result B) l : (forall x, safe (f x)) -> safe (mapR f l).
Proof.
  intros H. induction l as [|x l IH]; simpl; [apply safe_ok|].
  apply safe_bind; [apply H|]. intros. apply safe_bind; [apply IH|]. intros. apply safe_ok.
Qed.

Lemma safe_uint v bits label nz : safe (_uint v bits label nz).
Proof. unfold _uint. case_match; [apply safe_raise|apply safe_ok]. Qed.

Lemma safe_eq_ok {A} (r : result A) a : r = Ok a -> safe r.
Proof. intros -> e. done. Qed.

Lemma safe_decode_u64 v label : safe (_decode_u64 v label).
Proof. unfold _decode_u64. case_match; [apply safe_raise|apply safe_ok]. Qed.

Lemma safe_decode_u32 v label : safe (_decode_u32 v label).
Proof. unfold _decode_u32. case_match; [apply safe_raise|apply safe_ok]. Qed.

Lemma safe_decode_text v maximum label : safe (_decode_text v maximum label).
Proof. unfold _decode_text. repeat case_match; first [apply safe_raise|apply safe_ok]. Qed.

Lemma safe_one m f : safe (_one m f).
Proof. unfold _one. case_match; [apply safe_ok|apply safe_raise]. Qed.

Lemma safe_opt_u64 m f label : safe (opt_u64 m f label).
Proof.
  unfold opt_u64. case_match; [|apply safe_ok].
  apply safe_bind; [apply safe_decode_u64|]. intros. apply safe_ok.
Qed.

Lemma safe_opt_u32 m f label : safe (opt_u32 m f label).
Proof.
  unfold opt_u32. case_match; [|apply safe_ok].
  apply safe_bind; [apply safe_decode_u32|]. intros. apply safe_ok.
Qed.

Lemma safe_enum {A} `{IntEnum A} code m :
  safe (match (enum_of_code code : option A) with Some k => Ok k | None => Raise (ProtocolError m) end).
Proof. case_match; [apply safe_ok|apply safe_raise]. Qed.

(** Lookups of a field that is present. *)
Section present.
Context (m : scalars) (f : Field.t) (Hf : f ∈ dom m).

Lemma safe_getitem : safe (getitem m f).
Proof. unfold getitem. apply elem_of_dom in Hf as [v ->]. apply safe_ok. Qed.
Lemma safe_item_u64 label : safe (item_u64 m f label).
Proof. apply safe_bind; [apply safe_getitem|]. intros. apply safe_decode_u64. Qed.
Lemma safe_item_u32 label : safe (item_u32 m f label).
Proof. apply safe_bind; [apply safe_getitem|]. intros. apply safe_decode_u32. Qed.
Lemma safe_item_text maximum label : safe (item_text m f maximum label).
Proof. apply safe_bind; [apply safe_getitem|]. intros. apply safe_decode_text. Qed.
End present.

Create HintDb safe discriminated.
#[export] Hint Resolve safe_ok safe_raise safe_raise_if safe_uint safe_decode_u64
  safe_decode_u32 safe_decode_text safe_one safe_opt_u64 safe_opt_u32 safe_enum
  safe_item_u64 safe_item_u32 safe_item_text safe_getitem : safe.

(** Walk through a chain of binds. *)
Ltac safely :=
  repeat first
    [ solve [auto with safe]
    | match goal with |- safe (match _ with _ => _ end) => case_match end
    | apply safe_bind; [solve [auto with safe | safely]|intros ? ?] ].

(** ** The header and the TLV reader *)

Lemma safe_decode_header frame : safe (decode_header frame).
Proof.
  unfold decode_header. apply safe_bind; [auto with safe|intros ? _].
  destruct (unpack_header frame) as [[[[[[[[??]?]?]?]?]?]?]?]. safely.
Qed.

Lemma safe_tlvs_next p i : _tlvs_next p = Some i -> safe i.
Proof.
  unfold _tlvs_next. case_bool_decide; [done|]. intros [= <-]. safely.
Qed.

Lemma collect_go_safe n p rep acc :
  (length p <= n)%nat -> rep ⊆ dom acc.2 -> safe (collect_go n p rep acc).
Proof.
  revert p acc. induction n as [|n IH]; intros p [m g] Hn Hg; simpl.
  - destruct p; [apply safe_ok|simpl in Hn; lia].
  - destruct (_tlvs_next p) as [i|] eqn:E; [|apply safe_ok].
    pose proof (tlvs_next_shrinks p i E) as Hs.
    apply safe_bind; [by eapply safe_tlvs_next|].
    intros [[[[f|] fl] v] rest] ->; simpl in Hs.
    + simpl in Hg. simpl. case_bool_decide as Hr.
      * unfold getgroup. destruct (g !! f) as [l|] eqn:El.
        -- rewrite !ok_bind. apply IH; [lia|]. simpl. set_solver.
        -- apply not_elem_of_dom in El. set_solver.
      * case_bool_decide; [apply safe_bind; [auto with safe|done]|].
        rewrite ok_bind. apply IH; [lia|done].
    + rewrite ok_bind. apply IH; [lia|done].
Qed.

Lemma safe_collect p rep : safe (_collect p rep).
Proof. apply collect_go_safe; [done|]. simpl. by rewrite dom_gset_to_gmap. Qed.

(** The groups of the result are those of the repeated fields. *)
Lemma collect_go_groups n p rep acc m g :
  collect_go n p rep acc = Ok (m, g) -> dom acc.2 = rep -> dom g = rep.
Proof.
  revert p acc. induction n as [|n IH]; intros p [m' g'] H Hg; simpl in H.
  - destruct (_tlvs_next p); [done|]. by simplify_eq.
  - destruct (_tlvs_next p) as [i|] eqn:E; [|by simplify_eq].
    inv_ok. destruct a as [[[[f|] fl] v] rest]; inv_ok.
    + apply IH in H; [done|]. simpl in Hg.
      unfold collect_item in E1. case_bool_decide.
      * inv_ok. simpl. set_solver.
      * case_bool_decide; [done|]. by injection E1 as <-.
    + by apply IH in H.
Qed.

Lemma collect_groups p rep m g : _collect p rep = Ok (m, g) -> dom g = rep.
Proof. intros H. eapply collect_go_groups; [exact H|]. apply dom_gset_to_gmap. Qed.

Lemma safe_getgroup p f m g : _collect p {[f]} = Ok (m, g) -> safe (getgroup g f).
Proof.
  intros H%collect_groups. unfold getgroup.
  assert (f ∈ dom g) as [l ->]%elem_of_dom by set_solver. apply safe_ok.
Qed.

#[export] Hint Resolve safe_decode_header safe_collect : safe.
#[export] Hint Extern 1 (safe (getgroup _ _)) => eapply safe_getgroup; eassumption : safe.

(** ** The message decoders *)

(** The fields the guards of a decoder have established. *)
Lemma exact_fields (P Q : Prop) `{Decision P, Decision Q} m u :
  raise_if (negb (bool_decide P) || negb (bool_decide Q)) (ProtocolError m) = Ok u -> Q.
Proof.
  intros [_ HQ%negb_false_iff]%raise_if_ok%orb_false_iff. by apply bool_decide_eq_true in HQ.
Qed.

Lemma exact_field {P : Prop} `{Decision P} m u :
  raise_if (negb (bool_decide P)) (ProtocolError m) = Ok u -> P.
Proof. intros H1%raise_if_ok%negb_false_iff. by apply bool_decide_eq_true in H1. Qed.

#[export] Hint Extern 2 (_ ∈ dom _) => set_solver : safe.

Lemma safe_service p : safe (_decode_service_request p).
Proof.
  unfold _decode_service_request. apply safe_bind; [auto with safe|intros [m g] _].
  apply safe_bind; [auto with safe|intros u Hd%exact_fields]. safely.
Qed.

Lemma safe_reservation p : safe (_decode_reservation p).
Proof.
  unfold _decode_reservation. apply safe_bind; [auto with safe|intros [m g] _].
  apply safe_bind; [auto with safe|intros u Hd%exact_fields]. safely.
Qed.

Lemma safe_workload m : workload_fields ⊆ dom m -> safe (_decode_workload m).
Proof.
  intros Hm. unfold _decode_workload.
  assert (forall f, f ∈ workload_fields -> f ∈ dom m) as Hin by set_solver.
  assert (WORKLOAD_KIND ∈ dom m /\ WALLTIME_NS ∈ dom m /\ CIRCUIT_COUNT ∈ dom m /\
    MAX_QUBITS ∈ dom m /\ MAX_DEPTH ∈ dom m /\ MAX_SHOTS ∈ dom m) as (? & ? & ? & ? & ? & ?)
    by (split_and!; apply Hin; by vm_compute).
  clear Hm Hin. safely.
Qed.

Definition valid_text (maximum : Z) (s : str) : Prop :=
  forall label, exists b, _string s maximum label = Ok b.

Lemma decoded_text v maximum label s :
  _decode_text v maximum label = Ok s -> valid_text maximum s.
Proof. intros H label'. eexists. by eapply decode_text_ok. Qed.

Lemma decoded_service p s : _decode_service_request p = Ok s -> valid_text MAX_SERVICE_ID s.
Proof.
  intros H. unfold _decode_service_request in H. inv_ok. destruct a as [m g]. inv_ok.
  by eapply decoded_text.
Qed.

Lemma decoded_services l services :
  mapR _decode_service_request l = Ok services -> Forall (valid_text MAX_SERVICE_ID) services.
Proof.
  intros H%mapR_ok_Forall2. induction H; constructor; eauto using decoded_service.
Qed.

Lemma services_valid l :
  Forall (valid_text MAX_SERVICE_ID) l ->
  iterR (fun s => _ ← _string s MAX_SERVICE_ID (txt "service_id"); Ok tt) l = Ok tt.
Proof.
  intros H. apply iterR_ok. eapply Forall_impl; [exact H|]. intros s Hs.
  by destruct (Hs (txt "service_id")) as [b ->].
Qed.

Lemma safe_validate_workload w : safe (_validate_workload w).
Proof. unfold _validate_workload. safely. Qed.

Lemma safe_validate r :
  valid_text MAX_CLUSTER_NAME (ReserveRequest.cluster_name r) ->
  Forall (valid_text MAX_SERVICE_ID) (ReserveRequest.service_ids r) ->
  safe (_validate_reserve_request r).
Proof.
  intros Hc Hs%services_valid. unfold _validate_reserve_request.
  destruct (Hc (txt "cluster_name")) as [b ->]. rewrite Hs, !ok_bind.
  pose proof safe_validate_workload. safely.
Qed.

#[export] Hint Resolve safe_service safe_reservation safe_validate_workload : safe.
#[export] Hint Resolve safe_mapR : safe.

Lemma safe_admission frame mt : safe (_decode_admission_request frame mt).
Proof.
  unfold _decode_admission_request. apply safe_bind; [auto with safe|intros h _].
  apply safe_bind; [auto with safe|intros _ _].
  apply safe_bind; [auto with safe|intros [m g] Hc].
  apply safe_bind; [auto with safe|intros _ _].
  apply safe_bind; [auto with safe|intros items _].
  apply safe_bind; [auto with safe|intros services Hs%decoded_services].
  apply safe_bind; [auto with safe|intros _ _].
  apply safe_bind; [auto with safe|intros _ He%raise_if_ok].
  apply safe_bind; [auto with safe|intros _ _].
  apply safe_bind.
  { case_bool_decide as Hp; [auto with safe|].
    apply safe_bind; [apply safe_workload|auto with safe].
    simpl in He. apply negb_false_iff, bool_decide_eq_true in He. rewrite <-He. set_solver. }
  intros w _. do 3 (apply safe_bind; [auto with safe|intros ? _]).
  apply safe_bind; [auto with safe|intros cluster Hcl%decoded_text].
  do 8 (apply safe_bind; [auto with safe|intros ? _]).
  apply safe_bind; [by apply safe_validate|auto with safe].
Qed.

Lemma safe_decode_release frame : safe (decode_release_request frame).
Proof.
  unfold decode_release_request. apply safe_bind; [auto with safe|intros h _].
  apply safe_bind; [auto with safe|intros _ _].
  apply safe_bind; [auto with safe|intros [m g] _].
  apply safe_bind; [auto with safe|intros u Hd%exact_fields]. safely.
Qed.

Lemma safe_decode_lookup frame : safe (decode_get_reservations_request frame).
Proof.
  unfold decode_get_reservations_request. apply safe_bind; [auto with safe|intros h _].
  apply safe_bind; [auto with safe|intros _ _].
  apply safe_bind; [auto with safe|intros [m g] _].
  apply safe_bind; [auto with safe|intros u Hd%exact_fields]. safely.
Qed.

Lemma safe_decode_lookup_response frame : safe (decode_get_reservations_response frame).
Proof.
  unfold decode_get_reservations_response. apply safe_bind; [auto with safe|intros h _].
  apply safe_bind; [auto with safe|intros _ _].
  apply safe_bind; [auto with safe|intros [m g] Hc].
  apply safe_bind; [auto with safe|intros u Hd%exact_field]. safely.
Qed.

#[export] Hint Resolve safe_admission safe_decode_release safe_decode_lookup : safe.

Lemma safe_decode_reserve frame : safe (decode_reserve_request frame).
Proof. unfold decode_reserve_request. safely. Qed.

Lemma safe_decode_evaluate frame : safe (decode_evaluate_request frame).
Proof. unfold decode_evaluate_request. safely. Qed.

#[export] Hint Resolve safe_decode_reserve safe_decode_evaluate : safe.

Lemma safe_decode_request frame : safe (decode_request frame).
Proof.
  unfold decode_request. safely.
Qed.

(** ** Decoded requests are accepted by the encoders *)

(** An encoder part that does not fail and writes at most [n] bytes. *)
Definition part_fits (n : nat) (part : result bytes) : Prop :=
  exists b, part = Ok b /\ (length b <= n)%nat.

Lemma fits_u64 f v : 0 <= v < 2 ^ 64 -> part_fits 16 (_u64 f v).
Proof.
  intros. unfold part_fits, _u64. rewrite uint_intro, ok_bind by done.
  eexists. split; [done|]. by rewrite tlv_length, be_encode_length.
Qed.

Lemma fits_u32 f v : 0 <= v < 2 ^ 32 -> part_fits 16 (_u32 f v).
Proof.
  intros. unfold part_fits, _u32. rewrite uint_intro, ok_bind by done.
  eexists. split; [done|]. rewrite tlv_length, be_encode_length. vm_compute. lia.
Qed.

Lemma fits_text f s maximum :
  valid_text maximum s -> part_fits (Z.to_nat maximum + 11) (_text f s maximum).
Proof.
  intros Hs. destruct (Hs (enum_name f)) as [b Hb]. unfold part_fits, _text.
  rewrite Hb, ok_bind. eexists. split; [done|]. rewrite tlv_length.
  apply string_ok in Hb as (_ & _ & Hl & _). pose proof (padding_small (length b)). lia.
Qed.

Lemma fits_if_some {A} n (f : A -> result bytes) o :
  (forall a, o = Some a -> part_fits n (f a)) -> part_fits n (if_some f o).
Proof. intros H. destruct o; [by apply H|]. exists []. simpl. split; [done|lia]. Qed.

Lemma fits_bjoin n parts :
  Forall (part_fits n) parts -> part_fits (length parts * n) (bjoin parts).
Proof.
  intros H. unfold part_fits, bjoin.
  assert (exists bs : list bytes, mapR id parts = Ok bs /\ (length (concat bs) <= length parts * n)%nat)
    as (bs & Hbs & Hl); [|exists (concat bs); split; [|done]; unfold mbind, res_mbind; by rewrite Hbs].
  induction H as [|p parts (b & Hb & Hl) _ (bs & Hbs & IH)]; [by exists []|].
  exists (b :: bs). cbn [mapR concat length Nat.mul]. change (id p) with p. rewrite Hb, ok_bind, Hbs, ok_bind.
  split; [done|]. rewrite length_app. lia.
Qed.

Lemma frame_fits mt c p :
  0 < c < 2 ^ 64 -> Z.of_nat (length p) <= MAX_FRAME_SIZE - Z.of_nat HEADER_SIZE ->
  exists f, _frame mt c p = Ok f.
Proof. intros. eexists. apply frame_inv. split_and!; [done|lia..]. Qed.

Lemma part_fits_le n n' p : (n <= n')%nat -> part_fits n p -> part_fits n' p.
Proof. intros ? (b & ? & ?). exists b. split; [done|lia]. Qed.

(** The part of a service. *)
Lemma fits_service s :
  valid_text MAX_SERVICE_ID s ->
  part_fits 300 (nested ← _text SERVICE_ID s MAX_SERVICE_ID; Ok (_tlv SERVICE_REQUEST nested)).
Proof.
  intros (b & Hb & Hl)%(fits_text SERVICE_ID). unfold part_fits. rewrite Hb, ok_bind. eexists. split; [done|].
  rewrite tlv_length. pose proof (padding_small (length b)). unfold MAX_SERVICE_ID in Hl. lia.
Qed.

Lemma valid_text_intro maximum s label b : _string s maximum label = Ok b -> valid_text maximum s.
Proof. intros H label'. apply string_ok in H. exists b. by apply string_ok. Qed.

Lemma validated_services l :
  iterR (fun s => _ ← _string s MAX_SERVICE_ID (txt "service_id"); Ok tt) l = Ok tt ->
  Forall (valid_text MAX_SERVICE_ID) l.
Proof.
  intros H%iterR_ok. eapply Forall_impl; [exact H|]. intros s Hs.
  apply bind_ok in Hs as (b & Hb & _). by eapply valid_text_intro.
Qed.

Lemma fits_u64' f v : 0 <= v < 2 ^ 64 -> part_fits 300 (_u64 f v).
Proof. intros. apply (part_fits_le 16); [lia|by apply fits_u64]. Qed.
Lemma fits_u32' f v : 0 <= v < 2 ^ 32 -> part_fits 300 (_u32 f v).
Proof. intros. apply (part_fits_le 16); [lia|by apply fits_u32]. Qed.
Lemma fits_cluster f s : valid_text MAX_CLUSTER_NAME s -> part_fits 300 (_text f s MAX_CLUSTER_NAME).
Proof.
  intros. eapply part_fits_le, fits_text; [vm_compute; lia|done].
Qed.

Create HintDb part_fits discriminated.
#[export] Hint Resolve fits_u64' fits_u32' fits_cluster fits_if_some : part_fits.

(** Compute the ranges a chain of successful checks establishes. *)
Ltac ranges :=
  repeat match goal with
  | H : _uint _ _ _ _ = Ok _ |- _ => apply uint_ok in H as (-> & ? & ?)
  | H : match ?o with Some _ => _ | None => Ok tt end = Ok ?u |- _ =>
      is_var u; destruct o eqn:?; inv_ok
  end.

Lemma opt_range (o : option Z) label u :
  match o with Some v => _ ← _uint v 64 label false; Ok tt | None => Ok tt end = Ok u ->
  forall v, o = Some v -> 0 <= v < 2 ^ 64.
Proof. intros H v ->. inv_ok. by apply uint_ok in E as (_ & ? & _). Qed.

(** The parts of a validated workload. *)
Lemma fits_workload w :
  _validate_workload w = Ok tt ->
  Forall (part_fits 300)
    [_u32 WORKLOAD_KIND (enum_code (Workload.kind w));
     _u64 WALLTIME_NS (Workload.walltime_ns w);
     _u64 CIRCUIT_COUNT (Workload.circuit_count w);
     _u32 MAX_QUBITS (Workload.max_qubits w);
     _u64 MAX_DEPTH (Workload.max_depth w);
     _u64 MAX_SHOTS (Workload.max_shots w);
     if_some (_u64 MAX_ONE_Q_GATES) (Workload.max_one_q_gates w);
     if_some (_u64 MAX_TWO_Q_GATES) (Workload.max_two_q_gates w);
     if_some (_u64 MAX_MEASUREMENTS) (Workload.max_measurements w)].
Proof.
  intros H. unfold _validate_workload in H. inv_ok.
  pose proof (opt_range _ _ _ E5). pose proof (opt_range _ _ _ E4). pose proof (opt_range _ _ _ H).
  clear H E4 E5.
  assert (0 <= enum_code (Workload.kind w) < 2 ^ 32) by by destruct (Workload.kind w).
  ranges. repeat constructor; auto with part_fits.
Qed.

Lemma encode_admission_total r w c mt :
  ReserveRequest.workload r = Some w -> _validate_reserve_request r = Ok tt ->
  0 < c < 2 ^ 64 -> exists f, _encode_admission_request r c mt = Ok f.
Proof.
  intros Hw Hv Hc. unfold _encode_admission_request. rewrite Hv, ok_bind, Hw.
  cbn [if_some]. unfold _validate_reserve_request in Hv. rewrite Hw in Hv. inv_ok.
  apply fits_workload in Hv.
  apply valid_text_intro in E3. destruct a6. apply validated_services in E6 as Hs.
  assert (Forall (part_fits 300) (map (fun s => nested ← _text SERVICE_ID s MAX_SERVICE_ID;
    Ok (_tlv SERVICE_REQUEST nested)) (ReserveRequest.service_ids r)))
    as (services & -> & Hl2)%fits_bjoin
    by (apply Forall_fmap; eapply Forall_impl; [exact Hs|apply fits_service]).
  rewrite length_map in Hl2.
  match goal with |- context [bjoin (?a :: ?b :: ?c :: ?d :: ?e :: ?f :: ?g :: ?l)] =>
    assert (Forall (part_fits 300) ([a; b; c; d; e; f; g] ++ l)) as (p & Hp & Hl)%fits_bjoin end.
  { apply Forall_app. split; [|exact Hv]. ranges.
    assert (forall h, ReserveRequest.hetero_job_id r = Some h -> 0 <= h < 2 ^ 64).
    { intros h Hh. rewrite Hh in E7. case_match; [|done]. inv_ok. by ranges. }
    assert (forall h, ReserveRequest.hetero_component r = Some h -> 0 <= h < 2 ^ 32).
    { intros h Hh. rewrite Hh in E7. case_match; [|done]. inv_ok. by ranges. }
    repeat constructor; auto with part_fits. }
  cbn [app] in Hp. rewrite Hp, !ok_bind.
  apply frame_fits; [done|]. rewrite length_app. simpl in Hl.
  apply negb_false_iff, andb_true_iff in E4 as [_ Hn%Z.leb_le].
  change (MAX_FRAME_SIZE - Z.of_nat HEADER_SIZE) with 262112. unfold MAX_SERVICES in Hn. lia.
Qed.

Lemma decoded_admission frame mt h r :
  _decode_admission_request frame mt = Ok (h, r) -> _validate_reserve_request r = Ok tt.
Proof.
  intros H. unfold _decode_admission_request in H. inv_ok. destruct a1 as [m g]. inv_ok.
  by match goal with H : _validate_reserve_request _ = Ok ?u |- _ => destruct u end.
Qed.

Lemma encode_release_total r c :
  0 < ReleaseRequest.request_id r < 2 ^ 64 -> 0 < ReleaseRequest.canonical_job_id r < 2 ^ 64 ->
  0 <= ReleaseRequest.reason r < 2 ^ 32 ->
  valid_text MAX_CLUSTER_NAME (ReleaseRequest.cluster_name r) -> 0 < c < 2 ^ 64 ->
  exists f, encode_release_request r c = Ok f.
Proof.
  intros Hi Hj Hr Hs Hc. unfold encode_release_request.
  destruct (Hs (txt "cluster_name")) as [b Hb].
  rewrite Hb, !uint_intro, !ok_bind by lia.
  match goal with |- context [bjoin ?l] =>
    assert (Forall (part_fits 300) l) as (p & -> & Hl)%fits_bjoin end.
  { assert (0 <= ReleaseRequest.request_id r < 2 ^ 64) by lia.
    assert (0 <= ReleaseRequest.canonical_job_id r < 2 ^ 64) by lia.
    repeat constructor; auto with part_fits. }
  rewrite ok_bind. apply frame_fits; [done|]. simpl in Hl.
  change (MAX_FRAME_SIZE - Z.of_nat HEADER_SIZE) with 262112. lia.
Qed.

Lemma encode_lookup_total r c :
  0 < GetReservationsRequest.request_id r < 2 ^ 64 ->
  0 < GetReservationsRequest.observed_job_id r < 2 ^ 64 ->
  0 <= GetReservationsRequest.job_uid r < 2 ^ 32 ->
  0 <= GetReservationsRequest.job_gid r < 2 ^ 32 ->
  valid_text MAX_CLUSTER_NAME (GetReservationsRequest.cluster_name r) -> 0 < c < 2 ^ 64 ->
  exists f, encode_get_reservations_request r c = Ok f.
Proof.
  intros Hi Hj Hu Hg Hs Hc. unfold encode_get_reservations_request.
  destruct (Hs (txt "cluster_name")) as [b Hb].
  rewrite Hb, !uint_intro, !ok_bind by lia.
  match goal with |- context [bjoin ?l] =>
    assert (Forall (part_fits 300) l) as (p & -> & Hl)%fits_bjoin end.
  { assert (0 <= GetReservationsRequest.request_id r < 2 ^ 64) by lia.
    assert (0 <= GetReservationsRequest.observed_job_id r < 2 ^ 64) by lia.
    repeat constructor; auto with part_fits. }
  rewrite ok_bind. apply frame_fits; [done|]. simpl in Hl.
  change (MAX_FRAME_SIZE - Z.of_nat HEADER_SIZE) with 262112. lia.
Qed.

Lemma item_u32_range m f label z : item_u32 m f label = Ok z -> 0 <= z < 2 ^ 32.
Proof. intros H. unfold item_u32 in H. inv_ok. by eapply decode_u32_ok. Qed.

Lemma item_text_valid m f maximum label s :
  item_text m f maximum label = Ok s -> valid_text maximum s.
Proof. intros H. unfold item_text in H. inv_ok. by eapply decoded_text. Qed.

(** What the read items of a decoder guarantee. *)
Ltac decoded :=
  repeat match goal with
  | H : item_text _ _ _ _ = Ok _ |- _ => apply item_text_valid in H
  | H : item_u32 _ _ _ = Ok _ |- _ => apply item_u32_range in H
  | H : _uint ?v _ _ true = Ok _ |- _ =>
      let Hnz := fresh in apply uint_ok in H as (-> & ? & Hnz);
      assert (0 < v) by (specialize (Hnz eq_refl); lia); clear Hnz
  end.

Lemma decoded_release frame h r c :
  decode_release_request frame = Ok (h, r) -> 0 < c < 2 ^ 64 ->
  exists f, encode_release_request r c = Ok f.
Proof.
  intros H Hc. unfold decode_release_request in H. inv_ok. destruct a1 as [m g]. inv_ok.
  decoded. apply encode_release_total; cbn; done || lia.
Qed.

Lemma decoded_lookup frame h r c :
  decode_get_reservations_request frame = Ok (h, r) -> 0 < c < 2 ^ 64 ->
  exists f, encode_get_reservations_request r c = Ok f.
Proof.
  intros H Hc. unfold decode_get_reservations_request in H. inv_ok.
  destruct a1 as [m g]. inv_ok.
  decoded. apply encode_lookup_total; cbn; done || lia.
Qed.
