(* ===== verification/ProtocolProps.v ===== *)
(** * Properties of the QSGP protocol module

    Requests survive encoding and decoding, the decoders are total up to
    [ProtocolError], what they accept the encoders accept, every frame is
    within its bound, and diagnostics are cut at a character boundary. *)

From S2P Require Import Prelude Python Utf8 Struct Enums Messages Wire WireFacts Codec CodecFacts RoundTrip DecodeFacts.
Local Open Scope Z_scope.

(** The encoder of each class of request (the clients choose it by name). *)
Definition encode_request (q : request) (correlation_id : Z) : result bytes :=
  match q with
  | EvaluateRequest r => encode_evaluate_request r correlation_id
  | ReserveRequest r => encode_reserve_request r correlation_id
  | ReleaseRequest r => encode_release_request r correlation_id
  | GetReservationsRequest r => encode_get_reservations_request r correlation_id
  end.

Definition request_type (q : request) : MessageType.t :=
  match q with
  | EvaluateRequest _ => MessageType.EVALUATE_REQUEST
  | ReserveRequest _ => MessageType.RESERVE_REQUEST
  | ReleaseRequest _ => MessageType.RELEASE_REQUEST
  | GetReservationsRequest _ => MessageType.GET_RESERVATIONS_REQUEST
  end.

Definition response_type (r : response) : MessageType.t :=
  match r with
  | EvaluateResponse _ => MessageType.EVALUATE_RESPONSE
  | ReserveResponse _ => MessageType.RESERVE_RESPONSE
  | ReleaseResponse _ => MessageType.RELEASE_RESPONSE
  | GetReservationsResponse _ => MessageType.GET_RESERVATIONS_RESPONSE
  | ErrorResponse _ => MessageType.ERROR_RESPONSE
  end.

(** A 29-qubit request of job 7 for two services, with one optional bound. *)
Definition sample_request : ReserveRequest.t :=
  ReserveRequest.mk 11 (txt "hpc") 7 1000 100
    (Some (Workload.mk WorkloadKind.HYBRID 3600 4 29 1000 8192 (Some 12) None (Some 0)))
    [txt "aer"; txt "qpu-1"] (Some 7) (Some 0).

(** ** Helpers *)

(** A decoder accepts only a frame whose header has its message type. *)
Lemma decoded_header {A} (mt : MessageType.t) m (rest : Header.t -> result (Header.t * A)) frame h r :
  (header ← decode_header frame;
   _ ← raise_if (negb (bool_decide (Header.message_type header = mt))) (ProtocolError m);
   rest header) = Ok (h, r) ->
  (forall h', rest h' = Ok (h, r) -> h' = h) ->
  decode_header frame = Ok h /\ Header.message_type h = mt.
Proof.
  intros H Hrest. inv_ok. apply Hrest in H. subst a. split; [done|].
  apply negb_false_iff in E0. by apply bool_decide_eq_true in E0.
Qed.

Ltac decoded_by d :=
  intros H; unfold d in H; refine (decoded_header _ _ _ _ _ _ H _);
  clear H; intros h' H; inv_ok;
  repeat match goal with p : (_ * _)%type |- _ => destruct p end; inv_ok; congruence.

Lemma admission_header frame mt h r :
  _decode_admission_request frame mt = Ok (h, r) ->
  decode_header frame = Ok h /\ Header.message_type h = mt.
Proof. decoded_by _decode_admission_request. Qed.

Lemma release_header frame h r :
  decode_release_request frame = Ok (h, r) ->
  decode_header frame = Ok h /\ Header.message_type h = MessageType.RELEASE_REQUEST.
Proof. decoded_by decode_release_request. Qed.

Lemma lookup_header frame h r :
  decode_get_reservations_request frame = Ok (h, r) ->
  decode_header frame = Ok h /\ Header.message_type h = MessageType.GET_RESERVATIONS_REQUEST.
Proof. decoded_by decode_get_reservations_request. Qed.

(** [decode_request] on a frame that the decoder of its type accepts. *)
Lemma dispatch_request q frame h :
  match q with
  | EvaluateRequest r =>
      _decode_admission_request frame MessageType.EVALUATE_REQUEST = Ok (h, r) /\
      ReserveRequest.workload r <> None
  | ReserveRequest r =>
      _decode_admission_request frame MessageType.RESERVE_REQUEST = Ok (h, r) /\
      ReserveRequest.workload r <> None
  | ReleaseRequest r => decode_release_request frame = Ok (h, r)
  | GetReservationsRequest r => decode_get_reservations_request frame = Ok (h, r)
  end <-> decode_request frame = Ok (h, q).
Proof.
  unfold decode_request, decode_evaluate_request, decode_reserve_request. split.
  - destruct q as [r|r|r|r].
    1,2: intros [H Hw]; destruct (admission_header _ _ _ _ H) as [-> Hm];
      rewrite ok_bind, Hm, H, !ok_bind, raise_if_bind by (by apply bool_decide_eq_false);
      done.
    + intros H. destruct (release_header _ _ _ H) as [-> Hm]. by rewrite ok_bind, Hm, H.
    + intros H. destruct (lookup_header _ _ _ H) as [-> Hm]. by rewrite ok_bind, Hm, H.
  - intros H. inv_ok. destruct (Header.message_type a); try done; inv_ok;
      repeat match goal with p : (_ * _)%type |- _ => destruct p end; inv_ok; subst;
      try done; split; try done; by eapply bool_decide_eq_false.
Qed.

Lemma dispatch_roundtrip q c f :
  encode_request q c = Ok f ->
  exists h, is_header h (request_type q) c f /\ decode_request f = Ok (h, q).
Proof.
  intros H. destruct q as [r|r|r|r]; simpl in H.
  1,2: unfold encode_evaluate_request, encode_reserve_request in H; inv_ok;
    apply bool_decide_eq_false in E; destruct (ReserveRequest.workload r) as [w|] eqn:Hw; [|done];
    destruct (admission_roundtrip _ _ _ _ _ Hw H) as (h & Hh & Hd);
    exists h; split; [done|]; apply dispatch_request; split; [done|by rewrite Hw].
  - destruct (release_roundtrip _ _ _ H) as (h & Hh & Hd). exists h. split; [done|].
    by apply dispatch_request.
  - destruct (lookup_roundtrip _ _ _ H) as (h & Hh & Hd). exists h. split; [done|].
    by apply dispatch_request.
Qed.

Lemma dispatch_reencode q c f h :
  decode_request f = Ok (h, q) -> 0 < c < 2 ^ 64 ->
  exists f', encode_request q c = Ok f'.
Proof.
  intros H%dispatch_request Hc. destruct q as [r|r|r|r]; simpl.
  1,2: destruct H as [H Hw]; destruct (ReserveRequest.workload r) as [w|] eqn:E; [|done];
    apply decoded_admission in H; unfold encode_evaluate_request, encode_reserve_request;
    rewrite raise_if_bind by (by rewrite E); by apply (encode_admission_total r w).
  - by eapply decoded_release.
  - by eapply decoded_lookup.
Qed.

Lemma encode_response_framed r c f :
  encode_response r c = Ok f -> exists p, _frame (response_type r) c p = Ok f.
Proof.
  intros H. destruct r as [r|r|r|r|r]; simpl in H |- *;
    [unfold encode_evaluate_response, _encode_admission_response in H
    |unfold encode_reserve_response, _encode_admission_response in H
    |unfold encode_release_response in H
    |unfold encode_get_reservations_response in H
    |unfold encode_error_response in H]; inv_ok; eauto.
Qed.

(** A character takes at most four bytes. *)
Lemma utf8_char_length c b : utf8_char c = Some b -> (length b <= 4)%nat.
Proof. unfold utf8_char. intros H. repeat case_match; simplify_eq; simpl; lia. Qed.

Lemma sanitize_length v : length (utf8_sanitize v) = length v.
Proof. apply length_map. Qed.

Lemma bounded_diagnostic_prefix v :
  exists k b, bounded_diagnostic v = take k (utf8_sanitize v) /\
    utf8_encode (bounded_diagnostic v) = Some b /\
    Z.of_nat (length b) <= MAX_DIAGNOSTIC /\
    forall b', (k < length v)%nat -> utf8_encode (take (S k) (utf8_sanitize v)) = Some b' ->
      MAX_DIAGNOSTIC < Z.of_nat (length b').
Proof.
  pose proof (utf8_encode_replace_sanitize v) as He. unfold bounded_diagnostic.
  destruct (Z.leb_spec (Z.of_nat (length (utf8_encode_replace v))) MAX_DIAGNOSTIC).
  - rewrite (utf8_decode_encode _ _ He). exists (length v), (utf8_encode_replace v). simpl.
    rewrite <-(sanitize_length v), firstn_all.
    split_and!; [done|done|done|]. intros. lia.
  - destruct (utf8_ignore_take _ _ (Z.to_nat MAX_DIAGNOSTIC) He) as (k & b & Hk & Hb & Hl & Hn).
    assert (0 <= MAX_DIAGNOSTIC) by done.
    exists k, b. rewrite Hk. split_and!; [done|done|lia|].
    intros b' ? Hb'. rewrite sanitize_length in Hn. specialize (Hn b' ltac:(done) Hb'). lia.
Qed.

(** Only the empty text has an empty diagnostic. *)
Lemma bounded_diagnostic_nil v : bounded_diagnostic v = [] <-> v = [].
Proof.
  split; [|by intros ->]. intros H. destruct v as [|c v]; [done|exfalso].
  destruct (bounded_diagnostic_prefix (c :: v)) as (k & b & Hk & _ & _ & Hn).
  rewrite H in Hk. destruct k as [|k]; [|done].
  destruct (utf8_char c) as [bc|] eqn:E.
  - assert (utf8_encode (take 1 (utf8_sanitize (c :: v))) = Some bc) as Hb.
    { simpl. rewrite E. simpl. rewrite E. simpl. by rewrite app_nil_r. }
    apply utf8_char_length in E. specialize (Hn bc ltac:(simpl; lia) Hb).
    unfold MAX_DIAGNOSTIC in Hn. lia.
  - assert (utf8_encode (take 1 (utf8_sanitize (c :: v))) = Some [z2b 63]) as Hb.
    { simpl. by rewrite E. }
    by specialize (Hn [z2b 63] ltac:(simpl; lia) Hb).
Qed.

Lemma utf8_encode_has_nul s b : utf8_encode s = Some b -> 0 ∈ s -> Byte.x00 ∈ b.
Proof.
  intros H (s1 & s2 & ->)%list_elem_of_split. rewrite utf8_encode_app in H.
  apply bind_Some in H as (b1 & _ & H). apply bind_Some in H as (b2 & H2 & [= <-]).
  simpl in H2. apply bind_Some in H2 as (b3 & _ & [= <-]).
  apply elem_of_app. right. change (z2b 0) with Byte.x00. by apply elem_of_cons; left.
Qed.

(** ** Properties *)

(** C16 Every request a client can encode is decoded by the gateway to the same
    request of the same class, with the correlation id, version and payload
    size of its frame in the header. *)
Theorem request_roundtrip q c f :
  encode_request q c = Ok f ->
  exists h, is_header h (request_type q) c f /\ decode_request f = Ok (h, q).
Proof. apply dispatch_roundtrip. Qed.

Lemma request_roundtrip_witness :
  exists f, encode_request (ReserveRequest sample_request) 5 = Ok f /\
  exists h, is_header h MessageType.RESERVE_REQUEST 5 f /\
    decode_request f = Ok (h, ReserveRequest sample_request).
Proof.
  eexists. split; [vm_compute; reflexivity|].
  apply (request_roundtrip (ReserveRequest sample_request)). vm_compute. reflexivity.
Defined.

(** C17 On every byte string, [decode_request] returns a request or raises
    [ProtocolError]: the guards on the field sets exclude [KeyError], and
    re-validating decoded text cannot raise [UnicodeEncodeError]. *)
Theorem decode_request_only_protocol_errors f :
  match decode_request f with
  | Ok _ => True
  | Raise e => exists m, e = ProtocolError m
  end.
Proof.
  destruct (decode_request f) as [|e] eqn:E; [done|]. by apply safe_decode_request in E.
Qed.

(** C13 A request the gateway accepts is within the wire bounds: the encoder
    accepts it under any valid correlation id, and decoding that canonical
    frame gives the same request, whatever the order or the optional unknown
    fields of the original frame. *)
Theorem decoded_request_canonical q c f h :
  decode_request f = Ok (h, q) -> 0 < c < 2 ^ 64 ->
  exists f' h', encode_request q c = Ok f' /\ decode_request f' = Ok (h', q) /\
    is_header h' (request_type q) c f'.
Proof.
  intros H Hc. destruct (dispatch_reencode _ _ _ _ H Hc) as [f' Hf].
  destruct (dispatch_roundtrip _ _ _ Hf) as (h' & Hh & Hd). by exists f', h'.
Qed.

Lemma decoded_request_canonical_witness :
  exists f h, decode_request f = Ok (h, ReserveRequest sample_request) /\
  exists f' h', encode_request (ReserveRequest sample_request) 9 = Ok f' /\
    decode_request f' = Ok (h', ReserveRequest sample_request) /\
    is_header h' (request_type (ReserveRequest sample_request)) 9 f'.
Proof.
  destruct (encode_request (ReserveRequest sample_request) 5) as [f|] eqn:E;
    [|vm_compute in E; discriminate E].
  destruct (dispatch_roundtrip _ _ _ E) as (h & _ & Hd).
  exists f, h. split; [exact Hd|].
  apply (decoded_request_canonical _ _ _ _ Hd). split; vm_compute; reflexivity.
Defined.

(** The lookup response of the gateway is decoded by the client to the same
    reservations. *)
Theorem get_reservations_response_roundtrip r c f :
  encode_get_reservations_response r c = Ok f ->
  exists h, is_header h MessageType.GET_RESERVATIONS_RESPONSE c f /\
    decode_get_reservations_response f = Ok (h, r).
Proof. apply response_roundtrip. Qed.

Definition sample_lookup : GetReservationsResponse.t :=
  GetReservationsResponse.mk 11 7
    [Reservation.mk (txt "aer") 41; Reservation.mk (txt "qpu-1") (2 ^ 64 - 1)].

Lemma get_reservations_response_roundtrip_witness :
  exists f, encode_get_reservations_response sample_lookup 5 = Ok f /\
  exists h, is_header h MessageType.GET_RESERVATIONS_RESPONSE 5 f /\
    decode_get_reservations_response f = Ok (h, sample_lookup).
Proof.
  eexists. split; [vm_compute; reflexivity|].
  apply get_reservations_response_roundtrip. vm_compute. reflexivity.
Defined.

(** C25 Every response the gateway sends fits one frame, and its header
    announces the type of the response, the correlation id of the request and
    the payload that follows. *)
Theorem response_frame r c f :
  encode_response r c = Ok f ->
  Z.of_nat (length f) <= MAX_FRAME_SIZE /\
  decode_header f = Ok (Header.mk (response_type r) c
    (Z.of_nat (length (payload_of f))) VERSION_MAJOR VERSION_MINOR).
Proof.
  intros [p (_ & _ & Hm & -> & Hd)%frame_ok]%encode_response_framed. done.
Qed.

Definition sample_response : response :=
  ReserveResponse (ReserveResponse.mk 11 AdmissionDecision.ACCEPTED
    [ServiceResult.mk (txt "aer") AdmissionDecision.ACCEPTED 0 (Some 41)
       None None None (Some (txt "runtime-1")) (Some 3) None]).

Lemma response_frame_witness :
  exists f, encode_response sample_response 5 = Ok f /\
  Z.of_nat (length f) <= MAX_FRAME_SIZE /\
  decode_header f = Ok (Header.mk MessageType.RESERVE_RESPONSE 5
    (Z.of_nat (length (payload_of f))) VERSION_MAJOR VERSION_MINOR).
Proof.
  eexists. split; [vm_compute; reflexivity|].
  apply (response_frame sample_response). vm_compute. reflexivity.
Defined.

(** C26 [bounded_diagnostic] keeps the longest prefix of the text (with each
    unencodable character replaced by a question mark) whose UTF-8 form fits
    [MAX_DIAGNOSTIC] bytes: it never cuts inside a character. *)
Theorem bounded_diagnostic_longest v :
  exists k b, bounded_diagnostic v = take k (utf8_sanitize v) /\
    utf8_encode (bounded_diagnostic v) = Some b /\
    Z.of_nat (length b) <= MAX_DIAGNOSTIC /\
    forall b', (k < length v)%nat -> utf8_encode (take (S k) (utf8_sanitize v)) = Some b' ->
      MAX_DIAGNOSTIC < Z.of_nat (length b').
Proof. apply bounded_diagnostic_prefix. Qed.

(** A bounded diagnostic is accepted by the wire string check exactly when
    it is nonempty and has no NUL; the length never is the obstacle. *)
Theorem bounded_diagnostic_encodes v label :
  (exists b, _string (bounded_diagnostic v) MAX_DIAGNOSTIC label = Ok b) <->
  v <> [] /\ 0 ∉ bounded_diagnostic v.
Proof.
  destruct (bounded_diagnostic_prefix v) as (k & b & _ & Hb & Hl & _).
  rewrite <-bounded_diagnostic_nil. split.
  - intros (b' & (Hs & He & _ & Hn)%string_ok). split; [done|].
    intros H0. apply Hn. by eapply utf8_encode_has_nul.
  - intros [Hs H0]. exists b. apply string_ok. split_and!; [done..|].
    intros Hx. by eapply H0, utf8_encode_nul.
Qed.
