(* ===== verification/Values.v ===== *)
(** * Dynamic values

    The JSON-like Python values that reach the gateway from outside (QPM
    replies, the parsed output of [scontrol]) and that it stores (response
    documents): lookups, truth value, text and integer conversions with the
    exceptions Python raises on the wrong type, and [json.dumps] with sorted
    keys and compact separators. *)

From S2P Require Import Prelude Python.
Local Open Scope Z_scope.

(** A [dict] is its list of items in insertion order, with distinct string
    keys. *)
Inductive pyval :=
| PNone
| PBool (b : bool)
| PInt (z : Z)
| PStr (s : str)
| PList (l : list pyval)
| PDict (d : list (str * pyval)).

Definition PUint (o : option Z) : pyval := match o with Some z => PInt z | None => PNone end.
Definition PText (o : option str) : pyval := match o with Some s => PStr s | None => PNone end.

Section pyval_ind.
Context (P : pyval -> Prop).
Hypothesis (Pnone : P PNone) (Pbool : forall b, P (PBool b)) (Pint : forall z, P (PInt z))
  (Pstr : forall s, P (PStr s)) (Plist : forall l, Forall P l -> P (PList l))
  (Pdict : forall d, Forall (fun kv => P kv.2) d -> P (PDict d)).

(** Induction with the hypothesis for every element of a list or dict. *)
Fixpoint pyval_rect' (v : pyval) : P v :=
  match v with
  | PNone => Pnone
  | PBool b => Pbool b
  | PInt z => Pint z
  | PStr s => Pstr s
  | PList l =>
      Plist l ((fix go l : Forall P l :=
        match l with
        | [] => Forall_nil_2 _
        | x :: l => Forall_cons_2 _ _ _ (pyval_rect' x) (go l)
        end) l)
  | PDict d =>
      Pdict d ((fix go d : Forall (fun kv => P kv.2) d :=
        match d with
        | [] => Forall_nil_2 _
        | (k, x) :: d => Forall_cons_2 (fun kv => P kv.2) (k, x) _ (pyval_rect' x) (go d)
        end) d)
  end.
End pyval_ind.

#[export] Instance pyval_eq_dec : EqDecision pyval.
Proof.
  refine (fix go (a b : pyval) : Decision (a = b) :=
    match a, b with
    | PNone, PNone => left eq_refl
    | PBool x, PBool y => cast_if (decide (x = y))
    | PInt x, PInt y => cast_if (decide (x = y))
    | PStr x, PStr y => cast_if (decide (x = y))
    | PList x, PList y => cast_if (@list_eq_dec _ go x y)
    | PDict x, PDict y => cast_if (@list_eq_dec _ (@prod_eq_dec _ _ _ go) x y)
    | _, _ => right _
    end); congruence.
Defined.

(** The class name, as error messages print it. *)
Definition type_name (v : pyval) : str :=
  match v with
  | PNone => txt "NoneType"
  | PBool _ => txt "bool"
  | PInt _ => txt "int"
  | PStr _ => txt "str"
  | PList _ => txt "list"
  | PDict _ => txt "dict"
  end.

(** [d.get(key)] on the items of a dict *)
Fixpoint assoc (key : str) (d : list (str * pyval)) : option pyval :=
  match d with
  | [] => None
  | (k, v) :: d => if decide (k = key) then Some v else assoc key d
  end.

(** [d[key] = v]: in place when the key is there, at the end otherwise *)
Fixpoint dict_set (key : str) (v : pyval) (d : list (str * pyval)) : list (str * pyval) :=
  match d with
  | [] => [(key, v)]
  | (k, x) :: d => if decide (k = key) then (k, v) :: d else (k, x) :: dict_set key v d
  end.

(** [v.get(key, default)] *)
Definition py_get_or (v : pyval) (key : str) (dflt : pyval) : result pyval :=
  match v with
  | PDict d => Ok (default dflt (assoc key d))
  | _ => Raise (PyError AttributeError
           (txt "'" ++ type_name v ++ txt "' object has no attribute 'get'"))
  end.

(** [v.get(key)] *)
Definition py_get (v : pyval) (key : str) : result pyval := py_get_or v key PNone.

(** [v[key]] for a string key *)
Definition py_item (v : pyval) (key : str) : result pyval :=
  match v with
  | PDict d =>
      match assoc key d with
      | Some x => Ok x
      | None => Raise (PyError KeyError (repr (ucd := ascii_ucd) key))
      end
  | _ => Raise (PyError TypeError (txt "'" ++ type_name v ++ txt "' object is not subscriptable"))
  end.

(** [for x in v] *)
Definition py_iter (v : pyval) : result (list pyval) :=
  match v with
  | PList l => Ok l
  | PDict d => Ok (map (fun kv => PStr kv.1) d)
  | PStr s => Ok (map (fun c => PStr [c]) s)
  | _ => Raise (PyError TypeError (txt "'" ++ type_name v ++ txt "' object is not iterable"))
  end.

(** [bool(v)] *)
Definition truthy (v : pyval) : bool :=
  match v with
  | PNone => false
  | PBool b => b
  | PInt z => negb (z =? 0)
  | PStr s => negb (bool_decide (s = []))
  | PList l => if l is [] then false else true
  | PDict d => if d is [] then false else true
  end.

(** [a or b] *)
Definition py_or (a b : pyval) : pyval := if truthy a then a else b.

Definition is_dict (v : pyval) : bool := if v is PDict _ then true else false.

Section text.
Context {ucd : UnicodeData}.

(** [repr(v)] *)
Fixpoint py_repr (v : pyval) : str :=
  match v with
  | PNone => txt "None"
  | PBool b => if b then txt "True" else txt "False"
  | PInt z => str_of_Z z
  | PStr s => repr s
  | PList l => txt "[" ++ join (txt ", ") (map py_repr l) ++ txt "]"
  | PDict d =>
      txt "{" ++ join (txt ", ") (map (fun '(k, x) => repr k ++ txt ": " ++ py_repr x) d)
      ++ txt "}"
  end.

(** [str(v)] *)
Definition py_str (v : pyval) : str := if v is PStr s then s else py_repr v.

(** [int(v)] *)
Definition py_int (v : pyval) : result Z :=
  match v with
  | PInt z => Ok z
  | PBool b => Ok (if b then 1 else 0)
  | PStr s =>
      match int_of_str s with
      | Some z => Ok z
      | None => Raise (PyError ValueError
                  (txt "invalid literal for int() with base 10: " ++ repr s))
      end
  | _ => Raise (PyError TypeError
           (txt "int() argument must be a string or a number, not '" ++ type_name v ++ txt "'"))
  end.
End text.

(** ** [json.dumps(v, sort_keys=True, separators=(",", ":"))] *)

(** A code point in a JSON string literal ([ensure_ascii] is on). *)
Definition json_char (c : Z) : str :=
  if (c =? 34) || (c =? 92) then [92; c]
  else if c =? 8 then txt "\b"
  else if c =? 9 then txt "\t"
  else if c =? 10 then txt "\n"
  else if c =? 12 then txt "\f"
  else if c =? 13 then txt "\r"
  else if (32 <=? c) && (c <=? 126) then [c]
  else if c <? 65536 then txt "\u" ++ hex 4 c
  else txt "\u" ++ hex 4 (55296 + (c - 65536) / 1024)
         ++ txt "\u" ++ hex 4 (56320 + (c - 65536) mod 1024).

Definition json_str (s : str) : str := 34 :: (s ≫= json_char) ++ [34].

Fixpoint json_dumps (v : pyval) : str :=
  match v with
  | PNone => txt "null"
  | PBool b => if b then txt "true" else txt "false"
  | PInt z => str_of_Z z
  | PStr s => json_str s
  | PList l => txt "[" ++ join (txt ",") (map json_dumps l) ++ txt "]"
  | PDict d =>
      txt "{"
      ++ join (txt ",")
           (map snd (sort_by str_leb fst
              (map (fun '(k, x) => (k, json_str k ++ txt ":" ++ json_dumps x)) d)))
      ++ txt "}"
  end.

(** [json.dumps(v, indent=2, sort_keys=True)] at an indentation *)
Definition newline (indent : nat) : str := 10 :: replicate indent 32.

Definition json_block (opening closing : string) (indent : nat) (items : list str) : str :=
  if bool_decide (items = []) then txt opening ++ txt closing
  else txt opening ++ newline (indent + 2) ++ join (txt "," ++ newline (indent + 2)) items
       ++ newline indent ++ txt closing.

Fixpoint json_pretty (indent : nat) (v : pyval) : str :=
  match v with
  | PList l => json_block "[" "]" indent (map (json_pretty (indent + 2)) l)
  | PDict d =>
      json_block "{" "}" indent
        (map snd (sort_by str_leb fst
           (map (fun '(k, x) => (k, json_str k ++ txt ": " ++ json_pretty (indent + 2) x)) d)))
  | v => json_dumps v
  end.

(** ** Facts *)

Lemma assoc_dict_set key v d : assoc key (dict_set key v d) = Some v.
Proof.
  induction d as [|[k x] d IH]; simpl; [by rewrite decide_True|].
  destruct (decide (k = key)); simpl; [by rewrite decide_True|]. by rewrite decide_False.
Qed.

Lemma assoc_dict_set_ne key key' v d :
  key <> key' -> assoc key (dict_set key' v d) = assoc key d.
Proof.
  intros Hne. induction d as [|[k x] d IH]; simpl; [by rewrite decide_False by done|].
  destruct (decide (k = key')); simpl; [subst; by rewrite !decide_False by done|].
  by destruct (decide (k = key)).
Qed.
