(* ===== verification/ResponseDict.v ===== *)
(** * Stored response documents ([protocol.py], lines 1005-1098)

    [response_to_dict] and [response_from_dict], which carry responses through
    the journal. The records of [Messages] are typed, so reading a field of a
    document at another type than [response_to_dict] writes raises [TypeError]
    here, where Python would build a record that holds the wrong type. *)

From S2P Require Import Prelude Python Enums Messages Values.
Local Open Scope Z_scope.

(** ** Writing *)

(** [int(value)] of an enumeration member, as [_enum_values] converts it *)
Definition enum_int {E} `{IntEnum E} (e : E) : pyval := PInt (enum_code e).

Definition service_result_dict (r : ServiceResult.t) : pyval := PDict [
  (txt "service_id", PStr (ServiceResult.service_id r));
  (txt "decision", enum_int (ServiceResult.decision r));
  (txt "reason_code", PInt (ServiceResult.reason_code r));
  (txt "reservation_id", PUint (ServiceResult.reservation_id r));
  (txt "retry_after_ns", PUint (ServiceResult.retry_after_ns r));
  (txt "estimated_start_ns", PUint (ServiceResult.estimated_start_ns r));
  (txt "estimated_finish_ns", PUint (ServiceResult.estimated_finish_ns r));
  (txt "qpm_runtime_id", PText (ServiceResult.qpm_runtime_id r));
  (txt "qpm_generation", PUint (ServiceResult.qpm_generation r));
  (txt "diagnostic", PText (ServiceResult.diagnostic r))].

Definition release_result_dict (r : ReleaseResult.t) : pyval := PDict [
  (txt "service_id", PStr (ReleaseResult.service_id r));
  (txt "reservation_id", PInt (ReleaseResult.reservation_id r));
  (txt "state", enum_int (ReleaseResult.state r));
  (txt "gateway_error", match ReleaseResult.gateway_error r with
                        | Some e => enum_int e | None => PNone end);
  (txt "diagnostic", PText (ReleaseResult.diagnostic r))].

Definition reservation_dict (r : Reservation.t) : pyval := PDict [
  (txt "service_id", PStr (Reservation.service_id r));
  (txt "reservation_id", PInt (Reservation.reservation_id r))].

Definition admission_dict (r : ReserveResponse.t) : list (str * pyval) := [
  (txt "request_id", PInt (ReserveResponse.request_id r));
  (txt "decision", enum_int (ReserveResponse.decision r));
  (txt "results", PList (map service_result_dict (ReserveResponse.results r)))].

(** [type(response).__name__] *)
Definition response_class (r : response) : str :=
  match r with
  | EvaluateResponse _ => txt "EvaluateResponse"
  | ReserveResponse _ => txt "ReserveResponse"
  | ReleaseResponse _ => txt "ReleaseResponse"
  | GetReservationsResponse _ => txt "GetReservationsResponse"
  | ErrorResponse _ => txt "ErrorResponse"
  end.

(** [dataclasses.asdict(response)] after [_enum_values] *)
Definition response_fields (r : response) : list (str * pyval) :=
  match r with
  | EvaluateResponse r | ReserveResponse r => admission_dict r
  | ReleaseResponse r => [
      (txt "request_id", PInt (ReleaseResponse.request_id r));
      (txt "results", PList (map release_result_dict (ReleaseResponse.results r)))]
  | GetReservationsResponse r => [
      (txt "request_id", PInt (GetReservationsResponse.request_id r));
      (txt "canonical_job_id", PInt (GetReservationsResponse.canonical_job_id r));
      (txt "reservations",
        PList (map reservation_dict (GetReservationsResponse.reservations r)))]
  | ErrorResponse r => [
      (txt "error_code", enum_int (ErrorResponse.error_code r));
      (txt "request_id", PUint (ErrorResponse.request_id r));
      (txt "diagnostic", PText (ErrorResponse.diagnostic r))]
  end.

Definition response_to_dict (r : response) : pyval :=
  PDict (response_fields r ++ [(txt "response_type", PStr (response_class r))]).

(** ** Reading *)

Definition bad_type : exn := PyError TypeError (txt "stored field has the wrong type").

Definition as_int (v : pyval) : result Z :=
  match v with PInt z => Ok z | _ => Raise bad_type end.
Definition as_str (v : pyval) : result str :=
  match v with PStr s => Ok s | _ => Raise bad_type end.
Definition as_opt_int (v : pyval) : result (option Z) :=
  match v with PNone => Ok None | PInt z => Ok (Some z) | _ => Raise bad_type end.
Definition as_opt_str (v : pyval) : result (option str) :=
  match v with PNone => Ok None | PStr s => Ok (Some s) | _ => Raise bad_type end.

(** [C(value)] of an [IntEnum] class [C] *)
Definition as_enum {E} `{IntEnum E} (v : pyval) : result E :=
  let of_code c :=
    match enum_of_code c with
    | Some e => Ok e
    | None => Raise (PyError ValueError (str_of_Z c ++ txt " is not a valid member"))
    end in
  match v with
  | PInt z => of_code z
  | PBool b => of_code (if b then 1 else 0)
  | _ => Raise (PyError ValueError (txt "not a valid member"))
  end.

(** [value[key]] and [value.get(key)] at a type *)
Definition field {A} (conv : pyval -> result A) (v : pyval) (key : str) : result A :=
  x ← py_item v key; conv x.
Definition opt_field {A} (conv : pyval -> result A) (v : pyval) (key : str) : result A :=
  x ← py_get v key; conv x.
(** [tuple(f(item) for item in value[key])] *)
Definition items {A} (f : pyval -> result A) (v : pyval) (key : str) : result (list A) :=
  x ← py_item v key; l ← py_iter x; mapR f l.

Definition service_result_from_dict (item : pyval) : result ServiceResult.t :=
  service_id ← field as_str item (txt "service_id");
  decision ← field as_enum item (txt "decision");
  reason_code ← field as_int item (txt "reason_code");
  reservation_id ← opt_field as_opt_int item (txt "reservation_id");
  retry_after_ns ← opt_field as_opt_int item (txt "retry_after_ns");
  estimated_start_ns ← opt_field as_opt_int item (txt "estimated_start_ns");
  estimated_finish_ns ← opt_field as_opt_int item (txt "estimated_finish_ns");
  qpm_runtime_id ← opt_field as_opt_str item (txt "qpm_runtime_id");
  qpm_generation ← opt_field as_opt_int item (txt "qpm_generation");
  diagnostic ← opt_field as_opt_str item (txt "diagnostic");
  Ok (ServiceResult.mk service_id decision reason_code reservation_id retry_after_ns
        estimated_start_ns estimated_finish_ns qpm_runtime_id qpm_generation diagnostic).

Definition as_opt_error (v : pyval) : result (option GatewayError.t) :=
  if v is PNone then Ok None else e ← as_enum v; Ok (Some e).

Definition release_result_from_dict (item : pyval) : result ReleaseResult.t :=
  service_id ← field as_str item (txt "service_id");
  reservation_id ← field as_int item (txt "reservation_id");
  state ← field as_enum item (txt "state");
  gateway_error ← opt_field as_opt_error item (txt "gateway_error");
  diagnostic ← opt_field as_opt_str item (txt "diagnostic");
  Ok (ReleaseResult.mk service_id reservation_id state gateway_error diagnostic).

Definition reservation_from_dict (item : pyval) : result Reservation.t :=
  service_id ← field as_str item (txt "service_id");
  reservation_id ← field as_int item (txt "reservation_id");
  Ok (Reservation.mk service_id reservation_id).

Definition admission_from_dict (v : pyval) : result ReserveResponse.t :=
  request_id ← field as_int v (txt "request_id");
  decision ← field as_enum v (txt "decision");
  results ← items service_result_from_dict v (txt "results");
  Ok (ReserveResponse.mk request_id decision results).

Definition response_from_dict (value : pyval) : result response :=
  response_type ← py_get value (txt "response_type");
  let is_type name := bool_decide (response_type = PStr (txt name)) in
  _ ← raise_if (match response_type with PList _ | PDict _ => true | _ => false end)
        (PyError TypeError (txt "unhashable type"));
  if is_type "EvaluateResponse" then
    r ← admission_from_dict value; Ok (EvaluateResponse r)
  else if is_type "ReserveResponse" then
    r ← admission_from_dict value; Ok (ReserveResponse r)
  else if is_type "ReleaseResponse" then
    request_id ← field as_int value (txt "request_id");
    results ← items release_result_from_dict value (txt "results");
    Ok (ReleaseResponse (ReleaseResponse.mk request_id results))
  else if is_type "GetReservationsResponse" then
    request_id ← field as_int value (txt "request_id");
    canonical_job_id ← field as_int value (txt "canonical_job_id");
    reservations ← items reservation_from_dict value (txt "reservations");
    Ok (GetReservationsResponse
          (GetReservationsResponse.mk request_id canonical_job_id reservations))
  else if is_type "ErrorResponse" then
    error_code ← field as_enum value (txt "error_code");
    request_id ← opt_field as_opt_int value (txt "request_id");
    diagnostic ← opt_field as_opt_str value (txt "diagnostic");
    Ok (ErrorResponse (ErrorResponse.mk error_code request_id diagnostic))
  else Raise (ProtocolError (txt "stored response type is invalid")).

(** ** Round trip *)

Section reads.
Context (d : list (str * pyval)).

Lemma field_ok {A} (conv : pyval -> result A) key x a :
  assoc key d = Some x -> conv x = Ok a -> field conv (PDict d) key = Ok a.
Proof. intros H ?. unfold field, py_item. by rewrite H, ok_bind. Qed.

Lemma opt_field_ok {A} (conv : pyval -> result A) key x a :
  assoc key d = Some x -> conv x = Ok a -> opt_field conv (PDict d) key = Ok a.
Proof. intros H ?. unfold opt_field, py_get, py_get_or. by rewrite H, ok_bind. Qed.

Lemma items_ok {A} (f : pyval -> result A) (g : A -> pyval) key l :
  assoc key d = Some (PList (map g l)) -> (forall a, f (g a) = Ok a) ->
  items f (PDict d) key = Ok l.
Proof.
  intros H Hf. unfold items, py_item. rewrite H, !ok_bind. clear H.
  apply mapR_ok_Forall2. induction l; simpl; constructor; auto.
Qed.
End reads.

Lemma as_enum_ok {E} `{IntEnum E} (e : E) : as_enum (enum_int e) = Ok e.
Proof. unfold as_enum, enum_int. by rewrite enum_of_code_code. Qed.

Lemma as_opt_int_ok o : as_opt_int (PUint o) = Ok o.
Proof. by destruct o. Qed.
Lemma as_opt_str_ok o : as_opt_str (PText o) = Ok o.
Proof. by destruct o. Qed.

Lemma as_opt_error_ok o :
  as_opt_error (match o with Some e => enum_int e | None => PNone end) = Ok o.
Proof.
  destruct o as [e|]; [|done].
  change (as_opt_error _) with (e' ← as_enum (enum_int e); Ok (Some e') : result (option GatewayError.t)).
  by rewrite as_enum_ok.
Qed.

(** Read the fields of a document one by one. *)
Ltac read_fields :=
  repeat (eapply bind_step;
    [ first
        [ eapply field_ok; [reflexivity | first [reflexivity | apply as_enum_ok]]
        | eapply opt_field_ok; [reflexivity |
            first [apply as_opt_int_ok | apply as_opt_str_ok | apply as_opt_error_ok]]
        | eapply items_ok; [reflexivity | eassumption] ]
    | cbv beta iota zeta ]).

Lemma service_result_roundtrip r : service_result_from_dict (service_result_dict r) = Ok r.
Proof. unfold service_result_from_dict, service_result_dict. read_fields. by destruct r. Qed.

Lemma release_result_roundtrip r : release_result_from_dict (release_result_dict r) = Ok r.
Proof. unfold release_result_from_dict, release_result_dict. read_fields. by destruct r. Qed.

Lemma reservation_roundtrip r : reservation_from_dict (reservation_dict r) = Ok r.
Proof. unfold reservation_from_dict, reservation_dict. read_fields. by destruct r. Qed.

Lemma response_dict_roundtrip r : response_from_dict (response_to_dict r) = Ok r.
Proof.
  pose proof service_result_roundtrip. pose proof release_result_roundtrip.
  pose proof reservation_roundtrip.
  destruct r as [[]|[]|[]|[]|[]];
    unfold response_from_dict, response_to_dict, admission_from_dict;
    (eapply bind_step; [reflexivity|]); (eapply bind_step; [reflexivity|]);
    vm_compute bool_decide; cbv beta iota zeta;
    first [ solve [read_fields; reflexivity]
          | eapply bind_step; [read_fields; reflexivity | reflexivity] ].
Qed.

(** A response read back from the document the journal stores is the
    response that was stored, for every class of response. *)
Theorem stored_response_roundtrip r : response_from_dict (response_to_dict r) = Ok r.
Proof. apply response_dict_roundtrip. Qed.
