(* ===== verification/Effects.v ===== *)
(** * State and exceptions

    A Python method as a function from the state it runs in to its outcome and
    the state it leaves: the state persists when an exception is raised, as it
    does in the code. *)

From S2P Require Import Prelude Python.

Definition M (W A : Type) := W -> result A * W.

Section monad.
Context {W : Type}.

Definition m_ret {A} (a : A) : M W A := fun w => (Ok a, w).
Definition m_bind {A B} (f : A -> M W B) (m : M W A) : M W B :=
  fun w => match m w with
           | (Ok a, w') => f a w'
           | (Raise e, w') => (Raise e, w')
           end.

(** A pure computation that may raise *)
Definition lift {A} (r : result A) : M W A := fun w => (r, w).
Definition raise {A} (e : exn) : M W A := fun w => (Raise e, w).
Definition gets {A} (f : W -> A) : M W A := fun w => (Ok (f w), w).
Definition modify (f : W -> W) : M W unit := fun w => (Ok tt, f w).

(** [try: m except Exception as error: h(error)] *)
Definition try_except {A} (m : M W A) (h : exn -> M W A) : M W A :=
  fun w => match m w with
           | (Raise e, w') => if isa_Exception e then h e w' else (Raise e, w')
           | r => r
           end.

(** [try: m except C as error: h(error)], the classes [C] as a predicate *)
Definition try_catch {A} (catches : exn -> bool) (m : M W A) (h : exn -> M W A) : M W A :=
  fun w => match m w with
           | (Raise e, w') => if catches e then h e w' else (Raise e, w')
           | r => r
           end.

(** [try: m finally: f] *)
Definition try_finally {A} (m : M W A) (f : M W unit) : M W A :=
  fun w =>
    let (r, w) := m w in
    match f w with
    | (Ok _, w) => (r, w)
    | (Raise e, w) => (Raise e, w)
    end.

(** [if b: raise e] *)
Definition raise_when (b : bool) (e : exn) : M W unit :=
  if b then raise e else m_ret tt.
End monad.

#[export] Instance m_mret W : MRet (M W) := @m_ret W.
#[export] Instance m_mbind W : MBind (M W) := @m_bind W.
#[export] Instance m_fmap W : FMap (M W) := fun A B f m => m_bind (fun a => m_ret (f a)) m.

(** Run a computation on a component of the state. *)
Definition zoom {W S A} (get : W -> S) (set : S -> W -> W) (m : M S A) : M W A :=
  fun w => let (r, s) := m (get w) in (r, set s w).

(** [for x in l: acc.append(f(x))] *)
Fixpoint mapM {W A B} (f : A -> M W B) (l : list A) : M W (list B) :=
  match l with
  | [] => mret []
  | x :: l => y ← f x; ys ← mapM f l; mret (y :: ys)
  end.

(** Give a pure result a default for [None]. *)
Definition or_raise {A} (o : option A) (e : exn) : result A :=
  match o with Some a => Ok a | None => Raise e end.

Section laws.
Context {W : Type}.

(** A run whose outcome is known; used to evaluate examples. *)
Lemma run_outcome {A} (m : M W A) w r : (m w).1 = r -> m w = (r, (m w).2).
Proof. intros <-. apply surjective_pairing. Qed.

(** Run one step of a block. *)
Lemma m_bind_ok {A B} (m : M W A) (f : A -> M W B) w a w' :
  m w = (Ok a, w') -> (m ≫= f) w = f a w'.
Proof. unfold mbind, m_mbind, m_bind. by intros ->. Qed.

Lemma m_bind_raise {A B} (m : M W A) (f : A -> M W B) w e w' :
  m w = (Raise e, w') -> (m ≫= f) w = (Raise e, w').
Proof. unfold mbind, m_mbind, m_bind. by intros ->. Qed.

Lemma m_bind_inv {A B} (m : M W A) (f : A -> M W B) w b w' :
  (m ≫= f) w = (Ok b, w') -> exists a w1, m w = (Ok a, w1) /\ f a w1 = (Ok b, w').
Proof.
  unfold mbind, m_mbind, m_bind. destruct (m w) as [[a|e] w1]; [eauto|done].
Qed.

Lemma m_bind_cases {A B} (m : M W A) (f : A -> M W B) w r w' :
  (m ≫= f) w = (r, w') ->
  (exists e, m w = (Raise e, w') /\ r = Raise e) \/
  (exists a w1, m w = (Ok a, w1) /\ f a w1 = (r, w')).
Proof.
  unfold mbind, m_mbind, m_bind. destruct (m w) as [[a|e] w1]; [eauto|].
  intros [= <- <-]. eauto.
Qed.

Lemma try_except_cases {A} (m : M W A) h w r w' :
  try_except m h w = (r, w') ->
  (m w = (r, w') /\ match r with Ok _ => True | Raise e => isa_Exception e = false end) \/
  (exists e w1, m w = (Raise e, w1) /\ isa_Exception e = true /\ h e w1 = (r, w')).
Proof.
  unfold try_except. destruct (m w) as [[a|e] w1]; [by intros [= <- <-]; left|].
  destruct (isa_Exception e) eqn:E; [eauto 6|]. intros [= <- <-]. by left.
Qed.

Lemma try_finally_cases {A} (m : M W A) f w r w' :
  try_finally m f w = (r, w') ->
  exists r1 w1 r2, m w = (r1, w1) /\ f w1 = (r2, w') /\
    r = match r2 with Ok _ => r1 | Raise e => Raise e end.
Proof.
  unfold try_finally. destruct (m w) as [r1 w1]. destruct (f w1) as [[[]|e] w2] eqn:E; intros [= <- <-];
    by repeat eexists.
Qed.
End laws.

(** ** Invariants of computations

    [preserves R m]: every run of [m] relates its initial and final state by
    [R], whatever the outcome. *)
Definition preserves {W A} (R : relation W) (m : M W A) : Prop :=
  forall w, R w (m w).2.

Section preserves.
Context {W : Type} (R : relation W) `{!PreOrder R}.

Lemma preserves_ret {A} (a : A) : preserves R (m_ret a).
Proof. intros w. reflexivity. Qed.
Lemma preserves_mret {A} (a : A) : preserves R (mret (M := M W) a).
Proof. intros w. reflexivity. Qed.
Lemma preserves_lift {A} (r : result A) : preserves R (lift r).
Proof. intros w. reflexivity. Qed.
Lemma preserves_raise {A} e : preserves R (raise (A := A) e).
Proof. intros w. reflexivity. Qed.
Lemma preserves_raise_when b e : preserves R (raise_when b e).
Proof. destruct b; intros w; reflexivity. Qed.
Lemma preserves_gets {A} (f : W -> A) : preserves R (gets f).
Proof. intros w. reflexivity. Qed.

Lemma preserves_bind {A B} (m : M W A) (f : A -> M W B) :
  preserves R m -> (forall a, preserves R (f a)) -> preserves R (m ≫= f).
Proof.
  intros Hm Hf w. unfold mbind, m_mbind, m_bind. specialize (Hm w).
  destruct (m w) as [[a|e] w1]; [|done]. simpl in Hm. etrans; [exact Hm|apply Hf].
Qed.

Lemma preserves_try {A} (m : M W A) h :
  preserves R m -> (forall e, preserves R (h e)) -> preserves R (try_except m h).
Proof.
  intros Hm Hh w. unfold try_except. specialize (Hm w).
  destruct (m w) as [[a|e] w1]; [done|]. simpl in Hm.
  destruct (isa_Exception e); [|done]. etrans; [exact Hm|apply Hh].
Qed.

Lemma preserves_mapM {A B} (f : A -> M W B) l :
  (forall x, preserves R (f x)) -> preserves R (mapM f l).
Proof.
  intros Hf. induction l as [|x l IH]; simpl; [apply preserves_mret|].
  apply preserves_bind; [apply Hf|intros y].
  apply preserves_bind; [exact IH|intros ys]. apply preserves_mret.
Qed.
End preserves.

Create HintDb preserves discriminated.
#[export] Hint Resolve preserves_ret preserves_mret preserves_lift preserves_raise
  preserves_raise_when preserves_gets : preserves.

(** One step of a walk through a block; other files add their combinators. *)
Ltac preserve_step := fail.
Ltac preserve :=
  repeat first
    [ solve [auto with preserves]
    | lazymatch goal with
      | |- preserves _ (mbind _ _) => apply preserves_bind; [apply _ | | intros ?]
      | |- preserves _ (try_except _ _) => apply preserves_try; [apply _ | | intros ?]
      | |- preserves _ (mapM _ _) => apply preserves_mapM; [apply _ | intros ?]
      | |- preserves _ (match _ with _ => _ end) => case_match
      end
    | preserve_step
    | progress cbv beta zeta ].
