(* ===== verification/Journal.v ===== *)
(** * The durable journal ([journal.py])

    The three SQLite tables as maps from their primary keys, and one
    definition per method of [Journal]. Text columns that hold JSON
    ([response_json], [service_set_json]) hold the value [json.loads] reads
    back; such a text is never empty, so its truth value is that of the option.
    The connection is in autocommit mode and every method runs at most one
    write statement, so a method that raises has written nothing: [statement]
    asks the database once, before the method's reads, whether SQLite fails. *)

From S2P Require Import Prelude Python Values Effects.
Local Open Scope Z_scope.

(** What the journal uses of its surroundings: a possible [sqlite3.Error] of
    the n-th method call, the clock at that call, and the order in which
    Python iterates over a set of strings. *)
Class JournalEnv := {
  sqlite_fault : nat -> option str;
  time_ns : nat -> Z;
  set_order : gset str -> list str;
}.

(** The documented behaviour of set iteration: every element once. *)
Class JournalEnvLaws (env : JournalEnv) : Prop :=
  set_order_elements : forall X, set_order X ≡ₚ elements X.

(** A working disk, and sets iterated in the order of the map. *)
Definition healthy_env : JournalEnv := {|
  sqlite_fault := fun _ => None;
  time_ns := fun n => Z.of_nat n;
  set_order := elements;
|}.
#[export] Instance healthy_env_laws : JournalEnvLaws healthy_env.
Proof. by intros X. Qed.

(** ** Tables *)

Module Operation.
Record t := mk {
  fingerprint : str;
  state : str;
  response : option pyval;
  updated_ns : str;
}.
End Operation.

Module Allocation.
Record t := mk {
  job_uid : Z;
  job_gid : Z;
  service_set : list str;
  request_fingerprint : str;
  state : str;
  response : option pyval;
  updated_ns : str;
}.
End Allocation.

Module ReservationRow.
Record t := mk {
  reservation_id : option str;
  qpm_runtime_id : option str;
  qpm_generation : option str;
  request_fingerprint : option str;
  state : str;
  diagnostic : option str;
  updated_ns : str;
}.
End ReservationRow.

(** (sender_uid, operation, request_id, scope) *)
Definition op_key : Type := Z * str * str * str.
(** (cluster_name, canonical_job_id) *)
Definition alloc_key : Type := str * str.
(** (cluster_name, canonical_job_id, service_id) *)
Definition resv_key : Type := str * str * str.

Record tables := mk_tables {
  operations : gmap op_key Operation.t;
  allocations : gmap alloc_key Allocation.t;
  reservation_rows : gmap resv_key ReservationRow.t;
}.

(** The database and the number of method calls so far. *)
Record db := mk_db { db_tables : tables; db_calls : nat }.

Definition empty_db : db := mk_db (mk_tables ∅ ∅ ∅) 0.

Definition set_operations (f : gmap op_key Operation.t -> gmap op_key Operation.t)
    (t : tables) : tables :=
  mk_tables (f (operations t)) (allocations t) (reservation_rows t).
Definition set_allocations (f : gmap alloc_key Allocation.t -> gmap alloc_key Allocation.t)
    (t : tables) : tables :=
  mk_tables (operations t) (f (allocations t)) (reservation_rows t).
Definition set_reservations (f : gmap resv_key ReservationRow.t -> gmap resv_key ReservationRow.t)
    (t : tables) : tables :=
  mk_tables (operations t) (allocations t) (f (reservation_rows t)).

(** ** Values the methods return *)

Record OperationRecord := mk_operation_record {
  prior_state : str;
  prior_response : option pyval;
}.

Module ReservationRecord.
Record t := mk {
  service_id : str;
  reservation_id : option Z;
  qpm_runtime_id : option str;
  qpm_generation : option Z;
  state : str;
  request_fingerprint : option str;
}.
#[global] Instance eq_dec : EqDecision t.
Proof. solve_decision. Defined.

(** [dataclasses.replace(record, state=s)] *)
Definition with_state (r : t) (s : str) : t :=
  mk (service_id r) (reservation_id r) (qpm_runtime_id r) (qpm_generation r) s
    (request_fingerprint r).
End ReservationRecord.

Record AllocationPlan := mk_plan {
  existing_response : option pyval;
  existing_services : list str;
  missing_services : list str;
}.

Definition is_extension (p : AllocationPlan) : bool :=
  bool_decide (is_Some (existing_response p)) && negb (bool_decide (missing_services p = [])).

(** Membership in a set of literals *)
Definition one_of (s : str) (l : list string) : bool := bool_decide (s ∈ map txt l).

Section journal.
Context {ucd : UnicodeData} {env : JournalEnv}.

(** One locked method body [f] on the tables, at the time of the call. *)
Definition statement {A} (f : str -> tables -> result A * tables) : M db A :=
  fun d =>
    let n := db_calls d in
    match sqlite_fault n with
    | Some e => (Raise (PyError SqliteError e), mk_db (db_tables d) (S n))
    | None =>
        let (r, t) := f (str_of_Z (time_ns n)) (db_tables d) in
        (r, mk_db t (S n))
    end.

(** A body that only reads *)
Definition query {A} (f : tables -> result A) : M db A :=
  statement (fun _ t => (f t, t)).

Definition begin_operation (sender_uid : Z) (operation : str) (request_id : Z)
    (fingerprint scope : str) : M db (option OperationRecord) :=
  statement (fun now t =>
    let key := (sender_uid, operation, str_of_Z request_id, scope) in
    let started := Operation.mk fingerprint (txt "started") None now in
    match operations t !! key with
    | Some row =>
        if negb (bool_decide (Operation.fingerprint row = fingerprint)) then
          (Raise (RequestConflict (txt "request ID reused with different content")), t)
        else if bool_decide (Operation.state row = txt "retryable") then
          (Ok None, set_operations <[key := started]> t)
        else
          (Ok (Some (mk_operation_record (Operation.state row) (Operation.response row))), t)
    | None => (Ok None, set_operations <[key := started]> t)
    end).

Definition complete_operation (sender_uid : Z) (operation : str) (request_id : Z)
    (response : pyval) (scope state : str) : M db unit :=
  if negb (one_of state ["complete"; "retryable"]%string) then
    raise (JournalError (txt "operation completion state is invalid"))
  else statement (fun now t =>
    let key := (sender_uid, operation, str_of_Z request_id, scope) in
    match operations t !! key with
    | Some row =>
        (Ok tt, set_operations
           <[key := Operation.mk (Operation.fingerprint row) state (Some response) now]> t)
    | None => (Raise (JournalError (txt "operation disappeared before completion")), t)
    end).

(** The check of one already reserved service of an extension *)
Definition check_reserved (t : tables) (cluster_name key reservation_fingerprint : str)
    (service_id : str) : result unit :=
  match reservation_rows t !! (cluster_name, key, service_id) with
  | Some row =>
      if negb (bool_decide (ReservationRow.state row = txt "accepted")) then
        Raise (JournalError (txt "accepted allocation lacks reservation state"))
      else if negb (bool_decide
             (ReservationRow.request_fingerprint row = Some reservation_fingerprint)) then
        Raise (RequestConflict (txt "accepted workload changed for " ++ repr service_id))
      else Ok tt
  | None => Raise (JournalError (txt "accepted allocation lacks reservation state"))
  end.

(** The update that starts the set over *)
Definition restart (service_ids : list str) (fingerprint now : str)
    (row : Allocation.t) : Allocation.t :=
  Allocation.mk (Allocation.job_uid row) (Allocation.job_gid row) service_ids fingerprint
    (txt "reserving") None now.

Definition begin_allocation (cluster_name : str) (job_id job_uid job_gid : Z)
    (service_ids : list str) (fingerprint reservation_fingerprint : str)
    : M db AllocationPlan :=
  statement (fun now t =>
    let key := str_of_Z job_id in
    let requested := sorted_str service_ids in
    let put row := set_allocations <[(cluster_name, key) := row]> t in
    match allocations t !! (cluster_name, key) with
    | None =>
        (Ok (mk_plan None [] requested),
         put (Allocation.mk job_uid job_gid requested fingerprint (txt "reserving") None now))
    | Some row =>
        let state := Allocation.state row in
        let response := Allocation.response row in
        let start_over := (Ok (mk_plan None [] requested),
                           put (restart requested fingerprint now row)) in
        if negb (bool_decide (Allocation.job_uid row = job_uid)
                 && bool_decide (Allocation.job_gid row = job_gid)) then
          (Raise (RequestConflict (txt "allocation identity changed")), t)
        else if bool_decide (state = txt "accepted") && bool_decide (is_Some response) then
          let existing := Allocation.service_set row in
          let existing_set : gset str := list_to_set existing in
          match iterR (check_reserved t cluster_name key reservation_fingerprint)
                  (set_order (list_to_set requested ∩ existing_set)) with
          | Raise e => (Raise e, t)
          | Ok _ =>
              let missing :=
                List.filter (fun s => negb (bool_decide (s ∈ existing_set))) requested in
              if bool_decide (missing = []) then (Ok (mk_plan response existing []), t)
              else
                let combined :=
                  sorted_str (elements (existing_set ∪ list_to_set missing)) in
                (Ok (mk_plan response existing missing),
                 put (Allocation.mk (Allocation.job_uid row) (Allocation.job_gid row)
                        combined fingerprint (txt "extending") response now))
          end
        else if one_of state ["delayed"; "rolled-back"]%string then start_over
        else if one_of state ["reserving"; "rolling-back"; "extending"]%string then
          (Raise (JournalError (txt "allocation has an incomplete transaction")), t)
        else if bool_decide (state = txt "released") then
          (Raise (RequestConflict (txt "allocation was already released")), t)
        else if negb (bool_decide (Allocation.request_fingerprint row = fingerprint)) then
          start_over
        else
          match response with
          | None => (Raise (JournalError (txt "allocation has no durable outcome")), t)
          | Some _ => (Ok (mk_plan response [] []), t)
          end
    end).

Definition accepted_allocation (cluster_name : str) (job_id job_uid job_gid : Z)
    (service_ids : list str) : M db (option pyval) :=
  query (fun t =>
    match allocations t !! (cluster_name, str_of_Z job_id) with
    | None => Ok None
    | Some row =>
        let stored : gset str := list_to_set (Allocation.service_set row) in
        _ ← raise_if (negb (bool_decide (Allocation.job_uid row = job_uid)
                            && bool_decide (Allocation.job_gid row = job_gid)))
              (RequestConflict (txt "allocation identity changed"));
        _ ← raise_if (negb (bool_decide (list_to_set service_ids ⊆ stored)))
              (RequestConflict (txt "requested service is not reserved"));
        if bool_decide (Allocation.state row = txt "accepted") then
          Ok (Allocation.response row)
        else Ok None
    end).

Definition record_reservation (cluster_name : str) (job_id : Z)
    (record : ReservationRecord.t) (diagnostic : option str) : M db unit :=
  statement (fun now t =>
    let key := (cluster_name, str_of_Z job_id, ReservationRecord.service_id record) in
    (Ok tt, set_reservations
       <[key := ReservationRow.mk
           (str_of_Z <$> ReservationRecord.reservation_id record)
           (ReservationRecord.qpm_runtime_id record)
           (str_of_Z <$> ReservationRecord.qpm_generation record)
           (ReservationRecord.request_fingerprint record)
           (ReservationRecord.state record) diagnostic now]> t)).

(** Change the row of an allocation that must exist. *)
Definition update_allocation (cluster_name : str) (job_id : Z) (missing : str)
    (f : str -> Allocation.t -> Allocation.t) : M db unit :=
  statement (fun now t =>
    match allocations t !! (cluster_name, str_of_Z job_id) with
    | Some row =>
        (Ok tt, set_allocations <[(cluster_name, str_of_Z job_id) := f now row]> t)
    | None => (Raise (JournalError missing), t)
    end).

Definition restore_accepted_allocation (cluster_name : str) (job_id : Z)
    (service_ids : list str) (response : pyval) : M db unit :=
  update_allocation cluster_name job_id (txt "allocation disappeared during extension")
    (fun now row =>
       Allocation.mk (Allocation.job_uid row) (Allocation.job_gid row)
         (sorted_str service_ids) (Allocation.request_fingerprint row)
         (txt "accepted") (Some response) now).

Definition complete_allocation (cluster_name : str) (job_id : Z) (state : str)
    (response : pyval) : M db unit :=
  update_allocation cluster_name job_id (txt "allocation disappeared before completion")
    (fun now row =>
       Allocation.mk (Allocation.job_uid row) (Allocation.job_gid row)
         (Allocation.service_set row) (Allocation.request_fingerprint row)
         state (Some response) now).

(** [UPDATE] without a check of the row count *)
Definition set_allocation_state (cluster_name : str) (job_id : Z) (state : str)
    : M db unit :=
  statement (fun now t =>
    match allocations t !! (cluster_name, str_of_Z job_id) with
    | Some row =>
        (Ok tt, set_allocations
           <[(cluster_name, str_of_Z job_id) :=
               Allocation.mk (Allocation.job_uid row) (Allocation.job_gid row)
                 (Allocation.service_set row) (Allocation.request_fingerprint row)
                 state (Allocation.response row) now]> t)
    | None => (Ok tt, t)
    end).

(** [int(column) if column is not None else None] *)
Definition int_column (o : option str) : result (option Z) :=
  match o with
  | Some s => z ← py_int (PStr s); Ok (Some z)
  | None => Ok None
  end.

Definition record_of_row (service_id : str) (row : ReservationRow.t)
    : result ReservationRecord.t :=
  reservation_id ← int_column (ReservationRow.reservation_id row);
  qpm_generation ← int_column (ReservationRow.qpm_generation row);
  Ok (ReservationRecord.mk service_id reservation_id (ReservationRow.qpm_runtime_id row)
        qpm_generation (ReservationRow.state row) (ReservationRow.request_fingerprint row)).

(** The rows of an allocation, [ORDER BY service_id] *)
Definition rows_of (t : tables) (cluster_name key : str) : list (str * ReservationRow.t) :=
  sort_by str_leb fst
    (omap (fun '((c, k, s), row) =>
             if decide (c = cluster_name /\ k = key) then Some (s, row) else None)
       (map_to_list (reservation_rows t))).

Definition reservations (cluster_name : str) (job_id : Z) : M db (list ReservationRecord.t) :=
  query (fun t =>
    mapR (fun p => record_of_row p.1 p.2) (rows_of t cluster_name (str_of_Z job_id))).

Definition reservation_context (cluster_name : str) (job_id job_uid job_gid : Z)
    : M db (list ReservationRecord.t) :=
  expected ← query (fun t =>
    match allocations t !! (cluster_name, str_of_Z job_id) with
    | None => Raise (AllocationNotFound (txt "allocation is not in the journal"))
    | Some row =>
        let state := Allocation.state row in
        _ ← raise_if (negb (bool_decide (Allocation.job_uid row = job_uid)
                            && bool_decide (Allocation.job_gid row = job_gid)))
              (RequestConflict (txt "allocation identity changed"));
        _ ← raise_if (bool_decide (state = txt "released"))
              (AllocationReleased (txt "allocation reservations were released"));
        _ ← raise_if (negb (bool_decide (state = txt "accepted")))
              (AllocationNotAccepted
                 (txt "allocation state is " ++ repr state ++ txt ", not accepted"));
        Ok (Allocation.service_set row)
    end);
  all_records ← reservations cluster_name job_id;
  _ ← raise_when (bool_decide (expected = []) || negb (bool_decide (NoDup expected)))
        (JournalError (txt "allocation service set is malformed"));
  let in_set r := bool_decide (ReservationRecord.service_id r ∈ expected) in
  let records := List.filter in_set all_records in
  let accepted r := bool_decide (ReservationRecord.state r = txt "accepted") in
  _ ← raise_when (existsb (fun r => accepted r && negb (in_set r)) all_records)
        (JournalError (txt "journal contains an unexpected active reservation"));
  _ ← raise_when (negb (bool_decide
          (map ReservationRecord.service_id records = sorted_str expected)))
        (JournalError (txt "accepted allocation reservation set is incomplete"));
  _ ← raise_when (existsb (fun r => negb (accepted r)
          || bool_decide (ReservationRecord.reservation_id r = None)) records)
        (JournalError (txt "accepted allocation contains inactive reservations"));
  mret records.

(** [dataclasses.asdict] of a record *)
Definition record_dict (r : ReservationRecord.t) : pyval := PDict [
  (txt "service_id", PStr (ReservationRecord.service_id r));
  (txt "reservation_id", PUint (ReservationRecord.reservation_id r));
  (txt "qpm_runtime_id", PText (ReservationRecord.qpm_runtime_id r));
  (txt "qpm_generation", PUint (ReservationRecord.qpm_generation r));
  (txt "state", PStr (ReservationRecord.state r));
  (txt "request_fingerprint", PText (ReservationRecord.request_fingerprint r))].

(** [SELECT *] of an allocation: the JSON columns as text *)
Definition allocation_dict (cluster_name key : str) (row : Allocation.t)
    : list (str * pyval) := [
  (txt "cluster_name", PStr cluster_name);
  (txt "canonical_job_id", PStr key);
  (txt "job_uid", PInt (Allocation.job_uid row));
  (txt "job_gid", PInt (Allocation.job_gid row));
  (txt "service_set_json", PStr (json_dumps (PList (map PStr (Allocation.service_set row)))));
  (txt "request_fingerprint", PStr (Allocation.request_fingerprint row));
  (txt "state", PStr (Allocation.state row));
  (txt "response_json", PText (json_dumps <$> Allocation.response row));
  (txt "updated_ns", PStr (Allocation.updated_ns row))].

Definition allocation_status (cluster_name : str) (job_id : Z) : M db pyval :=
  row ← query (fun t => Ok (allocations t !! (cluster_name, str_of_Z job_id)));
  match row with
  | None => mret (PDict [(txt "state", PStr (txt "not-found"));
                         (txt "reservations", PList [])])
  | Some row =>
      records ← reservations cluster_name job_id;
      mret (PDict (allocation_dict cluster_name (str_of_Z job_id) row
                   ++ [(txt "reservations", PList (map record_dict records))]))
  end.

(** [ORDER BY cluster_name, canonical_job_id] *)
Definition alloc_key_leb (a b : alloc_key) : bool :=
  if decide (a.1 = b.1) then str_leb a.2 b.2 else str_leb a.1 b.1.

Definition nonterminal_allocations : M db (list pyval) :=
  query (fun t =>
    Ok (map (fun '((c, k), row) => PDict [
               (txt "cluster_name", PStr c);
               (txt "canonical_job_id", PStr k);
               (txt "job_uid", PInt (Allocation.job_uid row));
               (txt "job_gid", PInt (Allocation.job_gid row));
               (txt "state", PStr (Allocation.state row));
               (txt "updated_ns", PStr (Allocation.updated_ns row))])
          (sort_by alloc_key_leb fst
             (List.filter (fun '(_, row) =>
                  negb (one_of (Allocation.state row) ["released"; "rejected"]%string))
                (map_to_list (allocations t)))))).
End journal.
