(* ===== verification/JournalFacts.v ===== *)
(** * Facts and properties of the journal

    Which rows each method can touch, what [reservations] reads, the plans of
    [begin_allocation], and the replay of recorded operations. *)

From S2P Require Import Prelude Python Values Effects Journal.
Local Open Scope Z_scope.

(** ** What a method can touch *)

(** A relation on tables, between two states of the database *)
Definition on_tables (R : relation tables) : relation db :=
  fun d d' => R (db_tables d) (db_tables d').

#[export] Instance on_tables_preorder R `{!PreOrder R} : PreOrder (on_tables R).
Proof.
  split; unfold on_tables; [intros d; reflexivity|intros a b c ??; by etrans].
Qed.

(** The rows of the allocations in [P] are unchanged. *)
Definition untouched (P : alloc_key -> Prop) (t t' : tables) : Prop :=
  (forall K, P K -> allocations t' !! K = allocations t !! K) /\
  (forall c k s, P (c, k) -> reservation_rows t' !! (c, k, s) = reservation_rows t !! (c, k, s)).

#[export] Instance untouched_preorder P : PreOrder (untouched P).
Proof.
  split; [done|]. intros a b c [H1 H2] [H3 H4].
  split; [intros; by rewrite H3, H1|intros; by rewrite H4, H2].
Qed.

(** Every allocation and every reservation is unchanged. *)
Abbreviation reservations_untouched := (on_tables (untouched (fun _ => True))).
(** So are those of every other allocation than job [j] of cluster [c]. *)
Abbreviation others_untouched c j := (on_tables (untouched (fun K => K <> (c, str_of_Z j)))).

Section frames.
Context {ucd : UnicodeData} {env : JournalEnv}.

Lemma statement_preserves {A} R (f : str -> tables -> result A * tables) :
  PreOrder R -> (forall now t, R t (f now t).2) -> preserves (on_tables R) (statement f).
Proof.
  intros ? Hf d. unfold statement, on_tables. destruct (sqlite_fault _); [done|].
  specialize (Hf (str_of_Z (time_ns (db_calls d))) (db_tables d)).
  by destruct (f _ _).
Qed.

Lemma query_preserves {A} R (f : tables -> result A) :
  PreOrder R -> preserves (on_tables R) (query f).
Proof. intros ?. apply statement_preserves; [done|]. intros. reflexivity. Qed.

Lemma untouched_operations P f t : untouched P t (set_operations f t).
Proof. by split. Qed.

Lemma untouched_allocation (P : alloc_key -> Prop) K row t :
  ~ P K -> untouched P t (set_allocations <[K := row]> t).
Proof.
  intros HK. split; [|done]. intros K' HK'. simpl. rewrite lookup_insert_ne; [done|]. congruence.
Qed.

Lemma untouched_reservation (P : alloc_key -> Prop) c k s row t :
  ~ P (c, k) -> untouched P t (set_reservations <[(c, k, s) := row]> t).
Proof.
  intros HK. split; [done|]. intros c' k' s' HP. simpl.
  rewrite lookup_insert_ne; [done|]. congruence.
Qed.

Lemma begin_operation_untouched P uid op rid fp scope :
  preserves (on_tables (untouched P)) (begin_operation uid op rid fp scope).
Proof.
  apply statement_preserves; [apply _|]. intros now t. cbv beta zeta.
  repeat case_match; simpl; try reflexivity; apply untouched_operations.
Qed.

Lemma complete_operation_untouched P uid op rid r scope s :
  preserves (on_tables (untouched P)) (complete_operation uid op rid r scope s).
Proof.
  unfold complete_operation. case_match; [intros d; reflexivity|].
  apply statement_preserves; [apply _|]. intros now t. cbv beta zeta.
  case_match; simpl; try reflexivity; apply untouched_operations.
Qed.

Context (c : str) (j : Z).
Let others (K : alloc_key) : Prop := K <> (c, str_of_Z j).

Lemma begin_allocation_untouched uid gid services fp rfp :
  preserves (on_tables (untouched others)) (begin_allocation c j uid gid services fp rfp).
Proof.
  apply statement_preserves; [apply _|]. intros now t. cbv beta zeta.
  repeat case_match; simpl; try reflexivity;
    apply untouched_allocation; unfold others; by intros [].
Qed.

Lemma update_allocation_untouched m f :
  preserves (on_tables (untouched others)) (update_allocation c j m f).
Proof.
  apply statement_preserves; [apply _|]. intros now t. cbv beta zeta.
  case_match; simpl; [|reflexivity]. apply untouched_allocation. unfold others. by intros [].
Qed.

Lemma set_allocation_state_untouched s :
  preserves (on_tables (untouched others)) (set_allocation_state c j s).
Proof.
  apply statement_preserves; [apply _|]. intros now t. cbv beta zeta.
  case_match; simpl; [|reflexivity]. apply untouched_allocation. unfold others. by intros [].
Qed.

Lemma record_reservation_untouched r diag :
  preserves (on_tables (untouched others)) (record_reservation c j r diag).
Proof.
  apply statement_preserves; [apply _|]. intros now t. cbv beta zeta.
  apply untouched_reservation. unfold others. by intros [].
Qed.
End frames.

#[export] Hint Resolve query_preserves begin_operation_untouched complete_operation_untouched
  begin_allocation_untouched update_allocation_untouched set_allocation_state_untouched
  record_reservation_untouched : preserves.
#[export] Hint Extern 1 (PreOrder _) => apply _ : preserves.

(** ** Reading rows *)

(** [reservation_id] and [qpm_generation] hold decimal integers. *)
Definition row_valid (row : ReservationRow.t) : Prop :=
  exists rid gen, ReservationRow.reservation_id row = str_of_Z <$> rid /\
    ReservationRow.qpm_generation row = str_of_Z <$> gen.

Definition rows_valid (t : tables) : Prop := map_Forall (fun _ => row_valid) (reservation_rows t).

Section rows.
Context {ucd : UnicodeData} {env : JournalEnv}.

Lemma int_column_str (o : option Z) : int_column (str_of_Z <$> o) = Ok o.
Proof. destruct o; [|done]. simpl. by rewrite int_of_str_of_Z. Qed.

Lemma record_of_row_ok s row :
  row_valid row -> exists r, record_of_row s row = Ok r /\
    ReservationRecord.service_id r = s /\
    ReservationRecord.state r = ReservationRow.state row.
Proof.
  intros (rid & gen & Hr & Hg). unfold record_of_row.
  rewrite Hr, Hg, !int_column_str, !ok_bind. eauto.
Qed.

Lemma record_of_row_id s row r :
  record_of_row s row = Ok r ->
  ReservationRecord.service_id r = s /\ ReservationRecord.state r = ReservationRow.state row.
Proof. unfold record_of_row. intros H. inv_ok. done. Qed.

Lemma elem_of_rows t c k s row :
  (s, row) ∈ rows_of t c k <-> reservation_rows t !! (c, k, s) = Some row.
Proof.
  unfold rows_of. rewrite elem_of_sort_by, list_elem_of_omap. split.
  - intros ([[[c' k'] s'] row'] & Hin & H). apply elem_of_map_to_list in Hin.
    case_decide as Hd; [|done]. destruct Hd. by simplify_eq.
  - intros H. exists ((c, k, s), row). split; [by apply elem_of_map_to_list|].
    by rewrite decide_True.
Qed.

Lemma rows_NoDup t c k : NoDup (rows_of t c k).*1.
Proof.
  assert (NoDup (rows_of t c k)) as Hnd.
  { apply NoDup_sort_by, NoDup_omap, NoDup_map_to_list.
    intros [[[c1 k1] s1] r1] [[[c2 k2] s2] r2] [s r] H1 H2.
    repeat case_decide; naive_solver. }
  apply NoDup_fmap_fst; [|done]. intros s r1 r2 H1%elem_of_rows H2%elem_of_rows. congruence.
Qed.

Lemma rows_sorted t c k : Sorted (fun x y => str_leb x y = true) (rows_of t c k).*1.
Proof.
  pose proof (sort_by_sorted str_leb fst (A := str * ReservationRow.t) str_leb_total
    (omap (fun '((c', k', s), row) =>
             if decide (c' = c /\ k' = k) then Some (s, row) else None)
       (map_to_list (reservation_rows t)))) as H.
  fold (rows_of t c k) in H. induction H as [|p l _ IH Hp]; simpl; constructor; [done|].
  by destruct Hp; constructor.
Qed.

(** The records [reservations] returns, as a pure function *)
Definition records_of (t : tables) (c k : str) : result (list ReservationRecord.t) :=
  mapR (fun p => record_of_row p.1 p.2) (rows_of t c k).

Lemma records_of_ok t c k :
  rows_valid t -> exists l, records_of t c k = Ok l.
Proof.
  intros Hv. assert (Forall (fun p => row_valid p.2) (rows_of t c k)) as H.
  { apply Forall_forall. intros [s row] Hin%elem_of_rows. by eapply Hv. }
  unfold records_of. induction H as [|[s row] l Hr _ [l' IH]]; [by exists []|].
  destruct (record_of_row_ok s row Hr) as (r & Er & _). exists (r :: l').
  simpl in *. by rewrite Er, ok_bind, IH.
Qed.

Lemma records_of_ids t c k l :
  records_of t c k = Ok l -> map ReservationRecord.service_id l = (rows_of t c k).*1.
Proof.
  intros H%mapR_ok_Forall2. induction H as [|p r ps rs Hp _ IH]; [done|].
  simpl. rewrite IH. by apply record_of_row_id in Hp as [-> _].
Qed.

(** A record is returned exactly when its row reads as it. *)
Lemma elem_of_records t c k l r :
  records_of t c k = Ok l ->
  r ∈ l <-> exists row, reservation_rows t !! (c, k, ReservationRecord.service_id r) = Some row /\
              record_of_row (ReservationRecord.service_id r) row = Ok r.
Proof.
  intros H. apply mapR_ok_Forall2 in H as HF. split.
  - intros [i Hi]%list_elem_of_lookup.
    destruct (Forall2_lookup_r _ _ _ _ _ HF Hi) as ([s row] & Hrow & Hr). simpl in Hr.
    pose proof (proj1 (record_of_row_id _ _ _ Hr)) as Hs. exists row. rewrite Hs.
    split; [|done]. apply elem_of_rows. by eapply list_elem_of_lookup_2.
  - intros (row & Hrow%elem_of_rows & Hr).
    apply list_elem_of_lookup in Hrow as [i Hi].
    destruct (Forall2_lookup_l _ _ _ _ _ HF Hi) as (r' & Hr' & H'). simpl in H'.
    assert (r' = r) as <- by congruence. by eapply list_elem_of_lookup_2.
Qed.

(** Every row of the allocation has its record. *)
Lemma row_record t c k l s row :
  records_of t c k = Ok l -> reservation_rows t !! (c, k, s) = Some row ->
  exists r, r ∈ l /\ ReservationRecord.service_id r = s /\ record_of_row s row = Ok r /\
    ReservationRecord.state r = ReservationRow.state row.
Proof.
  intros H Hrow. assert (s ∈ map ReservationRecord.service_id l) as Hs.
  { rewrite (records_of_ids _ _ _ _ H). apply (list_elem_of_fmap_2' fst _ (s, row)); [|done].
    by apply elem_of_rows. }
  apply list_elem_of_fmap in Hs as (r & -> & Hr).
  destruct (proj1 (elem_of_records _ _ _ _ _ H) Hr) as (row' & Hrow' & Hread).
  assert (row' = row) as -> by congruence. exists r. split_and!; try done.
  by apply record_of_row_id in Hread as [_ ->].
Qed.

Lemma records_NoDup t c k l :
  records_of t c k = Ok l -> NoDup (map ReservationRecord.service_id l).
Proof. intros ->%records_of_ids. apply rows_NoDup. Qed.

Lemma records_sorted t c k l :
  records_of t c k = Ok l ->
  Sorted (fun x y => str_leb x y = true) (map ReservationRecord.service_id l).
Proof. intros ->%records_of_ids. apply rows_sorted. Qed.
End rows.

(** ** Running without SQLite failures *)

Definition no_faults (env : JournalEnv) : Prop := forall n, sqlite_fault n = None.

Section running.
Context {ucd : UnicodeData} {env : JournalEnv} (Hok : no_faults env).

Lemma statement_run {A} (f : str -> tables -> result A * tables) d :
  statement f d =
  ((f (str_of_Z (time_ns (db_calls d))) (db_tables d)).1,
   mk_db (f (str_of_Z (time_ns (db_calls d))) (db_tables d)).2 (S (db_calls d))).
Proof. unfold statement. rewrite Hok. by destruct (f _ _). Qed.

Lemma query_run {A} (f : tables -> result A) d :
  query f d = (f (db_tables d), mk_db (db_tables d) (S (db_calls d))).
Proof. unfold query. by rewrite statement_run. Qed.

Lemma reservations_run c j d :
  reservations c j d =
  (records_of (db_tables d) c (str_of_Z j), mk_db (db_tables d) (S (db_calls d))).
Proof. apply query_run. Qed.
End running.

(** [statement] fails before its body or runs it; it never runs half of it. *)
Lemma statement_cases {ucd : UnicodeData} {env : JournalEnv} {A}
    (f : str -> tables -> result A * tables) d r d' :
  statement f d = (r, d') ->
  (exists e, r = Raise (PyError SqliteError e) /\ db_tables d' = db_tables d) \/
  (exists now, (r, db_tables d') = f now (db_tables d)).
Proof.
  unfold statement. destruct (sqlite_fault _) as [e|].
  - intros [= <- <-]. left. eauto.
  - destruct (f _ _) as [r' t'] eqn:E. intros [= <- <-]. right. eauto.
Qed.
