(* ===== verification/JournalProps.v ===== *)
(** * Properties of the journal *)

From S2P Require Import Prelude Python Values Effects Journal JournalFacts.
Local Open Scope Z_scope.

(** ** The plan of an allocation *)

Section plan.
Context (c : str) (j uid gid : Z) (services : list str) (fp rfp : str) (t : tables).

(** The row of a service of the accepted set says it is accepted, for the
    same workload. *)
Definition still_held (s : str) : Prop :=
  exists rr, reservation_rows t !! (c, str_of_Z j, s) = Some rr /\
    ReservationRow.state rr = txt "accepted" /\
    ReservationRow.request_fingerprint rr = Some rfp.

(** An accepted allocation, with its recorded answer *)
Definition accepted_alloc (row : Allocation.t) : Prop :=
  Allocation.state row = txt "accepted" /\ is_Some (Allocation.response row).

(** What a reserve of an allocation must not go on from *)
Definition refused (row : Allocation.t) : Prop :=
  Allocation.job_uid row <> uid \/ Allocation.job_gid row <> gid \/
  (accepted_alloc row /\
    (exists s, s ∈ services /\ s ∈ Allocation.service_set row /\ ~ (still_held s))) \/
  Allocation.state row ∈ [txt "reserving"; txt "rolling-back"; txt "extending"; txt "released"] \/
  ((Allocation.state row ∉ [txt "delayed"; txt "rolled-back"]) /\
    Allocation.request_fingerprint row = fp /\ Allocation.response row = None).

(** The allocation is extended: its set is kept, and exactly the requested
    services outside it are missing. *)
Definition extends (row : Allocation.t) (plan : AllocationPlan) : Prop :=
  existing_services plan = Allocation.service_set row /\
  existing_response plan = Allocation.response row /\
  (forall s, s ∈ missing_services plan <-> s ∈ services /\ s ∉ Allocation.service_set row) /\
  (forall s, s ∈ services -> s ∈ Allocation.service_set row -> still_held s).

(** It starts over, with every requested service. *)
Definition starts (plan : AllocationPlan) : Prop :=
  existing_services plan = [] /\ existing_response plan = None /\
  forall s, s ∈ missing_services plan <-> s ∈ services.

(** Its recorded outcome is repeated. *)
Definition repeats (row : Allocation.t) (plan : AllocationPlan) : Prop :=
  existing_services plan = [] /\ missing_services plan = [] /\
  existing_response plan = Allocation.response row /\ is_Some (Allocation.response row).

(** The plan for the row found: an accepted allocation is extended, one that
    is delayed, rolled back or was asked for something else starts over, and
    the same request repeats any other outcome. *)
Definition planned_from (old : option Allocation.t) (plan : AllocationPlan) : Prop :=
  match old with
  | None => starts plan
  | Some row =>
      (~ refused row) /\
      ((accepted_alloc row /\ extends row plan) \/
       (~ accepted_alloc row /\
         (Allocation.state row ∈ [txt "delayed"; txt "rolled-back"] \/
          Allocation.request_fingerprint row <> fp) /\ starts plan) \/
       (~ accepted_alloc row /\
         (Allocation.state row ∉ [txt "delayed"; txt "rolled-back"]) /\
         Allocation.request_fingerprint row = fp /\ repeats row plan))
  end.

(** What [begin_allocation] promises about its outcome [r] and the tables it
    leaves. *)
Definition plan_ok (r : result AllocationPlan) (t' : tables) : Prop :=
  let old := allocations t !! (c, str_of_Z j) in
  match r with
  | Raise e =>
      t' = t /\
      ((exists msg, e = PyError SqliteError msg) \/ exists row, old = Some row /\ refused row)
  | Ok plan =>
      planned_from old plan /\
      (* the owner never changes *)
      (forall row, old = Some row -> Allocation.job_uid row = uid /\ Allocation.job_gid row = gid) /\
      if bool_decide (missing_services plan = []) then
        t' = t /\ is_Some (existing_response plan)
      else
        exists row', t' = set_allocations <[(c, str_of_Z j) := row']> t /\
          Allocation.job_uid row' = uid /\ Allocation.job_gid row' = gid /\
          Allocation.request_fingerprint row' = fp /\
          Allocation.response row' = existing_response plan /\
          Allocation.state row' =
            (if is_extension plan then txt "extending" else txt "reserving") /\
          (forall s, s ∈ Allocation.service_set row' <->
             s ∈ existing_services plan \/ s ∈ services)
  end.

Lemma planned_requested old plan s :
  planned_from old plan -> s ∈ missing_services plan -> s ∈ services.
Proof.
  destruct old as [row|]; [|intros (_ & _ & Hm); apply Hm].
  intros (_ & [(_ & _ & _ & Hm & _)|[(_ & _ & _ & _ & Hm)|(_ & _ & _ & _ & Hm & _)]]) Hs.
  - by apply Hm in Hs as [? _].
  - by apply Hm.
  - rewrite Hm in Hs. by apply elem_of_nil in Hs.
Qed.
End plan.

Section props.
Context {ucd : UnicodeData} {env : JournalEnv} {laws : JournalEnvLaws env}.

Lemma restart_plan_ok c j uid gid services fp rfp row' t :
  let requested := sorted_str services in
  let plan := mk_plan None [] requested in
  services <> [] ->
  (starts services plan -> planned_from c j uid gid services fp rfp t
     (allocations t !! (c, str_of_Z j)) plan) ->
  (forall row, allocations t !! (c, str_of_Z j) = Some row ->
     Allocation.job_uid row = uid /\ Allocation.job_gid row = gid) ->
  Allocation.job_uid row' = uid -> Allocation.job_gid row' = gid ->
  Allocation.request_fingerprint row' = fp -> Allocation.response row' = None ->
  Allocation.state row' = txt "reserving" -> Allocation.service_set row' = requested ->
  plan_ok c j uid gid services fp rfp t (Ok plan)
    (set_allocations <[(c, str_of_Z j) := row']> t).
Proof.
  intros requested plan Hne Hplan Hid Hu Hg Hf Hr Hs Hset. simpl.
  assert (requested <> []) as Hreq.
  { intros E. apply Hne. apply Permutation_nil_r. rewrite <-E. symmetry. apply sorted_str_perm. }
  split_and!; [|done|].
  - apply Hplan. split_and!; [done..|]. intros s. apply elem_of_sorted_str.
  - rewrite bool_decide_eq_false_2 by done. exists row'. split_and!; try done.
    intros s. rewrite Hset. unfold requested. rewrite elem_of_sorted_str. set_solver.
Qed.

(** The checks of the services of an extension *)
Lemma check_reserved_held (t : tables) (c : str) (j : Z) (rfp s : str) :
  check_reserved t c (str_of_Z j) rfp s = Ok tt <-> still_held c j rfp t s.
Proof.
  unfold check_reserved, still_held. destruct (reservation_rows t !! _) as [rr|].
  - case_bool_decide as H1; simpl; [case_bool_decide as H2; simpl|].
    + split; [intros _; by exists rr|done].
    + split; [done|]. by intros (? & [= <-] & _ & ?).
    + split; [done|]. by intros (? & [= <-] & ? & _).
  - split; [done|]. by intros (? & [=] & _).
Qed.

Lemma check_all_held (t : tables) (c : str) (j : Z) (rfp : str) (X : gset str) :
  match iterR (check_reserved t c (str_of_Z j) rfp) (set_order X) with
  | Ok _ => forall s, s ∈ X -> still_held c j rfp t s
  | Raise _ => exists s, s ∈ X /\ ~ still_held c j rfp t s
  end.
Proof.
  assert (Hin : forall s, s ∈ set_order X <-> s ∈ X)
    by (intros s; rewrite (set_order_elements X); apply elem_of_elements).
  destruct (iterR _ _) as [[]|e] eqn:H.
  - intros s Hs. apply iterR_ok in H. rewrite Forall_forall in H.
    by apply check_reserved_held, H, Hin.
  - apply iterR_raise in H as (s & Hs & H). exists s. split; [by apply Hin|].
    intros Hh%check_reserved_held. congruence.
Qed.

Lemma elem_of_filter_new (s : str) (l : list str) (X : gset str) :
  s ∈ List.filter (fun s => negb (bool_decide (s ∈ X))) l <-> s ∈ l /\ s ∉ X.
Proof.
  rewrite !list_elem_of_In, List.filter_In, negb_true_iff, bool_decide_eq_false. done.
Qed.

Lemma extension_plan_ok (c : str) (j uid gid : Z) (services : list str) (fp rfp : str)
    (row : Allocation.t) (response : pyval) (now : str) (t : tables) :
  let K := (c, str_of_Z j) in
  let existing := Allocation.service_set row in
  let X : gset str := list_to_set existing in
  let missing := List.filter (fun s => negb (bool_decide (s ∈ X))) (sorted_str services) in
  allocations t !! K = Some row ->
  Allocation.job_uid row = uid -> Allocation.job_gid row = gid ->
  Allocation.state row = txt "accepted" -> Allocation.response row = Some response ->
  (forall s, s ∈ (list_to_set (sorted_str services) ∩ X : gset str) -> still_held c j rfp t s) ->
  plan_ok c j uid gid services fp rfp t (Ok (mk_plan (Some response) existing missing))
    (if bool_decide (missing = []) then t
     else set_allocations <[K := Allocation.mk uid gid
            (sorted_str (elements (X ∪ list_to_set missing))) fp (txt "extending")
            (Some response) now]> t).
Proof.
  intros K existing X missing Hrow Hu Hg Hs Hr Hrows. simpl. fold K.
  assert (Hm : forall s, s ∈ missing <-> s ∈ services /\ s ∉ existing).
  { intros s. unfold missing. rewrite elem_of_filter_new, elem_of_sorted_str.
    unfold X. by rewrite elem_of_list_to_set. }
  assert (Hheld : forall s, s ∈ services -> s ∈ existing -> still_held c j rfp t s).
  { intros s H1 H2. apply Hrows. unfold X.
    rewrite elem_of_intersection, !elem_of_list_to_set, elem_of_sorted_str. done. }
  split_and!.
  - rewrite Hrow. assert (accepted_alloc row) as Hacc by (split; [done|]; by rewrite Hr).
    split; [|by left; split_and!; [done|split_and!; [done..|by rewrite Hr|done|done]]].
    intros [?|[?|[(_ & s & ? & ? & Hn)|[Hst|(_ & _ & ?)]]]]; [done|done|by apply Hn, Hheld| |congruence].
    rewrite Hs in Hst. set_solver.
  - intros row' H'. rewrite Hrow in H'. by injection H' as <-.
  - case_bool_decide as E; [done|]. eexists. split_and!; try reflexivity.
    + unfold is_extension. simpl. by rewrite bool_decide_eq_false_2.
    + intros s. simpl. rewrite elem_of_sorted_str, elem_of_elements, elem_of_union.
      unfold X at 1. rewrite !elem_of_list_to_set, Hm.
      fold existing. destruct (decide (s ∈ existing)); tauto.
Qed.

(** The outcome for an allocation that is not accepted *)
Lemma settled_plan_ok c j uid gid services fp rfp row now t r t' :
  services <> [] ->
  allocations t !! (c, str_of_Z j) = Some row ->
  Allocation.job_uid row = uid -> Allocation.job_gid row = gid -> ~ accepted_alloc row ->
  let start_over := (Ok (mk_plan None [] (sorted_str services)),
    set_allocations <[(c, str_of_Z j) := restart (sorted_str services) fp now row]> t) in
  let state := Allocation.state row in
  (r, t') =
    (if one_of state ["delayed"; "rolled-back"]%string then start_over
     else if one_of state ["reserving"; "rolling-back"; "extending"]%string then
       (Raise (JournalError (txt "allocation has an incomplete transaction")), t)
     else if bool_decide (state = txt "released") then
       (Raise (RequestConflict (txt "allocation was already released")), t)
     else if negb (bool_decide (Allocation.request_fingerprint row = fp)) then start_over
     else match Allocation.response row with
          | None => (Raise (JournalError (txt "allocation has no durable outcome")), t)
          | Some _ => (Ok (mk_plan (Allocation.response row) [] []), t)
          end) ->
  plan_ok c j uid gid services fp rfp t r t'.
Proof.
  intros Hne Hrow Hu Hg Hacc start_over state H.
  assert (Hown : forall row', allocations t !! (c, str_of_Z j) = Some row' ->
    Allocation.job_uid row' = uid /\ Allocation.job_gid row' = gid)
    by (intros ? E; rewrite Hrow in E; by injection E as <-).
  assert (Hfree : state ∉ [txt "reserving"; txt "rolling-back"; txt "extending"; txt "released"] ->
    state ∈ [txt "delayed"; txt "rolled-back"] \/ Allocation.request_fingerprint row <> fp \/
      is_Some (Allocation.response row) ->
    ~ refused c j uid gid services fp rfp t row).
  { intros Hst Hor [?|[?|[[? _]|[?|(Hn & Hf & Hr)]]]]; [done..|].
    destruct Hor as [?|[?|Hs]]; [done..|]. rewrite Hr in Hs. by destruct Hs. }
  assert (Hstart : state ∉ [txt "reserving"; txt "rolling-back"; txt "extending"; txt "released"] ->
    state ∈ [txt "delayed"; txt "rolled-back"] \/ Allocation.request_fingerprint row <> fp ->
    plan_ok c j uid gid services fp rfp t start_over.1 start_over.2).
  { intros Hst Hor. apply restart_plan_ok; try done. intros Hs. rewrite Hrow.
    split; [apply Hfree; tauto|]. right. left. by split_and!. }
  assert (Hraise : forall e, refused c j uid gid services fp rfp t row ->
    plan_ok c j uid gid services fp rfp t (Raise e) t)
    by (intros e Hb; split; [done|]; right; by exists row).
  assert (Hbad : Allocation.state row ∈ [txt "reserving"; txt "rolling-back"; txt "extending";
      txt "released"] -> refused c j uid gid services fp rfp t row)
    by (intros ?; right; right; right; by left).
  subst start_over. unfold one_of in H. simpl in H. fold state in Hbad.
  destruct (bool_decide (state ∈ _)) eqn:H1 in H.
  { apply bool_decide_eq_true in H1. injection H as -> ->.
    apply Hstart; [|by left]. intros H2. rewrite !elem_of_cons in H1. rewrite !elem_of_cons in H2.
    destruct H1 as [E|[E|[]%elem_of_nil]]; rewrite E in H2;
      by destruct H2 as [?|[?|[?|[?|[]%elem_of_nil]]]]. }
  apply bool_decide_eq_false in H1.
  destruct (bool_decide (state ∈ _)) eqn:H2 in H.
  { apply bool_decide_eq_true in H2. injection H as -> ->. apply Hraise, Hbad.
    rewrite !elem_of_cons in H2. rewrite !elem_of_cons. tauto. }
  apply bool_decide_eq_false in H2. case_bool_decide as H3.
  { injection H as -> ->. apply Hraise, Hbad. rewrite H3. rewrite !elem_of_cons. tauto. }
  assert (state ∉ [txt "reserving"; txt "rolling-back"; txt "extending"; txt "released"]) as H4.
  { rewrite !elem_of_cons in H2. rewrite !elem_of_cons. tauto. }
  case_bool_decide as Hf; simpl in H; [|injection H as -> ->; apply Hstart; [done|by right]].
  destruct (Allocation.response row) as [resp|] eqn:Hr; injection H as -> ->.
  - split_and!; [|done|by rewrite bool_decide_eq_true_2].
    rewrite Hrow. split; [apply Hfree; [done|]; right; by right|]. right. right.
    split_and!; [done..|]. split_and!; [done|done|by rewrite Hr|by rewrite Hr].
  - apply Hraise. right. right. right. by right.
Qed.

(** On a working database the refusals are the journal's own. *)
Lemma begin_allocation_no_fault c j uid gid services fp rfp d msg d' :
  no_faults env ->
  begin_allocation c j uid gid services fp rfp d = (Raise (PyError SqliteError msg), d') -> False.
Proof.
  intros Hok. unfold begin_allocation. rewrite statement_run by done. cbv zeta.
  destruct (allocations _ !! _) as [row|]; [|done]. destruct (negb _); [done|].
  destruct (bool_decide (_ = txt "accepted") && _).
  - destruct (iterR _ _) as [[]|e] eqn:H; [by case_bool_decide|]. intros [= ->].
    apply iterR_raise in H as (s & _ & H). unfold check_reserved in H. by repeat case_match.
  - by repeat case_match.
Qed.

Lemma begin_allocation_cases c j uid gid services fp rfp d r d' :
  services <> [] ->
  begin_allocation c j uid gid services fp rfp d = (r, d') ->
  plan_ok c j uid gid services fp rfp (db_tables d) r (db_tables d').
Proof.
  intros Hne [(e & -> & Ht)|[now H]]%statement_cases; [split; [done|]; left; by exists e|].
  revert H. generalize (db_tables d'). generalize (db_tables d). intros t t' H.
  cbv zeta in H. destruct (allocations t !! _) as [row|] eqn:Hrow.
  2: { injection H as -> ->. apply restart_plan_ok; try done; [|intros row']; by rewrite Hrow. }
  assert (Hraise : forall e, refused c j uid gid services fp rfp t row ->
    plan_ok c j uid gid services fp rfp t (Raise e) t)
    by (intros e Hb; split; [done|]; right; by exists row).
  destruct (bool_decide (Allocation.job_uid row = uid) &&
    bool_decide (Allocation.job_gid row = gid)) eqn:Hid; simpl in H.
  2: { injection H as -> ->. apply Hraise.
       apply andb_false_iff in Hid as [?%bool_decide_eq_false|?%bool_decide_eq_false]; [by left|].
       right. by left. }
  apply andb_true_iff in Hid as [Hu%bool_decide_eq_true Hg%bool_decide_eq_true].
  destruct (bool_decide (Allocation.state row = txt "accepted") &&
    bool_decide (is_Some (Allocation.response row))) eqn:Hacc.
  - apply andb_true_iff in Hacc as [Hs%bool_decide_eq_true Hr%bool_decide_eq_true].
    assert (accepted_alloc row) as Haccepted by done.
    destruct Hr as [response Hr]. rewrite Hr in H.
    pose proof (check_all_held t c j rfp
      (list_to_set (sorted_str services) ∩ list_to_set (Allocation.service_set row))) as Hc.
    destruct (iterR _ _) as [[]|e] in Hc, H.
    + pose proof (extension_plan_ok c j uid gid services fp rfp row response now t
        Hrow Hu Hg Hs Hr Hc) as Hp.
      case_bool_decide as Hm; [rewrite Hm in Hp|]; injection H as -> ->;
        [exact Hp|rewrite Hu, Hg; exact Hp].
    + injection H as -> ->. apply Hraise. right. right. left. split; [done|].
      destruct Hc as (s & [H1 H2]%elem_of_intersection & Hn).
      rewrite elem_of_list_to_set, elem_of_sorted_str in H1.
      rewrite elem_of_list_to_set in H2. by exists s.
  - eapply settled_plan_ok; [done|exact Hrow|done|done| |exact H].
    intros [Hs Hr]. by rewrite !bool_decide_eq_true_2 in Hacc.
Qed.

(** A working database refuses nothing else: an accepted allocation whose
    requested services are still held is extended. *)
Lemma begin_allocation_extends c j services fp rfp row d :
  no_faults env -> services <> [] ->
  allocations (db_tables d) !! (c, str_of_Z j) = Some row -> accepted_alloc row ->
  (forall s, s ∈ services -> s ∈ Allocation.service_set row ->
     still_held c j rfp (db_tables d) s) ->
  exists plan d', begin_allocation c j (Allocation.job_uid row) (Allocation.job_gid row)
      services fp rfp d = (Ok plan, d') /\ extends c j services rfp (db_tables d) row plan.
Proof.
  intros Hok Hne Hrow Hacc Hheld.
  assert (~ refused c j (Allocation.job_uid row) (Allocation.job_gid row) services fp rfp
    (db_tables d) row) as Hr.
  { destruct Hacc as [Hs [resp Hr]].
    intros [?|[?|[(_ & s & ? & ? & Hn)|[Hst|(_ & _ & ?)]]]]; [done|done|by apply Hn, Hheld| |congruence].
    rewrite Hs, !elem_of_cons in Hst. by destruct Hst as [?|[?|[?|[?|[]%elem_of_nil]]]]. }
  destruct (begin_allocation _ _ _ _ _ _ _ d) as [[plan|e] d'] eqn:Hb; pose proof Hb as Hp;
    apply begin_allocation_cases in Hp; try done.
  - exists plan, d'. split; [done|]. destruct Hp as [Hp _]. rewrite Hrow in Hp.
    by destruct Hp as (_ & [[_ ?]|[[? _]|[? _]]]).
  - destruct Hp as (_ & [(msg & ->)|(row' & E & ?)]).
    + by apply begin_allocation_no_fault in Hb.
    + rewrite Hrow in E. by injection E as <-.
Qed.

(** ** Operations *)

Lemma begin_operation_new uid op rid fp scope d d' :
  begin_operation uid op rid fp scope d = (Ok None, d') ->
  exists row, operations (db_tables d') !! (uid, op, str_of_Z rid, scope) = Some row /\
    Operation.fingerprint row = fp /\ Operation.state row = txt "started".
Proof.
  intros [(e & [=] & _)|[now H]]%statement_cases. cbv zeta in H.
  destruct (operations _ !! _) as [row|].
  - case_bool_decide; simpl in H; [|done]. case_bool_decide; [|done].
    injection H as ->. eexists. split; [apply lookup_insert_eq|done].
  - injection H as ->. eexists. split; [apply lookup_insert_eq|done].
Qed.

Lemma complete_operation_row uid op rid r scope st d d' row :
  operations (db_tables d) !! (uid, op, str_of_Z rid, scope) = Some row ->
  complete_operation uid op rid r scope st d = (Ok tt, d') ->
  one_of st ["complete"; "retryable"]%string = true /\
  exists now, operations (db_tables d') !! (uid, op, str_of_Z rid, scope) =
    Some (Operation.mk (Operation.fingerprint row) st (Some r) now).
Proof.
  intros Hrow. unfold complete_operation. destruct (one_of _ _); [|done]. simpl.
  intros [(e & [=] & _)|[now H]]%statement_cases. cbv zeta in H. rewrite Hrow in H.
  injection H as ->. split; [done|]. eexists. apply lookup_insert_eq.
Qed.
End props.

(** ** Properties *)

(** C11 [begin_allocation] refuses, changing nothing, exactly when the database
    fails or the row it finds must not be gone on from: another owner, a
    service of the accepted set that is not held for this workload, an
    incomplete transaction, a released allocation, or an outcome without an
    answer. Otherwise an accepted allocation keeps its set, and the missing
    services are exactly the requested ones outside it, none when all are in
    it; any other allocation starts over with every requested service, or
    repeats its outcome for the same request. A plan with missing services
    has recorded the transaction (reserving or extending, with the union of
    both sets) before any QPM is called, a plan without changes nothing, and
    the owner of an allocation never changes. *)
Theorem begin_allocation_plan {ucd : UnicodeData} {env : JournalEnv} {laws : JournalEnvLaws env}
    c j uid gid services fp rfp d r d' :
  services <> [] ->
  begin_allocation c j uid gid services fp rfp d = (r, d') ->
  plan_ok c j uid gid services fp rfp (db_tables d) r (db_tables d').
Proof. apply begin_allocation_cases. Qed.

(** An accepted allocation of one service, about to be extended. *)
Definition accepted_db : db :=
  mk_db (mk_tables ∅
    {[ (txt "hpc", str_of_Z 7) :=
         Allocation.mk 1000 100 [txt "aer"] (txt "f1") (txt "accepted") (Some (PStr (txt "r"))) [] ]}
    {[ (txt "hpc", str_of_Z 7, txt "aer") :=
         ReservationRow.mk (Some (txt "41")) (Some (txt "rt")) (Some (txt "3")) (Some (txt "w"))
           (txt "accepted") None [] ]}) 0.

Lemma begin_allocation_plan_witness :
  let run := begin_allocation (ucd := ascii_ucd) (env := healthy_env)
    (txt "hpc") 7 1000 100 [txt "qpu"; txt "aer"] (txt "f2") (txt "w") accepted_db in
  run.1 = Ok (mk_plan (Some (PStr (txt "r"))) [txt "aer"] [txt "qpu"]) /\
  plan_ok (txt "hpc") 7 1000 100 [txt "qpu"; txt "aer"] (txt "f2") (txt "w")
    (db_tables accepted_db) run.1 (db_tables run.2).
Proof.
  intros run. split; [vm_compute; reflexivity|].
  apply (begin_allocation_plan (ucd := ascii_ucd) (env := healthy_env) _ _ _ _ _ _ _ accepted_db
    run.1 run.2); [discriminate|]. apply surjective_pairing.
Defined.

(** C12 Once an operation is begun and completed, its request id replays the
    recorded response and never runs again, whatever happened to the rest of
    the journal in between; the same id with other content is a conflict; only
    a retryable outcome starts the operation over. None of the three touches
    an allocation or a reservation. *)
Theorem completed_operation_replays {ucd : UnicodeData} {env : JournalEnv} uid op rid fp fp'
    scope st resp d0 d1 d1' d2 :
  no_faults env ->
  begin_operation uid op rid fp scope d0 = (Ok None, d1) ->
  operations (db_tables d1') !! (uid, op, str_of_Z rid, scope) =
    operations (db_tables d1) !! (uid, op, str_of_Z rid, scope) ->
  complete_operation uid op rid resp scope st d1' = (Ok tt, d2) ->
  let again := begin_operation uid op rid fp' scope d2 in
  again.1 =
    (if bool_decide (fp = fp') then
       if bool_decide (st = txt "retryable") then Ok None
       else Ok (Some (mk_operation_record (txt "complete") (Some resp)))
     else Raise (RequestConflict (txt "request ID reused with different content"))) /\
  untouched (fun _ => True) (db_tables d2) (db_tables again.2).
Proof.
  intros Hok (row & Hrow & Hfp & _)%begin_operation_new Hsame Hc.
  rewrite Hrow in Hsame.
  destruct (complete_operation_row _ _ _ _ _ _ _ _ _ Hsame Hc) as (Hst & now & Hrow2).
  split; [|apply begin_operation_untouched].
  unfold begin_operation. rewrite statement_run by done. cbv zeta. rewrite Hrow2. simpl.
  rewrite Hfp. case_bool_decide; simpl; [|done]. case_bool_decide as Hr; simpl; [done|].
  apply bool_decide_eq_true in Hst. simpl in Hst. repeat rewrite elem_of_cons in Hst.
  rewrite elem_of_nil in Hst. by destruct_or?; subst.
Qed.

(** An operation begun, then completed, on an empty journal. *)
Definition begun_db : db :=
  (begin_operation (env := healthy_env) 0 (txt "reserve") 5 (txt "f") (txt "allocation") empty_db).2.
Definition completed_db : db :=
  (complete_operation (env := healthy_env) 0 (txt "reserve") 5 (PStr (txt "r"))
     (txt "allocation") (txt "complete") begun_db).2.

Lemma begun_db_ok :
  begin_operation (env := healthy_env) 0 (txt "reserve") 5 (txt "f") (txt "allocation") empty_db
  = (Ok None, begun_db).
Proof. apply run_outcome. vm_compute. reflexivity. Qed.

Lemma completed_db_ok :
  complete_operation (env := healthy_env) 0 (txt "reserve") 5 (PStr (txt "r"))
    (txt "allocation") (txt "complete") begun_db = (Ok tt, completed_db).
Proof. apply run_outcome. vm_compute. reflexivity. Qed.

Lemma completed_operation_replays_witness :
  no_faults healthy_env /\
  let again := begin_operation (env := healthy_env) 0 (txt "reserve") 5 (txt "f")
                 (txt "allocation") completed_db in
  again.1 =
    (if bool_decide (txt "f" = txt "f") then
       if bool_decide (txt "complete" = txt "retryable") then Ok None
       else Ok (Some (mk_operation_record (txt "complete") (Some (PStr (txt "r")))))
     else Raise (RequestConflict (txt "request ID reused with different content"))) /\
  untouched (fun _ => True) (db_tables completed_db) (db_tables again.2).
Proof.
  assert (no_faults healthy_env) as Hok by done. split; [exact Hok|].
  exact (completed_operation_replays (ucd := ascii_ucd) (env := healthy_env) 0 (txt "reserve") 5
    (txt "f") (txt "f") (txt "allocation") (txt "complete") (PStr (txt "r")) empty_db
    begun_db begun_db completed_db Hok begun_db_ok eq_refl completed_db_ok).
Defined.

(** ** The reservation context *)

(** The records are the complete accepted set of the allocation. *)
Definition context_complete {ucd : UnicodeData} (t : tables) (c : str) (j uid gid : Z)
    (records : list ReservationRecord.t) : Prop :=
  let k := str_of_Z j in
  exists row, allocations t !! (c, k) = Some row /\
    Allocation.job_uid row = uid /\ Allocation.job_gid row = gid /\
    Allocation.state row = txt "accepted" /\
    Allocation.service_set row <> [] /\ NoDup (Allocation.service_set row) /\
    (* one record per service of the set, in order *)
    map ReservationRecord.service_id records = sorted_str (Allocation.service_set row) /\
    (* every record is an accepted row with an id *)
    (forall r, r ∈ records ->
       exists rr, reservation_rows t !! (c, k, ReservationRecord.service_id r) = Some rr /\
         record_of_row (ReservationRecord.service_id r) rr = Ok r /\
         ReservationRecord.state r = txt "accepted" /\
         ReservationRecord.reservation_id r <> None) /\
    (* no accepted row lies outside the set *)
    (forall s rr, reservation_rows t !! (c, k, s) = Some rr ->
       ReservationRow.state rr = txt "accepted" -> s ∈ Allocation.service_set row).

(** [reservation_context] as a function of the tables *)
Definition context_of {ucd : UnicodeData} (t : tables) (c k : str) (uid gid : Z)
    : result (list ReservationRecord.t) :=
  expected ← match allocations t !! (c, k) with
    | None => Raise (AllocationNotFound (txt "allocation is not in the journal"))
    | Some row =>
        let state := Allocation.state row in
        _ ← raise_if (negb (bool_decide (Allocation.job_uid row = uid)
                            && bool_decide (Allocation.job_gid row = gid)))
              (RequestConflict (txt "allocation identity changed"));
        _ ← raise_if (bool_decide (state = txt "released"))
              (AllocationReleased (txt "allocation reservations were released"));
        _ ← raise_if (negb (bool_decide (state = txt "accepted")))
              (AllocationNotAccepted
                 (txt "allocation state is " ++ repr state ++ txt ", not accepted"));
        Ok (Allocation.service_set row)
    end;
  all_records ← records_of t c k;
  _ ← raise_if (bool_decide (expected = []) || negb (bool_decide (NoDup expected)))
        (JournalError (txt "allocation service set is malformed"));
  let in_set r := bool_decide (ReservationRecord.service_id r ∈ expected) in
  let records := List.filter in_set all_records in
  let accepted r := bool_decide (ReservationRecord.state r = txt "accepted") in
  _ ← raise_if (existsb (fun r => accepted r && negb (in_set r)) all_records)
        (JournalError (txt "journal contains an unexpected active reservation"));
  _ ← raise_if (negb (bool_decide
          (map ReservationRecord.service_id records = sorted_str expected)))
        (JournalError (txt "accepted allocation reservation set is incomplete"));
  _ ← raise_if (existsb (fun r => negb (accepted r)
          || bool_decide (ReservationRecord.reservation_id r = None)) records)
        (JournalError (txt "accepted allocation contains inactive reservations"));
  Ok records.

Section context.
Context {ucd : UnicodeData} {env : JournalEnv}.

Lemma reservation_context_run (Hok : no_faults env) c j uid gid d :
  (reservation_context c j uid gid d).1 = context_of (db_tables d) c (str_of_Z j) uid gid /\
  db_tables (reservation_context c j uid gid d).2 = db_tables d.
Proof.
  unfold reservation_context, context_of.
  unfold mbind, m_mbind, m_bind, res_mbind, res_bind.
  rewrite query_run by done. fold (@mbind (res exn) _).
  match goal with |- context [match ?m with Ok _ => _ | Raise _ => _ end] =>
    destruct m as [expected|] end; [|done].
  rewrite reservations_run by done. simpl.
  destruct (records_of _ _ _) as [all|]; [|done]. simpl.
  unfold raise_when, raise_if.
  do 4 (match goal with |- context [if ?b then raise _ else _] => destruct b end;
        [by simpl | simpl]).
  done.
Qed.

(** Two sublists of records with the same ids are equal. *)
Lemma records_determined t (c k : str) (l1 l2 : list ReservationRecord.t) :
  let reads r := exists row,
    reservation_rows t !! (c, k, ReservationRecord.service_id r) = Some row /\
    record_of_row (ReservationRecord.service_id r) row = Ok r in
  Forall reads l1 -> Forall reads l2 ->
  map ReservationRecord.service_id l1 = map ReservationRecord.service_id l2 -> l1 = l2.
Proof.
  intros reads H. revert l2. induction H as [|r1 l1 (row1 & Hr1 & E1) _ IH];
    intros [|r2 l2] H2 Heq; try done.
  apply Forall_cons in H2 as [(row2 & Hr2 & E2) H2]. injection Heq as Hid Heq.
  f_equal; [|by apply IH]. rewrite Hid in *. congruence.
Qed.

Lemma filter_sorted (P : ReservationRecord.t -> bool) (l : list ReservationRecord.t) :
  Sorted (fun x y => str_leb x y = true) (map ReservationRecord.service_id l) ->
  Sorted (fun x y => str_leb x y = true)
    (map ReservationRecord.service_id (List.filter P l)).
Proof.
  intros H. assert (Transitive (fun x y => str_leb x y = true)) as Htr
    by (intros x y z; apply str_leb_trans).
  apply (Sorted_StronglySorted _) in H. apply StronglySorted_Sorted.
  induction l as [|r l IH]; simpl in *; [constructor|].
  apply StronglySorted_cons in H as [Hall Hs].
  destruct (P r); simpl; [|by apply IH]. constructor; [by apply IH|].
  rewrite Forall_map in Hall |- *. rewrite Forall_forall in Hall |- *.
  intros x Hx. apply Hall. apply list_elem_of_In, List.filter_In in Hx as [Hx _].
  by apply list_elem_of_In.
Qed.

(** A sorted list of distinct strings is the sort of its elements. *)
Lemma sorted_str_intro (l1 l2 : list str) :
  Sorted (fun x y => str_leb x y = true) l1 -> NoDup l1 -> NoDup l2 ->
  (forall s, s ∈ l1 <-> s ∈ l2) -> l1 = sorted_str l2.
Proof.
  intros Hs H1 H2 Hin.
  assert (Transitive (fun x y => str_leb x y = true)) as Htr
    by (intros x y z; apply str_leb_trans).
  apply (StronglySorted_unique_strong (fun x y => str_leb x y = true)).
  - intros x y ????. by apply str_leb_antisym.
  - by apply Sorted_StronglySorted.
  - apply Sorted_StronglySorted; [done|]. apply (sort_by_sorted str_leb id), str_leb_total.
  - rewrite sorted_str_perm. by apply NoDup_Permutation.
Qed.

Lemma context_of_sound t c j uid gid records :
  context_of t c (str_of_Z j) uid gid = Ok records ->
  context_complete t c j uid gid records.
Proof.
  unfold context_of. intros H. inv_ok.
  destruct (allocations t !! (c, str_of_Z j)) as [row|] eqn:Hrow; [|done]. inv_ok.
  repeat match goal with
  | H : negb _ = false |- _ => apply negb_false_iff in H
  | H : _ && _ = true |- _ => apply andb_true_iff in H as [? ?]
  | H : _ || _ = false |- _ => apply orb_false_iff in H as [? ?]
  | H : bool_decide _ = true |- _ => apply bool_decide_eq_true in H
  | H : bool_decide _ = false |- _ => apply bool_decide_eq_false in H
  | H : existsb _ _ = false |- _ => rewrite existsb_false_elem in H
  end.
  exists row. split_and!; try done.
  - intros r Hr. pose proof Hr as [Hin _]%elem_of_filter_bool.
    destruct (proj1 (elem_of_records _ _ _ _ _ E0) Hin) as (rr & Hrr & Hread).
    specialize (E4 r Hr). apply orb_false_iff in E4 as [Ha%negb_false_iff Hi].
    exists rr. split_and!; [done|done|by apply bool_decide_eq_true in Ha|
      by apply bool_decide_eq_false in Hi].
  - intros s rr Hrr Ha. destruct (row_record _ _ _ _ _ _ E0 Hrr) as (r & Hr & <- & _ & Hst).
    specialize (E2 r Hr). rewrite Hst, Ha, bool_decide_eq_true_2 in E2 by done.
    by apply negb_false_iff, bool_decide_eq_true in E2.
Qed.

Lemma context_of_complete t c j uid gid records :
  rows_valid t -> context_complete t c j uid gid records ->
  context_of t c (str_of_Z j) uid gid = Ok records.
Proof.
  intros Hv (row & Hrow & Hu & Hg & Hs & Hne & Hnd & Hids & Hrecs & Hout).
  unfold context_of. rewrite Hrow.
  rewrite (raise_if_bind _ (RequestConflict _)) by (by rewrite !bool_decide_eq_true_2).
  rewrite (raise_if_bind _ (AllocationReleased _)) by (rewrite Hs; by apply bool_decide_eq_false_2).
  rewrite (raise_if_bind _ (AllocationNotAccepted _)) by (by rewrite bool_decide_eq_true_2).
  rewrite ok_bind. destruct (records_of_ok t c (str_of_Z j) Hv) as [all Hall].
  rewrite Hall, ok_bind, raise_if_bind
    by (rewrite bool_decide_eq_false_2, bool_decide_eq_true_2 by done; done).
  set (inb r := bool_decide (ReservationRecord.service_id r ∈ Allocation.service_set row)).
  assert (Hfilter : List.filter inb all = records).
  { apply (records_determined t c (str_of_Z j)).
    - apply Forall_forall. intros r [Hr _]%elem_of_filter_bool.
      by apply (elem_of_records _ _ _ _ _ Hall).
    - apply Forall_forall. intros r Hr. destruct (Hrecs r Hr) as (rr & ? & ? & _). eauto.
    - rewrite Hids. apply sorted_str_intro; try done.
      + by apply filter_sorted, (records_sorted t c (str_of_Z j)).
      + by apply NoDup_map_filter, (records_NoDup t c (str_of_Z j)).
      + intros s. rewrite list_elem_of_fmap. split.
        * intros (r & -> & [_ Hin%bool_decide_eq_true]%elem_of_filter_bool). done.
        * intros Hin. assert (s ∈ map ReservationRecord.service_id records) as Hin'
            by (rewrite Hids; by apply elem_of_sorted_str).
          apply list_elem_of_fmap in Hin' as (r & -> & Hr).
          destruct (Hrecs r Hr) as (rr & Hrr & Hread & _).
          exists r. split; [done|]. apply elem_of_filter_bool. split.
          -- apply (elem_of_records _ _ _ _ _ Hall). eauto.
          -- by apply bool_decide_eq_true. }
  rewrite (raise_if_bind _ (JournalError (txt "journal contains an unexpected active reservation"))).
  2: { apply existsb_false_elem. intros r Hr.
       destruct (proj1 (elem_of_records _ _ _ _ _ Hall) Hr) as (rr & Hrr & Hread).
       pose proof (proj2 (record_of_row_id _ _ _ Hread)) as Hst. rewrite Hst.
       case_bool_decide as Ha; [|done]. simpl. apply negb_false_iff, bool_decide_eq_true.
       by eapply Hout. }
  rewrite Hfilter. rewrite raise_if_bind by (by rewrite bool_decide_eq_true_2).
  rewrite raise_if_bind; [done|]. apply existsb_false_elem. intros r Hr.
  destruct (Hrecs r Hr) as (rr & _ & _ & Ha & Hi).
  by rewrite bool_decide_eq_true_2, bool_decide_eq_false_2.
Qed.
End context.

(** [reservation_context] succeeds exactly when the allocation is accepted
    for that owner and the journal holds one accepted reservation with an id
    for each service of its set and none outside it; it then returns that set,
    sorted by service, and it never changes the tables. *)
Theorem reservation_context_spec {ucd : UnicodeData} {env : JournalEnv} c j uid gid d records :
  no_faults env -> rows_valid (db_tables d) ->
  ((reservation_context c j uid gid d).1 = Ok records <->
   context_complete (db_tables d) c j uid gid records) /\
  db_tables (reservation_context c j uid gid d).2 = db_tables d.
Proof.
  intros Hok Hv. destruct (reservation_context_run Hok c j uid gid d) as [-> ->].
  split; [|done]. split; [apply context_of_sound|by apply context_of_complete].
Qed.

Lemma accepted_db_rows : rows_valid (db_tables accepted_db).
Proof.
  apply map_Forall_singleton. by exists (Some 41), (Some 3).
Qed.

Lemma reservation_context_spec_witness :
  let records := [ReservationRecord.mk (txt "aer") (Some 41) (Some (txt "rt")) (Some 3)
                    (txt "accepted") (Some (txt "w"))] in
  let run := reservation_context (ucd := ascii_ucd) (env := healthy_env) (txt "hpc") 7 1000 100
               accepted_db in
  (run.1 = Ok records <->
   context_complete (ucd := ascii_ucd) (db_tables accepted_db) (txt "hpc") 7 1000 100 records) /\
  db_tables run.2 = db_tables accepted_db /\ run.1 = Ok records.
Proof.
  intros records run.
  destruct (reservation_context_spec (ucd := ascii_ucd) (env := healthy_env) (txt "hpc") 7 1000 100
    accepted_db records (fun _ => eq_refl) accepted_db_rows) as [H1 H2].
  split; [exact H1|]. split; [exact H2|]. vm_compute. reflexivity.
Defined.

(** ** Recording and reading back *)

Section record.
Context {ucd : UnicodeData} {env : JournalEnv}.

(** The row [record_reservation] writes *)
Definition row_of_record (r : ReservationRecord.t) (diag : option str) (now : str)
    : ReservationRow.t :=
  ReservationRow.mk (str_of_Z <$> ReservationRecord.reservation_id r)
    (ReservationRecord.qpm_runtime_id r) (str_of_Z <$> ReservationRecord.qpm_generation r)
    (ReservationRecord.request_fingerprint r) (ReservationRecord.state r) diag now.

Lemma record_row_roundtrip r diag now :
  record_of_row (ReservationRecord.service_id r) (row_of_record r diag now) = Ok r.
Proof.
  unfold record_of_row, row_of_record. simpl. rewrite !int_column_str, !ok_bind. by destruct r.
Qed.

Lemma record_reservation_row c j r diag d d' :
  record_reservation c j r diag d = (Ok tt, d') ->
  exists now, db_tables d' = set_reservations
    <[(c, str_of_Z j, ReservationRecord.service_id r) := row_of_record r diag now]> (db_tables d).
Proof.
  intros [(e & [=] & _)|[now H]]%statement_cases. injection H as H. by exists now.
Qed.

Lemma rows_valid_insert t K r diag now :
  rows_valid t -> rows_valid (set_reservations <[K := row_of_record r diag now]> t).
Proof.
  intros Hv. apply map_Forall_insert_2; [|done].
  by exists (ReservationRecord.reservation_id r), (ReservationRecord.qpm_generation r).
Qed.
End record.

(** After [record_reservation], [reservations] returns the recorded
    reservation in place of the previous one of that service, the others
    unchanged, one per service and sorted: ids and generations survive their
    decimal columns. *)
Theorem record_reservation_reads_back {ucd : UnicodeData} {env : JournalEnv} c j r diag d d' :
  no_faults env -> rows_valid (db_tables d) ->
  record_reservation c j r diag d = (Ok tt, d') ->
  exists l l', (reservations c j d).1 = Ok l /\ (reservations c j d').1 = Ok l' /\
    (forall x, x ∈ l' <->
       x = r \/ (x ∈ l /\ ReservationRecord.service_id x <> ReservationRecord.service_id r)) /\
    Sorted (fun x y => str_leb x y = true) (map ReservationRecord.service_id l') /\
    NoDup (map ReservationRecord.service_id l') /\ rows_valid (db_tables d').
Proof.
  intros Hok Hv [now Ht]%record_reservation_row.
  assert (rows_valid (db_tables d')) as Hv' by (rewrite Ht; by apply rows_valid_insert).
  destruct (records_of_ok _ c (str_of_Z j) Hv) as [l Hl].
  destruct (records_of_ok _ c (str_of_Z j) Hv') as [l' Hl'].
  exists l, l'. rewrite !reservations_run by done. simpl.
  split_and!; [done..| |by eapply records_sorted|by eapply records_NoDup|done].
  intros x. rewrite (elem_of_records _ _ _ _ x Hl'), (elem_of_records _ _ _ _ x Hl), Ht. simpl.
  destruct (decide (ReservationRecord.service_id x = ReservationRecord.service_id r)) as [E|E].
  - rewrite E, lookup_insert_eq. split.
    + intros (row & [= <-] & H). left. rewrite record_row_roundtrip in H. congruence.
    + intros [->|[_ []]]; [|done]. eexists. split; [done|]. apply record_row_roundtrip.
  - rewrite lookup_insert_ne by congruence. split; [by right|]. intros [->|[? _]]; done.
Qed.

Definition sample_record : ReservationRecord.t :=
  ReservationRecord.mk (txt "qpu") (Some (2 ^ 64 - 1)) (Some (txt "rt")) None (txt "accepted") None.

Lemma record_reservation_reads_back_witness :
  let d' := (record_reservation (env := healthy_env) (txt "hpc") 7 sample_record None accepted_db).2 in
  exists l l',
    (reservations (ucd := ascii_ucd) (env := healthy_env) (txt "hpc") 7 accepted_db).1 = Ok l /\
    (reservations (ucd := ascii_ucd) (env := healthy_env) (txt "hpc") 7 d').1 = Ok l' /\
    (forall x, x ∈ l' <-> x = sample_record \/
       (x ∈ l /\ ReservationRecord.service_id x <> ReservationRecord.service_id sample_record)) /\
    Sorted (fun x y => str_leb x y = true) (map ReservationRecord.service_id l') /\
    NoDup (map ReservationRecord.service_id l') /\ rows_valid (db_tables d').
Proof.
  apply (record_reservation_reads_back (ucd := ascii_ucd) (env := healthy_env) (txt "hpc") 7
    sample_record None accepted_db _ (fun _ => eq_refl) accepted_db_rows).
  apply run_outcome. reflexivity.
Defined.
