(* ===== verification/SlurmVerifier.v ===== *)
(** * Verification against the Slurm controller ([slurm_verifier.py])

    The verifier asks [scontrol] for the job a request names and compares the
    controller's record with the request. [scontrol] and the password database
    are parameters: the reply of a run is its return code, its standard error
    and what [json.loads] makes of its standard output. *)

From S2P Require Import Prelude Python Messages Values Effects.
Local Open Scope Z_scope.

(** [subprocess.CompletedProcess], with the parsed output *)
Record completed_process := mk_completed {
  returncode : Z;
  stdout_json : result pyval;
  stderr : str;
}.

Class SlurmEnv (X : Type) := {
  run_scontrol : Z -> M X completed_process;
  getpwuid : Z -> M X (option str);
}.

Module VerifiedJob.
Record t := mk {
  cluster_name : str;
  canonical_job_id : Z;
  uid : Z;
  gid : Z;
  username : str;
  account : option str;
  qos : option str;
  priority : option Z;
  state : str;
}.

(** [dataclasses.replace(job, cluster_name=name)] *)
Definition with_cluster (j : t) (name : str) : t :=
  mk name (canonical_job_id j) (uid j) (gid j) (username j) (account j) (qos j)
    (priority j) (state j).
End VerifiedJob.

(** The constructor arguments the checks use *)
Record verifier_config := mk_verifier {
  own_cluster : str;
  trusted_sender_uids : list Z;
}.

(** The first of [keys] in [d] whose value passes [ok]. *)
Fixpoint first_key {A} (keys : list str) (d : list (str * A)) : option A :=
  match keys with
  | [] => None
  | k :: keys =>
      match List.find (fun p => bool_decide (p.1 = k)) d with
      | Some (_, a) => Some a
      | None => first_key keys d
      end
  end.

Definition reserve_states : list str :=
  map txt ["PENDING"; "CONFIGURING"; "RUNNING"; "COMPLETING"]%string.

Definition release_states : list str :=
  reserve_states ++ map txt ["CANCELLED"; "COMPLETED"; "FAILED"; "NODE_FAIL";
    "OUT_OF_MEMORY"; "PREEMPTED"; "TIMEOUT"]%string.

Section verifier.
Context {ucd : UnicodeData}.

Fixpoint _number (value : pyval) (label : str) : result Z :=
  let unavailable := SlurmVerificationError (txt "Slurm " ++ label ++ txt " is unavailable") in
  match value with
  | PBool _ => Raise (SlurmVerificationError (txt "Slurm " ++ label ++ txt " is invalid"))
  | PInt z => Ok z
  | PStr s => if isdecimal s then py_int (PStr s) else Raise unavailable
  | PDict d =>
      (* the numbers under the keys whose value is not None *)
      let numbers :=
        omap (fun '(k, r) => r' ← r; Some (k, r'))
          (map (fun '(k, x) =>
                  (k, match x with PNone => None | _ => Some (_number x label) end)) d) in
      match first_key (map txt ["number"; "set"; "value"; "id"]%string) numbers with
      | Some r => r
      | None => Raise unavailable
      end
  | _ => Raise unavailable
  end.

Fixpoint _text (value : pyval) : option str :=
  match value with
  | PNone => None
  | PDict d =>
      match first_key (map txt ["name"; "string"; "value"]%string)
              (map (fun '(k, x) => (k, _text x)) d) with
      | Some r => r
      | None => None
      end
  | PList l => match l with x :: _ => _text x | [] => None end
  | _ => Some (py_str value)
  end.

(** [next(item for item in jobs if _number(item.get("job_id"), "job ID") == id)];
    [None] for [StopIteration] *)
Fixpoint find_job (jobs : list pyval) (job_id : Z) : result (option pyval) :=
  match jobs with
  | [] => Ok None
  | item :: jobs =>
      v ← py_get item (txt "job_id");
      n ← _number v (txt "job ID");
      if n =? job_id then Ok (Some item) else find_job jobs job_id
  end.

(** [record.get(a, record.get(b))] *)
Definition get_either (record : pyval) (a b : string) : result pyval :=
  dflt ← py_get record (txt b);
  py_get_or record (txt a) dflt.

Definition _canonical_job_id (record : pyval) : result Z :=
  let own := v ← py_get record (txt "job_id"); _number v (txt "job ID") in
  value ← py_get record (txt "het_job_id");
  match value with
  | PNone => own
  | _ =>
      match _number value (txt "heterogeneous job ID") with
      | Raise (SlurmVerificationError _) => own
      | Raise e => Raise e
      | Ok candidate =>
          if bool_decide (candidate ∈ [0; 4294967294; 4294967295]) then own
          else Ok candidate
      end
  end.

Definition _verify_heterogeneous_component (jobs : list pyval)
    (canonical_job_id component_job_id component_offset : Z) : result unit :=
  found ← find_job jobs component_job_id;
  component ← or_raise found
    (SlurmVerificationError (txt "scontrol response lacks the heterogeneous component"));
  v ← py_get component (txt "het_job_id");
  leader ← _number v (txt "heterogeneous job ID");
  v ← py_get component (txt "het_job_offset");
  offset ← _number v (txt "heterogeneous component");
  raise_if (negb (leader =? canonical_job_id) || negb (offset =? component_offset))
    (SlurmVerificationError (txt "heterogeneous component differs from Slurm")).

(** [except (json.JSONDecodeError, KeyError, IndexError, TypeError)] *)
Definition invalid_json (e : exn) : bool :=
  match e with
  | PyError JSONDecodeError _ | PyError KeyError _ | PyError TypeError _ => true
  | _ => false
  end.

(** The document of a successful run: its jobs and the requested record *)
Definition select_job (document : result pyval) (job_id : Z)
    : result (list pyval * pyval) :=
  match (document ← document;
         jobs ← py_item document (txt "jobs");
         jobs ← py_iter jobs;
         found ← find_job jobs job_id;
         Ok (jobs, found)) with
  | Ok (jobs, Some record) => Ok (jobs, record)
  | Ok (_, None) =>
      Raise (SlurmVerificationError (txt "scontrol response lacks the requested job"))
  | Raise e =>
      if invalid_json e then
        Raise (SlurmVerificationError (txt "scontrol returned invalid JSON"))
      else Raise e
  end.

(** The state text of a record, without its flags *)
Definition base_state (record : pyval) : result str :=
  v ← get_either record "job_state" "state";
  let state := upper (default [] (_text v)) in
  match split_at 43 state with
  | Some (base, _) => Ok base
  | None => Ok state
  end.

Context {X : Type} {senv : SlurmEnv X} (self : verifier_config).

(** [except (OSError, subprocess.TimeoutExpired)] *)
Definition unreachable (e : exn) : bool :=
  match e with PyError OSError _ | PyError TimeoutExpired _ => true | _ => false end.

Definition _query (job_id : Z) : M X (list pyval * pyval) :=
  result ← (fun x => match run_scontrol job_id x with
                     | (Raise e, x') =>
                         if unreachable e then
                           (Raise (SlurmVerificationError
                              (txt "cannot query slurmctld: " ++ exn_str e)), x')
                         else (Raise e, x')
                     | r => r
                     end);
  let detail := strip (stderr result) in
  _ ← raise_when (negb (returncode result =? 0))
        (SlurmVerificationError
           (if bool_decide (detail = []) then txt "scontrol failed" else detail));
  lift (select_job (stdout_json result) job_id).

Definition _verified_job (record : pyval) (job_id : Z) : M X VerifiedJob.t :=
  v ← lift (get_either record "user_id" "user_id_number");
  uid ← lift (_number v (txt "UID"));
  v ← lift (get_either record "group_id" "group_id_number");
  gid ← lift (_number v (txt "GID"));
  state ← lift (base_state record);
  entry ← getpwuid uid;
  let username := default (str_of_Z uid) entry in
  account ← lift (py_get record (txt "account"));
  qos ← lift (py_get record (txt "qos"));
  p ← lift (py_get record (txt "priority"));
  priority ← lift (match p with
                   | PNone => Ok None
                   | _ => z ← _number p (txt "priority"); Ok (Some z)
                   end);
  mret (VerifiedJob.mk [] job_id uid gid username (_text account) (_text qos)
          priority state).

Definition _load (job_id : Z) (hetero_job_id hetero_component : option Z)
    : M X VerifiedJob.t :=
  '(jobs, record) ← _query job_id;
  _ ← lift (match hetero_job_id, hetero_component with
            | Some h, Some c => _verify_heterogeneous_component jobs job_id h c
            | None, None => Ok tt
            | _, _ =>
                Raise (SlurmVerificationError
                  (txt "heterogeneous request metadata is incomplete"))
            end);
  job ← _verified_job record job_id;
  mret (VerifiedJob.with_cluster job (own_cluster self)).

Definition _sender_is_trusted (sender_uid job_uid : Z) : bool :=
  bool_decide (sender_uid ∈ [0; job_uid])
  || bool_decide (sender_uid ∈ trusted_sender_uids self).

Definition check_cluster (cluster_name : str) : M X unit :=
  raise_when (negb (bool_decide (cluster_name = own_cluster self)))
    (SlurmVerificationError (txt "request names another Slurm cluster")).

Definition verify_reserve (request : ReserveRequest.t) (sender_uid : Z)
    : M X VerifiedJob.t :=
  _ ← check_cluster (ReserveRequest.cluster_name request);
  job ← _load (ReserveRequest.canonical_job_id request)
          (ReserveRequest.hetero_job_id request) (ReserveRequest.hetero_component request);
  _ ← raise_when (negb (VerifiedJob.uid job =? ReserveRequest.job_uid request)
                  || negb (VerifiedJob.gid job =? ReserveRequest.job_gid request))
        (SlurmVerificationError (txt "request identity differs from Slurm"));
  _ ← raise_when (negb (_sender_is_trusted sender_uid (VerifiedJob.uid job)))
        (SlurmVerificationError (txt "MUNGE identity cannot reserve this job"));
  _ ← raise_when (negb (bool_decide (VerifiedJob.state job ∈ reserve_states)))
        (SlurmVerificationError
           (txt "Slurm job state " ++ repr (VerifiedJob.state job) ++ txt " cannot reserve QPMs"));
  mret (VerifiedJob.with_cluster job (own_cluster self)).

Definition verify_release (request : ReleaseRequest.t) (sender_uid : Z)
    (expected_uid : option Z) : M X VerifiedJob.t :=
  _ ← check_cluster (ReleaseRequest.cluster_name request);
  job ← _load (ReleaseRequest.canonical_job_id request) None None;
  _ ← raise_when (if expected_uid is Some u then negb (VerifiedJob.uid job =? u) else false)
        (SlurmVerificationError (txt "journal and Slurm owner differ"));
  _ ← raise_when (negb (_sender_is_trusted sender_uid (VerifiedJob.uid job)))
        (SlurmVerificationError (txt "MUNGE identity cannot release this job"));
  _ ← raise_when (negb (bool_decide (VerifiedJob.state job ∈ release_states)))
        (SlurmVerificationError
           (txt "Slurm job state " ++ repr (VerifiedJob.state job) ++ txt " cannot release QPMs"));
  mret job.

Definition verify_lookup (request : GetReservationsRequest.t) (sender_uid : Z)
    : M X VerifiedJob.t :=
  _ ← check_cluster (GetReservationsRequest.cluster_name request);
  let observed_job_id := GetReservationsRequest.observed_job_id request in
  '(jobs, observed) ← _query observed_job_id;
  canonical_job_id ← lift (_canonical_job_id observed);
  canonical ←
    (if canonical_job_id =? observed_job_id then mret observed
     else
       found ← lift (find_job jobs canonical_job_id);
       match found with
       | Some record => mret record
       | None => '(_, record) ← _query canonical_job_id; mret record
       end);
  job ← _verified_job canonical canonical_job_id;
  v ← lift (get_either observed "user_id" "user_id_number");
  observed_uid ← lift (_number v (txt "UID"));
  v ← lift (get_either observed "group_id" "group_id_number");
  observed_gid ← lift (_number v (txt "GID"));
  _ ← raise_when (negb ((observed_uid =? VerifiedJob.uid job)
                        && (observed_gid =? VerifiedJob.gid job)))
        (SlurmVerificationError (txt "heterogeneous component owner differs from allocation"));
  _ ← raise_when (negb (VerifiedJob.uid job =? GetReservationsRequest.job_uid request)
                  || negb (VerifiedJob.gid job =? GetReservationsRequest.job_gid request))
        (SlurmVerificationError (txt "request identity differs from Slurm"));
  _ ← raise_when (negb (_sender_is_trusted sender_uid (VerifiedJob.uid job)))
        (SlurmVerificationError
           (txt "MUNGE identity cannot retrieve reservations for this job"));
  _ ← raise_when (negb (bool_decide (VerifiedJob.state job ∈ reserve_states)))
        (SlurmVerificationError
           (txt "Slurm job state " ++ repr (VerifiedJob.state job)
            ++ txt " has no active reservation context"));
  mret (VerifiedJob.with_cluster job (own_cluster self)).
End verifier.
