(* ===== verification/Adapter.v ===== *)
(** * Interfaces of the transaction coordinator

    What [GatewayService] calls: the QFw adapter and the Slurm verifier, as
    operation classes over their own state [X], and the laws the service's
    theorems use. [DefwClient] and [SlurmVerifier] implement them. *)

From S2P Require Import Prelude Python Messages Values Effects SlurmVerifier.
Import Enums.
Local Open Scope Z_scope.

(** [QPMBinding]; [H] is the type of the admission API object. *)
Record QPMBinding {H : Type} := mk_binding {
  service_id : str;
  runtime_id : str;
  generation : Z;
  admission : H;
}.
Arguments QPMBinding : clear implicits.
Arguments mk_binding {H}.

Class AdapterOps (X H : Type) := {
  a_resolve : str -> M X (QPMBinding H);
  a_evaluate : QPMBinding H -> ReserveRequest.t -> VerifiedJob.t -> M X ServiceResult.t;
  a_reserve : QPMBinding H -> ReserveRequest.t -> VerifiedJob.t -> M X ServiceResult.t;
  (** the reply of the QPM, a dict *)
  a_release : QPMBinding H -> option Z -> Z -> M X (list (str * pyval));
}.

Class VerifierOps (X : Type) := {
  v_reserve : ReserveRequest.t -> Z -> M X VerifiedJob.t;
  v_release : ReleaseRequest.t -> Z -> option Z -> M X VerifiedJob.t;
  v_lookup : GetReservationsRequest.t -> Z -> M X VerifiedJob.t;
}.

(** The result of a reservation, as the coordinator relies on it: it names the
    service of its binding, and it carries a reservation id, a nonzero 64-bit
    integer, exactly when it is accepted. *)
Definition reserve_result_ok {H} (b : QPMBinding H) (r : ServiceResult.t) : Prop :=
  ServiceResult.service_id r = service_id b /\
  match ServiceResult.reservation_id r with
  | Some rid => ServiceResult.decision r = AdmissionDecision.ACCEPTED /\ 0 < rid < 2 ^ 64
  | None => ServiceResult.decision r <> AdmissionDecision.ACCEPTED
  end.

Class AdapterLaws (X H : Type) `{AdapterOps X H} : Prop := {
  resolve_service s x b x' : a_resolve s x = (Ok b, x') -> service_id b = s;
  reserve_result b req job x r x' :
    a_reserve b req job x = (Ok r, x') -> reserve_result_ok b r;
  evaluate_result b req job x r x' :
    a_evaluate b req job x = (Ok r, x') ->
    ServiceResult.service_id r = service_id b /\ ServiceResult.reservation_id r = None;
}.

(** A verified job belongs to the uid, gid and cluster of the request. *)
Class VerifierLaws (X : Type) `{VerifierOps X} : Prop := {
  reserve_identity req uid x job x' :
    v_reserve req uid x = (Ok job, x') ->
    VerifiedJob.uid job = ReserveRequest.job_uid req /\
    VerifiedJob.gid job = ReserveRequest.job_gid req /\
    VerifiedJob.canonical_job_id job = ReserveRequest.canonical_job_id req;
  lookup_identity req uid x job x' :
    v_lookup req uid x = (Ok job, x') ->
    VerifiedJob.uid job = GetReservationsRequest.job_uid req /\
    VerifiedJob.gid job = GetReservationsRequest.job_gid req;
}.

(** ** The verifier implements its interface *)

Definition slurm_verifier {ucd : UnicodeData} {X} `{SlurmEnv X} (self : verifier_config) :
    VerifierOps X := {|
  v_reserve := verify_reserve self;
  v_release := verify_release self;
  v_lookup := verify_lookup self;
|}.
