(* ===== verification/VerifierProps.v ===== *)
(** * Soundness of the Slurm verification

    A verified job is one the controller reported: its owner, its state and
    its canonical id are read from the controller's record, and they agree
    with the request and with the authenticated sender. *)

From S2P Require Import Prelude Python Messages Values Effects SlurmVerifier Adapter.
Local Open Scope Z_scope.

(** Split the binds of a successful run. *)
Ltac inv_run :=
  repeat match goal with
  | H : mbind _ _ _ = (Ok _, _) |- _ =>
      let a := fresh "a" in let x := fresh "x" in let E := fresh "E" in
      apply m_bind_inv in H as (a & x & E & H)
  | H : lift _ _ = (Ok _, _) |- _ => unfold lift in H; injection H as H ?; subst
  | H : mret _ _ = (Ok _, _) |- _ => unfold mret, m_mret, m_ret in H; injection H as H ?; subst
  | H : raise _ _ = (Ok _, _) |- _ => discriminate H
  | H : gets _ _ = (Ok _, _) |- _ => unfold gets in H; injection H as H ?; subst
  | H : raise_when ?b _ _ = (Ok _, _) |- _ =>
      let E := fresh "Eb" in
      destruct b eqn:E; unfold raise_when, raise, m_ret in H; [discriminate H|];
      injection H as _ ?; subst
  | p : (_ * _)%type |- _ => destruct p
  end.

Section verifier.
Context {ucd : UnicodeData} {X : Type} {senv : SlurmEnv X} (self : verifier_config).

(** The first item with the job id *)
Lemma find_job_ok jobs id record :
  find_job jobs id = Ok (Some record) ->
  record ∈ jobs /\ exists v, py_get record (txt "job_id") = Ok v /\
    _number v (txt "job ID") = Ok id.
Proof.
  induction jobs as [|item jobs IH]; simpl; [done|]. intros H. inv_ok.
  destruct (Z.eqb_spec a0 id) as [->|].
  - injection H as ->. split; [by constructor|eauto].
  - destruct (IH H) as [Hin Hr]. split; [by constructor|done].
Qed.

Lemma select_job_ok document id jobs record :
  select_job document id = Ok (jobs, record) ->
  record ∈ jobs /\ find_job jobs id = Ok (Some record).
Proof.
  unfold select_job. intros H.
  match type of H with match ?m with _ => _ end = _ => destruct m as [[js [r|]]|] eqn:E end;
    [|done|by destruct (invalid_json _)].
  injection H as -> ->. inv_ok. split; [by eapply find_job_ok|done].
Qed.

(** The number a field of a record holds *)
Definition says (record : pyval) (field label : string) (n : Z) : Prop :=
  exists v, py_get record (txt field) = Ok v /\ _number v (txt label) = Ok n.

(** What a successful query of the controller returned: the jobs, and the first
    of them with the id asked for *)
Definition reported (x : X) (id : Z) (jobs : list pyval) (record : pyval) : Prop :=
  exists reply x', run_scontrol id x = (Ok reply, x') /\ returncode reply = 0 /\
    select_job (stdout_json reply) id = Ok (jobs, record) /\
    record ∈ jobs /\ says record "job_id" "job ID" id.

Lemma query_ok id x jobs record x' :
  _query id x = (Ok (jobs, record), x') -> reported x id jobs record.
Proof.
  intros H. unfold _query in H. apply m_bind_inv in H as (reply & x1 & E & H).
  inv_run. apply negb_false_iff, Z.eqb_eq in Eb.
  destruct (run_scontrol id x) as [[r|e] x2] eqn:Er; [|by destruct (unreachable e)].
  injection E as -> ->. exists reply, x'. pose proof H as [Hin Hf]%select_job_ok.
  split_and!; [done..|by apply find_job_ok in Hf as [_ ?]].
Qed.

(** The owner and state a record holds *)
Definition record_says (record : pyval) (uid gid : Z) (state : str) : Prop :=
  (exists v, get_either record "user_id" "user_id_number" = Ok v /\
     _number v (txt "UID") = Ok uid) /\
  (exists v, get_either record "group_id" "group_id_number" = Ok v /\
     _number v (txt "GID") = Ok gid) /\
  base_state record = Ok state.

Lemma verified_job_ok record id x job x' :
  _verified_job record id x = (Ok job, x') ->
  record_says record (VerifiedJob.uid job) (VerifiedJob.gid job) (VerifiedJob.state job) /\
  VerifiedJob.canonical_job_id job = id.
Proof.
  intros H. unfold _verified_job in H. inv_run. unfold record_says. simpl. eauto 10.
Qed.

(** One of the reported jobs is the component [component] of the heterogeneous
    job, led by [leader], at [offset]. *)
Definition has_component (jobs : list pyval) (leader component offset : Z) : Prop :=
  exists record, record ∈ jobs /\ says record "job_id" "job ID" component /\
    says record "het_job_id" "heterogeneous job ID" leader /\
    says record "het_job_offset" "heterogeneous component" offset.

Lemma component_ok jobs leader component offset :
  _verify_heterogeneous_component jobs leader component offset = Ok tt ->
  has_component jobs leader component offset.
Proof.
  intros H. unfold _verify_heterogeneous_component in H. inv_ok.
  destruct a as [record|]; [|discriminate]. injection E0 as ->.
  apply find_job_ok in E as [Hin Hid].
  apply orb_false_iff in H as [Ha Hb]. apply negb_false_iff, Z.eqb_eq in Ha, Hb. subst.
  eexists. split_and!; [exact Hin|exact Hid|by eexists|by eexists].
Qed.

(** The job a record's reservations belong to: the leader it names in
    [het_job_id], when that is a number other than those Slurm uses for none,
    or else itself. *)
Definition belongs_to (record : pyval) (id : Z) : Prop :=
  let none := [0; 4294967294; 4294967295] in
  (says record "het_job_id" "heterogeneous job ID" id /\ id ∉ none) \/
  (says record "job_id" "job ID" id /\
   forall n, says record "het_job_id" "heterogeneous job ID" n -> n ∈ none).

Lemma canonical_ok record id : _canonical_job_id record = Ok id -> belongs_to record id.
Proof.
  intros H. unfold _canonical_job_id in H. cbv zeta in H.
  assert (Hown : (v ← py_get record (txt "job_id"); _number v (txt "job ID")) = Ok id ->
    says record "job_id" "job ID" id) by (intros Ho; inv_ok; by eexists).
  apply bind_ok in H as (value & Hv & H).
  assert (Hsays : forall n, says record "het_job_id" "heterogeneous job ID" n ->
    _number value (txt "heterogeneous job ID") = Ok n)
    by (intros n (v & Hv' & Hn); rewrite Hv in Hv'; by injection Hv' as ->).
  destruct (_number value (txt "heterogeneous job ID")) as [n|e] eqn:Hn.
  - assert (n ∈ [0; 4294967294; 4294967295] /\ says record "job_id" "job ID" id \/
      (n ∉ [0; 4294967294; 4294967295]) /\ id = n) as [[Hin Ho]|[Hin ->]].
    { destruct value; try discriminate Hn; rewrite ?Hn in H;
        (case_bool_decide as Hin; [left; auto|right; split; [done|congruence]]). }
    + right. split; [done|]. intros m Hm%Hsays. by injection Hm as <-.
    + left. split; [by exists value|done].
  - right. split; [|by intros m Hm%Hsays]. apply Hown.
    destruct value; [exact H|..]; rewrite ?Hn in H; by destruct e.
Qed.

Lemma load_ok id h c x job x' :
  _load self id h c x = (Ok job, x') ->
  exists jobs record, reported x id jobs record /\
    record_says record (VerifiedJob.uid job) (VerifiedJob.gid job) (VerifiedJob.state job) /\
    VerifiedJob.canonical_job_id job = id /\ VerifiedJob.cluster_name job = own_cluster self /\
    match h, c with
    | Some h, Some c => has_component jobs id h c
    | None, None => True
    | _, _ => False
    end.
Proof.
  intros H. unfold _load in H.
  apply m_bind_inv in H as ([jobs record] & x1 & E%query_ok & H). inv_run.
  apply verified_job_ok in E1 as [Hs Hc]. exists jobs, record.
  destruct h, c; inv_ok; split_and!; try done.
  match goal with H : _verify_heterogeneous_component _ _ _ _ = Ok ?u |- _ => destruct u end.
  by apply component_ok.
Qed.

Lemma trusted_sender sender uid :
  negb (_sender_is_trusted self sender uid) = false ->
  sender = 0 \/ sender = uid \/ sender ∈ trusted_sender_uids self.
Proof.
  intros [H|H]%negb_false_iff%orb_true_iff; apply bool_decide_eq_true in H; [set_solver|auto].
Qed.

Lemma check_cluster_ok name (x : X) u x' :
  check_cluster self name x = (Ok u, x') -> name = own_cluster self /\ x' = x.
Proof.
  unfold check_cluster. intros H. inv_run.
  apply negb_false_iff, bool_decide_eq_true in Eb. done.
Qed.
End verifier.

(** The facts behind the passed checks *)
Ltac checked :=
  repeat match goal with
  | H : negb (_sender_is_trusted _ _ _) = false |- _ => apply trusted_sender in H
  | H : negb (bool_decide _) = false |- _ => apply negb_false_iff, bool_decide_eq_true in H
  | H : negb (_ =? _) = false |- _ => apply negb_false_iff, Z.eqb_eq in H
  | H : negb (_ && _) = false |- _ => apply negb_false_iff, andb_true_iff in H as [? ?]
  | H : (_ =? _) = true |- _ => apply Z.eqb_eq in H
  | H : _ || _ = false |- _ => apply orb_false_iff in H as [? ?]
  end.

(** ** Properties *)

(** C18 [verify_reserve] succeeds only for a request of this cluster whose owner
    is the owner the controller reports for that job, sent by root, by the
    owner or by a trusted uid, while the controller reports the job pending,
    configuring, running or completing. A heterogeneous request names both a
    component and its offset, and the controller reports, beside the job, a
    record of that id whose leader is the job and whose offset is the one
    requested. *)
Theorem verify_reserve_sound {ucd : UnicodeData} {X} {senv : SlurmEnv X} self req sender x job x' :
  verify_reserve self req sender x = (Ok job, x') ->
  exists jobs record state,
    reported x (ReserveRequest.canonical_job_id req) jobs record /\
    record_says record (ReserveRequest.job_uid req) (ReserveRequest.job_gid req) state /\
    job = VerifiedJob.mk (ReserveRequest.cluster_name req) (ReserveRequest.canonical_job_id req)
            (ReserveRequest.job_uid req) (ReserveRequest.job_gid req) (VerifiedJob.username job)
            (VerifiedJob.account job) (VerifiedJob.qos job) (VerifiedJob.priority job) state /\
    ReserveRequest.cluster_name req = own_cluster self /\
    (sender = 0 \/ sender = ReserveRequest.job_uid req \/ sender ∈ trusted_sender_uids self) /\
    state ∈ reserve_states /\
    match ReserveRequest.hetero_job_id req, ReserveRequest.hetero_component req with
    | Some h, Some c => has_component jobs (ReserveRequest.canonical_job_id req) h c
    | None, None => True
    | _, _ => False
    end.
Proof.
  intros H. unfold verify_reserve in H.
  apply m_bind_inv in H as (u & x1 & [Hc ->]%check_cluster_ok & H).
  apply m_bind_inv in H as (job' & x2 & (jobs & record & Hrep & Hsays & Hid & Hcl & Hhet)%load_ok & H).
  inv_run. checked.
  assert (VerifiedJob.uid job' = ReserveRequest.job_uid req) as Hu by done.
  assert (VerifiedJob.gid job' = ReserveRequest.job_gid req) as Hg by done.
  exists jobs, record, (VerifiedJob.state job'). rewrite <-Hu, <-Hg.
  split_and!; try done.
  rewrite Hc. unfold VerifiedJob.with_cluster. by rewrite <-Hid at 1; destruct job'.
Qed.

(** The controller of one job, and a verifier for its cluster. *)
Definition controller (record : pyval) : SlurmEnv unit := {|
  run_scontrol := fun _ x =>
    (Ok (mk_completed 0 (Ok (PDict [(txt "jobs", PList [record])])) []), x);
  getpwuid := fun _ x => (Ok None, x);
|}.
Definition job_record : pyval := PDict [
  (txt "job_id", PInt 7); (txt "user_id", PInt 1000); (txt "group_id", PInt 100);
  (txt "job_state", PList [PStr (txt "running")])].
Definition job_request : ReserveRequest.t :=
  ReserveRequest.mk 11 (txt "hpc") 7 1000 100 None [txt "aer"] None None.
Definition hpc_verifier : verifier_config := mk_verifier (txt "hpc") [64030].

Lemma verify_reserve_sound_witness :
  exists job, verify_reserve (ucd := ascii_ucd) (senv := controller job_record) hpc_verifier
    job_request 64030 tt = (Ok job, tt) /\
  exists jobs record state,
    reported (ucd := ascii_ucd) (senv := controller job_record) tt 7 jobs record /\
    record_says (ucd := ascii_ucd) record 1000 100 state /\ state ∈ reserve_states.
Proof.
  eexists. split; [vm_compute; reflexivity|].
  destruct (verify_reserve_sound (ucd := ascii_ucd) (senv := controller job_record) hpc_verifier
    job_request 64030 tt _ tt ltac:(vm_compute; reflexivity))
    as (jobs & record & state & H1 & H2 & _ & _ & _ & H3 & _).
  exists jobs, record, state. split; [exact H1|]. split; [exact H2|exact H3].
Defined.

(** C19 [verify_release] succeeds only for a job of this cluster whose owner the
    controller confirms, equal to the owner the journal recorded when it did,
    for root, that owner or a trusted uid, and in a state from which
    reservations may be released. *)
Theorem verify_release_sound {ucd : UnicodeData} {X} {senv : SlurmEnv X} self req sender
    expected x job x' :
  verify_release self req sender expected x = (Ok job, x') ->
  exists jobs record,
    reported x (ReleaseRequest.canonical_job_id req) jobs record /\
    record_says record (VerifiedJob.uid job) (VerifiedJob.gid job) (VerifiedJob.state job) /\
    ReleaseRequest.cluster_name req = own_cluster self /\
    (forall u, expected = Some u -> VerifiedJob.uid job = u) /\
    (sender = 0 \/ sender = VerifiedJob.uid job \/ sender ∈ trusted_sender_uids self) /\
    VerifiedJob.state job ∈ release_states.
Proof.
  intros H. unfold verify_release in H.
  apply m_bind_inv in H as (u & x1 & [Hc ->]%check_cluster_ok & H).
  apply m_bind_inv in H as (job' & x2 & (jobs & record & Hrep & Hsays & _)%load_ok & H).
  inv_run. checked. exists jobs, record. split_and!; try done.
  intros u' ->. by checked.
Qed.

Lemma verify_release_sound_witness :
  let req := ReleaseRequest.mk 11 (txt "hpc") 7 0 in
  exists job, verify_release (ucd := ascii_ucd) (senv := controller job_record) hpc_verifier
    req 1000 (Some 1000) tt = (Ok job, tt) /\
  VerifiedJob.uid job = 1000 /\ VerifiedJob.state job ∈ release_states.
Proof.
  eexists. split; [vm_compute; reflexivity|].
  destruct (verify_release_sound (ucd := ascii_ucd) (senv := controller job_record) hpc_verifier
    (ReleaseRequest.mk 11 (txt "hpc") 7 0) 1000 (Some 1000) tt _ tt
    ltac:(vm_compute; reflexivity)) as (jobs & record & _ & _ & _ & H1 & _ & H2).
  split; [exact (H1 1000 eq_refl)|exact H2].
Defined.

(** What [verify_lookup] established about the observed and the canonical job *)
Definition lookup_verified {ucd : UnicodeData} {X} {senv : SlurmEnv X} (self : verifier_config)
    (req : GetReservationsRequest.t) (sender : Z) (x : X) (job : VerifiedJob.t) : Prop :=
  exists jobs observed canonical,
    let id := VerifiedJob.canonical_job_id job in
    reported x (GetReservationsRequest.observed_job_id req) jobs observed /\
    belongs_to observed id /\
    (* the canonical record: the observed one, its neighbour, or a second reply *)
    (canonical = observed /\ id = GetReservationsRequest.observed_job_id req \/
     (canonical ∈ jobs /\ says canonical "job_id" "job ID" id) \/
     exists x1 jobs1, reported x1 id jobs1 canonical) /\
    (* both belong to the owner the request names *)
    record_says canonical (GetReservationsRequest.job_uid req)
      (GetReservationsRequest.job_gid req) (VerifiedJob.state job) /\
    (exists v, get_either observed "user_id" "user_id_number" = Ok v /\
       _number v (txt "UID") = Ok (GetReservationsRequest.job_uid req)) /\
    (exists v, get_either observed "group_id" "group_id_number" = Ok v /\
       _number v (txt "GID") = Ok (GetReservationsRequest.job_gid req)) /\
    VerifiedJob.uid job = GetReservationsRequest.job_uid req /\
    VerifiedJob.gid job = GetReservationsRequest.job_gid req /\
    GetReservationsRequest.cluster_name req = own_cluster self /\
    (sender = 0 \/ sender = GetReservationsRequest.job_uid req \/
     sender ∈ trusted_sender_uids self) /\
    VerifiedJob.state job ∈ reserve_states.

Lemma verify_lookup_ok {ucd : UnicodeData} {X} {senv : SlurmEnv X} self req sender x job x' :
  verify_lookup self req sender x = (Ok job, x') -> lookup_verified self req sender x job.
Proof.
  intros H. unfold verify_lookup in H.
  apply m_bind_inv in H as (u & x1 & [Hc ->]%check_cluster_ok & H).
  apply m_bind_inv in H as ([jobs observed] & x2 & Hobs%query_ok & H).
  apply m_bind_inv in H as (id & x3 & Hid & H). unfold lift in Hid. injection Hid as Hid%canonical_ok ->.
  apply m_bind_inv in H as (canonical & x4 & Hcan & H).
  apply m_bind_inv in H as (job' & x5 & [Hsays Hj]%verified_job_ok & H).
  inv_run. checked. subst. unfold lookup_verified. simpl.
  exists jobs, observed, canonical.
  assert (VerifiedJob.uid job' = GetReservationsRequest.job_uid req) as Hu by done.
  assert (VerifiedJob.gid job' = GetReservationsRequest.job_gid req) as Hg by done.
  rewrite <-Hu, <-Hg. split_and!; try done; [|eexists; split; [done|congruence]..].
  destruct (Z.eqb_spec (VerifiedJob.canonical_job_id job')
    (GetReservationsRequest.observed_job_id req)); inv_run; [by left|right].
  match goal with H : find_job _ _ = Ok ?f |- _ => destruct f as [r|] eqn:Ef end.
  - inv_run. left. by apply find_job_ok.
  - right. apply m_bind_inv in Hcan as ([jobs1 r] & x6 & Hq%query_ok & Hcan). inv_run. eauto.
Qed.

(** C20 [verify_lookup] resolves a job to the leader the controller's record of
    it names, when that is not one of the numbers Slurm uses for none, and to
    itself otherwise; it succeeds only when the observed job and the canonical
    job both belong to the owner the request names, the sender is root, that
    owner or trusted, and the job is active. *)
Theorem verify_lookup_sound {ucd : UnicodeData} {X} {senv : SlurmEnv X} self req sender x job x' :
  verify_lookup self req sender x = (Ok job, x') -> lookup_verified self req sender x job.
Proof. apply verify_lookup_ok. Qed.

(** The second component of a heterogeneous job, reported with its leader. *)
Definition component_record : pyval := PDict [
  (txt "job_id", PInt 8); (txt "het_job_id", PDict [(txt "set", PBool true); (txt "number", PInt 7)]);
  (txt "user_id", PInt 1000); (txt "group_id", PInt 100); (txt "job_state", PStr (txt "RUNNING"))].
Definition het_controller : SlurmEnv unit := {|
  run_scontrol := fun _ x =>
    (Ok (mk_completed 0 (Ok (PDict [(txt "jobs", PList [job_record; component_record])])) []), x);
  getpwuid := fun _ x => (Ok None, x);
|}.

Lemma verify_lookup_sound_witness :
  let req := GetReservationsRequest.mk 11 (txt "hpc") 8 1000 100 in
  exists job, verify_lookup (ucd := ascii_ucd) (senv := het_controller) hpc_verifier req 0 tt
    = (Ok job, tt) /\ VerifiedJob.canonical_job_id job = 7 /\
  lookup_verified (ucd := ascii_ucd) (senv := het_controller) hpc_verifier req 0 tt job.
Proof.
  eexists. split; [vm_compute; reflexivity|]. split; [reflexivity|].
  apply (verify_lookup_sound (ucd := ascii_ucd) (senv := het_controller) hpc_verifier
    (GetReservationsRequest.mk 11 (txt "hpc") 8 1000 100) 0 tt _ tt).
  vm_compute. reflexivity.
Defined.

(** ** The interface *)

Lemma verify_reserve_identity {ucd : UnicodeData} {X} {senv : SlurmEnv X} self req sender x job x' :
  verify_reserve self req sender x = (Ok job, x') ->
  VerifiedJob.uid job = ReserveRequest.job_uid req /\
  VerifiedJob.gid job = ReserveRequest.job_gid req /\
  VerifiedJob.canonical_job_id job = ReserveRequest.canonical_job_id req.
Proof.
  intros H. unfold verify_reserve in H.
  apply m_bind_inv in H as (u & x1 & _ & H).
  apply m_bind_inv in H as (job' & x2 & (jobs & record & _ & _ & Hid & _)%load_ok & H).
  inv_run. by checked.
Qed.

#[export] Instance slurm_verifier_laws {ucd : UnicodeData} {X} {senv : SlurmEnv X} self :
  @VerifierLaws X (slurm_verifier self).
Proof.
  split.
  - intros req uid x job x'. apply verify_reserve_identity.
  - intros req uid x job x' (? & ? & ? & H)%verify_lookup_ok. naive_solver.
Qed.
