(* ===== verification/DefwClient.v ===== *)
(** * The QFw adapter ([defw_client.py])

    Discovery of a QPM and the normalisation of what it answers. The DEFw
    classes are parameters: a managed lifecycle binding per service and the API
    objects it hands out, with the calls the adapter makes on them. Their
    replies are arbitrary values. *)

From S2P Require Import Prelude Python Utf8 Enums Messages Wire Values Effects SlurmVerifier Adapter.
Local Open Scope Z_scope.

(** [QPMLifecycleBinding] and its API objects. *)
Class DefwEnv (E L H : Type) := {
  binding_factory : str -> M E L;
  binding_start : L -> M E unit;
  binding_close : L -> M E unit;
  snapshot : L -> M E pyval;
  (** [lifecycle.api(kind, expected_runtime_id=...)] *)
  lifecycle_api : L -> str -> str -> M E H;
  is_ready : H -> M E pyval;
  api_reserve : H -> pyval -> M E pyval;
  api_evaluate : H -> pyval -> M E pyval;
  api_release : H -> option Z -> Z -> M E pyval;
}.

(** The adapter object: started or not, its bindings by service in insertion
    order, and the environment behind it. *)
Record adapter {E L : Type} := mk_adapter {
  started : bool;
  bindings : list (str * L);
  ext : E;
}.
Arguments adapter : clear implicits.
Arguments mk_adapter {E L}.

(** ** Normalisation of replies *)

Section replies.
Context {ucd : UnicodeData}.

Definition adapter_error (msg : str) : exn := QFwAdapterError msg.

(** [except (TypeError, ValueError)] *)
Definition bad_int (e : exn) : bool :=
  match e with PyError TypeError _ | PyError ValueError _ => true | _ => false end.

(** [try: int(v) except (TypeError, ValueError)] *)
Definition int_or (v : pyval) (e : exn) : result Z :=
  match py_int v with
  | Raise e' => if bad_int e' then Raise e else Raise e'
  | r => r
  end.

Definition _optional_int (value : pyval) : result (option Z) :=
  let invalid := adapter_error (txt "QPM reserve returned an invalid time value") in
  match value with
  | PNone => Ok None
  | PBool _ => Raise invalid
  | _ =>
      selected ← int_or value invalid;
      if (0 <=? selected) && (selected <? 2 ^ 64) then Ok (Some selected)
      else Raise invalid
  end.

(** [str(raw.get("status", "")).lower()] *)
Definition reply_status (d : list (str * pyval)) : str :=
  lower (py_str (default (PStr []) (assoc (txt "status") d))).

Definition _returned_reservation_id (value : pyval) : result (option Z) :=
  match value with
  | PDict d =>
      match py_int (default PNone (assoc (txt "reservation_id") d)) with
      | Raise e => if bad_int e then Ok None else Raise e
      | Ok rid => Ok (if (0 <? rid) && (rid <? 2 ^ 64) then Some rid else None)
      end
  | _ => Ok None
  end.

Definition _accepted_reservation_id (value : pyval) : result (option Z) :=
  match value with
  | PDict d =>
      if bool_decide (reply_status d = txt "accepted") then _returned_reservation_id value
      else Ok None
  | _ => Ok None
  end.

Definition decision_of_status (status : str) : option AdmissionDecision.t :=
  if decide (status = txt "accepted") then Some AdmissionDecision.ACCEPTED
  else if decide (status = txt "delayed") then Some AdmissionDecision.DELAYED
  else if decide (status = txt "rejected") then Some AdmissionDecision.REJECTED
  else None.

(** [reservation_id in (0, "0")] *)
Definition is_zero_id (v : pyval) : bool :=
  bool_decide (v = PInt 0) || bool_decide (v = PBool false) || bool_decide (v = PStr (txt "0")).

Definition _normalize_admission {H} (binding : QPMBinding H) (raw : pyval)
    (reserve : bool) : result ServiceResult.t :=
  match raw with
  | PDict d =>
      let get key := default PNone (assoc (txt key) d) in
      let status := reply_status d in
      match decision_of_status status with
      | None =>
          Raise (adapter_error
                   (txt "QPM admission returned invalid status " ++ repr status))
      | Some decision =>
          let accepted := reserve && bool_decide (decision = AdmissionDecision.ACCEPTED) in
          let raw_id := get "reservation_id" in
          reservation_id ←
            (if is_zero_id raw_id then Ok None
             else if bool_decide (raw_id = PNone) then Ok None
             else z ← int_or raw_id (adapter_error
                        (txt "QPM admission returned an invalid reservation ID"));
                  Ok (Some z));
          let invalid_reason :=
            adapter_error (txt "QPM admission returned an invalid reason code") in
          reason ←
            match default (PInt 0) (assoc (txt "reason_code") d) with
            | PInt z => if (0 <=? z) && (z <? 2 ^ 32) then Ok z else Raise invalid_reason
            | _ => Raise invalid_reason
            end;
          _ ← raise_if
                (accepted && match reservation_id with
                             | Some rid => negb ((0 <? rid) && (rid <? 2 ^ 64))
                             | None => true
                             end)
                (adapter_error (txt "accepted QPM reservation lacks a valid reservation ID"));
          _ ← raise_if (negb reserve && bool_decide (is_Some reservation_id))
                (adapter_error (txt "QPM evaluation returned a reservation ID"));
          let diagnostic := py_or (get "message") (get "reason") in
          retry_after_ns ← _optional_int (get "retry_after_ns");
          estimated_start_ns ← _optional_int (get "estimated_start_ns");
          estimated_finish_ns ← _optional_int (get "estimated_finish_ns");
          Ok (ServiceResult.mk (service_id binding) decision reason
                (if accepted then reservation_id else None)
                retry_after_ns estimated_start_ns estimated_finish_ns
                (Some (runtime_id binding)) (Some (generation binding))
                (if truthy diagnostic then Some (bounded_diagnostic (py_str diagnostic))
                 else None))
      end
  | _ => Raise (adapter_error (txt "QPM admission returned a non-mapping"))
  end.

(** [o or 0] *)
Definition or_zero (o : option Z) : Z := default 0 o.
(** a truthy text *)
Definition some_text (o : option str) : list str :=
  match o with Some (c :: s) => [c :: s] | _ => [] end.

Definition _admission_payload (request : ReserveRequest.t) (job : VerifiedJob.t)
    : result pyval :=
  match ReserveRequest.workload request with
  | None => Raise (adapter_error (txt "admission request lacks a workload"))
  | Some w =>
      let cluster := ReserveRequest.cluster_name request in
      let job_id := str_of_Z (ReserveRequest.canonical_job_id request) in
      let joined := join (txt ":")
        (some_text (VerifiedJob.account job) ++ some_text (VerifiedJob.qos job)) in
      let scope := if bool_decide (joined = []) then cluster else joined in
      Ok (PDict [
        (txt "request_id", PInt (ReserveRequest.request_id request));
        (txt "owner", PDict [
           (txt "user", PStr (VerifiedJob.username job));
           (txt "uid", PInt (VerifiedJob.uid job));
           (txt "gid", PInt (VerifiedJob.gid job))]);
        (txt "scheduler", PStr (txt "slurm"));
        (txt "launcher", PDict [
           (txt "scheduler", PStr (txt "slurm"));
           (txt "cluster_name", PStr cluster)]);
        (txt "job_id", PStr job_id);
        (txt "allocation_id", PStr (cluster ++ txt ":" ++ job_id));
        (txt "scope_id", PStr scope);
        (txt "account", PText (VerifiedJob.account job));
        (txt "qos", PText (VerifiedJob.qos job));
        (txt "priority", PInt (or_zero (VerifiedJob.priority job)));
        (txt "workload_kind", PStr (lower (enum_name (Workload.kind w))));
        (txt "walltime_ns", PInt (Workload.walltime_ns w));
        (txt "ttl_ns", PInt (Workload.walltime_ns w));
        (txt "task_class", PDict [
           (txt "class_id", PInt 1);
           (txt "count", PInt (Workload.circuit_count w));
           (txt "qubit_count", PInt (Workload.max_qubits w));
           (txt "depth", PInt (Workload.max_depth w));
           (txt "shots", PInt (Workload.max_shots w));
           (txt "one_q_gate_count", PInt (or_zero (Workload.max_one_q_gates w)));
           (txt "two_q_gate_count", PInt (or_zero (Workload.max_two_q_gates w)));
           (txt "measurement_count", PInt (or_zero (Workload.max_measurements w)))])])
  end.
End replies.

(** ** The adapter *)

Section client.
Context {ucd : UnicodeData} {E L H : Type} {denv : DefwEnv E L H}.
Implicit Types (b : QPMBinding H).

Abbreviation A := (adapter E L).

(** A call on the environment *)
Definition extern {R} (m : M E R) : M A R :=
  zoom ext (fun e a => mk_adapter (started a) (bindings a) e) m.

Definition lookup_binding (s : str) (l : list (str * L)) : option L :=
  snd <$> List.find (fun p => bool_decide (p.1 = s)) l.

Definition _managed_binding (service_id : str) : M A L :=
  known ← gets (fun a => lookup_binding service_id (bindings a));
  match known with
  | Some binding => mret binding
  | None =>
      binding ← extern (binding_factory service_id);
      _ ← extern (binding_start binding);
      _ ← modify (fun a => mk_adapter (started a) (bindings a ++ [(service_id, binding)]) (ext a));
      mret binding
  end.

(** [except QFwAdapterError: raise / except Exception as error: raise
    QFwAdapterError(...)] *)
Definition wrap_errors {R} (prefix : str) (m : M A R) : M A R :=
  try_except m (fun e =>
    raise (if isa_QFwAdapterError e then e else adapter_error (prefix ++ exn_str e))).

Definition resolve (s : str) : M A (QPMBinding H) :=
  let fail msg := adapter_error (txt "QPM " ++ repr s ++ txt msg) in
  ready ← gets started;
  _ ← raise_when (negb ready) (adapter_error (txt "QFw adapter is not started"));
  '(current, runtime_id, admission) ←
    wrap_errors (txt "cannot resolve QPM " ++ repr s ++ txt ": ") (
      lifecycle ← _managed_binding s;
      identity ← extern (snapshot lifecycle);
      available ← lift (py_get identity (txt "available"));
      _ ← raise_when (negb (truthy available)) (fail " is unavailable"%string);
      rid ← lift (py_get identity (txt "runtime_id"));
      _ ← raise_when (negb (truthy rid)) (fail " is unavailable"%string);
      let runtime_id := py_str rid in
      control ← extern (lifecycle_api lifecycle (txt "control") runtime_id);
      readiness ← extern (is_ready control);
      _ ← raise_when (match readiness with
                      | PDict d => negb (truthy (default PNone (assoc (txt "ready") d)))
                      | _ => true
                      end) (fail " is not ready"%string);
      current ← extern (snapshot lifecycle);
      available ← lift (py_get current (txt "available"));
      rid ← lift (py_get current (txt "runtime_id"));
      _ ← raise_when (negb (truthy available) || negb (bool_decide (py_str rid = runtime_id)))
            (fail " changed while checking readiness"%string);
      admission ← extern (lifecycle_api lifecycle (txt "admission") runtime_id);
      mret (current, runtime_id, admission));
  generation ← lift (py_get current (txt "generation"));
  _ ← raise_when (bool_decide (generation = PNone))
        (fail " lacks runtime identity or generation"%string);
  generation ← lift (py_int generation);
  mret (mk_binding s runtime_id generation admission).

Definition close : M A unit :=
  taken ← gets bindings;
  _ ← modify (fun a => mk_adapter (started a) [] (ext a));
  _ ← mapM (fun p => extern (binding_close p.2)) taken;
  mret tt.

(** [try: call except Exception as error: raise QFwAdapterError(...)] *)
Definition qpm_call {R} b (what : string) (m : M E R) : M A R :=
  try_except (extern m) (fun e =>
    raise (adapter_error
      (txt "QPM " ++ repr (service_id b) ++ txt " " ++ txt what ++ txt " failed: " ++ exn_str e))).

Definition release b (reservation_id : option Z) (reason : Z) : M A (list (str * pyval)) :=
  result ← qpm_call b "release" (api_release (admission b) reservation_id reason);
  match result with
  | PDict d => mret d
  | _ => raise (adapter_error (txt "QPM release returned a non-mapping"))
  end.

(** Normalise a reply; when that fails, release the reservation [leaked]
    finds in it. *)
Definition normalize_or_release b (raw : pyval) (reserve : bool)
    (leaked : pyval -> result (option Z)) (what : string) : M A ServiceResult.t :=
  match _normalize_admission b raw reserve with
  | Raise (QFwAdapterError msg) =>
      reservation_id ← lift (leaked raw);
      _ ← match reservation_id with
          | None => mret tt
          | Some rid =>
              fun a =>
                match release b (Some rid) 1 a with
                | (Ok _, a') => (Ok tt, a')
                | (Raise (QFwAdapterError cleanup), a') =>
                    (Raise (adapter_error
                       (msg ++ txt "; " ++ txt what ++ txt " cleanup failed: " ++ cleanup)), a')
                | (Raise e, a') => (Raise e, a')
                end
          end;
      raise (QFwAdapterError msg)
  | r => lift r
  end.

Definition reserve b (request : ReserveRequest.t) (job : VerifiedJob.t)
    : M A ServiceResult.t :=
  payload ← lift (_admission_payload request job);
  raw ← qpm_call b "reserve" (api_reserve (admission b) payload);
  normalize_or_release b raw true _accepted_reservation_id "malformed acceptance".

Definition evaluate b (request : ReserveRequest.t) (job : VerifiedJob.t)
    : M A ServiceResult.t :=
  payload ← lift (_admission_payload request job);
  raw ← qpm_call b "evaluate" (api_evaluate (admission b) payload);
  normalize_or_release b raw false _returned_reservation_id "evaluation".
End client.

(** ** The adapter implements the coordinator's interface *)

#[export] Instance defw_adapter {ucd : UnicodeData} {E L H} `{DefwEnv E L H} :
    AdapterOps (adapter E L) H := {|
  a_resolve := resolve;
  a_evaluate := evaluate;
  a_reserve := reserve;
  a_release := release;
|}.
