(* ===== verification/AdapterProps.v ===== *)
(** * Properties of the QFw adapter

    Whatever a QPM answers, the adapter returns a well-formed result or raises
    [QFwAdapterError]; an acceptance it cannot use is released at once. *)

From S2P Require Import Prelude Python Utf8 Enums Messages Wire Values Effects SlurmVerifier Adapter VerifierProps DefwClient.
Local Open Scope Z_scope.

Section replies.
Context {ucd : UnicodeData} {H : Type}.
Implicit Types b : QPMBinding H.

(** When it raises, [QFwAdapterError] *)
Definition adapter_only {A} (r : result A) : Prop :=
  forall e, r = Raise e -> isa_QFwAdapterError e = true.

Lemma adapter_only_bind {A B} (r : result A) (f : A -> result B) :
  adapter_only r -> (forall a, adapter_only (f a)) -> adapter_only (r ≫= f).
Proof.
  intros Hr Hf e He. destruct r as [a|e']; [by apply (Hf a)|].
  injection He as ->. by apply Hr.
Qed.

Lemma adapter_only_ok {A} (a : A) : adapter_only (Ok a).
Proof. by intros e. Qed.
Lemma adapter_only_raise {A} m : adapter_only (A := A) (Raise (adapter_error m)).
Proof. by intros e [= <-]. Qed.
Lemma adapter_only_raise_if c m : adapter_only (raise_if c (adapter_error m)).
Proof. destruct c; [apply adapter_only_raise|apply adapter_only_ok]. Qed.

(** [int] of any value fails only with the two caught exceptions. *)
Lemma py_int_errors v e : py_int v = Raise e -> bad_int e = true.
Proof. destruct v as [|[]|z|s|l|d]; simpl; try done; try by intros [= <-]. case_match; by intros [= <-]. Qed.

Lemma adapter_only_int_or v m : adapter_only (int_or v (adapter_error m)).
Proof.
  unfold int_or. destruct (py_int v) as [z|e] eqn:E; [apply adapter_only_ok|].
  rewrite (py_int_errors _ _ E). apply adapter_only_raise.
Qed.

Lemma adapter_only_optional_int v : adapter_only (_optional_int v).
Proof.
  unfold _optional_int. destruct v; try apply adapter_only_ok; try apply adapter_only_raise;
    (apply adapter_only_bind; [apply adapter_only_int_or|intros n];
     case_match; [apply adapter_only_ok|apply adapter_only_raise]).
Qed.

Create HintDb adapter discriminated.
Hint Resolve adapter_only_ok adapter_only_raise adapter_only_raise_if
  adapter_only_int_or adapter_only_optional_int : adapter.

Lemma normalize_adapter_only b raw reserve : adapter_only (_normalize_admission b raw reserve).
Proof.
  unfold _normalize_admission. destruct raw as [| | | | |d]; auto with adapter.
  destruct (decision_of_status _) as [decision|]; [|auto with adapter].
  apply adapter_only_bind.
  { case_match; [auto with adapter|]. case_match; [auto with adapter|].
    apply adapter_only_bind; auto with adapter. }
  intros rid. apply adapter_only_bind.
  { case_match; auto with adapter. case_match; auto with adapter. }
  intros reason.
  repeat (apply adapter_only_bind; [auto with adapter|intros ?]). auto with adapter.
Qed.

Lemma optional_int_range v o :
  _optional_int v = Ok o -> forall z, o = Some z -> 0 <= z < 2 ^ 64.
Proof.
  unfold _optional_int. intros Hv z ->. destruct v; try done; inv_ok;
    (case_match eqn:Hr; [|done]); injection Hv as ->; lia.
Qed.

Lemma int_or_ok v e z : int_or v e = Ok z -> py_int v = Ok z.
Proof. unfold int_or. destruct (py_int v); [done|]. by case_match. Qed.

Lemma accepted_status status :
  decision_of_status status = Some AdmissionDecision.ACCEPTED -> status = txt "accepted".
Proof. unfold decision_of_status. by repeat case_decide. Qed.

(** The well-formed results *)
Definition admission_ok b (reserve : bool) (raw : pyval) (r : ServiceResult.t) : Prop :=
  ServiceResult.service_id r = service_id b /\
  0 <= ServiceResult.reason_code r < 2 ^ 32 /\
  ServiceResult.qpm_runtime_id r = Some (runtime_id b) /\
  ServiceResult.qpm_generation r = Some (generation b) /\
  (exists d, raw = PDict d /\
     decision_of_status (reply_status d) = Some (ServiceResult.decision r)) /\
  (forall z, z ∈ option_list (ServiceResult.retry_after_ns r)
           ++ option_list (ServiceResult.estimated_start_ns r)
           ++ option_list (ServiceResult.estimated_finish_ns r) -> 0 <= z < 2 ^ 64) /\
  match ServiceResult.reservation_id r with
  | Some rid => reserve = true /\ ServiceResult.decision r = AdmissionDecision.ACCEPTED /\
                0 < rid < 2 ^ 64 /\ _accepted_reservation_id raw = Ok (Some rid)
  | None => reserve = true -> ServiceResult.decision r <> AdmissionDecision.ACCEPTED
  end.

Lemma normalize_ok b raw reserve r :
  _normalize_admission b raw reserve = Ok r -> admission_ok b reserve raw r.
Proof.
  unfold _normalize_admission. intros Hn. destruct raw as [| | | | |d]; try done.
  destruct (decision_of_status (reply_status d)) as [decision|] eqn:Hd; [|done].
  inv_ok. assert (Hreason : 0 <= a0 < 2 ^ 32).
  { destruct (default (PInt 0) _) in E0; try done.
    match type of E0 with (if ?c then _ else _) = _ => destruct c eqn:Hr; [|done] end.
    injection E0 as ->. lia. }
  unfold admission_ok. simpl. split_and!; try done.
  - exact (proj1 Hreason).
  - exact (proj2 Hreason).
  - eauto.
  - intros z. rewrite !elem_of_app. unfold option_list.
    pose proof (optional_int_range _ _ E3). pose proof (optional_int_range _ _ E4).
    pose proof (optional_int_range _ _ E5).
    destruct a3, a4, a5; set_solver.
  - destruct reserve; simpl in *; [|destruct a; [done|by intros]].
    case_bool_decide as Hacc; simpl in *; [|by intros].
    destruct a as [rid|]; [|done]. apply negb_false_iff in E1. subst decision.
    split_and!; [done|done|lia|lia|].
    rewrite (accepted_status _ Hd). rewrite bool_decide_eq_true_2 by done.
    destruct (is_zero_id _); [done|]. destruct (bool_decide _); [done|].
    apply bind_ok in E as (z & ->%int_or_ok & [= ->]). by rewrite E1.
Qed.
End replies.

Section client.
Context {ucd : UnicodeData} {E L H : Type} {denv : DefwEnv E L H}.
Implicit Types (b : QPMBinding H) (a : adapter E L).

Lemma extern_ok {R} (m : M E R) a r a' :
  extern m a = (Ok r, a') -> m (ext a) = (Ok r, ext a').
Proof. unfold extern, zoom. destruct (m (ext a)). by intros [= -> <-]. Qed.

Lemma extern_keeps {R} (m : M E R) a r a' : extern m a = (r, a') -> bindings a' = bindings a.
Proof. unfold extern, zoom. destruct (m (ext a)). by intros [= _ <-]. Qed.

(** The lifecycle binding of service [s] at [a], with the bindings kept and the
    environment's state once it is had: the first one kept for [s], or, when
    none is, a new one that was made for [s] and started. *)
Definition managed (s : str) (a : adapter E L) (lifecycle : L) (kept : list (str * L)) (e : E) : Prop :=
  (exists before after, bindings a = before ++ (s, lifecycle) :: after /\
     (s ∉ map fst before) /\ kept = bindings a /\ e = ext a) \/
  ((s ∉ map fst (bindings a)) /\ kept = bindings a ++ [(s, lifecycle)] /\
   exists made, binding_factory s (ext a) = (Ok lifecycle, made) /\
     binding_start lifecycle made = (Ok tt, e)).

Lemma lookup_binding_spec (s : str) (l : list (str * L)) :
  match lookup_binding s l with
  | Some b => exists before after, l = before ++ (s, b) :: after /\ s ∉ map fst before
  | None => s ∉ map fst l
  end.
Proof.
  unfold lookup_binding. induction l as [|[k b] l IH]; simpl; [by intros ?%elem_of_nil|].
  case_bool_decide as Hk; simpl in Hk |- *.
  - subst. exists [], l. split; [done|]. by intros ?%elem_of_nil.
  - destruct (List.find _ l) as [[k' b']|]; simpl in IH |- *.
    + destruct IH as (before & after & -> & Hn). exists ((k, b) :: before), after.
      split; [done|]. simpl. rewrite elem_of_cons. intros [?|?]; [congruence|done].
    + rewrite elem_of_cons. intros [?|?]; [congruence|done].
Qed.

Lemma managed_binding_ok (s : str) a (b : L) a' :
  _managed_binding s a = (Ok b, a') -> managed s a b (bindings a') (ext a').
Proof.
  intros Hr. unfold _managed_binding in Hr.
  apply m_bind_inv in Hr as (known & a1 & Hk & Hr). unfold gets in Hk. injection Hk as <- <-.
  pose proof (lookup_binding_spec s (bindings a)) as Hl.
  destruct (lookup_binding s (bindings a)) as [b'|].
  - injection Hr as -> <-. left. destruct Hl as (before & after & ? & ?). by exists before, after.
  - apply m_bind_inv in Hr as (b' & a1 & Hf & Hr).
    apply m_bind_inv in Hr as ([] & a2 & Hs & Hr).
    apply m_bind_inv in Hr as ([] & a3 & Hm & Hr). unfold modify in Hm. injection Hm as <-.
    injection Hr as -> <-. right. split; [done|]. simpl.
    split; [by rewrite (extern_keeps _ _ _ _ Hs), (extern_keeps _ _ _ _ Hf)|].
    apply extern_ok in Hf, Hs. by exists (ext a1).
Qed.

Lemma wrap_errors_ok {R} prefix (m : M (adapter E L) R) a r a' :
  wrap_errors prefix m a = (Ok r, a') -> m a = (Ok r, a').
Proof.
  unfold wrap_errors, try_except. destruct (m a) as [[r0|e] a1]; [done|].
  by destruct (isa_Exception e).
Qed.

Lemma qpm_call_ok {R} b what (m : M E R) a r a' :
  qpm_call b what m a = (Ok r, a') ->
  m (ext a) = (Ok r, ext a') /\ a' = mk_adapter (started a) (bindings a) (ext a').
Proof.
  unfold qpm_call, try_except, extern, zoom. destruct (m (ext a)) as [[r0|e] e'].
  - by intros [= -> <-].
  - by destruct (isa_Exception e).
Qed.

Lemma normalize_or_release_ok b raw reserve leaked what a r a' :
  normalize_or_release b raw reserve leaked what a = (Ok r, a') ->
  _normalize_admission b raw reserve = Ok r /\ a' = a.
Proof.
  unfold normalize_or_release. destruct (_normalize_admission b raw reserve) as [r0|e].
  - by intros [= -> <-].
  - intros Hr. destruct e; try discriminate Hr.
    apply m_bind_inv in Hr as (? & ? & _ & Hr). apply m_bind_inv in Hr as (? & ? & _ & Hr).
    discriminate Hr.
Qed.

(** A successful reserve or evaluate: the reply of the QPM, normalised *)
Lemma reserve_ok b req job a r a' :
  reserve b req job a = (Ok r, a') ->
  exists payload raw, _admission_payload req job = Ok payload /\
    api_reserve (admission b) payload (ext a) = (Ok raw, ext a') /\
    _normalize_admission b raw true = Ok r.
Proof.
  intros Hr. unfold reserve in Hr.
  apply m_bind_inv in Hr as (p & a1 & Hp & Hr). injection Hp as Hp ->.
  apply m_bind_inv in Hr as (raw & a2 & [Hc _]%qpm_call_ok & Hr).
  apply normalize_or_release_ok in Hr as [Hn ->]. by exists p, raw.
Qed.

Lemma evaluate_ok b req job a r a' :
  evaluate b req job a = (Ok r, a') ->
  exists payload raw, _admission_payload req job = Ok payload /\
    api_evaluate (admission b) payload (ext a) = (Ok raw, ext a') /\
    _normalize_admission b raw false = Ok r.
Proof.
  intros Hr. unfold evaluate in Hr.
  apply m_bind_inv in Hr as (p & a1 & Hp & Hr). injection Hp as Hp ->.
  apply m_bind_inv in Hr as (raw & a2 & [Hc _]%qpm_call_ok & Hr).
  apply normalize_or_release_ok in Hr as [Hn ->]. by exists p, raw.
Qed.

Lemma resolve_binds s a b a' : resolve s a = (Ok b, a') -> service_id b = s.
Proof.
  intros Hr. unfold resolve in Hr. apply m_bind_inv in Hr as (? & ? & _ & Hr).
  apply m_bind_inv in Hr as (? & ? & _ & Hr).
  apply m_bind_inv in Hr as ([[current rid] adm] & a1 & _ & Hr).
  apply m_bind_inv in Hr as (? & ? & _ & Hr). apply m_bind_inv in Hr as (? & ? & _ & Hr).
  apply m_bind_inv in Hr as (? & ? & _ & Hr). injection Hr as <- <-. done.
Qed.
End client.

(** The adapter keeps the promises the coordinator relies on. *)
#[export] Instance defw_adapter_laws {ucd : UnicodeData} {E L H} `{DefwEnv E L H} :
  AdapterLaws (adapter E L) H.
Proof.
  split.
  - intros s a b a'. apply resolve_binds.
  - intros b req job a r a' (p & raw & _ & _ & Hn)%reserve_ok.
    apply normalize_ok in Hn as (Hs & _ & _ & _ & _ & _ & Hid).
    split; [done|]. destruct (ServiceResult.reservation_id r); [|by apply Hid].
    by destruct Hid as (_ & ? & ? & _).
  - intros b req job a r a' (p & raw & _ & _ & Hn)%evaluate_ok.
    apply normalize_ok in Hn as (Hs & _ & _ & _ & _ & _ & Hid).
    split; [done|]. destruct (ServiceResult.reservation_id r); [|done].
    by destruct Hid as [? _].
Qed.

(** ** Properties *)

(** Any reply of a QPM is either normalised to a well-formed result (the
    service and runtime of the binding, a 32-bit reason, 64-bit times, and a
    nonzero 64-bit reservation id exactly when a reserve was accepted) or
    refused with [QFwAdapterError]; an evaluation never carries a reservation. *)
Theorem normalize_admission_total {ucd : UnicodeData} {H} (b : QPMBinding H) raw reserve :
  match _normalize_admission b raw reserve with
  | Ok r => admission_ok b reserve raw r
  | Raise e => isa_QFwAdapterError e = true
  end.
Proof.
  destruct (_normalize_admission b raw reserve) as [r|e] eqn:Hn.
  - by apply normalize_ok.
  - by eapply normalize_adapter_only.
Qed.

(** C21 When the QPM accepted a reservation but its reply cannot be used, the
    adapter releases that reservation before it fails: the environment is left
    as after the release, and the failure is a [QFwAdapterError]. *)
Theorem malformed_acceptance_released {ucd : UnicodeData} {E L H} {denv : DefwEnv E L H}
    (b : QPMBinding H) req job (a : adapter E L) payload raw e1 m rid out e2 :
  _admission_payload req job = Ok payload ->
  api_reserve (admission b) payload (ext a) = (Ok raw, e1) ->
  _normalize_admission b raw true = Raise (QFwAdapterError m) ->
  _accepted_reservation_id raw = Ok (Some rid) ->
  api_release (admission b) (Some rid) 1 e1 = (out, e2) ->
  (forall e, out = Raise e -> isa_Exception e = true) ->
  exists m', reserve b req job a =
    (Raise (QFwAdapterError m'), mk_adapter (started a) (bindings a) e2).
Proof.
  intros Hp Hr Hn Ha Hrel Hex. unfold reserve.
  rewrite (m_bind_ok (lift _) _ a payload a) by (unfold lift; by rewrite Hp).
  rewrite (m_bind_ok _ _ a raw (mk_adapter (started a) (bindings a) e1))
    by (unfold qpm_call, try_except, extern, zoom; by rewrite Hr).
  unfold normalize_or_release. rewrite Hn.
  rewrite (m_bind_ok (lift _) _ _ (Some rid) (mk_adapter (started a) (bindings a) e1))
    by (unfold lift; by rewrite Ha).
  assert (exists r, release b (Some rid) 1 (mk_adapter (started a) (bindings a) e1) =
    (r, mk_adapter (started a) (bindings a) e2) /\
    (forall e, r = Raise e -> isa_QFwAdapterError e = true)) as (r & Hrun & Hq).
  { unfold release, qpm_call, mbind, m_mbind, m_bind, try_except, extern, zoom. simpl.
    rewrite Hrel. destruct out as [[| | | | |d]|e]; simpl; [eexists; split; [done|]..|].
    1-6: by intros e [= <-].
    rewrite (Hex e eq_refl). eexists. split; [done|]. by intros e' [= <-]. }
  destruct r as [d|e].
  - rewrite (m_bind_ok _ _ _ tt (mk_adapter (started a) (bindings a) e2)) by (by rewrite Hrun).
    by exists m.
  - specialize (Hq e eq_refl). destruct e; try discriminate Hq.
    eexists. apply m_bind_raise. by rewrite Hrun.
Qed.

(** A QPM that accepts under id 41 with a reply whose reason code is malformed;
    the state lists the released ids. *)
Definition malformed_reply : pyval := PDict [
  (txt "status", PStr (txt "accepted")); (txt "reservation_id", PStr (txt "41"));
  (txt "reason_code", PStr (txt "none"))].
Definition malformed_qpm : DefwEnv (list (option Z)) unit unit := {|
  binding_factory := fun _ e => (Ok tt, e);
  binding_start := fun _ e => (Ok tt, e);
  binding_close := fun _ e => (Ok tt, e);
  snapshot := fun _ e => (Ok PNone, e);
  lifecycle_api := fun _ _ _ e => (Ok tt, e);
  is_ready := fun _ e => (Ok PNone, e);
  api_reserve := fun _ _ e => (Ok malformed_reply, e);
  api_evaluate := fun _ _ e => (Ok PNone, e);
  api_release := fun _ rid _ e => (Ok (PDict []), rid :: e);
|}.
Definition plain_request : ReserveRequest.t :=
  ReserveRequest.mk 1 (txt "hpc") 7 1000 100
    (Some (Workload.mk WorkloadKind.QUANTUM 3600 4 29 1000 8192 None None None))
    [txt "aer"] None None.
Definition plain_job : VerifiedJob.t :=
  VerifiedJob.mk (txt "hpc") 7 1000 100 (txt "ada") None None None (txt "RUNNING").

Lemma malformed_acceptance_released_witness :
  exists m', reserve (ucd := ascii_ucd) (denv := malformed_qpm)
    (mk_binding (txt "aer") (txt "rt") 3 tt) plain_request plain_job (mk_adapter true [] []) =
    (Raise (QFwAdapterError m'), mk_adapter true [] [Some 41]).
Proof.
  eapply (malformed_acceptance_released (ucd := ascii_ucd) (denv := malformed_qpm)
    (mk_binding (txt "aer") (txt "rt") 3 tt) plain_request plain_job (mk_adapter true [] [])).
  - reflexivity.
  - reflexivity.
  - reflexivity.
  - reflexivity.
  - reflexivity.
  - discriminate.
Defined.

(** C22 A resolved binding belongs to the service asked for and to one runtime.
    One lifecycle binding, the one kept for that service or a new one made for
    it and then kept, is asked in turn, each call on the state the last one
    left: for a snapshot, which shows the QPM available under the runtime id;
    for the control API of that runtime, which answers that it is ready; for a
    second snapshot, which shows the same id, available still, and the
    generation; and for the admission API of that runtime, which is the one
    returned. *)
Theorem resolve_stable_runtime {ucd : UnicodeData} {E L H} {denv : DefwEnv E L H}
    s (a : adapter E L) b a' :
  resolve s a = (Ok b, a') ->
  service_id b = s /\ started a = true /\
  exists lifecycle e0 first e1 control e2 d e3 current e4,
    managed s a lifecycle (bindings a') e0 /\
    snapshot lifecycle e0 = (Ok first, e1) /\
    (exists v, py_get first (txt "available") = Ok v /\ truthy v = true) /\
    (exists v, py_get first (txt "runtime_id") = Ok v /\ truthy v = true /\ runtime_id b = py_str v) /\
    lifecycle_api lifecycle (txt "control") (runtime_id b) e1 = (Ok control, e2) /\
    is_ready control e2 = (Ok (PDict d), e3) /\
    truthy (default PNone (assoc (txt "ready") d)) = true /\
    snapshot lifecycle e3 = (Ok current, e4) /\
    (exists v, py_get current (txt "available") = Ok v /\ truthy v = true) /\
    (exists v, py_get current (txt "runtime_id") = Ok v /\ runtime_id b = py_str v) /\
    (exists v, py_get current (txt "generation") = Ok v /\ v <> PNone /\ py_int v = Ok (generation b)) /\
    lifecycle_api lifecycle (txt "admission") (runtime_id b) e4 = (Ok (admission b), ext a').
Proof.
  intros Hr. split; [by eapply resolve_binds|]. unfold resolve in Hr.
  apply m_bind_inv in Hr as (ready & a1 & E1 & Hr).
  apply m_bind_inv in Hr as (? & ? & E2 & Hr).
  apply m_bind_inv in Hr as ([[current rid] adm] & a2 & E3%wrap_errors_ok & Hr).
  inv_run. checked.
  repeat match goal with
  | H : extern _ _ = (Ok _, _) |- _ =>
      let K := fresh "K" in pose proof (extern_keeps _ _ _ _ H) as K; apply extern_ok in H
  end.
  match goal with H : _managed_binding _ _ = _ |- _ => apply managed_binding_ok in H end.
  match goal with H : match ?r with PDict _ => _ | _ => _ end = false |- _ =>
    destruct r as [| | | | |d]; try discriminate H; apply negb_false_iff in H end.
  repeat match goal with
  | H : negb (truthy _) = false |- _ => apply negb_false_iff in H
  end.
  split; [by apply negb_false_iff|].
  match goal with
  | M : managed _ _ ?lc _ ?e0, S1 : snapshot ?lc ?e0 = (Ok ?first, ?e1),
    C : lifecycle_api ?lc _ _ ?e1 = (Ok ?control, ?e2), R : is_ready ?control ?e2 = (Ok (PDict ?d), ?e3),
    S2 : snapshot ?lc ?e3 = (Ok ?cur, ?e4) |- _ =>
      exists lc, e0, first, e1, control, e2, d, e3, cur, e4
  end.
  simpl. split_and!; eauto; [congruence|].
  eexists. split; [done|]. split; [|done].
  match goal with H : bool_decide (_ = PNone) = false |- _ => by apply bool_decide_eq_false in H end.
Qed.

(** A QPM that is up: every snapshot shows runtime ["rt"], generation 3. *)
Definition ready_qpm : DefwEnv unit unit str := {|
  binding_factory := fun _ e => (Ok tt, e);
  binding_start := fun _ e => (Ok tt, e);
  binding_close := fun _ e => (Ok tt, e);
  snapshot := fun _ e =>
    (Ok (PDict [(txt "available", PBool true); (txt "runtime_id", PStr (txt "rt"));
                (txt "generation", PStr (txt "3"))]), e);
  lifecycle_api := fun _ kind _ e => (Ok kind, e);
  is_ready := fun _ e => (Ok (PDict [(txt "ready", PInt 1)]), e);
  api_reserve := fun _ _ e => (Ok PNone, e);
  api_evaluate := fun _ _ e => (Ok PNone, e);
  api_release := fun _ _ _ e => (Ok PNone, e);
|}.

Lemma resolve_stable_runtime_witness :
  exists a', resolve (ucd := ascii_ucd) (denv := ready_qpm) (txt "aer") (mk_adapter true [] tt) =
    (Ok (mk_binding (txt "aer") (txt "rt") 3 (txt "admission")), a') /\
  exists e0 first e1,
    managed (denv := ready_qpm) (txt "aer") (mk_adapter true [] tt) tt [(txt "aer", tt)] e0 /\
    snapshot (DefwEnv := ready_qpm) tt e0 = (Ok first, e1) /\
    exists v, py_get first (txt "available") = Ok v /\ truthy v = true.
Proof.
  eexists. split; [vm_compute; reflexivity|].
  destruct (resolve_stable_runtime (ucd := ascii_ucd) (denv := ready_qpm) (txt "aer")
    (mk_adapter true [] tt) _ _ ltac:(vm_compute; reflexivity))
    as (_ & _ & [] & e0 & first & e1 & _ & _ & _ & _ & _ & _ & H1 & H2 & H3 & _).
  exists e0, first, e1. split; [exact H1|]. split; [exact H2|exact H3].
Defined.
