(* ===== verification/Service.v ===== *)
(** * The transaction coordinator ([service.py])

    One definition per method of [GatewayService]. The world is the journal,
    the state [X] behind the adapter and the verifier, and a ghost log of the
    reservations and releases the adapter was asked for. A request runs under
    the lock of its allocation, so each handler is one computation; an external
    call that raises [CancelledError] is a cancellation at that await point,
    which no handler catches. *)

From S2P Require Import Prelude Python Utf8 Enums Messages Wire Values ResponseDict Effects Journal SlurmVerifier Adapter.
Local Open Scope Z_scope.

(** The hash of the fingerprints ([hashlib.sha256(b).hexdigest()]) *)
Class Sha256 := sha256_hex : bytes -> str.

(** What the coordinator asked of a QPM, the journal at that moment, and the
    outcome: the accepted result, the release reply or the exception. *)
Inductive event :=
| EvReserve (seen : tables) (service_id : str) (outcome : result ServiceResult.t)
| EvRelease (seen : tables) (service_id : str) (reservation_id : option Z)
    (outcome : result (list (str * pyval))).

Record world {X : Type} := mk_world {
  w_db : db;
  w_ext : X;
  w_log : list event;
}.
Arguments world : clear implicits.
Arguments mk_world {X}.

(** ** Fingerprints and error responses *)

Section documents.
Context {sha : Sha256}.

(** [dataclasses.asdict(workload)] *)
Definition workload_dict (w : Workload.t) : pyval := PDict [
  (txt "kind", PInt (enum_code (Workload.kind w)));
  (txt "walltime_ns", PInt (Workload.walltime_ns w));
  (txt "circuit_count", PInt (Workload.circuit_count w));
  (txt "max_qubits", PInt (Workload.max_qubits w));
  (txt "max_depth", PInt (Workload.max_depth w));
  (txt "max_shots", PInt (Workload.max_shots w));
  (txt "max_one_q_gates", PUint (Workload.max_one_q_gates w));
  (txt "max_two_q_gates", PUint (Workload.max_two_q_gates w));
  (txt "max_measurements", PUint (Workload.max_measurements w))].

Definition opt_workload (o : option Workload.t) : pyval :=
  match o with Some w => workload_dict w | None => PNone end.

Definition reserve_request_dict (r : ReserveRequest.t) : pyval := PDict [
  (txt "request_id", PInt (ReserveRequest.request_id r));
  (txt "cluster_name", PStr (ReserveRequest.cluster_name r));
  (txt "canonical_job_id", PInt (ReserveRequest.canonical_job_id r));
  (txt "job_uid", PInt (ReserveRequest.job_uid r));
  (txt "job_gid", PInt (ReserveRequest.job_gid r));
  (txt "workload", opt_workload (ReserveRequest.workload r));
  (txt "service_ids", PList (map PStr (ReserveRequest.service_ids r)));
  (txt "hetero_job_id", PUint (ReserveRequest.hetero_job_id r));
  (txt "hetero_component", PUint (ReserveRequest.hetero_component r))].

Definition release_request_dict (r : ReleaseRequest.t) : pyval := PDict [
  (txt "request_id", PInt (ReleaseRequest.request_id r));
  (txt "cluster_name", PStr (ReleaseRequest.cluster_name r));
  (txt "canonical_job_id", PInt (ReleaseRequest.canonical_job_id r));
  (txt "reason", PInt (ReleaseRequest.reason r))].

(** The JSON text is ASCII, so its encoding never fails. *)
Definition _fingerprint (document : pyval) : str :=
  sha256_hex (default [] (utf8_encode (json_dumps document))).

Definition reservation_document (r : ReserveRequest.t) : list (str * pyval) := [
  (txt "cluster_name", PStr (ReserveRequest.cluster_name r));
  (txt "canonical_job_id", PInt (ReserveRequest.canonical_job_id r));
  (txt "job_uid", PInt (ReserveRequest.job_uid r));
  (txt "job_gid", PInt (ReserveRequest.job_gid r));
  (txt "workload", opt_workload (ReserveRequest.workload r))].

Definition _allocation_fingerprint (r : ReserveRequest.t) : str :=
  _fingerprint (PDict (reservation_document r
    ++ [(txt "service_ids", PList (map PStr (sorted_str (ReserveRequest.service_ids r))))])).

Definition _reservation_fingerprint (r : ReserveRequest.t) : str :=
  _fingerprint (PDict (reservation_document r)).
End documents.

Definition _operation_scope (r : ReserveRequest.t) : str :=
  match ReserveRequest.hetero_job_id r with
  | Some h =>
      txt "heterogeneous:" ++ str_of_Z h ++ txt ":"
      ++ match ReserveRequest.hetero_component r with
         | Some c => str_of_Z c
         | None => txt "None"
         end
  | None => txt "allocation"
  end.

Definition _error (code : GatewayError.t) (request_id : Z) (detail : str) : response :=
  ErrorResponse (ErrorResponse.mk code (Some request_id) (Some (bounded_diagnostic detail))).

Definition _operation_error (operation : string) (request_id : Z) (error : exn) : response :=
  let detail := exn_str error in
  if isa_RequestConflict error then _error GatewayError.REQUEST_CONFLICT request_id detail
  else if isa_SlurmVerificationError error then
    _error GatewayError.UNAUTHORIZED request_id detail
  else if isa_QFwAdapterError error then _error GatewayError.QPM request_id detail
  else if isa_JournalError error then _error GatewayError.INTERNAL request_id detail
  else _error GatewayError.INTERNAL request_id
         (txt "unexpected " ++ txt operation ++ txt " failure: " ++ detail).

(** The overall decision of evaluated services *)
Definition overall_decision (decisions : list AdmissionDecision.t) : AdmissionDecision.t :=
  if bool_decide (AdmissionDecision.REJECTED ∈ decisions) then AdmissionDecision.REJECTED
  else if bool_decide (AdmissionDecision.DELAYED ∈ decisions) then AdmissionDecision.DELAYED
  else AdmissionDecision.ACCEPTED.

Section service.
Context {ucd : UnicodeData} {jenv : JournalEnv} {sha : Sha256}.
Context {X H : Type} {adapter_ops : AdapterOps X H} {verifier_ops : VerifierOps X}.

Abbreviation W := (world X).

(** Calls on the journal, and on the adapter or the verifier *)
Definition journal {A} (m : M db A) : M W A :=
  zoom w_db (fun d w => mk_world d (w_ext w) (w_log w)) m.
Definition external {A} (m : M X A) : M W A :=
  zoom w_ext (fun x w => mk_world (w_db w) x (w_log w)) m.
Definition emit (e : event) (w : W) : W := mk_world (w_db w) (w_ext w) (w_log w ++ [e]).

(** [adapter.reserve] and [adapter.release], logged *)
Definition adapter_reserve (b : QPMBinding H) (r : ReserveRequest.t) (job : VerifiedJob.t)
    : M W ServiceResult.t :=
  fun w => let (res, w') := external (a_reserve b r job) w in
           (res, emit (EvReserve (db_tables (w_db w)) (service_id b) res) w').
Definition adapter_release (b : QPMBinding H) (reservation_id : option Z)
    (reason : Z) : M W (list (str * pyval)) :=
  fun w => let (res, w') := external (a_release b reservation_id reason) w in
           (res, emit (EvRelease (db_tables (w_db w)) (service_id b) reservation_id res) w').

(** ** Lookup *)

(** The reservations of the records that have an id *)
Definition reservation_tuple (records : list ReservationRecord.t) : list Reservation.t :=
  omap (fun r => Reservation.mk (ReservationRecord.service_id r)
                   <$> ReservationRecord.reservation_id r) records.

Definition lookup_error (request_id : Z) (e : exn) : response :=
  let err code := _error code request_id (exn_str e) in
  match e with
  | AllocationNotFound _ => err GatewayError.ALLOCATION_NOT_FOUND
  | AllocationNotAccepted _ => err GatewayError.ALLOCATION_NOT_ACCEPTED
  | AllocationReleased _ => err GatewayError.ALLOCATION_RELEASED
  | RequestConflict _ => err GatewayError.REQUEST_CONFLICT
  | SlurmVerificationError _ => err GatewayError.UNAUTHORIZED
  | JournalError _ | RollbackIncomplete _ => err GatewayError.INTERNAL
  | _ => _error GatewayError.INTERNAL request_id
           (txt "unexpected reservation lookup failure: " ++ exn_str e)
  end.

Definition _get_reservations (request : GetReservationsRequest.t) (sender_uid : Z)
    : M W response :=
  let request_id := GetReservationsRequest.request_id request in
  try_except (
    job ← external (v_lookup request sender_uid);
    records ← journal (reservation_context (GetReservationsRequest.cluster_name request)
      (VerifiedJob.canonical_job_id job) (VerifiedJob.uid job) (VerifiedJob.gid job));
    mret (GetReservationsResponse (GetReservationsResponse.mk request_id
            (VerifiedJob.canonical_job_id job) (reservation_tuple records))))
  (fun e => mret (lookup_error request_id e)).

(** ** Evaluation *)

Definition _evaluate_services (request : ReserveRequest.t) (job : VerifiedJob.t)
    : M W (list ServiceResult.t) :=
  mapM (fun service_id =>
    binding ← external (a_resolve service_id);
    result ← external (a_evaluate binding request job);
    _ ← raise_when (bool_decide (is_Some (ServiceResult.reservation_id result)))
          (QFwAdapterError (txt "QPM " ++ repr service_id
             ++ txt " evaluation returned a reservation"));
    mret result)
    (sorted_str (ReserveRequest.service_ids request)).

Definition _journal_failed_evaluation (request : ReserveRequest.t) (sender_uid : Z)
    (scope : str) (error : exn) : M W unit :=
  let request_id := ReserveRequest.request_id request in
  journal (complete_operation sender_uid (txt "evaluate") request_id
    (response_to_dict (_operation_error "evaluate" request_id error)) scope
    (txt "retryable")).

(** [except Exception as error: handler(error); raise] *)
Definition on_error {A} (m : M W A) (handler : exn -> M W unit) : M W A :=
  try_except m (fun e => _ ← handler e; raise e).

(** A prior record that holds a completed response *)
Definition completed_response (operation : string) (prior : OperationRecord) : result pyval :=
  match prior_response prior with
  | Some r =>
      if bool_decide (prior_state prior = txt "complete") then Ok r
      else Raise (JournalError (txt operation ++ txt " operation requires recovery"))
  | None => Raise (JournalError (txt operation ++ txt " operation requires recovery"))
  end.

Definition _evaluate (request : ReserveRequest.t) (sender_uid : Z) : M W response :=
  let request_id := ReserveRequest.request_id request in
  try_except (
    job ← external (v_reserve request sender_uid);
    let fingerprint := _fingerprint (reserve_request_dict request) in
    let scope := _operation_scope request in
    prior ← journal (begin_operation sender_uid (txt "evaluate") request_id fingerprint scope);
    match prior with
    | Some prior =>
        stored ← lift (completed_response "evaluate" prior);
        response ← lift (response_from_dict stored);
        match response with
        | EvaluateResponse _ => mret response
        | _ => raise (JournalError (txt "stored evaluate response has wrong type"))
        end
    | None =>
        results ← on_error (_evaluate_services request job)
                    (_journal_failed_evaluation request sender_uid scope);
        let decision := overall_decision (map ServiceResult.decision results) in
        let response := EvaluateResponse (ReserveResponse.mk request_id decision results) in
        let state := if bool_decide (decision = AdmissionDecision.DELAYED)
                     then txt "retryable" else txt "complete" in
        _ ← journal (complete_operation sender_uid (txt "evaluate") request_id
                       (response_to_dict response) scope state);
        mret response
    end)
  (fun e => mret (_operation_error "evaluate" request_id e)).

(** ** Reservation *)

(** One accepted reservation of the running attempt *)
Abbreviation held := (QPMBinding H * ServiceResult.t)%type.

(** [try: m except Exception as error: failures.append(f(error))] *)
Definition collecting (m : M W unit) (f : exn -> str) : M W (list str) :=
  try_except (_ ← m; mret []) (fun e => mret [f e]).

(** Release one reservation of a failed attempt and record the outcome. *)
Definition rollback_one (request : ReserveRequest.t) (h : held) : M W (list str) :=
  let '(binding, result) := h in
  let rid := ServiceResult.reservation_id result in
  released ← try_except
    (_ ← adapter_release binding rid 1; mret None)
    (fun e => mret (Some (bounded_diagnostic (exn_str e))));
  let state := match released with None => txt "rolled-back" | Some _ => txt "rollback-failed" end in
  failures ← collecting
    (journal (record_reservation (ReserveRequest.cluster_name request)
       (ReserveRequest.canonical_job_id request)
       (ReservationRecord.mk (service_id binding) rid (Some (runtime_id binding))
          (Some (generation binding)) state (Some (_reservation_fingerprint request)))
       released)) exn_str;
  mret (option_list released ++ failures).

Definition _rollback (request : ReserveRequest.t) (accepted : list held) : M W unit :=
  failures ← collecting
    (journal (set_allocation_state (ReserveRequest.cluster_name request)
       (ReserveRequest.canonical_job_id request) (txt "rolling-back"))) exn_str;
  more ← mapM (rollback_one request) (reverse accepted);
  raise_when (negb (bool_decide (failures ++ concat more = [])))
    (RollbackIncomplete (txt "allocation rollback was incomplete")).

(** The outcome of one service of an attempt: its result, or the error with
    the reservation that was accepted before it. *)
Inductive attempt :=
| Reserved (h : held)
| Failed (error : exn) (pending : option held).

(** A step inside the [try] block *)
Definition try_step {A} (pending : option held) (m : M W A) (k : A -> M W attempt)
    : M W attempt :=
  fun w => match m w with
           | (Ok a, w') => k a w'
           | (Raise e, w') =>
               if isa_Exception e then (Ok (Failed e pending), w') else (Raise e, w')
           end.

Definition is_accepted (r : ServiceResult.t) : bool :=
  bool_decide (ServiceResult.decision r = AdmissionDecision.ACCEPTED).

(** The row of an attempt in the given state *)
Definition attempt_record (s : str) (binding : QPMBinding H) (rid : option Z)
    (state fingerprint : str) : ReservationRecord.t :=
  ReservationRecord.mk s rid (Some (runtime_id binding)) (Some (generation binding)) state
    (Some fingerprint).

Definition attempt_service (request : ReserveRequest.t) (job : VerifiedJob.t)
    (fingerprint s : str) : M W attempt :=
  let record r := journal (record_reservation (ReserveRequest.cluster_name request)
                     (ReserveRequest.canonical_job_id request) r None) in
  try_step None (external (a_resolve s)) (fun binding =>
  try_step None (record (attempt_record s binding None (txt "pending") fingerprint)) (fun _ =>
  try_step None (adapter_reserve binding request job) (fun result =>
  try_step (if is_accepted result then Some (binding, result) else None)
    (record (attempt_record s binding (ServiceResult.reservation_id result)
               (lower (enum_name (ServiceResult.decision result))) fingerprint)) (fun _ =>
  mret (Reserved (binding, result)))))).

(** [dataclasses.replace] of a rolled back result *)
Definition rolled_back (final item : ServiceResult.t) : ServiceResult.t :=
  ServiceResult.mk (ServiceResult.service_id item) (ServiceResult.decision final)
    (ServiceResult.reason_code final) None (ServiceResult.retry_after_ns item)
    (ServiceResult.estimated_start_ns item) (ServiceResult.estimated_finish_ns item)
    (ServiceResult.qpm_runtime_id item) (ServiceResult.qpm_generation item)
    (Some (txt "rolled back after allocation-level failure")).

(** The loop over the services. While it runs every result so far is
    accepted, so [accepted] determines [results]. *)
Fixpoint reserve_loop (request : ReserveRequest.t) (job : VerifiedJob.t) (fingerprint : str)
    (services : list str) (accepted : list held) : M W ReserveResponse.t :=
  let respond := ReserveResponse.mk (ReserveRequest.request_id request) in
  match services with
  | [] => mret (respond AdmissionDecision.ACCEPTED (map snd accepted))
  | s :: services =>
      outcome ← attempt_service request job fingerprint s;
      match outcome with
      | Failed error pending =>
          _ ← try_except (_rollback request (accepted ++ option_list pending))
                (fun e => raise (RollbackIncomplete
                   (txt "reserve failed and rollback was incomplete: " ++ exn_str e)));
          raise error
      | Reserved (binding, result) =>
          if is_accepted result then
            reserve_loop request job fingerprint services (accepted ++ [(binding, result)])
          else
            _ ← _rollback request accepted;
            mret (respond (ServiceResult.decision result)
                    (map (fun h => rolled_back result h.2) accepted ++ [result]))
      end
  end.

Definition _reserve_services (request : ReserveRequest.t) (job : VerifiedJob.t)
    (service_ids : list str) (reservation_fingerprint : str) : M W ReserveResponse.t :=
  reserve_loop request job reservation_fingerprint (sorted_str service_ids) [].

Definition _journal_failed_attempt (request : ReserveRequest.t) (sender_uid : Z)
    (scope : str) (plan : AllocationPlan) (error : exn) : M W unit :=
  let request_id := ReserveRequest.request_id request in
  let failure := response_to_dict (_operation_error "reserve" request_id error) in
  _ ← (if is_extension plan then mret tt
       else journal (complete_allocation (ReserveRequest.cluster_name request)
              (ReserveRequest.canonical_job_id request) (txt "rolled-back") failure));
  journal (complete_operation sender_uid (txt "reserve") request_id failure scope
             (txt "retryable")).

(** [response_from_dict] of a document that must be a reserve response: the
    class and the response. [EvaluateResponse] is a subclass, so
    [isinstance] lets it pass. *)
Definition reserve_response_of (document : pyval) (message : string)
    : result ((ReserveResponse.t -> response) * ReserveResponse.t) :=
  response ← response_from_dict document;
  match response with
  | ReserveResponse r => Ok (ReserveResponse, r)
  | EvaluateResponse r => Ok (EvaluateResponse, r)
  | _ => Raise (JournalError (txt message))
  end.

(** The plan's response; [response_from_dict(None)] raises *)
Definition planned_response (plan : AllocationPlan)
    : result ((ReserveResponse.t -> response) * ReserveResponse.t) :=
  reserve_response_of (default PNone (existing_response plan))
    "stored allocation response has wrong type".

(** The answer to a repeated reserve whose operation is recorded *)
Definition replay_reserve (request : ReserveRequest.t) (prior : OperationRecord)
    : M W response :=
  stored ← lift (completed_response "reserve" prior);
  '(cls, response) ← lift (reserve_response_of stored "stored reserve response has wrong type");
  if bool_decide (ReserveResponse.decision response = AdmissionDecision.ACCEPTED) then
    current ← journal (accepted_allocation (ReserveRequest.cluster_name request)
      (ReserveRequest.canonical_job_id request) (ReserveRequest.job_uid request)
      (ReserveRequest.job_gid request) (ReserveRequest.service_ids request));
    match current with
    | Some current =>
        '(cls, response) ← lift (reserve_response_of current
                             "stored allocation response has wrong type");
        mret (cls (ReserveResponse.with_request_id response
                     (ReserveRequest.request_id request)))
    | None => mret (cls response)
    end
  else mret (cls response).

Definition _complete (operation : string) (sender_uid request_id : Z) (r : response)
    (scope : str) : M W unit :=
  journal (complete_operation sender_uid (txt operation) request_id (response_to_dict r)
             scope (txt "complete")).

(** Put the accepted set back after an extension. *)
Definition restore_plan (request : ReserveRequest.t) (plan : AllocationPlan) : M W unit :=
  journal (restore_accepted_allocation (ReserveRequest.cluster_name request)
    (ReserveRequest.canonical_job_id request) (existing_services plan)
    (default PNone (existing_response plan))).

(** The attempt of a plan with missing services, and its failure paths *)
Definition run_attempt (request : ReserveRequest.t) (sender_uid : Z) (job : VerifiedJob.t)
    (scope : str) (plan : AllocationPlan) : M W ReserveResponse.t :=
  on_error
    (_reserve_services request job (missing_services plan) (_reservation_fingerprint request))
    (fun error =>
       _ ← (if is_extension plan then restore_plan request plan else mret tt);
       if isa_RollbackIncomplete error then mret tt
       else _journal_failed_attempt request sender_uid scope plan error).

(** Merge an extension into the accepted set, or give it up. *)
Definition merge_extension (request : ReserveRequest.t) (plan : AllocationPlan)
    (response : ReserveResponse.t) : M W ReserveResponse.t :=
  if is_extension plan then
    if bool_decide (ReserveResponse.decision response = AdmissionDecision.ACCEPTED) then
      '(_, previous) ← lift (planned_response plan);
      mret (ReserveResponse.mk (ReserveRequest.request_id request) AdmissionDecision.ACCEPTED
              (sort_by str_leb ServiceResult.service_id
                 (ReserveResponse.results previous ++ ReserveResponse.results response)))
    else
      _ ← restore_plan request plan; mret response
  else mret response.

Definition state_of_decision (d : AdmissionDecision.t) : str :=
  match d with
  | AdmissionDecision.ACCEPTED => txt "accepted"
  | AdmissionDecision.DELAYED => txt "delayed"
  | AdmissionDecision.REJECTED => txt "rejected"
  end.

(** Record the outcome of an attempt. *)
Definition finish_reserve (request : ReserveRequest.t) (sender_uid : Z) (scope : str)
    (plan : AllocationPlan) (response : ReserveResponse.t) : M W unit :=
  let state := state_of_decision (ReserveResponse.decision response) in
  let encoded := response_to_dict (ReserveResponse response) in
  _ ← (if negb (is_extension plan) || bool_decide (state = txt "accepted") then
         journal (complete_allocation (ReserveRequest.cluster_name request)
           (ReserveRequest.canonical_job_id request) state encoded)
       else mret tt);
  journal (complete_operation sender_uid (txt "reserve") (ReserveRequest.request_id request)
    encoded scope
    (if bool_decide (state = txt "delayed") then txt "retryable" else txt "complete")).

Definition _reserve (request : ReserveRequest.t) (sender_uid : Z) : M W response :=
  let request_id := ReserveRequest.request_id request in
  try_except (
    job ← external (v_reserve request sender_uid);
    let fingerprint := _fingerprint (reserve_request_dict request) in
    let scope := _operation_scope request in
    prior ← journal (begin_operation sender_uid (txt "reserve") request_id fingerprint scope);
    match prior with
    | Some prior => replay_reserve request prior
    | None =>
        plan ← journal (begin_allocation (ReserveRequest.cluster_name request)
          (ReserveRequest.canonical_job_id request) (ReserveRequest.job_uid request)
          (ReserveRequest.job_gid request) (ReserveRequest.service_ids request)
          (_allocation_fingerprint request) (_reservation_fingerprint request));
        if bool_decide (missing_services plan = []) then
          '(cls, response) ← lift (planned_response plan);
          let response := cls (ReserveResponse.with_request_id response request_id) in
          _ ← _complete "reserve" sender_uid request_id response scope;
          mret response
        else
          response ← run_attempt request sender_uid job scope plan;
          response ← merge_extension request plan response;
          _ ← finish_reserve request sender_uid scope plan response;
          mret (ReserveResponse response)
    end)
  (fun e => mret (_operation_error "reserve" request_id e)).

(** ** Release *)

Definition terminal_states : list string :=
  ["released"; "rolled-back"; "delayed"; "rejected"]%string.

(** The state recorded for the outcome of a release *)
Definition release_journal_state (s : ReservationState.t) : result str :=
  match s with
  | ReservationState.RELEASED | ReservationState.NOT_FOUND => Ok (txt "released")
  | ReservationState.STALE_RUNTIME => Ok (txt "stale-runtime")
  | ReservationState.QPM_FAILURE => Ok (txt "release-failed")
  | _ => Raise (PyError KeyError (enum_name s))
  end.

(** The state a QPM's release reply stands for *)
Definition release_status (raw : list (str * pyval)) : result ReservationState.t :=
  let status := lower (py_str (default (PStr []) (assoc (txt "status") raw))) in
  if negb (one_of status ["accepted"; "released"; "not-found"]%string) then
    Raise (QFwAdapterError (txt "QPM returned release status " ++ repr status))
  else Ok (if bool_decide (status = txt "not-found") then ReservationState.NOT_FOUND
           else ReservationState.RELEASED).

Definition _release_one (request : ReleaseRequest.t) (record : ReservationRecord.t)
    : M W ReleaseResult.t :=
  let s := ReservationRecord.service_id record in
  let rid := ReservationRecord.reservation_id record in
  if one_of (ReservationRecord.state record) terminal_states || bool_decide (rid = None) then
    mret (ReleaseResult.mk s (default 0 rid) ReservationState.ALREADY_TERMINAL None None)
  else
    '(state, diagnostic) ← try_except
      (binding ← external (a_resolve s);
       if negb (bool_decide (Some (runtime_id binding) = ReservationRecord.qpm_runtime_id record))
       then mret (ReservationState.STALE_RUNTIME,
                  Some (txt "QPM incarnation differs from reservation journal"))
       else
         raw ← adapter_release binding rid (ReleaseRequest.reason request);
         state ← lift (release_status raw);
         mret (state, None))
      (fun e => mret (ReservationState.QPM_FAILURE, Some (bounded_diagnostic (exn_str e))));
    journal_state ← lift (release_journal_state state);
    _ ← journal (record_reservation (ReleaseRequest.cluster_name request)
          (ReleaseRequest.canonical_job_id request)
          (ReservationRecord.with_state record journal_state) diagnostic);
    mret (ReleaseResult.mk s (default 0 rid) state
            (if bool_decide (state = ReservationState.QPM_FAILURE)
             then Some GatewayError.QPM else None) diagnostic).

(** [record.reservation_id is not None] *)
Definition has_id (r : ReservationRecord.t) : bool :=
  bool_decide (is_Some (ReservationRecord.reservation_id r)).

(** The allocation state after the results of a release *)
Definition release_state (unresolved : list ReservationState.t)
    (results : list ReleaseResult.t) : str :=
  if existsb (fun r => bool_decide (ReleaseResult.state r ∈ unresolved)) results
  then txt "release-incomplete" else txt "released".

(** [status.get("job_uid")] *)
Definition status_uid (status : pyval) : result (option Z) :=
  v ← py_get status (txt "job_uid"); as_opt_int v.

(** The part of a release after the check of its operation *)
Definition run_release (request : ReleaseRequest.t) (sender_uid : Z) (scope : str)
    : M W response :=
  let cluster := ReleaseRequest.cluster_name request in
  let job_id := ReleaseRequest.canonical_job_id request in
  status ← journal (allocation_status cluster job_id);
  expected_uid ← lift (status_uid status);
  _ ← external (v_release request sender_uid expected_uid);
  records ← journal (reservations cluster job_id);
  results ← mapM (_release_one request) (List.filter has_id records);
  let response := ReleaseResponse
    (ReleaseResponse.mk (ReleaseRequest.request_id request) results) in
  let encoded := response_to_dict response in
  let state := release_state [ReservationState.AUTHORIZATION_FAILURE;
    ReservationState.QPM_FAILURE; ReservationState.GATEWAY_FAILURE] results in
  _ ← journal (complete_allocation cluster job_id state encoded);
  _ ← journal (complete_operation sender_uid (txt "release")
        (ReleaseRequest.request_id request) encoded scope (txt "complete"));
  mret response.

Definition release_error (request_id : Z) (e : exn) : response :=
  let detail := exn_str e in
  if isa_RequestConflict e then _error GatewayError.REQUEST_CONFLICT request_id detail
  else if isa_SlurmVerificationError e then
    _error GatewayError.UNAUTHORIZED request_id detail
  else if isa_JournalError e then _error GatewayError.INTERNAL request_id detail
  else _error GatewayError.INTERNAL request_id
         (txt "unexpected release failure: " ++ detail).

Definition _release (request : ReleaseRequest.t) (sender_uid : Z) : M W response :=
  let request_id := ReleaseRequest.request_id request in
  try_except (
    let fingerprint := _fingerprint (release_request_dict request) in
    let scope := txt "allocation" in
    prior ← journal (begin_operation sender_uid (txt "release") request_id fingerprint scope);
    match prior with
    | Some prior =>
        stored ← lift (completed_response "release" prior);
        response ← lift (response_from_dict stored);
        match response with
        | ReleaseResponse _ => mret response
        | _ => raise (JournalError (txt "stored release response has wrong type"))
        end
    | None => run_release request sender_uid scope
    end)
  (fun e => mret (release_error request_id e)).

Definition retry_release (request : ReleaseRequest.t) : M W ReleaseResponse.t :=
  let cluster := ReleaseRequest.cluster_name request in
  let job_id := ReleaseRequest.canonical_job_id request in
  records ← journal (reservations cluster job_id);
  results ← mapM (_release_one request) (List.filter has_id records);
  let response := ReleaseResponse.mk (ReleaseRequest.request_id request) results in
  let state := release_state [ReservationState.STALE_RUNTIME;
    ReservationState.QPM_FAILURE; ReservationState.GATEWAY_FAILURE] results in
  _ ← journal (complete_allocation cluster job_id state
        (response_to_dict (ReleaseResponse response)));
  mret response.

(** ** Dispatch *)

Definition handle (request : request) (sender_uid : Z) : M W response :=
  match request with
  | EvaluateRequest r => _evaluate r sender_uid
  | ReserveRequest r => _reserve r sender_uid
  | GetReservationsRequest r => _get_reservations r sender_uid
  | ReleaseRequest r => _release r sender_uid
  end.
End service.
