(* ===== verification/Sample.v ===== *)
(** * A concrete site

    Instances of every parameter of the model, to evaluate it: a Slurm
    controller that knows one running job, QPMs that accept (and number) every
    reservation except those of services named ["busy"] and ["down"], a healthy
    disk and a toy hash. The witnesses of the theorems run on it. *)

From S2P Require Import Prelude Python Utf8 Enums Messages Values Effects Journal SlurmVerifier Adapter DefwClient Service.
Local Open Scope Z_scope.

#[export] Instance sample_ucd : UnicodeData := ascii_ucd.
#[export] Instance sample_journal_env : JournalEnv := healthy_env.
#[export] Instance sample_sha : Sha256 := fun b => map b2z b.

(** The controller's record of job 7 of user 1000. *)
Definition sample_record : pyval := PDict [
  (txt "job_id", PInt 7);
  (txt "user_id", PDict [(txt "set", PNone); (txt "number", PInt 1000)]);
  (txt "group_id", PStr (txt "100"));
  (txt "job_state", PList [PStr (txt "RUNNING")]);
  (txt "account", PStr (txt "physics"));
  (txt "priority", PInt 12)].

(** The QPM side counts the reservations it has made. *)
Abbreviation site := (adapter Z str).

#[export] Instance sample_slurm : SlurmEnv site := {|
  run_scontrol := fun id x =>
    (Ok (mk_completed 0 (Ok (PDict [(txt "jobs", PList [sample_record])])) []), x);
  getpwuid := fun uid x => (Ok (Some (txt "ada")), x);
|}.

(** The runtime id of a service *)
Definition sample_runtime (s : str) : str := txt "rt-" ++ s.

#[export] Instance sample_defw : DefwEnv Z str str := {|
  binding_factory := fun s n => (Ok s, n);
  binding_start := fun _ n => (Ok tt, n);
  binding_close := fun _ n => (Ok tt, n);
  snapshot := fun s n =>
    (Ok (PDict [(txt "available", PBool (negb (bool_decide (s = txt "down"))));
                (txt "runtime_id", PStr (sample_runtime s));
                (txt "generation", PInt 3)]), n);
  lifecycle_api := fun s _ _ n => (Ok s, n);
  is_ready := fun _ n => (Ok (PDict [(txt "ready", PBool true)]), n);
  api_reserve := fun s _ n =>
    if bool_decide (s = txt "busy") then
      (Ok (PDict [(txt "status", PStr (txt "delayed")); (txt "message", PStr (txt "queue full"))]), n)
    else (Ok (PDict [(txt "status", PStr (txt "ACCEPTED")); (txt "reservation_id", PInt n)]), n + 1);
  api_evaluate := fun s _ n =>
    (Ok (PDict [(txt "status", PStr (if bool_decide (s = txt "busy") then txt "delayed"
                                      else txt "accepted"))]), n);
  api_release := fun s _ _ n => (Ok (PDict [(txt "status", PStr (txt "released"))]), n);
|}.

#[export] Instance sample_verifier : VerifierOps site :=
  slurm_verifier (mk_verifier (txt "hpc") [64030]).

Definition sample_world : world site :=
  mk_world empty_db (mk_adapter true [] 41) [].

(** Reserve the given services for job 7 under a request id. *)
Definition sample_reserve (request_id : Z) (services : list string) : ReserveRequest.t :=
  ReserveRequest.mk request_id (txt "hpc") 7 1000 100
    (Some (Workload.mk WorkloadKind.QUANTUM 3600 4 29 1000 8192 None None None))
    (map txt services) None None.

Definition sample_release (request_id : Z) : ReleaseRequest.t :=
  ReleaseRequest.mk request_id (txt "hpc") 7 0.

Definition sample_lookup : GetReservationsRequest.t :=
  GetReservationsRequest.mk 99 (txt "hpc") 7 1000 100.

(** Handle requests one after the other. *)
Fixpoint run (l : list (request * Z)) (w : world site) : list (result response) * world site :=
  match l with
  | [] => ([], w)
  | (r, uid) :: l =>
      let (res, w') := handle (H := str) r uid w in
      let (rest, w'') := run l w' in
      (res :: rest, w'')
  end.
