(* ===== verification/ServiceFacts.v ===== *)
(** * Facts about the coordinator

    Which rows each method can touch, and what a failed or refused attempt
    leaves behind. *)

From S2P Require Import Prelude Python Utf8 Enums Messages Wire Values ResponseDict Effects Journal JournalFacts SlurmVerifier Adapter VerifierProps Service.
Local Open Scope Z_scope.

Section frames.
Context {ucd : UnicodeData} {jenv : JournalEnv} {sha : Sha256}.
Context {X H : Type} {adapter_ops : AdapterOps X H} {verifier_ops : VerifierOps X}.
Abbreviation W := (world X).

(** A relation on the journal, between two worlds *)
Definition on_db (R : relation db) : relation W := fun w w' => R (w_db w) (w_db w').

#[export] Instance on_db_preorder R `{!PreOrder R} : PreOrder (on_db R).
Proof. split; unfold on_db; [intros w; reflexivity|intros a b c ??; by etrans]. Qed.

Lemma journal_preserves {A} R (m : M db A) : preserves R m -> preserves (on_db R) (journal m).
Proof.
  intros Hm w. unfold journal, zoom, on_db. specialize (Hm (w_db w)).
  by destruct (m (w_db w)).
Qed.

Lemma external_preserves {A} R `{!PreOrder R} (m : M X A) :
  preserves (on_db R) (external m).
Proof. intros w. unfold external, zoom, on_db. destruct (m (w_ext w)). reflexivity. Qed.

Lemma adapter_reserve_preserves R `{!PreOrder R} b r job :
  preserves (on_db R) (adapter_reserve b r job).
Proof.
  intros w. unfold adapter_reserve, external, zoom, on_db.
  destruct (a_reserve b r job (w_ext w)). reflexivity.
Qed.

Lemma adapter_release_preserves R `{!PreOrder R} b rid reason :
  preserves (on_db R) (adapter_release b rid reason).
Proof.
  intros w. unfold adapter_release, external, zoom, on_db.
  destruct (a_release b rid reason (w_ext w)). reflexivity.
Qed.

Lemma try_step_preserves {A} R `{!PreOrder R} p (m : M W A) (k : A -> M W (attempt (H := H))) :
  preserves R m -> (forall a, preserves R (k a)) -> preserves R (try_step p m k).
Proof.
  intros Hm Hk w. unfold try_step. specialize (Hm w). destruct (m w) as [[a|e] w1].
  - etrans; [exact Hm|apply Hk].
  - by destruct (isa_Exception e).
Qed.

Lemma collecting_preserves R `{!PreOrder R} (m : M W unit) f :
  preserves R m -> preserves R (collecting m f).
Proof.
  intros Hm. unfold collecting. apply preserves_try; [done| |auto with preserves].
  apply preserves_bind; auto with preserves.
Qed.

Lemma on_error_preserves {A} R `{!PreOrder R} (m : M W A) handler :
  preserves R m -> (forall e, preserves R (handler e)) -> preserves R (on_error m handler).
Proof.
  intros Hm Hh. unfold on_error. apply preserves_try; [done|done|intros e].
  apply preserves_bind; [done|done|]. intros. apply preserves_raise. done.
Qed.

Hint Resolve journal_preserves external_preserves adapter_reserve_preserves
  adapter_release_preserves : preserves.
Hint Extern 2 (PreOrder _) => apply _ : preserves.
Ltac preserve_step ::=
  first [ apply journal_preserves
        | apply try_step_preserves; [apply _ | | intros ?]
        | apply collecting_preserves; [apply _ |]
        | apply on_error_preserves; [apply _ | | intros ?] ].

(** *** Evaluation and lookup change no allocation and no reservation *)

Lemma evaluate_untouched req uid :
  preserves (on_db reservations_untouched) (_evaluate (H := H) req uid).
Proof.
  unfold _evaluate, _evaluate_services, _journal_failed_evaluation. preserve.
Qed.

Lemma reservation_context_reads R c j uid gid :
  PreOrder R -> preserves (on_tables R) (reservation_context c j uid gid).
Proof. intros ?. unfold reservation_context, reservations. preserve. Qed.

Lemma get_reservations_reads R req uid :
  PreOrder R -> preserves (on_db (on_tables R)) (_get_reservations req uid).
Proof.
  intros ?. pose proof (reservation_context_reads R). unfold _get_reservations. preserve.
Qed.

(** *** The other methods touch only the rows of their allocation *)
Context (c : str) (j : Z).
Abbreviation R := (on_db (others_untouched c j)).

Section release.
Context (req : ReleaseRequest.t).
Hypothesis (Hc : ReleaseRequest.cluster_name req = c)
  (Hj : ReleaseRequest.canonical_job_id req = j).

Lemma release_one_untouched rec : preserves R (_release_one (H := H) req rec).
Proof. subst. unfold _release_one. preserve. Qed.

Lemma release_untouched uid : preserves R (_release (H := H) req uid).
Proof.
  pose proof release_one_untouched. subst.
  unfold _release, run_release, allocation_status, reservations, complete_allocation.
  preserve.
Qed.

Lemma retry_untouched : preserves R (retry_release (H := H) req).
Proof.
  pose proof release_one_untouched. subst.
  unfold retry_release, reservations, complete_allocation. preserve.
Qed.
End release.

Section reserve.
Context (req : ReserveRequest.t).
Hypothesis (Hc : ReserveRequest.cluster_name req = c)
  (Hj : ReserveRequest.canonical_job_id req = j).

Lemma rollback_untouched accepted : preserves R (_rollback (H := H) req accepted).
Proof. subst. unfold _rollback, rollback_one. preserve. Qed.

Lemma reserve_loop_untouched job fp services accepted :
  preserves R (reserve_loop (H := H) req job fp services accepted).
Proof.
  pose proof rollback_untouched. revert accepted.
  induction services as [|s services IH]; intros accepted; simpl; [preserve|].
  subst. unfold attempt_service. preserve.
Qed.

Lemma reserve_untouched uid : preserves R (_reserve (H := H) req uid).
Proof.
  pose proof reserve_loop_untouched. subst.
  unfold _reserve, run_attempt, _reserve_services, merge_extension, restore_plan,
    finish_reserve, replay_reserve, _complete, _journal_failed_attempt, accepted_allocation,
    restore_accepted_allocation, complete_allocation.
  preserve.
Qed.
End reserve.
End frames.

(** ** Evaluation *)

Section evaluation.
Context {ucd : UnicodeData} {X H : Type} {adapter_ops : AdapterOps X H}
  {laws : AdapterLaws X H}.

Lemma external_same {A} (m : M X A) (w : world X) r w' :
  external m w = (r, w') ->
  w_db w' = w_db w /\ w_log w' = w_log w /\ m (w_ext w) = (r, w_ext w').
Proof. unfold external, zoom. destruct (m (w_ext w)). by intros [= <- <-]. Qed.

Lemma evaluate_loop_ok req job l (w : world X) results w' :
  mapM (fun service_id =>
    binding ← external (a_resolve (H := H) service_id);
    result ← external (a_evaluate binding req job);
    _ ← raise_when (bool_decide (is_Some (ServiceResult.reservation_id result)))
          (QFwAdapterError (txt "QPM " ++ repr service_id
             ++ txt " evaluation returned a reservation"));
    mret result) l w = (Ok results, w') ->
  map ServiceResult.service_id results = l /\
  Forall (fun r => ServiceResult.reservation_id r = None) results /\
  w_db w' = w_db w /\ w_log w' = w_log w.
Proof.
  revert w results w'. induction l as [|s l IH]; intros w results w' Hr; simpl in Hr.
  { by injection Hr as <- <-. }
  apply m_bind_inv in Hr as (r & w1 & Hr & Hrest).
  apply m_bind_inv in Hr as (b & w2 & (Hd1 & Hl1 & Hb)%external_same & Hr).
  apply m_bind_inv in Hr as (r' & w3 & (Hd2 & Hl2 & He)%external_same & Hr).
  apply resolve_service in Hb. apply evaluate_result in He as [Hs Hnone].
  apply m_bind_inv in Hrest as (rs & w4 & Hrest & Hret). inv_run.
  destruct (IH _ _ _ Hrest) as (Hm & Hf & Hd & Hlog).
  split_and!; [|by constructor|congruence..]. simpl. congruence.
Qed.
End evaluation.

Lemma overall_accepted l :
  overall_decision l = AdmissionDecision.ACCEPTED <->
  Forall (fun d => d = AdmissionDecision.ACCEPTED) l.
Proof.
  unfold overall_decision. rewrite Forall_forall. split.
  - intros Hd [] Hin; [done|..]; revert Hd; repeat case_bool_decide; done.
  - intros Hall. rewrite !bool_decide_eq_false_2; [done|..]; by intros ?%Hall.
Qed.

Lemma overall_rejected l :
  overall_decision l = AdmissionDecision.REJECTED <-> AdmissionDecision.REJECTED ∈ l.
Proof.
  unfold overall_decision. case_bool_decide; [done|]. case_bool_decide; by split.
Qed.

(** ** The ghost log *)

(** The reservations QPMs accepted, the releases asked for, and those that
    succeeded, in order *)
Definition accepted_in (l : list event) : list (str * option Z) :=
  omap (fun e => match e with
                 | EvReserve _ s (Ok r) =>
                     if is_accepted r then Some (s, ServiceResult.reservation_id r) else None
                 | _ => None
                 end) l.
Definition asked_in (l : list event) : list (str * option Z) :=
  omap (fun e => match e with EvRelease _ s rid _ => Some (s, rid) | _ => None end) l.
Definition released_in (l : list event) : list (str * option Z) :=
  omap (fun e => match e with EvRelease _ s rid (Ok _) => Some (s, rid) | _ => None end) l.

Lemma accepted_in_app l1 l2 : accepted_in (l1 ++ l2) = accepted_in l1 ++ accepted_in l2.
Proof. apply omap_app. Qed.
Lemma asked_in_app l1 l2 : asked_in (l1 ++ l2) = asked_in l1 ++ asked_in l2.
Proof. apply omap_app. Qed.
Lemma released_in_app l1 l2 : released_in (l1 ++ l2) = released_in l1 ++ released_in l2.
Proof. apply omap_app. Qed.

Lemma released_in_asked l : asked_in l = [] -> released_in l = [].
Proof.
  unfold asked_in, released_in. induction l as [|[|t s rid out] l IH]; [done|apply IH|done].
Qed.

Lemma map_reverse {A B} (f : A -> B) l : map f (reverse l) = reverse (map f l).
Proof. induction l as [|x l IH]; [done|]. cbn [map]. by rewrite !reverse_cons, map_app, IH. Qed.

(** The service and the id of a held reservation *)
Definition held_id {H} (h : QPMBinding H * ServiceResult.t) : str * option Z :=
  (service_id h.1, ServiceResult.reservation_id h.2).

Section logs.
Context {ucd : UnicodeData} {jenv : JournalEnv} {sha : Sha256}.
Context {X H : Type} {adapter_ops : AdapterOps X H} {verifier_ops : VerifierOps X}.
Abbreviation W := (world X).
Implicit Types (w : W) (held : list (QPMBinding H * ServiceResult.t)).

(** [m] adds the events [l] to the log. *)
Definition logs w w' (l : list event) : Prop := w_log w' = w_log w ++ l.

Lemma logs_nil w : logs w w [].
Proof. unfold logs. by rewrite app_nil_r. Qed.

Lemma logs_trans w1 w2 w3 l1 l2 : logs w1 w2 l1 -> logs w2 w3 l2 -> logs w1 w3 (l1 ++ l2).
Proof. unfold logs. intros -> ->. by rewrite app_assoc. Qed.

Lemma journal_logs {A} (m : M db A) w r w' : journal m w = (r, w') -> logs w w' [].
Proof.
  unfold journal, zoom, logs. destruct (m (w_db w)). intros [= _ <-]. by rewrite app_nil_r.
Qed.

Lemma external_logs {A} (m : M X A) w r w' : external m w = (r, w') -> logs w w' [].
Proof.
  unfold external, zoom, logs. destruct (m (w_ext w)). intros [= _ <-]. by rewrite app_nil_r.
Qed.

Lemma adapter_release_logs b rid reason w r w' :
  adapter_release b rid reason w = (r, w') ->
  logs w w' [EvRelease (db_tables (w_db w)) (service_id b) rid r].
Proof.
  unfold adapter_release, emit, logs. destruct (external _ w) as [r1 w1] eqn:E.
  apply external_logs in E. intros [= <- <-]. simpl. unfold logs in E.
  by rewrite E, app_nil_r.
Qed.

Lemma adapter_reserve_logs b req job w r w' :
  adapter_reserve b req job w = (r, w') ->
  logs w w' [EvReserve (db_tables (w_db w)) (service_id b) r] /\
  exists x', a_reserve b req job (w_ext w) = (r, x').
Proof.
  unfold adapter_reserve, emit, external, zoom, logs.
  destruct (a_reserve b req job (w_ext w)) as [r1 x1]. intros [= <- <-]. simpl. eauto.
Qed.

(** *** Rollback *)

Lemma collecting_ok (m : M W unit) f w r w' :
  collecting m f w = (r, w') ->
  match r with
  | Ok fs => (fs = [] /\ m w = (Ok tt, w')) \/ exists e, m w = (Raise e, w')
  | Raise e => isa_Exception e = false /\ m w = (Raise e, w')
  end.
Proof.
  unfold collecting. intros [[Hr He]|(e & w1 & Hr & He & Hh)]%try_except_cases.
  - apply m_bind_cases in Hr as [(e & Hm & ->)|([] & w1 & Hm & Hr)]; [done|].
    injection Hr as <- ->. by left.
  - apply m_bind_cases in Hr as [(e' & Hm & [= <-])|([] & w2 & Hm & Hr)]; [|discriminate Hr].
    injection Hh as <- <-. right. eauto.
Qed.

(** One release of a rollback: it is asked for, and a failure is reported. *)
Lemma rollback_one_logs req h w r w' :
  rollback_one (H := H) req h w = (r, w') ->
  exists out, logs w w' [EvRelease (db_tables (w_db w)) (service_id h.1) (ServiceResult.reservation_id h.2) out] /\
    match r with
    | Ok fs => fs = [] -> exists d, out = Ok d
    | Raise e => isa_Exception e = false
    end.
Proof.
  destruct h as [b res]. intros Hr. unfold rollback_one in Hr. simpl.
  apply m_bind_cases in Hr as [(e & Hr & ->)|(released & w1 & Hr & Hrest)].
  - apply try_except_cases in Hr as [[Hr He]|(e' & w1 & Hr & _ & Hh)]; [|discriminate Hh].
    apply m_bind_cases in Hr as [(e' & Hr & [= <-])|(d & w2 & Hr & Hd)]; [|discriminate Hd].
    eexists. split; [by eapply adapter_release_logs|done].
  - assert (exists out, logs w w1 [EvRelease (db_tables (w_db w)) (service_id b) (ServiceResult.reservation_id res) out]
      /\ (released = None -> exists d, out = Ok d)) as (out & Hl & Hout).
    { apply try_except_cases in Hr as [[Hr _]|(e & w2 & Hr & _ & Hh)].
      - apply m_bind_cases in Hr as [(e' & _ & [=])|(d & w2 & Hr & Hd)]. injection Hd as <- <-.
        eexists. split; [by eapply adapter_release_logs|eauto].
      - injection Hh as <- <-.
        apply m_bind_cases in Hr as [(e' & Hr & _)|(d & w3 & _ & Hd)]; [|discriminate Hd].
        eexists. split; [by eapply adapter_release_logs|done]. }
    exists out.
    apply m_bind_cases in Hrest as [(e & Hc & ->)|(fs & w2 & Hc & Hrest)].
    + apply collecting_ok in Hc as [He Hc]. split; [|done].
      rewrite <-(app_nil_r [_]). eapply logs_trans; [exact Hl|by eapply journal_logs].
    + injection Hrest as <- <-. split.
      * rewrite <-(app_nil_r [_]). eapply logs_trans; [exact Hl|].
        apply collecting_ok in Hc as [[_ Hc]|[e Hc]]; by eapply journal_logs.
      * intros [Hn _]%app_nil. apply Hout. by destruct released.
Qed.

(** All releases of a rollback are asked for, last accepted first. *)
Lemma rollback_loop_logs req held w r w' :
  mapM (rollback_one (H := H) req) held w = (r, w') ->
  exists l, logs w w' l /\ accepted_in l = [] /\
    match r with
    | Ok fss => asked_in l = map held_id held /\
                (concat fss = [] -> released_in l = map held_id held)
    | Raise e => isa_Exception e = false
    end.
Proof.
  revert w r w'. induction held as [|h held IH]; intros w r w' Hr; simpl in Hr.
  - injection Hr as <- <-. exists []. by split_and!; [apply logs_nil|..].
  - apply m_bind_cases in Hr as [(e & Hr & ->)|(fs & w1 & Hr & Hrest)].
    + apply rollback_one_logs in Hr as (out & Hl & He). eexists. by split_and!; [exact Hl|..].
    + apply rollback_one_logs in Hr as (out & Hl & Hout).
      apply m_bind_cases in Hrest as [(e & Hm & ->)|(fss & w2 & Hm & Hrest)];
        apply IH in Hm as (l & Hl2 & Hacc & Hm).
      * eexists. split_and!; [by eapply logs_trans|done|done].
      * injection Hrest as <- <-. destruct Hm as [Hask Hrel].
        eexists. split_and!; [by eapply logs_trans|done|..].
        -- rewrite asked_in_app, Hask. done.
        -- intros Hc. simpl in Hc. apply app_nil in Hc as [Hfs Hfss].
           destruct (Hout Hfs) as [d ->]. by rewrite released_in_app, Hrel.
Qed.

Lemma rollback_logs req held w r w' :
  _rollback (H := H) req held w = (r, w') ->
  exists l, logs w w' l /\ accepted_in l = [] /\
    match r with
    | Ok _ => released_in l = map held_id (reverse held) /\ asked_in l = released_in l
    | Raise e => isa_Exception e = true ->
        isa_RollbackIncomplete e = true /\ asked_in l = map held_id (reverse held)
    end.
Proof.
  intros Hr. unfold _rollback in Hr.
  apply m_bind_cases in Hr as [(e & Hc & ->)|(fs & w1 & Hc & Hr)].
  { apply collecting_ok in Hc as [He Hc]. exists []. split_and!; [by eapply journal_logs|done|].
    congruence. }
  assert (logs w w1 []) as Hl0
    by (apply collecting_ok in Hc as [[_ Hc]|[e Hc]]; by eapply journal_logs).
  apply m_bind_cases in Hr as [(e & Hm & ->)|(fss & w2 & Hm & Hr)];
    apply rollback_loop_logs in Hm as (l & Hl & Hacc & Hm).
  { exists l. split_and!; [by apply (logs_trans w w1 w' [])|done|congruence]. }
  exists l. destruct Hm as [Hask Hrel]. unfold raise_when in Hr.
  destruct (bool_decide (fs ++ concat fss = [])) eqn:Hb; simpl in Hr; injection Hr as <- <-.
  - apply bool_decide_eq_true in Hb as [_ Hb]%app_nil. specialize (Hrel Hb).
    split_and!; [by apply (logs_trans w w1 w2 [])|done|done|congruence].
  - by split_and!; [apply (logs_trans w w1 w2 [])|..].
Qed.

(** *** The attempt *)
Context {laws : AdapterLaws X H}.

Lemma try_step_cases {A} p (m : M W A) (k : A -> M W (attempt (H := H))) w r w' :
  try_step p m k w = (r, w') ->
  (exists a w1, m w = (Ok a, w1) /\ k a w1 = (r, w')) \/
  (exists e, m w = (Raise e, w') /\
     r = if isa_Exception e then Ok (Failed e p) else Raise e).
Proof.
  unfold try_step. destruct (m w) as [[a|e] w1]; [eauto|].
  destruct (isa_Exception e) eqn:E; intros [= <- <-]; right; exists e; by rewrite E.
Qed.

(** The log of one service of an attempt *)
Definition attempt_logged (s : str) (l : list event) (r : result (attempt (H := H))) : Prop :=
  asked_in l = [] /\
  match r with
  | Ok (Reserved h) =>
      service_id h.1 = s /\ reserve_result_ok h.1 h.2 /\
      accepted_in l = if is_accepted h.2 then [held_id h] else []
  | Ok (Failed e p) => accepted_in l = map held_id (option_list p)
  | Raise e => isa_Exception e = false
  end.

Lemma attempt_logs req job fp s w r w' :
  attempt_service (H := H) req job fp s w = (r, w') ->
  exists l, logs w w' l /\ attempt_logged s l r.
Proof.
  assert (Hfail : forall (e : exn) p l w1, logs w w1 l -> asked_in l = [] ->
    accepted_in l = map held_id (option_list p) ->
    exists l, logs w w1 l /\
      attempt_logged s l (if isa_Exception e then Ok (Failed e p) else Raise e)).
  { intros e p l w1 Hl Ha Hc. exists l. split; [done|].
    split; [done|]. by destruct (isa_Exception e) eqn:E. }
  intros Hr. unfold attempt_service in Hr.
  apply try_step_cases in Hr as [(b & w1 & Hres & Hr)|(e & He & ->)].
  2: { eapply Hfail; [by eapply external_logs|done|done]. }
  pose proof Hres as Hl1. apply external_logs in Hl1.
  apply try_step_cases in Hr as [(u & w2 & Hrec & Hr)|(e & He & ->)]; cycle 1.
  { apply journal_logs in He. eapply Hfail; [by eapply logs_trans|done|done]. }
  apply journal_logs in Hrec.
  apply try_step_cases in Hr as [(res & w3 & Hask & Hr)|(e & He & ->)];
    [|apply adapter_reserve_logs in He as [He _]; eapply Hfail;
       [eapply logs_trans; [exact Hl1|eapply logs_trans; [exact Hrec|exact He]]|done|done]].
  apply adapter_reserve_logs in Hask as [Hask (x' & Hok)].
  assert (service_id b = s) as Hs.
  { unfold external, zoom in Hres. destruct (a_resolve s (w_ext w)) as [r0 x0] eqn:E.
    injection Hres as -> _. by apply resolve_service in E. }
  apply reserve_result in Hok.
  assert (Hl : logs w w3 [EvReserve (db_tables (w_db w2)) (service_id b) (Ok res)])
    by (eapply (logs_trans _ _ _ []); [exact Hl1|]; by eapply (logs_trans _ _ _ [])).
  apply try_step_cases in Hr as [(u' & w4 & Hrec2 & Hr)|(e & He & ->)].
  - apply journal_logs in Hrec2. injection Hr as <- <-. eexists. split.
    + eapply logs_trans; [exact Hl|exact Hrec2].
    + split; [done|]. simpl. split_and!; [done|done|]. by destruct (is_accepted res).
  - apply journal_logs in He.
    eapply Hfail; [eapply logs_trans; [exact Hl|exact He]|done|].
    simpl. by destruct (is_accepted res).
Qed.

(** *** The loop: all services or none *)

Definition result_id (r : ServiceResult.t) : str * option Z :=
  (ServiceResult.service_id r, ServiceResult.reservation_id r).

(** What an attempt on [services], holding [held] already, may end with *)
Definition all_or_nothing (services : list str) held (l : list event)
    (r : result ReserveResponse.t) : Prop :=
  let accepted := map held_id held ++ accepted_in l in
  match r with
  | Ok resp =>
      let results := ReserveResponse.results resp in
      if bool_decide (ReserveResponse.decision resp = AdmissionDecision.ACCEPTED) then
        asked_in l = [] /\ map result_id results = accepted /\
        map ServiceResult.service_id results = map (fun h => service_id h.1) held ++ services /\
        Forall (fun x => is_accepted x = true /\
          exists rid, ServiceResult.reservation_id x = Some rid /\ 0 < rid < 2 ^ 64) results
      else
        released_in l = reverse accepted /\ asked_in l = reverse accepted /\
        Forall (fun x => ServiceResult.reservation_id x = None) results /\
        map ServiceResult.service_id results
          `prefix_of` map (fun h => service_id h.1) held ++ services
  | Raise e =>
      isa_Exception e = true ->
      asked_in l = reverse accepted /\
      (isa_RollbackIncomplete e = false -> released_in l = reverse accepted)
  end.

(** The reservations an attempt may hold *)
Definition held_ok (h : QPMBinding H * ServiceResult.t) : Prop :=
  reserve_result_ok h.1 h.2 /\ is_accepted h.2 = true.

Lemma held_ok_id h : held_ok h -> held_id h = result_id h.2.
Proof. destruct h. intros [[Hs _] _]. unfold held_id, result_id. simpl in *. by rewrite Hs. Qed.

Lemma held_ids held : Forall held_ok held -> map held_id held = map result_id (map snd held).
Proof.
  induction 1 as [|h held Hh _ IH]; [done|]. simpl. by rewrite IH, held_ok_id.
Qed.

Lemma held_services held :
  Forall held_ok held ->
  map (fun h => service_id h.1) held = map ServiceResult.service_id (map snd held).
Proof.
  induction 1 as [|[b r] held [[Hs _] _] _ IH]; [done|]. simpl in *. by rewrite IH, Hs.
Qed.

Lemma held_accepted held :
  Forall held_ok held ->
  Forall (fun x => is_accepted x = true /\
    exists rid, ServiceResult.reservation_id x = Some rid /\ 0 < rid < 2 ^ 64) (map snd held).
Proof.
  intros Hf. apply Forall_map. eapply Forall_impl; [exact Hf|].
  intros [b r] [[_ Hr] Ha]. simpl in *. split; [done|].
  unfold is_accepted in Ha. apply bool_decide_eq_true in Ha.
  destruct (ServiceResult.reservation_id r) as [rid|]; [|done]. exists rid. by destruct Hr.
Qed.

Lemma rolled_back_ids final held :
  map ServiceResult.service_id (map (fun h => rolled_back final h.2) held)
  = map ServiceResult.service_id (map (@snd (QPMBinding H) _) held).
Proof. by rewrite !map_map. Qed.

Lemma reserve_loop_logs req job fp services held w r w' :
  Forall held_ok held ->
  reserve_loop (H := H) req job fp services held w = (r, w') ->
  exists l, logs w w' l /\ all_or_nothing services held l r.
Proof.
  revert held w r w'. induction services as [|s services IH]; intros held w r w' Hheld Hr;
    simpl in Hr.
  { injection Hr as <- <-. exists []. split; [apply logs_nil|]. unfold all_or_nothing.
    cbn [ReserveResponse.results ReserveResponse.decision accepted_in asked_in omap list_omap].
    rewrite bool_decide_eq_true_2 by done. rewrite !app_nil_r.
    split_and!; [done|by rewrite held_ids|by rewrite held_services|by apply held_accepted]. }
  apply m_bind_cases in Hr as [(e & Hr & ->)|(out & w1 & Hr & Hrest)];
    apply attempt_logs in Hr as (l1 & Hl1 & Hask1 & Hr).
  { exists l1. split; [done|]. unfold all_or_nothing. congruence. }
  destruct out as [[b res]|error pending].
  - (* the service answered *)
    destruct Hr as (Hs & Hok & Hacc). simpl in *.
    destruct (is_accepted res) eqn:Ha.
    + assert (Forall held_ok (held ++ [(b, res)])) as Hheld'
        by (apply Forall_app; split; [done|by apply Forall_singleton]).
      destruct (IH _ _ _ _ Hheld' Hrest) as (l2 & Hl2 & Hspec).
      exists (l1 ++ l2). split; [by eapply logs_trans|].
      unfold all_or_nothing in *.
      rewrite accepted_in_app, asked_in_app, released_in_app, Hask1, (released_in_asked l1 Hask1).
      assert (map held_id held ++ accepted_in l1 ++ accepted_in l2 =
        map held_id (held ++ [(b, res)]) ++ accepted_in l2) as ->
        by (rewrite map_app, Hacc, <-app_assoc; done).
      replace (map (fun h => service_id h.1) held ++ s :: services)
        with (map (fun h => service_id h.1) (held ++ [(b, res)]) ++ services); [exact Hspec|].
      rewrite map_app, <-app_assoc. simpl. by rewrite Hs.
    + apply m_bind_cases in Hrest as [(e & Hrb & ->)|([] & w2 & Hrb & Hrest)];
        apply rollback_logs in Hrb as (l2 & Hl2 & Hacc2 & Hrb);
        (exists (l1 ++ l2); split;
           [first [injection Hrest as <- <-|idtac]; by eapply logs_trans|]);
        unfold all_or_nothing;
        rewrite accepted_in_app, asked_in_app, released_in_app, Hask1,
          (released_in_asked l1 Hask1), Hacc, Hacc2; cbn [app]; rewrite app_nil_r.
      * intros He. destruct (Hrb He) as [Hinc Hask]. rewrite Hask, map_reverse.
        split; [done|congruence].
      * injection Hrest as <- <-. destruct Hrb as [Hrel Hask].
        cbn [ReserveResponse.results ReserveResponse.decision].
        rewrite bool_decide_eq_false_2 by (unfold is_accepted in Ha; by apply bool_decide_eq_false in Ha).
        rewrite Hask, Hrel, map_reverse. split_and!; [done|done| |].
        -- apply Forall_app. split; [by apply Forall_map, Forall_true|].
           constructor; [|done]. destruct Hok as [_ Hok].
           destruct (ServiceResult.reservation_id res) as [rid|]; [|done].
           destruct Hok as [Hd _]. unfold is_accepted in Ha. by rewrite Hd in Ha.
        -- rewrite map_app, rolled_back_ids, held_services by done. cbn [map].
           destruct Hok as [-> _]. rewrite Hs. apply prefix_app. by exists services.
  - (* it failed: roll back *)
    simpl in Hr. apply m_bind_cases in Hrest as [(e & Hrb & ->)|([] & w2 & Hrb & Hrest)].
    + apply try_except_cases in Hrb as [[Hrb He]|(e' & w2 & Hrb & He & Hh)];
        apply rollback_logs in Hrb as (l2 & Hl2 & Hacc2 & Hrb).
      * exists (l1 ++ l2). split; [by eapply logs_trans|]. unfold all_or_nothing. congruence.
      * injection Hh as <- <-. destruct (Hrb He) as [_ Hask].
        exists (l1 ++ l2). split; [by eapply logs_trans|]. unfold all_or_nothing. intros _.
        rewrite accepted_in_app, asked_in_app, Hask1, Hr, Hacc2, Hask, app_nil_r.
        by rewrite map_reverse, map_app.
    + apply try_except_cases in Hrb as [[Hrb _]|(e' & w3 & _ & _ & [=])].
      apply rollback_logs in Hrb as (l2 & Hl2 & Hacc2 & Hrel & Hask).
      injection Hrest as <- <-.
      exists (l1 ++ l2). split; [by eapply logs_trans|]. unfold all_or_nothing. intros _.
      rewrite accepted_in_app, asked_in_app, released_in_app, Hask1,
        (released_in_asked l1 Hask1), Hr, Hacc2, Hask, Hrel, app_nil_r.
      by rewrite map_reverse, map_app.
Qed.
End logs.
