(* ===== verification/ServiceProps.v ===== *)
(** * Properties of the transaction coordinator *)

From S2P Require Import Prelude Python Utf8 Enums Messages Wire Values ResponseDict Effects Journal JournalFacts JournalProps SlurmVerifier Adapter VerifierProps DefwClient AdapterProps Service Sample ServiceFacts.
Local Open Scope Z_scope.

(** ** All services or none *)

(** C7 An attempt on a set of services is all or nothing. When it is accepted,
    every requested service has an accepted result with a valid reservation id
    and nothing was released. When a service delays or rejects, or any step
    fails, every reservation that was accepted is released, last first, before
    the attempt answers; and when a release or its record fails, the attempt
    raises [RollbackIncomplete] after having tried every release. *)
Theorem reserve_services_all_or_nothing {ucd : UnicodeData} {jenv : JournalEnv} {sha : Sha256}
    {X H} {adapter_ops : AdapterOps X H} {laws : AdapterLaws X H} req job services fp
    (w : world X) r w' :
  _reserve_services (H := H) req job services fp w = (r, w') ->
  exists l, w_log w' = w_log w ++ l /\
    all_or_nothing (H := H) (sorted_str services) [] l r.
Proof. intros Hr. by eapply reserve_loop_logs. Qed.

Definition sample_job : VerifiedJob.t :=
  VerifiedJob.mk (txt "hpc") 7 1000 100 (txt "ada") (Some (txt "physics")) None (Some 12)
    (txt "RUNNING").

Lemma reserve_services_all_or_nothing_witness :
  let run := _reserve_services (H := str) (sample_reserve 1 ["busy"; "bee"; "aer"]%string) sample_job
               (map txt ["busy"; "bee"; "aer"]%string) (txt "f") sample_world in
  exists l, w_log run.2 = w_log sample_world ++ l /\
    all_or_nothing (H := str) (sorted_str (map txt ["busy"; "bee"; "aer"]%string)) [] l run.1.
Proof.
  intros run. apply (reserve_services_all_or_nothing (H := str)
    (sample_reserve 1 ["busy"; "bee"; "aer"]%string) sample_job
    (map txt ["busy"; "bee"; "aer"]%string) (txt "f") sample_world).
  apply surjective_pairing.
Defined.

(** What that attempt did: ["aer"] and ["bee"] accepted, ["busy"] delayed, both
    released in reverse order. *)
Example sample_attempt :
  let run := _reserve_services (H := str) (sample_reserve 1 ["busy"; "bee"; "aer"]%string) sample_job
               (map txt ["busy"; "bee"; "aer"]%string) (txt "f") sample_world in
  released_in (w_log run.2) = [(txt "bee", Some 42); (txt "aer", Some 41)] /\
  accepted_in (w_log run.2) = [(txt "aer", Some 41); (txt "bee", Some 42)].
Proof. vm_compute. done. Qed.

(** ** Isolation *)

(** The allocation whose lock a request takes *)
Definition request_key (r : request) : str * Z :=
  match r with
  | EvaluateRequest r | ReserveRequest r =>
      (ReserveRequest.cluster_name r, ReserveRequest.canonical_job_id r)
  | ReleaseRequest r => (ReleaseRequest.cluster_name r, ReleaseRequest.canonical_job_id r)
  | GetReservationsRequest r =>
      (GetReservationsRequest.cluster_name r, GetReservationsRequest.observed_job_id r)
  end.

(** Requests that hold nothing *)
Definition reads_only (r : request) : bool :=
  match r with EvaluateRequest _ | GetReservationsRequest _ => true | _ => false end.

(** C15 A request changes no allocation and no reservation of another job or
    cluster, whatever the QPMs, the controller and SQLite do; an evaluation or
    a lookup changes none at all. *)
Theorem handle_isolated {ucd : UnicodeData} {jenv : JournalEnv} {sha : Sha256}
    {X H} {adapter_ops : AdapterOps X H} {verifier_ops : VerifierOps X} (r : request) uid
    (w : world X) :
  let after := (handle (H := H) r uid w).2 in
  untouched (fun K => K <> ((request_key r).1, str_of_Z (request_key r).2))
    (db_tables (w_db w)) (db_tables (w_db after)) /\
  if reads_only r then untouched (fun _ => True) (db_tables (w_db w)) (db_tables (w_db after))
  else True.
Proof.
  assert (Hweak : forall P w1 w2, untouched (fun _ => True) w1 w2 -> untouched P w1 w2).
  { intros P w1 w2 [H1 H2]. split; intros; [by apply H1|by apply H2]. }
  destruct r as [r|r|r|r]; simpl.
  - pose proof (evaluate_untouched (H := H) r uid w) as Hu. split; [by apply Hweak|done].
  - split; [|done]. by apply (reserve_untouched (H := H)).
  - split; [|done]. by apply (release_untouched (H := H)).
  - pose proof (get_reservations_reads (untouched (fun _ => True)) r uid _ w) as Hu.
    split; [by apply Hweak|done].
Qed.

(** ** Lookups *)

(** Every accepted record of a complete context has an id. *)
Lemma reservation_tuple_complete records :
  Forall (fun r => ReservationRecord.reservation_id r <> None) records ->
  map Some (reservation_tuple records) =
    map (fun r => Reservation.mk (ReservationRecord.service_id r)
                    <$> ReservationRecord.reservation_id r) records.
Proof.
  unfold reservation_tuple. induction 1 as [|r records Hr _ IH]; [done|].
  destruct (ReservationRecord.reservation_id r) as [rid|] eqn:E; [|done].
  cbn [omap list_omap map]. rewrite E. simpl. by rewrite IH.
Qed.

(** C14 A lookup that succeeds answers the verified owner with the complete
    accepted set of the canonical allocation, one reservation with its id per
    service, in order; it never answers with a partial set. *)
Theorem lookup_complete {ucd : UnicodeData} {jenv : JournalEnv} {X} {verifier_ops : VerifierOps X}
    {laws : VerifierLaws X} req uid (w : world X) resp w' :
  no_faults jenv -> rows_valid (db_tables (w_db w)) ->
  _get_reservations req uid w = (Ok (GetReservationsResponse resp), w') ->
  exists records,
    context_complete (db_tables (w_db w)) (GetReservationsRequest.cluster_name req)
      (GetReservationsResponse.canonical_job_id resp) (GetReservationsRequest.job_uid req)
      (GetReservationsRequest.job_gid req) records /\
    map Some (GetReservationsResponse.reservations resp) =
      map (fun r => Reservation.mk (ReservationRecord.service_id r)
                      <$> ReservationRecord.reservation_id r) records /\
    GetReservationsResponse.request_id resp = GetReservationsRequest.request_id req /\
    db_tables (w_db w') = db_tables (w_db w).
Proof.
  intros Hok Hv Hr. unfold _get_reservations in Hr.
  apply try_except_cases in Hr as [[Hr _]|(e & w1 & _ & _ & Hh)];
    [|exfalso; injection Hh as Hh _; by destruct e].
  apply m_bind_inv in Hr as (job & w1 & Hjob & Hr).
  apply m_bind_inv in Hr as (records & w2 & Hrec & Hr). injection Hr as <- <-.
  unfold external, zoom in Hjob. destruct (v_lookup req uid (w_ext w)) as [r0 x1] eqn:Ev.
  injection Hjob as -> <-. apply lookup_identity in Ev as [Hu Hg].
  unfold journal, zoom in Hrec. simpl in Hrec.
  pose proof (reservation_context_run Hok (GetReservationsRequest.cluster_name req)
    (VerifiedJob.canonical_job_id job) (VerifiedJob.uid job) (VerifiedJob.gid job) (w_db w))
    as [Hctx Hsame].
  destruct (reservation_context _ _ _ _ (w_db w)) as [r1 d1]. injection Hrec as -> <-.
  simpl in Hctx, Hsame. symmetry in Hctx. apply context_of_sound in Hctx.
  rewrite Hu, Hg in Hctx. exists records. simpl. split_and!; try done.
  apply reservation_tuple_complete, Forall_forall. intros r Hr.
  destruct Hctx as (row & _ & _ & _ & _ & _ & _ & _ & Hrecs & _).
  by destruct (Hrecs r Hr) as (rr & _ & _ & _ & ?).
Qed.

(** The accepted allocation of job 7, behind the sample site. *)
Definition accepted_world : world site := mk_world accepted_db (mk_adapter true [] 41) [].

Lemma lookup_complete_witness :
  let resp := GetReservationsResponse.mk 99 7 [Reservation.mk (txt "aer") 41] in
  exists w', _get_reservations sample_lookup 1000 accepted_world
    = (Ok (GetReservationsResponse resp), w') /\
  exists records,
    context_complete (db_tables accepted_db) (txt "hpc") 7 1000 100 records /\
    map Some (GetReservationsResponse.reservations resp) =
      map (fun r => Reservation.mk (ReservationRecord.service_id r)
                      <$> ReservationRecord.reservation_id r) records.
Proof.
  intros resp.
  assert (Hrun : _get_reservations sample_lookup 1000 accepted_world =
    (Ok (GetReservationsResponse resp), (_get_reservations sample_lookup 1000 accepted_world).2))
    by (apply run_outcome; vm_compute; reflexivity).
  eexists. split; [exact Hrun|].
  destruct (lookup_complete (jenv := healthy_env) (laws := slurm_verifier_laws _) sample_lookup 1000 accepted_world resp _
    (fun _ => eq_refl) accepted_db_rows Hrun) as (records & H1 & H2 & _).
  exists records. split; [exact H1|exact H2].
Defined.

(** ** Evaluation *)

(** An evaluation holds nothing: each service of the request is asked in
    sorted order, every result is for its service and carries no reservation
    id, nothing is reserved or released, and the decision is accepted when all
    services accept and rejected when one rejects. *)
Theorem evaluate_services_results {ucd : UnicodeData} {X H} {adapter_ops : AdapterOps X H}
    {laws : AdapterLaws X H} req job (w : world X) results w' :
  _evaluate_services (H := H) req job w = (Ok results, w') ->
  map ServiceResult.service_id results = sorted_str (ReserveRequest.service_ids req) /\
  Forall (fun r => ServiceResult.reservation_id r = None) results /\
  w_db w' = w_db w /\ w_log w' = w_log w /\
  let decision := overall_decision (map ServiceResult.decision results) in
  (decision = AdmissionDecision.ACCEPTED <->
     Forall (fun r => ServiceResult.decision r = AdmissionDecision.ACCEPTED) results) /\
  (decision = AdmissionDecision.REJECTED <->
     AdmissionDecision.REJECTED ∈ map ServiceResult.decision results).
Proof.
  intros (H1 & H2 & H3 & H4)%evaluate_loop_ok. split_and!; try done.
  cbv zeta. split; [by rewrite overall_accepted, Forall_map|apply overall_rejected].
Qed.

Lemma evaluate_services_results_witness :
  exists results w',
    _evaluate_services (H := str) (sample_reserve 1 ["busy"; "aer"]%string) sample_job sample_world
      = (Ok results, w') /\
    map ServiceResult.service_id results = sorted_str (map txt ["busy"; "aer"]%string) /\
    Forall (fun r => ServiceResult.reservation_id r = None) results /\ w_db w' = empty_db.
Proof.
  eexists _, _. split; [vm_compute; reflexivity|].
  edestruct (evaluate_services_results (H := str) (sample_reserve 1 ["busy"; "aer"]%string) sample_job
    sample_world) as (H1 & H2 & H3 & _); [vm_compute; reflexivity|].
  split; [exact H1|]. split; [exact H2|exact H3].
Defined.
