(* ===== verification/Triples.v ===== *)
(** * Triples over the journal and the trace

    A small program logic for the coordinator: from a precondition on the
    journal's tables, a run adds events that satisfy [P] to the ghost log and
    ends in a postcondition on the tables, one for values and one for
    exceptions. The rules follow the combinators of the handlers. *)

From S2P Require Import Prelude Python Utf8 Enums Messages Wire Values ResponseDict Effects Journal JournalFacts SlurmVerifier Adapter Service ServiceFacts.

Section triples.
Context {ucd : UnicodeData} {jenv : JournalEnv} {sha : Sha256}.
Context {X H : Type} {adapter_ops : AdapterOps X H} {verifier_ops : VerifierOps X}.
Abbreviation W := (world X).
Implicit Types (P : event -> Prop) (I J : tables -> Prop).

(** The tables a world's journal holds *)
Definition tables_of (w : W) : tables := db_tables (w_db w).

Definition triple {A} P (Pre : tables -> Prop) (m : M W A) (Q : A -> tables -> Prop)
    (E : exn -> tables -> Prop) : Prop :=
  forall w r w', Pre (tables_of w) -> m w = (r, w') ->
  exists l, logs w w' l /\ Forall P l /\
    match r with Ok a => Q a (tables_of w') | Raise e => E e (tables_of w') end.

(** [m] keeps [I], whatever its outcome. *)
Abbreviation keeps P Inv m := (triple P Inv m (fun _ => Inv) (fun _ => Inv)).

Lemma triple_conseq {A} P I I' (m : M W A) Q Q' E E' :
  triple P I' m Q' E' -> (forall t, I t -> I' t) ->
  (forall a t, Q' a t -> Q a t) -> (forall e t, E' e t -> E e t) -> triple P I m Q E.
Proof.
  intros Hm Hi Hq He w r w' Hw Hr.
  destruct (Hm w r w' (Hi _ Hw) Hr) as (l & Hl & Hp & Hpost).
  exists l. split_and!; [done..|]. destruct r; auto.
Qed.

Lemma triple_ret {A} P I (a : A) (Q : A -> tables -> Prop) E :
  (forall t, I t -> Q a t) -> triple P I (mret a) Q E.
Proof. intros Hq w r w' Hw [= <- <-]. exists []. split_and!; [apply logs_nil|done|auto]. Qed.

Lemma triple_raise {A} P I e (Q : A -> tables -> Prop) (E : exn -> tables -> Prop) :
  (forall t, I t -> E e t) -> triple P I (raise e) Q E.
Proof. intros He w r w' Hw [= <- <-]. exists []. split_and!; [apply logs_nil|done|auto]. Qed.

Lemma triple_lift {A} P I (x : result A) (Q : A -> tables -> Prop) (E : exn -> tables -> Prop) :
  (forall t a, I t -> x = Ok a -> Q a t) -> (forall t e, I t -> x = Raise e -> E e t) ->
  triple P I (lift x) Q E.
Proof.
  intros Hq He w r w' Hw [= <- <-]. exists []. split_and!; [apply logs_nil|done|].
  destruct x; auto.
Qed.

Lemma triple_lift_ok {A B} P I (x : result A) a (f : A -> M W B) Q E :
  x = Ok a -> triple P I (f a) Q E -> triple P I (lift x ≫= f) Q E.
Proof. intros -> Hf. exact Hf. Qed.

(** A pure step whose failure leaves the tables as they are *)
Lemma triple_bind_lift {A B} P I (x : result A) (f : A -> M W B) Q (E : exn -> tables -> Prop) :
  (forall e t, I t -> x = Raise e -> E e t) ->
  (forall a, x = Ok a -> triple P I (f a) Q E) -> triple P I (lift x ≫= f) Q E.
Proof.
  intros He Hf. destruct x as [a|e]; [by apply Hf|].
  intros w r w' Hw [= <- <-]. exists []. split_and!; [apply logs_nil|done|by apply He].
Qed.

Lemma triple_raise_when P I b e (Q : unit -> tables -> Prop) (E : exn -> tables -> Prop) :
  (forall t, I t -> b = false -> Q tt t) -> (forall t, I t -> b = true -> E e t) ->
  triple P I (raise_when b e) Q E.
Proof. intros Hq He. destruct b; [apply triple_raise|apply triple_ret]; auto. Qed.

Lemma triple_bind {A B} P I (m : M W A) (f : A -> M W B) Q R E :
  triple P I m Q E -> (forall a, triple P (Q a) (f a) R E) -> triple P I (m ≫= f) R E.
Proof.
  intros Hm Hf w r w' Hw Hr.
  apply m_bind_cases in Hr as [(e & Hr & ->)|(a & w1 & Hr & Hrest)].
  - by apply (Hm w (Raise e)).
  - destruct (Hm _ _ _ Hw Hr) as (l1 & Hl1 & Hp1 & Hq).
    destruct (Hf a _ _ _ Hq Hrest) as (l2 & Hl2 & Hp2 & Hpost).
    exists (l1 ++ l2). split_and!; [by eapply logs_trans|by apply Forall_app|done].
Qed.

Lemma triple_try {A} P I (m : M W A) h Q E E' :
  triple P I m Q E' -> (forall e, isa_Exception e = true -> triple P (E' e) (h e) Q E) ->
  (forall e t, isa_Exception e = false -> E' e t -> E e t) ->
  triple P I (try_except m h) Q E.
Proof.
  intros Hm Hh He w r w' Hw Hr.
  apply try_except_cases in Hr as [[Hr Hn]|(e & w1 & Hr & Hx & Hrest)].
  - destruct (Hm _ _ _ Hw Hr) as (l & Hl & Hp & Hpost). exists l. split_and!; [done..|].
    destruct r as [a|e]; [done|]. apply He; [by apply Hn|done].
  - destruct (Hm _ _ _ Hw Hr) as (l1 & Hl1 & Hp1 & Hq).
    destruct (Hh e Hx _ _ _ Hq Hrest) as (l2 & Hl2 & Hp2 & Hpost).
    exists (l1 ++ l2). split_and!; [by eapply logs_trans|by apply Forall_app|done].
Qed.

Lemma keeps_mapM {A B} P I (f : A -> M W B) l :
  (forall x, x ∈ l -> keeps P I (f x)) -> keeps P I (mapM f l).
Proof.
  induction l as [|x l IH]; intros Hf; simpl; [by apply triple_ret|].
  eapply triple_bind; [apply Hf; left|intros y; simpl].
  eapply triple_bind; [apply IH; intros z Hz; apply Hf; by right|intros ys; simpl].
  by apply triple_ret.
Qed.

Lemma triple_external {A} P I (m : M X A) : keeps P I (external m).
Proof.
  intros w r w' Hw Hr. exists []. split_and!; [by eapply external_logs|done|].
  unfold external, zoom in Hr. destruct (m (w_ext w)). injection Hr as <- <-. by destruct r0.
Qed.

Lemma triple_journal {A} P I (m : M db A) (Q : A -> tables -> Prop) (E : exn -> tables -> Prop) :
  (forall d r d', I (db_tables d) -> m d = (r, d') ->
     match r with Ok a => Q a (db_tables d') | Raise e => E e (db_tables d') end) ->
  triple P I (journal m) Q E.
Proof.
  intros Hm w r w' Hw Hr. exists []. split_and!; [by eapply journal_logs|done|].
  unfold journal, zoom in Hr. destruct (m (w_db w)) as [r0 d'] eqn:Ed. injection Hr as <- <-.
  by apply (Hm (w_db w)).
Qed.

Lemma triple_adapter_reserve P I b req job :
  (forall t r, I t -> P (EvReserve t (service_id b) r)) ->
  keeps P I (adapter_reserve b req job).
Proof.
  intros Hp w r w' Hw Hr. exists [EvReserve (tables_of w) (service_id b) r].
  pose proof Hr as Hl. apply adapter_reserve_logs in Hl as [Hl _].
  split_and!; [done|by constructor; [apply Hp|]|].
  unfold adapter_reserve, external, zoom, emit in Hr. destruct (a_reserve _ _ _ _).
  injection Hr as <- <-. by destruct r0.
Qed.

Lemma triple_adapter_release P I b rid reason :
  (forall t r, I t -> P (EvRelease t (service_id b) rid r)) ->
  keeps P I (adapter_release b rid reason).
Proof.
  intros Hp w r w' Hw Hr. eexists [_].
  pose proof Hr as Hl. apply adapter_release_logs in Hl.
  split_and!; [exact Hl|by constructor; [apply Hp|]|].
  unfold adapter_release, external, zoom, emit in Hr. destruct (a_release _ _ _ _).
  injection Hr as <- <-. by destruct r0.
Qed.

Lemma triple_try_step {A} P I p (m : M W A) (k : A -> M W (attempt (H := H))) Q R E E' :
  triple P I m Q E' -> (forall a, triple P (Q a) (k a) R E) ->
  (forall e t, E' e t -> if isa_Exception e then R (Failed e p) t else E e t) ->
  triple P I (try_step p m k) R E.
Proof.
  intros Hm Hk He w r w' Hw Hr.
  apply try_step_cases in Hr as [(a & w1 & Hr & Hrest)|(e & Hr & ->)].
  - destruct (Hm _ _ _ Hw Hr) as (l1 & Hl1 & Hp1 & Hq).
    destruct (Hk a _ _ _ Hq Hrest) as (l2 & Hl2 & Hp2 & Hpost).
    exists (l1 ++ l2). split_and!; [by eapply logs_trans|by apply Forall_app|done].
  - destruct (Hm _ _ _ Hw Hr) as (l & Hl & Hp & Hpost). exists l. split_and!; [done..|].
    apply He in Hpost. by destruct (isa_Exception e).
Qed.

(** A resolved binding is of the service asked for. *)
Lemma triple_resolve {laws : AdapterLaws X H} P I s :
  triple P I (external (a_resolve (H := H) s)) (fun b t => service_id b = s /\ I t) (fun _ => I).
Proof.
  intros w r w' Hw Hr. exists []. split_and!; [by eapply external_logs|done|].
  unfold external, zoom in Hr. destruct (a_resolve s (w_ext w)) as [r0 x0] eqn:E.
  injection Hr as <- <-. destruct r0; [|done]. split; [by apply resolve_service in E|done].
Qed.

(** *** The rules for blocks that keep an invariant *)

Lemma keeps_query {A} P I (f : tables -> result A) : keeps P I (journal (query f)).
Proof.
  apply triple_journal. intros d r d' Hd [(e & -> & ->)|[now E]]%statement_cases; [done|].
  injection E as -> ->. by destruct (f _).
Qed.

Lemma keeps_reads {A} P I (m : M db A) :
  preserves (on_tables (=)) m -> keeps P I (journal m).
Proof.
  intros Hm. apply triple_journal. intros d r d' Hd Hr. specialize (Hm d).
  rewrite Hr in Hm. unfold on_tables in Hm. simpl in Hm. rewrite <-Hm. by destruct r.
Qed.

Lemma keeps_mret {A} P I (a : A) : keeps P I (mret (M := M W) a).
Proof. by apply triple_ret. Qed.
Lemma keeps_raise {A} P I e : keeps P I (raise (W := W) (A := A) e).
Proof. by apply triple_raise. Qed.
Lemma keeps_lift {A} P I (x : result A) : keeps P I (lift (W := W) x).
Proof. by apply triple_lift. Qed.
Lemma keeps_raise_when P I b e : keeps P I (raise_when (W := W) b e).
Proof. by apply triple_raise_when. Qed.

Lemma keeps_bind {A B} P I (m : M W A) (f : A -> M W B) :
  keeps P I m -> (forall a, keeps P I (f a)) -> keeps P I (m ≫= f).
Proof. intros Hm Hf. by eapply triple_bind. Qed.

Lemma keeps_try {A} P I (m : M W A) h :
  keeps P I m -> (forall e, keeps P I (h e)) -> keeps P I (try_except m h).
Proof. intros Hm Hh. by eapply triple_try. Qed.

Lemma keeps_on_error {A} P I (m : M W A) handler :
  keeps P I m -> (forall e, keeps P I (handler e)) -> keeps P I (on_error m handler).
Proof.
  intros Hm Hh. apply keeps_try; [done|]. intros e.
  apply keeps_bind; [apply Hh|intros []]. apply keeps_raise.
Qed.

Lemma keeps_try_step {A} P I p (m : M W A) (k : A -> M W (attempt (H := H))) :
  keeps P I m -> (forall a, keeps P I (k a)) -> keeps P I (try_step p m k).
Proof.
  intros Hm Hk. eapply triple_try_step; [exact Hm|exact Hk|]. intros e t Ht.
  by destruct (isa_Exception e).
Qed.

Lemma keeps_collecting P I (m : M W unit) f : keeps P I m -> keeps P I (collecting m f).
Proof.
  intros Hm. apply keeps_try; [|intros e; apply keeps_mret].
  apply keeps_bind; [done|intros []]. apply keeps_mret.
Qed.
End triples.

(** [m] keeps [I], whatever its outcome. *)
Abbreviation keeps P Inv m := (triple P Inv m (fun _ => Inv) (fun _ => Inv)).

Create HintDb triples discriminated.
#[export] Hint Resolve triple_external keeps_query keeps_mret keeps_raise keeps_lift
  keeps_raise_when : triples.

(** Walk through a block that keeps an invariant. *)
Ltac keep :=
  repeat first
    [ solve [auto with triples]
    | lazymatch goal with
      | |- triple _ _ (mbind _ _) _ _ => apply keeps_bind; [|intros ?]
      | |- triple _ _ (try_except _ _) _ _ => apply keeps_try; [|intros ?]
      | |- triple _ _ (mapM _ _) _ _ => apply keeps_mapM; intros ? ?
      | |- triple _ _ (on_error _ _) _ _ => apply keeps_on_error; [|intros ?]
      | |- triple _ _ (try_step _ _ _) _ _ => apply keeps_try_step; [|intros ?]
      | |- triple _ _ (collecting _ _) _ _ => apply keeps_collecting
      | |- triple _ _ (match _ with _ => _ end) _ _ => case_match
      end
    | progress cbv beta zeta ].
