(* ===== verification/OperationProps.v ===== *)
(** * Operations run at most once

    What a repeated request id does: a recorded operation is replayed or
    refused, and neither path reaches a QPM or writes the journal. *)

From S2P Require Import Prelude Python Utf8 Enums Messages Wire Values ResponseDict Effects Journal JournalFacts JournalProps SlurmVerifier Adapter DefwClient Service Sample ServiceFacts Triples.
Local Open Scope Z_scope.

(** The journal key of the operation a request runs; a lookup runs none. *)
Definition operation_key (r : request) (sender_uid : Z) : option op_key :=
  match r with
  | EvaluateRequest q =>
      Some (sender_uid, txt "evaluate", str_of_Z (ReserveRequest.request_id q), _operation_scope q)
  | ReserveRequest q =>
      Some (sender_uid, txt "reserve", str_of_Z (ReserveRequest.request_id q), _operation_scope q)
  | ReleaseRequest q =>
      Some (sender_uid, txt "release", str_of_Z (ReleaseRequest.request_id q), txt "allocation")
  | GetReservationsRequest _ => None
  end.

Section known.
Context {ucd : UnicodeData} {jenv : JournalEnv} {sha : Sha256}.
Context {X H : Type} {adapter_ops : AdapterOps X H} {verifier_ops : VerifierOps X}.

(** [begin_operation] on a recorded operation that may not be repeated *)
Lemma begin_known P t0 uid op rid fp scope row :
  operations t0 !! (uid, op, str_of_Z rid, scope) = Some row ->
  Operation.state row <> txt "retryable" ->
  triple P (fun t => t = t0) (journal (X := X) (begin_operation uid op rid fp scope))
    (fun prior t => t = t0 /\ is_Some prior) (fun _ t => t = t0).
Proof.
  intros Hrow Hst. apply triple_journal.
  intros d r d' <- [(e & -> & ->)|[now E]]%statement_cases; [done|]. cbv zeta in E.
  rewrite Hrow in E. rewrite (bool_decide_eq_false_2 (Operation.state row = _)) in E by done.
  case_bool_decide; simpl in E; injection E as -> ->; eauto.
Qed.

Lemma accepted_allocation_keeps P I c j uid gid services :
  keeps P I (journal (X := X) (accepted_allocation c j uid gid services)).
Proof. apply keeps_query. Qed.

Lemma handle_known P t0 r uid key row :
  operation_key r uid = Some key -> operations t0 !! key = Some row ->
  Operation.state row <> txt "retryable" ->
  keeps P (fun t => t = t0) (handle (H := H) r uid).
Proof.
  intros Hkey Hrow Hst. pose proof (accepted_allocation_keeps P (fun t => t = t0)) as Hacc.
  destruct r as [q|q|q|q]; [..|done]; injection Hkey as <-; simpl;
    unfold _evaluate, _reserve, _release, replay_reserve;
    (apply (triple_try _ _ _ _ _ _ (fun _ t => t = t0)); [|intros e _; by apply triple_ret|done]).
  1,2: eapply triple_bind; [apply triple_external|intros job; cbv beta zeta].
  all: eapply triple_bind; [by eapply begin_known|intros prior; cbv beta].
  all: destruct prior as [prior|];
    [|intros w ? w' [_ [? [=]]]].
  all: apply (triple_conseq _ _ (fun t => t = t0) _ _ (fun _ t => t = t0) _ (fun _ t => t = t0));
    [|by intros ? [-> _]|done|done].
  all: keep.
Qed.
End known.

(** C9 A recorded operation runs at most once: while the journal holds it in
    any state but retryable, a request with its id and scope, whatever its
    content, asks no QPM for anything and changes no row. Whether the first
    run completed, is under way or was interrupted makes no difference. *)
Theorem operation_at_most_once {ucd : UnicodeData} {jenv : JournalEnv} {sha : Sha256} {X H}
    {adapter_ops : AdapterOps X H} {verifier_ops : VerifierOps X} r uid (w : world X) key row :
  operation_key r uid = Some key -> operations (tables_of w) !! key = Some row ->
  Operation.state row <> txt "retryable" ->
  let w' := (handle (H := H) r uid w).2 in
  w_log w' = w_log w /\ tables_of w' = tables_of w.
Proof.
  intros Hkey Hrow Hst. destruct (handle r uid w) as [res w'] eqn:Hr. simpl.
  destruct (handle_known (fun _ => False) _ r uid key row Hkey Hrow Hst _ _ _ eq_refl Hr)
    as (l & Hl & Hp & Hpost).
  destruct l as [|e l]; [|by inversion Hp]. unfold logs in Hl. rewrite app_nil_r in Hl.
  split; [done|]. by destruct res.
Qed.

(** The world after a first reserve of ["aer"] was answered, and the same
    request id again with another service. *)
Definition reserved_world : world site :=
  (handle (H := str) (ReserveRequest (sample_reserve 1 ["aer"]%string)) 1000 sample_world).2.

Lemma operation_at_most_once_witness :
  let again := ReserveRequest (sample_reserve 1 ["bee"]%string) in
  exists row,
    operations (tables_of reserved_world) !! (1000, txt "reserve", txt "1", txt "allocation")
      = Some row /\ Operation.state row <> txt "retryable" /\
    let w' := (handle (H := str) again 1000 reserved_world).2 in
    w_log w' = w_log reserved_world /\ tables_of w' = tables_of reserved_world.
Proof.
  intros again.
  assert (Operation.state <$> operations (tables_of reserved_world)
    !! (1000, txt "reserve", txt "1", txt "allocation") = Some (txt "complete")) as Hm
    by (vm_compute; reflexivity).
  destruct (operations (tables_of reserved_world)
    !! (1000, txt "reserve", txt "1", txt "allocation")) as [row|] eqn:E; [|discriminate Hm].
  exists row. split; [reflexivity|].
  assert (Operation.state row <> txt "retryable") as Hn
    by (injection Hm as ->; by vm_compute).
  split; [exact Hn|].
  exact (operation_at_most_once (H := str) again 1000 reserved_world
    (1000, txt "reserve", txt "1", txt "allocation") row eq_refl E Hn).
Defined.
