(* ===== verification/WriteAhead.v ===== *)
(** * The journal is written ahead of every side effect

    What the journal shows at the moment a reserve asks a QPM for a
    reservation or releases one: the ghost log of a run carries the tables of
    that moment with each call. *)

From S2P Require Import Prelude Python Utf8 Enums Messages Wire Values ResponseDict Effects Journal JournalFacts JournalProps SlurmVerifier Adapter DefwClient AdapterProps VerifierProps Service Sample ServiceFacts Triples.
Local Open Scope Z_scope.

Section ahead.
Context {ucd : UnicodeData} {jenv : JournalEnv} {sha : Sha256}.
Context {X H : Type} {adapter_ops : AdapterOps X H} {verifier_ops : VerifierOps X}.
Context (req : ReserveRequest.t) (uid : Z).
Abbreviation W := (world X).
Abbreviation cluster := (ReserveRequest.cluster_name req).
Abbreviation job_key := (str_of_Z (ReserveRequest.canonical_job_id req)).
Abbreviation held := (QPMBinding H * ServiceResult.t)%type.

(** The operation is recorded, with the content of the request, and started. *)
Definition op_started (t : tables) : Prop :=
  exists op, operations t !! (uid, txt "reserve", str_of_Z (ReserveRequest.request_id req),
                              _operation_scope req) = Some op /\
    Operation.state op = txt "started" /\
    Operation.fingerprint op = _fingerprint (reserve_request_dict req).

(** The allocation is recorded as incomplete, with every requested service. *)
Definition alloc_open (t : tables) : Prop :=
  exists row, allocations t !! (cluster, job_key) = Some row /\
    (Allocation.state row = txt "reserving" \/ Allocation.state row = txt "extending") /\
    forall s, s ∈ ReserveRequest.service_ids req -> s ∈ Allocation.service_set row.

(** The allocation is still incomplete, rolled back or not yet. *)
Definition alloc_incomplete (t : tables) : Prop :=
  exists row, allocations t !! (cluster, job_key) = Some row /\
    Allocation.state row ∈ [txt "reserving"; txt "extending"; txt "rolling-back"] /\
    forall s, s ∈ ReserveRequest.service_ids req -> s ∈ Allocation.service_set row.

Lemma open_incomplete t : alloc_open t -> alloc_incomplete t.
Proof.
  intros (row & Hrow & Hst & Hset). exists row. split_and!; [done| |done].
  destruct Hst as [->| ->]; set_solver.
Qed.

(** The service has a row. *)
Definition has_row (s : str) (t : tables) : Prop :=
  is_Some (reservation_rows t !! (cluster, job_key, s)).

(** Its row says an answer is pending. *)
Definition pending_row (s : str) (t : tables) : Prop :=
  exists row, reservation_rows t !! (cluster, job_key, s) = Some row /\
    ReservationRow.state row = txt "pending" /\ ReservationRow.reservation_id row = None /\
    ReservationRow.request_fingerprint row = Some (_reservation_fingerprint req).

(** A call that a restarted gateway can account for *)
Definition journalled (e : event) : Prop :=
  match e with
  | EvReserve seen s _ =>
      op_started seen /\ alloc_open seen /\ s ∈ ReserveRequest.service_ids req /\
      pending_row s seen
  | EvRelease seen s _ _ => op_started seen /\ alloc_incomplete seen /\ has_row s seen
  end.

Definition held_rows (l : list held) (t : tables) : Prop :=
  Forall (fun h => has_row (service_id h.1) t) l.

(** *** What the statements of a reserve keep *)

Lemma record_keeps P I c j r diag :
  (forall t K row, I t -> I (set_reservations <[K := row]> t)) ->
  keeps P I (journal (X := X) (record_reservation c j r diag)).
Proof.
  intros Hi. apply triple_journal.
  intros d r' d' Hd [(e & -> & ->)|[now E]]%statement_cases; [done|].
  injection E as -> ->. by apply Hi.
Qed.

Lemma record_ok P I c j r diag (Q : tables -> Prop) :
  (forall t now, I t -> Q (set_reservations <[(c, str_of_Z j, ReservationRecord.service_id r)
     := row_of_record r diag now]> t)) ->
  triple P I (journal (X := X) (record_reservation c j r diag)) (fun _ => Q) (fun _ => I).
Proof.
  intros Hi. apply triple_journal.
  intros d r' d' Hd [(e & -> & ->)|[now E]]%statement_cases; [done|].
  injection E as -> ->. by apply Hi.
Qed.

Lemma has_row_insert s K row t : has_row s t -> has_row s (set_reservations <[K := row]> t).
Proof.
  intros Hr. unfold has_row. simpl. apply lookup_insert_is_Some'. by right.
Qed.

Lemma held_rows_insert l K row t :
  held_rows l t -> held_rows l (set_reservations <[K := row]> t).
Proof. intros Hl. eapply Forall_impl; [exact Hl|]. intros h. apply has_row_insert. Qed.

(** The journal while a rollback goes over the services it holds *)
Definition undoing (l : list held) (t : tables) : Prop :=
  op_started t /\ alloc_incomplete t /\ held_rows l t.

Lemma undoing_insert l K row t : undoing l t -> undoing l (set_reservations <[K := row]> t).
Proof. intros (? & ? & ?). split_and!; [done|done|by apply held_rows_insert]. Qed.

(** Marking the allocation leaves it incomplete. *)
Lemma mark_rolling_back P l :
  keeps P (undoing l) (journal (X := X) (set_allocation_state cluster
    (ReserveRequest.canonical_job_id req) (txt "rolling-back"))).
Proof.
  apply triple_journal. intros d r d' Hd [(e & -> & ->)|[now E]]%statement_cases; [done|].
  pose proof Hd as (Hop & (row & Hrow & _ & Hset) & Hl). cbv zeta in E.
  destruct (allocations _ !! _) as [row'|] eqn:Hrow'; injection E as -> ->; [|exact Hd].
  split_and!; [exact Hop| |exact Hl]. eexists. split_and!; [apply lookup_insert_eq| |].
  - set_solver.
  - intros s Hs. simpl. apply Hset in Hs. congruence.
Qed.

(** *** Rollback *)

Lemma rollback_one_journalled l (h : held) :
  h ∈ l -> keeps journalled (undoing l) (rollback_one (H := H) req h).
Proof.
  intros Hh. destruct h as [b res]. unfold rollback_one.
  assert (forall rid, keeps journalled (undoing l)
    (adapter_release (H := H) b rid 1)) as Hrel.
  { intros rid. apply triple_adapter_release. intros t r (Hop & Ha & Hl). split_and!; [done|done|].
    unfold held_rows in Hl. rewrite Forall_forall in Hl. exact (Hl _ Hh). }
  assert (forall r diag, keeps journalled (undoing l)
    (journal (X := X) (record_reservation cluster (ReserveRequest.canonical_job_id req) r diag)))
    as Hrec.
  { intros r diag. apply record_keeps. intros t K row. apply undoing_insert. }
  keep.
Qed.

Lemma rollback_journalled (l : list held) :
  keeps journalled (undoing l) (_rollback (H := H) req l).
Proof.
  unfold _rollback. pose proof (mark_rolling_back journalled l).
  apply keeps_bind; [keep|intros fs].
  apply keeps_bind; [|intros; keep].
  apply keeps_mapM. intros h Hh. apply rollback_one_journalled.
  by rewrite elem_of_reverse in Hh.
Qed.

(** *** The attempt *)
Context {laws : AdapterLaws X H}.

(** The journal while services are asked, holding [l] *)
Definition asking (l : list held) (t : tables) : Prop :=
  op_started t /\ alloc_open t /\ held_rows l t.

Lemma asking_insert l K row t : asking l t -> asking l (set_reservations <[K := row]> t).
Proof. intros (? & ? & ?). split_and!; [done|done|by apply held_rows_insert]. Qed.

Lemma attempt_journalled job (l : list held) s :
  s ∈ ReserveRequest.service_ids req ->
  triple journalled (asking l)
    (attempt_service (H := H) req job (_reservation_fingerprint req) s)
    (fun out t => match out with
                  | Reserved h => asking (l ++ [h]) t
                  | Failed _ p => asking (l ++ option_list p) t
                  end) (fun _ _ => True).
Proof.
  intros Hs. unfold attempt_service.
  eapply triple_try_step; [apply triple_resolve|intros b; cbv beta|].
  2: { intros e t Ht. destruct (isa_Exception e); [|done]. by rewrite app_nil_r. }
  eapply (triple_try_step _ _ _ _ _ (fun _ t => service_id b = s /\ asking l t /\ pending_row s t));
    [apply record_ok| |].
  { intros t now [Hb Ht]. split_and!; [done|by apply asking_insert|].
    eexists. split; [apply lookup_insert_eq|done]. }
  2: { intros e t [_ Ht]. destruct (isa_Exception e); [|done]. by rewrite app_nil_r. }
  intros _. eapply triple_try_step; [apply triple_adapter_reserve| |].
  { intros t r (-> & (? & ? & ?) & ?). by split_and!. }
  2: { intros e t (_ & Ht & _). destruct (isa_Exception e); [|done]. by rewrite app_nil_r. }
  intros res. cbv beta.
  assert (Hend : forall t, asking l t -> pending_row s t -> service_id b = s ->
    asking (l ++ [(b, res)]) t).
  { intros t (? & ? & ?) (row & Hrow & _) <-. split_and!; [done..|].
    apply Forall_app. split; [done|]. apply Forall_singleton. by exists row. }
  eapply (triple_try_step _ _ _ _ _ (fun _ => asking (l ++ [(b, res)]))); [apply record_ok| |].
  { intros t now (Hb & Ht & Hp). by apply asking_insert, Hend. }
  - intros _. by apply triple_ret.
  - intros e t (Hb & Ht & Hp). destruct (isa_Exception e); [|done].
    destruct (is_accepted res); [by apply Hend|by rewrite app_nil_r].
Qed.

Lemma reserve_loop_journalled job services (l : list held) :
  (forall s, s ∈ services -> s ∈ ReserveRequest.service_ids req) ->
  triple journalled (asking l)
    (reserve_loop (H := H) req job (_reservation_fingerprint req) services l)
    (fun _ _ => True) (fun _ _ => True).
Proof.
  assert (Hrb : forall l, triple journalled (asking l) (_rollback (H := H) req l)
    (fun _ _ => True) (fun _ _ => True)).
  { intros l'. eapply triple_conseq; [apply rollback_journalled| |done|done].
    intros t (? & ?%open_incomplete & ?). by split_and!. }
  revert l. induction services as [|s services IH]; intros l Hs; simpl; [by apply triple_ret|].
  eapply triple_bind; [apply attempt_journalled, Hs; by left|intros out; cbv beta].
  destruct out as [[b res]|e p].
  - destruct (is_accepted res).
    + apply IH. intros s' Hs'. apply Hs. by right.
    + eapply triple_bind; [|intros []; by apply triple_ret].
      eapply triple_conseq; [apply Hrb| |done|done].
      intros t (? & ? & [? _]%Forall_app). by split_and!.
  - eapply triple_bind; [|intros []; by apply triple_raise].
    eapply triple_try; [apply Hrb|intros ? _; by apply triple_raise|done].
Qed.

(** *** The whole request *)

Lemma journal_quiet {A} P (m : M db A) : keeps P (fun _ => True) (journal (X := X) m).
Proof. apply triple_journal. intros d r d' _ _. by destruct r. Qed.

Lemma begin_started P :
  triple P (fun _ => True)
    (journal (X := X) (begin_operation uid (txt "reserve") (ReserveRequest.request_id req)
       (_fingerprint (reserve_request_dict req)) (_operation_scope req)))
    (fun prior t => prior = None -> op_started t) (fun _ _ => True).
Proof.
  apply triple_journal. intros d r d' _ Hr. destruct r as [prior|]; [|done]. intros ->.
  apply begin_operation_new in Hr as (op & Hop & Hf & Hst). by exists op.
Qed.

(** A plan with work to do has opened the allocation. *)
Definition planned (plan : AllocationPlan) (t : tables) : Prop :=
  missing_services plan <> [] ->
  asking [] t /\ forall s, s ∈ missing_services plan -> s ∈ ReserveRequest.service_ids req.

Lemma begin_open {jlaws : JournalEnvLaws jenv} P :
  ReserveRequest.service_ids req <> [] ->
  triple P op_started
    (journal (X := X) (begin_allocation cluster (ReserveRequest.canonical_job_id req)
       (ReserveRequest.job_uid req) (ReserveRequest.job_gid req)
       (ReserveRequest.service_ids req) (_allocation_fingerprint req)
       (_reservation_fingerprint req)))
    planned
    (fun _ _ => True).
Proof.
  intros Hne. apply triple_journal. intros d r d' Hop Hr.
  apply begin_allocation_cases in Hr; [|done]. destruct r as [plan|]; [|done].
  intros Hm. destruct Hr as (Hkind & _ & Hplan).
  rewrite bool_decide_eq_false_2 in Hplan by done.
  destruct Hplan as (row & -> & _ & _ & _ & _ & Hst & Hset). split.
  - split_and!; [exact Hop| |by constructor].
    exists row. split_and!; [apply lookup_insert_eq| |].
    + rewrite Hst. destruct (is_extension plan); auto.
    + intros s Hs. apply Hset. by right.
  - intros s. by eapply planned_requested.
Qed.

Lemma reserve_journalled {jlaws : JournalEnvLaws jenv} :
  ReserveRequest.service_ids req <> [] ->
  keeps journalled (fun _ => True) (_reserve (H := H) req uid).
Proof.
  intros Hne. pose proof @journal_quiet as Hq. unfold _reserve.
  apply keeps_try; [|intros e; apply keeps_mret].
  apply keeps_bind; [apply triple_external|intros job; cbv beta zeta].
  eapply triple_bind; [apply begin_started|intros [prior|]; cbv beta].
  { eapply (triple_conseq _ _ (fun _ => True)); [|done..].
    unfold replay_reserve, accepted_allocation. keep. }
  eapply (triple_bind _ _ _ _ planned); [|intros plan].
  { eapply (triple_conseq _ _ op_started); [by apply begin_open|auto|auto|auto]. }
  case_bool_decide as Hm.
  { eapply (triple_conseq _ _ (fun _ => True)); [|done..]. unfold _complete. keep. }
  eapply (triple_bind _ _ _ _ (fun _ _ => True)); [|intros resp].
  - unfold run_attempt, on_error. eapply triple_try; [|intros e _|done].
    + intros w r w' Hw Hr. destruct (Hw Hm) as [Hask Hin].
      assert (triple journalled (asking []) (_reserve_services (H := H) req job
        (missing_services plan) (_reservation_fingerprint req)) (fun _ _ => True)
        (fun _ _ => True)) as Ht.
      { apply reserve_loop_journalled. intros s. rewrite elem_of_sorted_str. apply Hin. }
      exact (Ht w r w' Hask Hr).
    + cbv beta. unfold restore_plan, restore_accepted_allocation, _journal_failed_attempt,
        complete_allocation. keep.
  - unfold merge_extension, finish_reserve, restore_plan, restore_accepted_allocation,
      complete_allocation. keep.
Qed.
End ahead.

(** C6 The journal is written ahead of every side effect of a reserve: whenever
    it asks a QPM for a reservation, the journal already holds the started
    operation with the content of the request, the incomplete allocation with
    every requested service, and a pending row of that service; whenever it
    releases one, the journal holds the started operation, the allocation as
    incomplete still (reserving, extending or rolling-back) with every
    requested service, and the row of the service. So a gateway killed at any point leaves an incomplete allocation
    with a row for each service that may hold a reservation. *)
Theorem reserve_journals_first {ucd : UnicodeData} {jenv : JournalEnv}
    {jlaws : JournalEnvLaws jenv} {sha : Sha256} {X H} {adapter_ops : AdapterOps X H}
    {verifier_ops : VerifierOps X} {laws : AdapterLaws X H} req uid (w : world X) r w' :
  ReserveRequest.service_ids req <> [] ->
  _reserve (H := H) req uid w = (r, w') ->
  exists l, w_log w' = w_log w ++ l /\ Forall (journalled req uid) l.
Proof.
  intros Hne Hr. destruct (reserve_journalled req uid Hne w r w' I Hr) as (l & Hl & Hp & _).
  by exists l.
Qed.

Lemma reserve_journals_first_witness :
  let req := sample_reserve 1 ["busy"; "bee"; "aer"]%string in
  ReserveRequest.service_ids req <> [] /\
  exists l, w_log (_reserve (H := str) req 1000 sample_world).2 = w_log sample_world ++ l /\
    Forall (journalled req 1000) l.
Proof.
  intros req. split; [done|].
  apply (reserve_journals_first (H := str) (laws := defw_adapter_laws) req 1000 sample_world
    (_reserve (H := str) req 1000 sample_world).1); [done|apply surjective_pairing].
Defined.
