(* ===== verification/Consistency.v ===== *)
(** * Consistency of the journal

    The invariant that makes an accepted allocation answerable: an allocation
    recorded as accepted holds, for each service of its set, the accepted row
    with the reservation id that the stored response announced, and no other
    accepted row; an allocation that is not accepted and not in the middle of
    a transaction holds no accepted row. This file states it and proves the
    steps of a reserve and of a release. *)

From S2P Require Import Prelude Python Utf8 Enums Messages Wire Values ResponseDict Effects Journal JournalFacts JournalProps SlurmVerifier Adapter Service ServiceFacts Triples.
Local Open Scope Z_scope.

(** ** The invariant *)

(** A transaction is under way. *)
Definition open_state (s : str) : bool := one_of s ["reserving"; "rolling-back"; "extending"]%string.

(** Columns are readable, and an accepted row has an id. *)
Definition row_ok (row : ReservationRow.t) : Prop :=
  row_valid row /\
  (ReservationRow.state row = txt "accepted" -> ReservationRow.reservation_id row <> None).

Definition rows_ok (t : tables) : Prop := map_Forall (fun _ => row_ok) (reservation_rows t).

Section state.
Context {ucd : UnicodeData} (c k : str).
Implicit Types (t : tables) (S L M : list str).

(** The service has an accepted row with that id. *)
Definition reads_accepted t (s : str) (rid : option Z) : Prop :=
  rid <> None /\
  exists row r, reservation_rows t !! (c, k, s) = Some row /\ record_of_row s row = Ok r /\
    ReservationRecord.state r = txt "accepted" /\ ReservationRecord.reservation_id r = rid.

(** Accepted rows belong to [S]. *)
Definition only_accepted S t : Prop :=
  forall s row, reservation_rows t !! (c, k, s) = Some row ->
    ReservationRow.state row = txt "accepted" -> s ∈ S.

(** The results announce the rows of the set [S]. *)
Definition accepted_results t S (results : list ServiceResult.t) : Prop :=
  S <> [] /\ NoDup S /\ map ServiceResult.service_id results = sorted_str S /\
  only_accepted S t /\
  Forall (fun x => reads_accepted t (ServiceResult.service_id x) (ServiceResult.reservation_id x))
    results.

(** The accepted set [S] and the stored response agree with the rows. *)
Definition accepted_set t S (response : option pyval) : Prop :=
  exists resp, response = Some (response_to_dict (ReserveResponse resp)) /\
    ReserveResponse.decision resp = AdmissionDecision.ACCEPTED /\
    accepted_results t S (ReserveResponse.results resp).

Definition row_consistent t (row : Allocation.t) : Prop :=
  if open_state (Allocation.state row) then True
  else if bool_decide (Allocation.state row = txt "accepted") then
    accepted_set t (Allocation.service_set row) (Allocation.response row)
  else only_accepted [] t.

Definition consistent_at t : Prop :=
  match allocations t !! (c, k) with
  | None => only_accepted [] t
  | Some row => row_consistent t row
  end.

(** Only the rows of the allocation matter. *)
Lemma reads_accepted_same t t' s rid :
  reservation_rows t' !! (c, k, s) = reservation_rows t !! (c, k, s) ->
  reads_accepted t s rid -> reads_accepted t' s rid.
Proof. intros E [? (row & r & ? & ?)]. split; [done|]. exists row, r. by rewrite E. Qed.

Lemma consistent_at_same t t' :
  allocations t' !! (c, k) = allocations t !! (c, k) ->
  (forall s, reservation_rows t' !! (c, k, s) = reservation_rows t !! (c, k, s)) ->
  consistent_at t -> consistent_at t'.
Proof.
  intros Ha Hr. unfold consistent_at, row_consistent, only_accepted. rewrite Ha.
  destruct (allocations t !! (c, k)) as [row|]; [|by intros Ho s row; rewrite Hr; apply Ho].
  case_match; [done|]. case_bool_decide; [|by intros Ho s row'; rewrite Hr; apply Ho].
  intros (resp & ? & ? & ? & ? & ? & Ho & Hf). exists resp. split_and!; [done..|].
  split_and!; [done..| |].
  - intros s row'. rewrite Hr. apply Ho.
  - eapply Forall_impl; [exact Hf|]. intros x. by apply reads_accepted_same.
Qed.

(** A row written for another service changes nothing for this one. *)
Lemma reads_accepted_insert t s s' row rid :
  s <> s' -> reads_accepted t s rid ->
  reads_accepted (set_reservations <[(c, k, s') := row]> t) s rid.
Proof. intros Hne. apply reads_accepted_same. simpl. apply lookup_insert_ne. congruence. Qed.
End state.

(** The journal is consistent: every row and every allocation is. *)
Definition consistent {ucd : UnicodeData} (t : tables) : Prop :=
  rows_ok t /\ forall c j, consistent_at c (str_of_Z j) t.

(** ** Sorting results by service *)

Lemma map_insert_by {A} (key : A -> str) x l :
  map key (insert_by str_leb key x l) = insert_by str_leb id (key x) (map key l).
Proof.
  induction l as [|y l IH]; [done|]. simpl. destruct (str_leb (key x) (key y)); [done|].
  simpl. by rewrite IH.
Qed.

Lemma map_sort_by {A} (key : A -> str) l :
  map key (sort_by str_leb key l) = sorted_str (map key l).
Proof.
  unfold sorted_str. induction l as [|x l IH]; [done|]. simpl. by rewrite map_insert_by, IH.
Qed.

(** ** The steps of an attempt *)

Section attempt.
Context {ucd : UnicodeData} (c k : str).
Implicit Types (t : tables) (S L M : list str).

(** The allocation of services [S] is under way. *)
Definition opened S t : Prop :=
  exists row, allocations t !! (c, k) = Some row /\
    open_state (Allocation.state row) = true /\ Allocation.service_set row = S.

(** Since [t0], only rows of [M] changed; of those, only [L] may be accepted. *)
Definition rolling S M t0 L t : Prop :=
  rows_ok t /\ opened S t /\
  (forall s, s ∉ M -> reservation_rows t !! (c, k, s) = reservation_rows t0 !! (c, k, s)) /\
  (forall s row, s ∈ M -> reservation_rows t !! (c, k, s) = Some row ->
     ReservationRow.state row = txt "accepted" -> s ∈ L).

Lemma rolling_weaken S M t0 L L' t :
  (forall s, s ∈ L -> s ∈ L') -> rolling S M t0 L t -> rolling S M t0 L' t.
Proof. intros Hl (? & ? & ? & Ha). split_and!; [done..|]. intros s row ???. by eapply Hl, Ha. Qed.

Lemma row_of_record_ok r diag now :
  (ReservationRecord.state r = txt "accepted" -> ReservationRecord.reservation_id r <> None) ->
  row_ok (row_of_record r diag now).
Proof.
  intros Hr. split; [by exists (ReservationRecord.reservation_id r), (ReservationRecord.qpm_generation r)|].
  simpl. intros Hs%Hr. by destruct (ReservationRecord.reservation_id r).
Qed.

Lemma rows_ok_insert t K row :
  rows_ok t -> row_ok row -> rows_ok (set_reservations <[K := row]> t).
Proof. intros Ht Hr. by apply map_Forall_insert_2. Qed.

(** Recording a service that is not accepted *)
Lemma rolling_record S M t0 L s row t :
  s ∈ M -> row_ok row -> ReservationRow.state row <> txt "accepted" ->
  rolling S M t0 (s :: L) t -> rolling S M t0 L (set_reservations <[(c, k, s) := row]> t).
Proof.
  intros Hs Hok Hst (Hv & Hop & Hframe & Ha). split_and!; [by apply rows_ok_insert|done|..].
  - intros s' Hs'. rewrite <-Hframe by done. simpl. apply lookup_insert_ne. congruence.
  - intros s' row' Hs'. simpl. destruct (decide (s' = s)) as [->|Hne].
    + rewrite lookup_insert_eq. intros [= <-]. done.
    + rewrite lookup_insert_ne by congruence. intros Hr Hacc.
      eapply elem_of_cons in Ha as [?|?]; [done|done|done|exact Hr|done].
Qed.

(** Recording an accepted service *)
Lemma rolling_accept S M t0 L s row t :
  s ∈ M -> row_ok row ->
  rolling S M t0 L t -> rolling S M t0 (s :: L) (set_reservations <[(c, k, s) := row]> t).
Proof.
  intros Hs Hok (Hv & Hop & Hframe & Ha). split_and!; [by apply rows_ok_insert|done|..].
  - intros s' Hs'. rewrite <-Hframe by done. simpl. apply lookup_insert_ne. congruence.
  - intros s' row' Hs'. simpl. destruct (decide (s' = s)) as [->|Hne]; [by left|].
    rewrite lookup_insert_ne by congruence. intros Hr Hacc. right. by eapply Ha.
Qed.

(** *** The ends of an attempt *)

(** A fresh attempt that holds nothing *)
Lemma rolling_empty S M t0 t :
  only_accepted c k [] t0 -> rolling S M t0 [] t -> only_accepted c k [] t.
Proof.
  intros H0 (_ & _ & Hframe & Ha) s row Hr Hacc.
  destruct (decide (s ∈ M)) as [Hs|Hs]; [by eapply Ha|]. rewrite Hframe in Hr by done. by eapply H0.
Qed.

(** A fresh attempt that holds everything *)
Lemma rolling_full S M t0 t results :
  S <> [] -> NoDup S -> (forall s, s ∈ S <-> s ∈ M) ->
  only_accepted c k [] t0 -> rolling S M t0 (map ServiceResult.service_id results) t ->
  map ServiceResult.service_id results = sorted_str S ->
  Forall (fun x => reads_accepted c k t (ServiceResult.service_id x)
                     (ServiceResult.reservation_id x)) results ->
  accepted_results c k t S results.
Proof.
  intros Hne Hnd HM H0 (_ & _ & Hframe & Ha) Hids Hreads. split_and!; [done..| |done].
  intros s row Hr Hacc. destruct (decide (s ∈ M)) as [Hs|Hs].
  - eapply Ha in Hr; [|done|done]. rewrite Hids in Hr. by apply elem_of_sorted_str.
  - rewrite Hframe in Hr by done. by eapply H0, elem_of_nil in Hr.
Qed.

(** An extension that holds nothing new *)
Lemma rolling_restore S S0 M t0 t response :
  (forall s, s ∈ S0 -> s ∉ M) ->
  accepted_set c k t0 S0 response -> rolling S M t0 [] t ->
  accepted_set c k t (sorted_str S0) response.
Proof.
  intros HM (resp & Hr & Hd & Hne & Hnd & Hids & Hout & Hreads) (_ & _ & Hframe & Ha).
  exists resp. split_and!; [done..|]. split_and!.
  - intros E. apply Hne, Permutation_nil_r. rewrite <-E. symmetry. apply sorted_str_perm.
  - by rewrite sorted_str_perm.
  - rewrite Hids. apply sorted_str_unique. symmetry. apply sorted_str_perm.
  - intros s row Hrow Hacc. apply elem_of_sorted_str. destruct (decide (s ∈ M)) as [Hs|Hs].
    + by eapply Ha, elem_of_nil in Hrow.
    + rewrite Hframe in Hrow by done. by eapply Hout.
  - apply Forall_forall. intros x Hx. rewrite Forall_forall in Hreads.
    eapply reads_accepted_same, Hreads; [|done]. apply Hframe, HM.
    apply elem_of_sorted_str. rewrite <-Hids. by apply list_elem_of_fmap_2.
Qed.

(** An extension that holds everything new: the merged results *)
Lemma rolling_merge S S0 M t0 t results0 results :
  NoDup S -> S <> [] -> NoDup M -> (forall s, s ∈ S <-> s ∈ S0 \/ s ∈ M) ->
  (forall s, s ∈ S0 -> s ∉ M) ->
  accepted_results c k t0 S0 results0 ->
  rolling S M t0 (map ServiceResult.service_id results) t ->
  map ServiceResult.service_id results = sorted_str M ->
  Forall (fun x => reads_accepted c k t (ServiceResult.service_id x)
                     (ServiceResult.reservation_id x)) results ->
  accepted_results c k t S (sort_by str_leb ServiceResult.service_id (results0 ++ results)).
Proof.
  intros Hnd Hne HndM HS HM (_ & Hnd0 & Hids0 & Hout0 & Hreads0) (_ & _ & Hframe & Ha)
    Hids Hreads.
  split_and!; [done..| | |].
  - rewrite map_sort_by. apply sorted_str_unique. rewrite map_app, Hids0, Hids, !sorted_str_perm.
    apply NoDup_Permutation; [|done|].
    + apply NoDup_app. split_and!; [done|done|done].
    + intros s. rewrite elem_of_app, HS. done.
  - intros s row Hrow Hacc. apply HS. destruct (decide (s ∈ M)) as [Hs|Hs]; [by right|left].
    rewrite Hframe in Hrow by done. by eapply Hout0.
  - apply Forall_forall. intros x Hx%elem_of_sort_by. apply elem_of_app in Hx as [Hx|Hx].
    + rewrite Forall_forall in Hreads0. eapply reads_accepted_same, Hreads0; [|done].
      apply Hframe, HM. apply elem_of_sorted_str. rewrite <-Hids0. by apply list_elem_of_fmap_2.
    + rewrite Forall_forall in Hreads. by apply Hreads.
Qed.
End attempt.
