(* ===== verification/ReserveFacts.v ===== *)
(** * A reserve keeps the journal consistent

    The triples of a reserve on a healthy disk: rollback, attempt, loop, and
    the request. An exception that is not an [Exception] is a cancellation,
    about which they promise nothing. *)

From S2P Require Import Prelude Python Utf8 Enums Messages Wire Values ResponseDict Effects Journal JournalFacts JournalProps SlurmVerifier Adapter Service ServiceFacts Triples Consistency.
Local Open Scope Z_scope.

(** Triples without a promise about the log *)
Abbreviation any := (fun _ : event => True).

(** What holds after an [Exception] *)
Definition caught (I : tables -> Prop) (e : exn) (t : tables) : Prop :=
  isa_Exception e = true -> I t.

Lemma keeps_caught {X A} P (I : tables -> Prop) (m : M (world X) A) :
  keeps P I m -> triple P I m (fun _ => I) (caught I).
Proof. intros Hm. eapply triple_conseq; [exact Hm|done|done|by intros e t Ht _]. Qed.

(** The only exception is a cancellation. *)
Abbreviation cancelled := (fun (e : exn) (_ : tables) => isa_Exception e = false).

Section healthy.
Context {ucd : UnicodeData} {jenv : JournalEnv} {sha : Sha256} (Hok : no_faults jenv).
Context {X H : Type} {adapter_ops : AdapterOps X H} {verifier_ops : VerifierOps X}.
Abbreviation W := (world X).
Abbreviation held := (QPMBinding H * ServiceResult.t)%type.

(** *** Statements that cannot fail *)

Lemma statement_triple {A} P I (f : str -> tables -> result A * tables) Q (E : exn -> tables -> Prop) :
  (forall now t, I t -> match f now t with
                        | (Ok a, t') => Q a t'
                        | (Raise e, t') => E e t'
                        end) ->
  triple P I (journal (X := X) (statement f)) Q E.
Proof.
  intros Hf. apply triple_journal. intros d r d' Hd. rewrite statement_run by done.
  specialize (Hf (str_of_Z (time_ns (db_calls d))) (db_tables d) Hd).
  destruct (f _ _) as [r0 t0]. intros [= <- <-]. exact Hf.
Qed.

Lemma record_triple I c j r diag (Q : tables -> Prop) :
  (forall t now, I t -> Q (set_reservations <[(c, str_of_Z j, ReservationRecord.service_id r)
     := row_of_record r diag now]> t)) ->
  triple any I (journal (X := X) (record_reservation c j r diag)) (fun _ => Q) (fun _ _ => False).
Proof. intros Hi. apply statement_triple. intros now t Ht. by apply Hi. Qed.

Lemma update_triple P I c j missing f (Q : tables -> Prop) (E : exn -> tables -> Prop) :
  (forall t now row, I t -> allocations t !! (c, str_of_Z j) = Some row ->
     Q (set_allocations <[(c, str_of_Z j) := f now row]> t)) ->
  (forall t, I t -> allocations t !! (c, str_of_Z j) = None -> E (JournalError missing) t) ->
  triple P I (journal (X := X) (update_allocation c j missing f)) (fun _ => Q) E.
Proof.
  intros Hq He. apply statement_triple. intros now t Ht.
  destruct (allocations t !! _) eqn:Er; auto.
Qed.

(** An operation row never matters to the allocations. *)
Lemma operation_triple P I uid op rid r scope st :
  (forall t f, I t -> I (set_operations f t)) ->
  keeps P I (journal (X := X) (complete_operation uid op rid r scope st)).
Proof.
  intros Hi. unfold complete_operation. destruct (negb _).
  - apply triple_journal. by intros d r0 d' Hd [= <- <-].
  - apply statement_triple. intros now t Ht. by destruct (operations t !! _); [apply Hi|].
Qed.

Lemma begin_operation_triple I uid op rid fp scope :
  (forall t f, I t -> I (set_operations f t)) ->
  keeps any I (journal (X := X) (begin_operation uid op rid fp scope)).
Proof.
  intros Hi. apply statement_triple. intros now t Ht.
  cbv zeta. destruct (operations t !! _) as [row|]; [|by apply Hi].
  case_bool_decide; [|done]. case_bool_decide; [by apply Hi|done].
Qed.

Section request.
Context (req : ReserveRequest.t).
Abbreviation c := (ReserveRequest.cluster_name req).
Abbreviation j := (ReserveRequest.canonical_job_id req).
Abbreviation k := (str_of_Z (ReserveRequest.canonical_job_id req)).
Context (S M : list str) (t0 : tables).
Abbreviation rolling_here := (rolling c k S M t0).

(** *** Rollback *)

Lemma set_state_triple L :
  triple any (rolling_here L)
    (journal (X := X) (set_allocation_state c j (txt "rolling-back")))
    (fun _ => rolling_here L) (fun _ => rolling_here L).
Proof.
  apply statement_triple. intros now t (Hv & (row & Hrow & Hst & Hset) & Hrest).
  rewrite Hrow. split_and!; [done|by eexists; split; [apply lookup_insert_eq|]|apply Hrest..].
Qed.

Lemma rollback_one_triple (h : held) L :
  service_id h.1 ∈ M ->
  triple any (rolling_here (service_id h.1 :: L)) (rollback_one (H := H) req h)
    (fun _ => rolling_here L) cancelled.
Proof.
  destruct h as [b res]. simpl. intros Hin. unfold rollback_one.
  eapply (triple_bind _ _ _ _ (fun _ => rolling_here (service_id b :: L))).
  { eapply triple_try; [eapply triple_bind; [by apply triple_adapter_release|]| |].
    - intros d. by apply triple_ret.
    - intros e _. by apply triple_ret.
    - by intros e t He _. }
  intros released. cbv zeta.
  eapply (triple_bind _ _ _ _ (fun _ => rolling_here L)); [|intros fs; by apply triple_ret].
  unfold collecting. eapply triple_try.
  - eapply (triple_bind _ _ _ _ (fun _ => rolling_here L)); [|intros []; by apply triple_ret].
    apply record_triple. intros t now Ht.
    apply rolling_record; [done| |by destruct released; vm_compute|exact Ht].
    apply row_of_record_ok. by destruct released; vm_compute.
  - intros e _ w r w' [].
  - by intros e t _ [].
Qed.

Lemma rollback_loop_triple (l : list held) :
  Forall (fun h => service_id h.1 ∈ M) l ->
  triple any (rolling_here (map (fun h => service_id h.1) l)) (mapM (rollback_one (H := H) req) l)
    (fun _ => rolling_here []) cancelled.
Proof.
  intros Hl. induction Hl as [|h l Hh Hl IH]; simpl; [by apply triple_ret|].
  eapply triple_bind; [by apply rollback_one_triple|intros y].
  eapply triple_bind; [apply IH|intros ys]. by apply triple_ret.
Qed.

Lemma rollback_triple (l : list held) :
  Forall (fun h => service_id h.1 ∈ M) l ->
  triple any (rolling_here (map (fun h => service_id h.1) l)) (_rollback (H := H) req l)
    (fun _ => rolling_here []) (caught (rolling_here [])).
Proof.
  intros Hl. unfold _rollback.
  eapply (triple_bind _ _ _ _ (fun _ => rolling_here (map (fun h => service_id h.1) l))).
  { unfold collecting. eapply triple_try.
    - eapply triple_bind; [apply set_state_triple|intros []; by apply triple_ret].
    - intros e _. by apply triple_ret.
    - intros e t He _. unfold caught. congruence. }
  intros fs. eapply (triple_bind _ _ _ _ (fun _ => rolling_here [])).
  - eapply triple_conseq; [apply (rollback_loop_triple (reverse l))| |done|].
    + by rewrite reverse_Permutation.
    + intros t. apply rolling_weaken. intros s. by rewrite map_reverse, elem_of_reverse.
    + intros e t He. unfold caught. congruence.
  - intros fss. apply triple_raise_when; [done|]. by intros t Ht _ _.
Qed.

(** *** One service *)
Context {laws : AdapterLaws X H}.

(** The reservations an attempt holds: services of [M], and their rows *)
Definition holding (l : list held) (t : tables) : Prop :=
  rolling_here (map (fun h => service_id h.1) l) t /\
  Forall (fun h => service_id h.1 ∈ M /\ service_id h.1 = ServiceResult.service_id h.2 /\
            reads_accepted c k t (service_id h.1) (ServiceResult.reservation_id h.2)) l.

Lemma holding_insert l t s row :
  s ∈ M -> s ∉ map (fun h => service_id h.1) l -> row_ok row ->
  ReservationRow.state row <> txt "accepted" ->
  holding l t -> holding l (set_reservations <[(c, k, s) := row]> t).
Proof.
  intros Hs Hnew Hr Hst [Hroll Hl]. split.
  - apply rolling_record; [done..|]. eapply rolling_weaken; [|exact Hroll]. by right.
  - rewrite Forall_forall in Hl |- *. intros h Hin. destruct (Hl h Hin) as (? & ? & Hh).
    split_and!; [done..|].
    apply reads_accepted_insert; [|done]. intros <-. apply Hnew.
    by apply (list_elem_of_fmap_2 (fun h => service_id h.1)).
Qed.

(** The row of an accepted result *)
Lemma holding_accept l t b res fp now :
  service_id b ∈ M -> service_id b ∉ map (fun h => service_id h.1) l ->
  reserve_result_ok b res -> is_accepted res = true ->
  holding l t ->
  holding (l ++ [(b, res)]) (set_reservations <[(c, k, service_id b) :=
    row_of_record (attempt_record (service_id b) b (ServiceResult.reservation_id res)
      (lower (enum_name (ServiceResult.decision res))) fp) None now]> t).
Proof.
  intros Hs Hnew [Hid Hrid] Ha%bool_decide_eq_true [Hroll Hl].
  assert (ServiceResult.reservation_id res <> None) as Hsome
    by (by destruct (ServiceResult.reservation_id res)).
  rewrite Ha. split.
  - eapply (rolling_weaken _ _ _ _ _ (service_id b :: map (fun h => service_id h.1) l)).
    + intros s. rewrite map_app, elem_of_app, elem_of_cons. cbn. rewrite list_elem_of_singleton. tauto.
    + apply rolling_accept; [done|by apply row_of_record_ok|done].
  - apply Forall_app. split.
    + rewrite Forall_forall in Hl |- *. intros h Hin. destruct (Hl h Hin) as (? & ? & Hh).
      split_and!; [done..|]. apply reads_accepted_insert; [|done]. intros E. apply Hnew.
      rewrite <-E. by apply (list_elem_of_fmap_2 (fun h => service_id h.1)).
    + apply Forall_singleton. split_and!; [done..|]. split; [done|].
      eexists _, _. split_and!; [apply lookup_insert_eq|apply record_row_roundtrip|done|done].
Qed.

(** What one service of an attempt leaves *)
Definition attempted (l : list held) (s : str) (out : attempt (H := H)) (t : tables) : Prop :=
  match out with
  | Reserved h =>
      service_id h.1 = s /\ service_id h.1 = ServiceResult.service_id h.2 /\
      holding (l ++ if is_accepted h.2 then [h] else []) t
  | Failed _ p => p = None /\ holding l t
  end.

Lemma ask_triple I b job :
  triple any I (adapter_reserve (H := H) b req job)
    (fun res t => reserve_result_ok b res /\ I t) (fun _ => I).
Proof.
  intros w r w' Hw Hr. pose proof Hr as Hl. apply adapter_reserve_logs in Hl as [Hl (x' & Hx)].
  eexists. split_and!; [exact Hl|by constructor|].
  unfold adapter_reserve, external, zoom, emit in Hr. rewrite Hx in Hr.
  injection Hr as <-. destruct r; [|done]. split; [by eapply reserve_result|done].
Qed.

Lemma not_accepted_state d : d <> AdmissionDecision.ACCEPTED -> lower (enum_name d) <> txt "accepted".
Proof. destruct d; [done|by vm_compute..]. Qed.

Lemma attempt_triple job (l : list held) s fp :
  s ∈ M -> s ∉ map (fun h => service_id h.1) l ->
  triple any (holding l) (attempt_service (H := H) req job fp s) (attempted l s) cancelled.
Proof.
  intros Hs Hnew. unfold attempt_service.
  assert (Hfail : forall (e : exn) t, holding l t ->
    if isa_Exception e then attempted l s (Failed e None) t else isa_Exception e = false)
    by (intros e t Ht; by destruct (isa_Exception e)).
  eapply triple_try_step; [apply triple_resolve|intros b; cbv beta|exact Hfail].
  eapply (triple_try_step _ _ _ _ _ (fun _ t => service_id b = s /\ holding l t));
    [apply record_triple| |by intros ? ? []].
  { intros t now [Hb Ht]. split; [done|].
    apply holding_insert; [done|done|by apply row_of_record_ok|by vm_compute|exact Ht]. }
  intros _. eapply triple_try_step; [apply ask_triple|intros res; cbv beta|].
  2: { intros e t [_ Ht]. by apply Hfail. }
  eapply (triple_try_step _ _ _ _ _ (fun _ => attempted l s (Reserved (b, res))));
    [apply record_triple|intros _; by apply triple_ret|by intros ? ? []].
  intros t now (Hres & Hb & Ht). subst s. split_and!; [done|by destruct Hres|]. simpl.
  destruct (is_accepted res) eqn:Ha; [by apply holding_accept|].
  rewrite app_nil_r. apply bool_decide_eq_false in Ha. pose proof (not_accepted_state _ Ha).
  apply holding_insert; [done|done|by apply row_of_record_ok|done|exact Ht].
Qed.

(** *** The loop *)

(** What an attempt ends with: all services held, or none *)
Definition attempt_end (done services : list str) (resp : ReserveResponse.t) (t : tables) : Prop :=
  if bool_decide (ReserveResponse.decision resp = AdmissionDecision.ACCEPTED) then
    exists l : list held, holding l t /\ ReserveResponse.results resp = map snd l /\
      map (fun h => service_id h.1) l = done ++ services
  else rolling_here [] t.

Lemma holding_rollback (l : list held) :
  triple any (holding l) (_rollback (H := H) req l) (fun _ => rolling_here [])
    (caught (rolling_here [])).
Proof.
  intros w r w' [Hroll Hl] Hr.
  refine (rollback_triple l _ w r w' Hroll Hr). eapply Forall_impl; [exact Hl|]. by intros h [? _].
Qed.

Lemma reserve_loop_triple job fp services (l : list held) :
  (forall s, s ∈ services -> s ∈ M) ->
  NoDup (map (fun h => service_id h.1) l ++ services) ->
  triple any (holding l) (reserve_loop (H := H) req job fp services l)
    (attempt_end (map (fun h => service_id h.1) l) services) (caught (rolling_here [])).
Proof.
  revert l. induction services as [|s services IH]; intros l Hs Hnd; simpl.
  { apply triple_ret. intros t Ht. unfold attempt_end. simpl.
    exists l. split_and!; [done|done|by rewrite app_nil_r]. }
  pose proof Hnd as (Hnd1 & Hnew & _)%NoDup_app.
  assert (s ∉ map (fun h => service_id h.1) l) as Hns by (intros E; eapply Hnew; [exact E|left]).
  eapply triple_bind.
  { eapply triple_conseq; [apply attempt_triple; [apply Hs; by left|exact Hns]|done|
      by intros ? ? Ht; exact Ht|]. intros e t He. unfold caught. congruence. }
  intros [[b res]|e p]; cbv beta.
  - destruct (is_accepted res) eqn:Ha.
    + intros w r w' (Hb & _ & Hw) Hr. simpl in Hb, Hw. rewrite Ha in Hw.
      assert (map (fun h => service_id h.1) (l ++ [(b, res)]) ++ services
        = map (fun h => service_id h.1) l ++ s :: services) as Eq
        by (rewrite map_app, <-app_assoc; simpl; by rewrite Hb).
      assert (Hin : forall s', s' ∈ services -> s' ∈ M) by (intros s' ?; apply Hs; by right).
      destruct (IH (l ++ [(b, res)]) Hin ltac:(by rewrite Eq) w r w' Hw Hr) as (lg & ? & ? & Hp).
      exists lg. split_and!; [done..|]. destruct r as [resp|e]; [|done]. revert Hp.
      unfold attempt_end. by rewrite Eq.
    + eapply triple_bind; [|intros []; apply triple_ret].
      * eapply triple_conseq; [apply (holding_rollback l)| |done|done].
        intros t (_ & _ & Ht). simpl in Ht. by rewrite Ha, app_nil_r in Ht.
      * intros t Ht. unfold attempt_end. unfold is_accepted in Ha. simpl. by rewrite Ha.
  - eapply (triple_bind _ _ _ _ (fun _ => rolling_here []));
      [|intros []; apply triple_raise; by intros t Ht _].
    eapply triple_try; [|intros e' He'; apply triple_raise|
      intros e' t He' _; unfold caught; congruence].
    + eapply triple_conseq; [apply (holding_rollback (l ++ option_list p))| |done|done].
      intros t [-> Ht]. by rewrite app_nil_r.
    + intros t Ht _. by apply Ht.
Qed.
End request.
End healthy.
