(* ===== verification/HandlerFacts.v ===== *)
(** * Every request keeps the journal consistent

    The requests of the coordinator on a healthy disk, from the plan of a
    reserve to its recorded outcome, and the releases. *)

From S2P Require Import Prelude Python Utf8 Enums Messages Wire Values ResponseDict Effects Journal JournalFacts JournalProps SlurmVerifier Adapter Service ServiceFacts Triples Consistency ReserveFacts.
Local Open Scope Z_scope.

(** Rows are readable and one allocation is consistent. *)
Definition fine {ucd : UnicodeData} (c k : str) (t : tables) : Prop :=
  rows_ok t /\ consistent_at c k t.

Lemma closed_state s : one_of s ["delayed"; "rolled-back"]%string = true -> open_state s = false.
Proof.
  intros Hs%bool_decide_eq_true. simpl in Hs.
  apply elem_of_cons in Hs as [->|Hs]; [by vm_compute|].
  apply elem_of_cons in Hs as [->|Hs%elem_of_nil]; [by vm_compute|done].
Qed.

Section plan.
Context {ucd : UnicodeData} {jenv : JournalEnv} {jlaws : JournalEnvLaws jenv}.

(** What a plan with missing services starts from *)
Definition planned_from (c k : str) (S : list str) (plan : AllocationPlan) (t : tables) : Prop :=
  let M := missing_services plan in
  rows_ok t /\ opened c k S t /\ S <> [] /\ NoDup S /\ NoDup M /\
  if is_extension plan then
    accepted_set c k t (existing_services plan) (existing_response plan) /\
    (forall s, s ∈ existing_services plan -> s ∉ M) /\
    (forall s, s ∈ S <-> s ∈ existing_services plan \/ s ∈ M)
  else only_accepted c k [] t /\ (forall s, s ∈ S <-> s ∈ M).

Definition begun (c k : str) (plan : AllocationPlan) (t : tables) : Prop :=
  if bool_decide (missing_services plan = []) then fine c k t
  else exists S, planned_from c k S plan t.

(** Starting a set over *)
Lemma begun_restart c k services row t :
  services <> [] -> NoDup services -> rows_ok t -> only_accepted c k [] t ->
  Allocation.state row = txt "reserving" -> Allocation.service_set row = sorted_str services ->
  begun c k (mk_plan None [] (sorted_str services)) (set_allocations <[(c, k) := row]> t).
Proof.
  intros Hne Hnd Hv Hacc Hst Hset. unfold begun.
  assert (sorted_str services <> []) as Hs
    by (intros E; apply Hne, Permutation_nil_r; rewrite <-E; symmetry; apply sorted_str_perm).
  assert (NoDup (sorted_str services)) as Hsd by (by rewrite sorted_str_perm).
  simpl. rewrite bool_decide_eq_false_2 by done. exists (sorted_str services). split_and!; try done.
  exists row. split_and!; [apply lookup_insert_eq|by rewrite Hst|done].
Qed.

(** Extending an accepted set *)
Lemma begun_extend c k services row resp fp now t :
  let existing := Allocation.service_set row in
  let X : gset str := list_to_set existing in
  let missing := List.filter (fun s => negb (bool_decide (s ∈ X))) (sorted_str services) in
  NoDup services -> missing <> [] -> rows_ok t ->
  accepted_set c k t existing (Some resp) ->
  begun c k (mk_plan (Some resp) existing missing)
    (set_allocations <[(c, k) := Allocation.mk (Allocation.job_uid row) (Allocation.job_gid row)
       (sorted_str (elements (X ∪ list_to_set missing))) fp (txt "extending") (Some resp) now]> t).
Proof.
  intros existing X missing Hnd Hm Hv Hacc. unfold begun. simpl.
  rewrite bool_decide_eq_false_2 by done.
  exists (sorted_str (elements (X ∪ list_to_set missing))).
  assert (Hin : forall s, s ∈ sorted_str (elements (X ∪ list_to_set missing))
    <-> s ∈ existing \/ s ∈ missing).
  { intros s. rewrite elem_of_sorted_str, elem_of_elements, elem_of_union.
    unfold X. by rewrite !elem_of_list_to_set. }
  split_and!; [done|..].
  - eexists. by split_and!; [apply lookup_insert_eq|..].
  - destruct missing as [|s l] eqn:E; [done|]. intros Hn.
    pose proof (proj2 (Hin s) (or_intror (list_elem_of_here _ _))) as Hs.
    rewrite Hn in Hs. by apply elem_of_nil in Hs.
  - rewrite sorted_str_perm. apply NoDup_elements.
  - unfold missing. apply NoDup_ListNoDup, List.NoDup_filter, NoDup_ListNoDup.
    by rewrite sorted_str_perm.
  - unfold is_extension. simpl. rewrite bool_decide_eq_false_2 by done.
    simpl. split_and!; [exact Hacc| |exact Hin].
    intros s Hs [_ Hn]%elem_of_filter_new. apply Hn. unfold X. by apply elem_of_list_to_set.
Qed.

Lemma begin_allocation_begun (Hok : no_faults jenv) {X} (c : str) j uid gid services fp rfp :
  services <> [] -> NoDup services ->
  triple any (fine c (str_of_Z j))
    (journal (X := X) (begin_allocation c j uid gid services fp rfp))
    (begun c (str_of_Z j)) (fun _ => fine c (str_of_Z j)).
Proof.
  intros Hne Hnd. apply statement_triple; [done|]. intros now t Hfine. pose proof Hfine as [Hv Hc].
  cbv zeta. unfold consistent_at in Hc.
  destruct (allocations t !! (c, str_of_Z j)) as [row|] eqn:Hrow; [|by apply begun_restart].
  destruct (_ && _); simpl; [|done].
  unfold row_consistent in Hc.
  destruct (bool_decide (Allocation.state row = txt "accepted")) eqn:Hst; simpl.
  - apply bool_decide_eq_true in Hst. rewrite Hst in Hc. simpl in Hc.
    pose proof Hc as (resp & Hresp & _). rewrite Hresp in *.
    rewrite bool_decide_eq_true_2 by done.
    destruct (iterR _ _) as [[]|e]; [|done]. case_bool_decide as Hm.
    + done.
    + by apply begun_extend.
  - destruct (one_of _ ["delayed"; "rolled-back"]%string) eqn:Hd.
    { rewrite (closed_state _ Hd) in Hc. by apply begun_restart. }
    fold (open_state (Allocation.state row)).
    destruct (open_state (Allocation.state row)) eqn:Ho; [done|].
    destruct (bool_decide (Allocation.state row = txt "released")); [done|].
    destruct (bool_decide (Allocation.request_fingerprint row = fp)); simpl;
      [|by apply begun_restart].
    by destruct (Allocation.response row).
Qed.
End plan.

Lemma untouched_consistent {ucd : UnicodeData} c k t t' :
  untouched (fun K => K = (c, k)) t t' -> consistent_at c k t -> consistent_at c k t'.
Proof. intros [H1 H2]. apply consistent_at_same; [by apply H1|]. intros s. by apply H2. Qed.

Section reserve.
Context {ucd : UnicodeData} {jenv : JournalEnv} {sha : Sha256} {jlaws : JournalEnvLaws jenv}
  (Hok : no_faults jenv).
Context {X H : Type} {adapter_ops : AdapterOps X H} {verifier_ops : VerifierOps X}
  {laws : AdapterLaws X H}.
Context (req : ReserveRequest.t) (uid : Z).
Abbreviation c := (ReserveRequest.cluster_name req).
Abbreviation j := (ReserveRequest.canonical_job_id req).
Abbreviation k := (str_of_Z (ReserveRequest.canonical_job_id req)).
Abbreviation fine_here := (fine c k).
Abbreviation held := (QPMBinding H * ServiceResult.t)%type.

(** *** Ends of a transaction *)

(** The tables once the allocation row says [st] *)
Lemma closed_fine row t :
  rows_ok t -> row_consistent c k t row ->
  fine_here (set_allocations <[(c, k) := row]> t).
Proof. intros Hv Hr. split; [done|]. unfold consistent_at. simpl. by rewrite lookup_insert_eq. Qed.

Lemma opened_fine S t : rows_ok t -> opened c k S t -> fine_here t.
Proof.
  intros Hv (row & Hrow & Ho & _). split; [done|].
  unfold consistent_at, row_consistent. by rewrite Hrow, Ho.
Qed.

Lemma complete_operation_fine op rid r scope st :
  keeps any fine_here (journal (X := X) (complete_operation uid op rid r scope st)).
Proof. apply operation_triple; [done|]. intros t f Ht. exact Ht. Qed.

(** Close an allocation that holds nothing. *)
Lemma complete_closed S M t0 st r (E : exn -> tables -> Prop) :
  only_accepted c k [] t0 -> open_state st = false -> st <> txt "accepted" ->
  triple any (rolling c k S M t0 []) (journal (X := X) (complete_allocation c j st r))
    (fun _ => fine_here) E.
Proof.
  intros H0 Hst Hna. apply update_triple; [done|..].
  - intros t now row Ht Hrow. apply closed_fine; [apply Ht|].
    unfold row_consistent. simpl. rewrite Hst, bool_decide_eq_false_2 by done.
    exact (rolling_empty _ _ _ _ _ _ H0 Ht).
  - intros t (_ & (row & Hrow & _) & _) Hn. congruence.
Qed.

(** An accepted outcome is what the allocation stores. *)
Definition recorded (resp : ReserveResponse.t) (t : tables) : Prop :=
  fine_here t /\
  (ReserveResponse.decision resp = AdmissionDecision.ACCEPTED ->
   exists row, allocations t !! (c, k) = Some row /\
     Allocation.state row = txt "accepted" /\
     Allocation.response row = Some (response_to_dict (ReserveResponse resp))).

(** Close an allocation that holds its set. *)
Lemma complete_accepted S resp (E : exn -> tables -> Prop) :
  ReserveResponse.decision resp = AdmissionDecision.ACCEPTED ->
  triple any (fun t => rows_ok t /\ opened c k S t /\
                       accepted_results c k t S (ReserveResponse.results resp))
    (journal (X := X) (complete_allocation c j (txt "accepted")
       (response_to_dict (ReserveResponse resp))))
    (fun _ => recorded resp) E.
Proof.
  intros Hd. apply update_triple; [done|..].
  - intros t now row (Hv & (row' & Hrow' & _ & Hset) & Hacc) Hrow. split.
    + apply closed_fine; [done|]. unfold row_consistent. simpl.
      exists resp. split_and!; [done..|]. assert (row = row') as -> by congruence. by rewrite Hset.
    + intros _. eexists. by split; [apply lookup_insert_eq|].
  - intros t (_ & (row & Hrow & _) & _) Hn. congruence.
Qed.

(** Put the accepted set back. *)
Lemma restore_triple S M t0 plan (E : exn -> tables -> Prop) :
  (forall s, s ∈ existing_services plan -> s ∉ M) ->
  accepted_set c k t0 (existing_services plan) (existing_response plan) ->
  triple any (rolling c k S M t0 []) (restore_plan (X := X) req plan) (fun _ => fine_here) E.
Proof.
  intros HM Hset. apply update_triple; [done|..].
  - intros t now row Ht Hrow. apply closed_fine; [apply Ht|]. unfold row_consistent. simpl.
    pose proof (rolling_restore _ _ _ _ _ _ _ _ HM Hset Ht) as Ha.
    destruct Ha as (resp & Hr & Ha). rewrite Hr. by exists resp.
  - intros t (_ & (row & Hrow & _) & _) Hn. congruence.
Qed.

(** *** The attempt of a plan *)

Lemma planned_holding S plan t :
  planned_from c k S plan t -> holding (H := H) req S (missing_services plan) t [] t.
Proof.
  intros (Hv & Hop & _ & _ & _ & Hp). split; [|done]. split_and!; [done..|].
  intros s row Hs Hr Ha. simpl. destruct (is_extension plan).
  - destruct Hp as ((resp & _ & _ & _ & _ & _ & Hout & _) & Hdis & _).
    exfalso. eapply Hdis; [by eapply Hout|done].
  - destruct Hp as [Hnone _]. by eapply Hnone.
Qed.

Abbreviation rolling_plan S plan t0 := (rolling c k S (missing_services plan) t0 []).

Lemma run_attempt_triple job scope plan S t0 :
  planned_from c k S plan t0 ->
  triple any (fun t => t = t0) (run_attempt (H := H) req uid job scope plan)
    (attempt_end (H := H) req S (missing_services plan) t0 [] (sorted_str (missing_services plan)))
    (caught fine_here).
Proof.
  intros Hp. pose proof (planned_holding _ _ _ Hp) as Hh.
  pose proof Hp as (Hv & Hop & Hne & Hnd & HndM & Hcase).
  unfold run_attempt, on_error. eapply triple_try.
  - eapply triple_conseq; [apply (reserve_loop_triple Hok req S (missing_services plan) t0 job
      (_reservation_fingerprint req) (sorted_str (missing_services plan)) [])| | |].
    + intros s. by rewrite elem_of_sorted_str.
    + simpl. by rewrite sorted_str_perm.
    + by intros t ->.
    + done.
    + intros e t He. exact He.
  - intros e He. cbv beta.
    eapply (triple_conseq _ _ (rolling_plan S plan t0)); [|intros t Ht; by apply Ht|done|done].
    eapply (triple_bind _ _ _ _ (fun _ => fine_here));
      [|intros []; apply triple_raise; by intros t Ht _].
    destruct (is_extension plan) eqn:Hx.
    + destruct Hcase as (Hset & Hdis & _).
      eapply triple_bind; [by apply restore_triple|intros []; cbv beta].
      destruct (isa_RollbackIncomplete e); [by apply triple_ret|].
      unfold _journal_failed_attempt. rewrite Hx.
      eapply (triple_bind _ _ _ _ (fun _ => fine_here)); [by apply triple_ret|intros []].
      apply keeps_caught, complete_operation_fine.
    + destruct Hcase as [Hnone _].
      eapply (triple_bind _ _ _ _ (fun _ => rolling_plan S plan t0)); [by apply triple_ret|intros []].
      destruct (isa_RollbackIncomplete e).
      * apply triple_ret. intros t (? & ? & _). by eapply opened_fine.
      * unfold _journal_failed_attempt. rewrite Hx.
        eapply triple_bind; [by apply complete_closed; [| |vm_compute]|intros []].
        apply keeps_caught, complete_operation_fine.
  - intros e t He _. unfold caught. congruence.
Qed.

(** *** The outcome *)

(** What is left to record *)
Definition merged (plan : AllocationPlan) S (resp : ReserveResponse.t) (t : tables) : Prop :=
  if bool_decide (ReserveResponse.decision resp = AdmissionDecision.ACCEPTED) then
    rows_ok t /\ opened c k S t /\ accepted_results c k t S (ReserveResponse.results resp)
  else if is_extension plan then fine_here t
  else exists t0 : tables, only_accepted c k [] t0 /\ rolling_plan S plan t0 t.

Lemma held_results (l : list held) M S t0 t :
  holding (H := H) req S M t0 l t ->
  rolling c k S M t0 (map ServiceResult.service_id (map snd l)) t /\
  map ServiceResult.service_id (map snd l) = map (fun h => service_id h.1) l /\
  Forall (fun x => reads_accepted c k t (ServiceResult.service_id x)
                     (ServiceResult.reservation_id x)) (map snd l).
Proof.
  intros [Hroll Hl].
  assert (map ServiceResult.service_id (map snd l) = map (fun h => service_id h.1) l) as E.
  { clear Hroll. induction Hl as [|h l' (_ & Hh & _) _ IH]; [done|]. simpl. by rewrite Hh, IH. }
  rewrite E. split_and!; [done..|]. apply Forall_map. eapply Forall_impl; [exact Hl|].
  intros h (_ & Hs & Hr). by rewrite <-Hs.
Qed.

(** Merge the results of an extension, or give it up. *)
Lemma merge_triple plan S t0 resp :
  planned_from c k S plan t0 ->
  triple any (attempt_end (H := H) req S (missing_services plan) t0 []
                (sorted_str (missing_services plan)) resp)
    (merge_extension (X := X) req plan resp) (merged plan S) (caught fine_here).
Proof.
  intros (Hv & Hop & Hne & Hnd & HndM & Hcase). unfold merge_extension, attempt_end, merged.
  destruct (is_extension plan) eqn:Hx.
  - destruct Hcase as (Hset & Hdis & Hin).
    case_bool_decide as Hd.
    + pose proof Hset as (previous & Hprev & _ & Hres).
      eapply (triple_lift_ok _ _ _ (ReserveResponse, previous)).
      { unfold planned_response, reserve_response_of. rewrite Hprev. simpl.
        by rewrite response_dict_roundtrip. }
      apply triple_ret. intros t (l & Hl & Hresults & Hids). simpl.
      destruct (held_results _ _ _ _ _ Hl) as (Hroll & Eids & Hreads).
      split_and!; [apply Hl|apply Hl|]. rewrite Hresults.
      eapply rolling_merge; [exact Hnd|exact Hne|exact HndM|exact Hin|exact Hdis|exact Hres|
        exact Hroll|by rewrite Eids, Hids|exact Hreads].
    + eapply triple_bind; [by eapply restore_triple|intros []; cbv beta].
      apply triple_ret. intros t Ht. by rewrite bool_decide_eq_false_2.
  - destruct Hcase as [Hnone Hin]. apply triple_ret. intros t Ht. case_bool_decide as Hd.
    + destruct Ht as (l & Hl & Hresults & Hids).
      destruct (held_results _ _ _ _ _ Hl) as (Hroll & Eids & Hreads).
      split_and!; [apply Hl|apply Hl|]. rewrite Hresults.
      eapply rolling_full; [exact Hne|exact Hnd|exact Hin|exact Hnone|exact Hroll| |exact Hreads].
      rewrite Eids, Hids. simpl. apply sorted_str_unique, NoDup_Permutation; [done..|].
      intros s. by rewrite Hin.
    + by exists t0.
Qed.

(** Record the outcome. *)
Lemma finish_triple scope plan S resp :
  triple any (merged plan S resp) (finish_reserve (X := X) req uid scope plan resp)
    (fun _ => recorded resp) (caught fine_here).
Proof.
  unfold finish_reserve, merged.
  eapply (triple_bind _ _ _ _ (fun _ => recorded resp)); [|intros []; cbv beta].
  2: { eapply triple_conseq; [apply (operation_triple Hok any (recorded resp))|done|done|
         by intros e t [Ht _] _]. intros t f Ht. exact Ht. }
  assert (Hclosed : ReserveResponse.decision resp <> AdmissionDecision.ACCEPTED ->
    forall t, fine_here t -> recorded resp t) by (intros Hna t Ht; by split).
  assert (Hrest : ReserveResponse.decision resp <> AdmissionDecision.ACCEPTED ->
    forall st, open_state st = false -> st <> txt "accepted" ->
    triple any (fun t => if is_extension plan then fine_here t
                         else exists t0 : tables, only_accepted c k [] t0 /\ rolling_plan S plan t0 t)
      (if negb (is_extension plan) || false then
         journal (X := X) (complete_allocation c j st (response_to_dict (ReserveResponse resp)))
       else mret tt)
      (fun _ => recorded resp) (caught fine_here)).
  { intros Hna st Ho Hst.
    destruct (is_extension plan); simpl; [apply triple_ret; intros t Ht; by apply Hclosed|].
    intros w r w' (t0 & H0 & Ht) Hr.
    destruct (complete_closed S (missing_services plan) t0 st _ (caught fine_here) H0 Ho Hst
      w r w' Ht Hr) as (l & Hl & Hp & Hpost).
    exists l. split_and!; [done..|]. destruct r; [by apply Hclosed|done]. }
  destruct (ReserveResponse.decision resp) eqn:Hd; simpl.
  - rewrite orb_true_r. by apply complete_accepted.
  - by apply Hrest; vm_compute.
  - by apply Hrest; vm_compute.
Qed.

(** The attempt of a plan, from its start to its record *)
Lemma attempt_recorded job scope plan S t0 :
  planned_from c k S plan t0 ->
  triple any (fun t => t = t0)
    (resp ← run_attempt (H := H) req uid job scope plan;
     resp ← merge_extension req plan resp;
     _ ← finish_reserve req uid scope plan resp; mret (ReserveResponse resp))
    (fun r t => fine_here t /\ forall resp, r = ReserveResponse resp -> recorded resp t)
    (caught fine_here).
Proof.
  intros Hp. eapply triple_bind; [by apply run_attempt_triple|intros resp; cbv beta].
  eapply triple_bind; [by apply merge_triple|intros resp'; cbv beta].
  eapply triple_bind; [apply finish_triple|intros []]. apply triple_ret.
  intros t Ht. split; [apply Ht|]. by intros ? [= <-].
Qed.

(** *** The owner *)

(** The allocation belongs to the owner the request names. *)
Definition owned (t : tables) : Prop :=
  forall row, allocations t !! (c, k) = Some row ->
    Allocation.job_uid row = ReserveRequest.job_uid req /\
    Allocation.job_gid row = ReserveRequest.job_gid req.

(** An update that keeps the owner *)
Lemma owned_insert t row row' :
  owned t -> allocations t !! (c, k) = Some row ->
  Allocation.job_uid row' = Allocation.job_uid row ->
  Allocation.job_gid row' = Allocation.job_gid row ->
  owned (set_allocations <[(c, k) := row']> t).
Proof.
  intros Ht Hrow Hu Hg r. simpl. rewrite lookup_insert_eq. intros [= <-].
  rewrite Hu, Hg. by apply Ht.
Qed.

Lemma update_owned missing f :
  (forall now row, Allocation.job_uid (f now row) = Allocation.job_uid row /\
                   Allocation.job_gid (f now row) = Allocation.job_gid row) ->
  keeps any owned (journal (X := X) (update_allocation c j missing f)).
Proof.
  intros Hf. apply update_triple; [done| |done].
  intros t now row Ht Hrow. by eapply owned_insert; [exact Ht|exact Hrow|apply Hf..].
Qed.

Lemma attempt_owned job scope plan :
  keeps any owned
    (resp ← run_attempt (H := H) req uid job scope plan;
     resp ← merge_extension req plan resp;
     _ ← finish_reserve req uid scope plan resp; mret (ReserveResponse resp)).
Proof.
  assert (Hop : forall op rid r sc st,
    keeps any owned (journal (X := X) (complete_operation uid op rid r sc st)))
    by (intros; apply operation_triple; [done|intros t f Ht; exact Ht]).
  assert (Hcomplete : forall st r, keeps any owned (journal (X := X) (complete_allocation c j st r)))
    by (intros; by apply update_owned).
  assert (Hrestore : keeps any owned (restore_plan (X := X) req plan)) by (by apply update_owned).
  assert (Hstate : forall st, keeps any owned (journal (X := X) (set_allocation_state c j st))).
  { intros st. apply statement_triple; [done|]. intros now t Ht.
    destruct (allocations t !! _) eqn:Hrow; [by eapply owned_insert|done]. }
  assert (Hrecord : forall r diag, keeps any owned
    (journal (X := X) (record_reservation c j r diag))).
  { intros r diag. apply statement_triple; [done|]. intros now t Ht. exact Ht. }
  assert (Hrelease : forall b rid reason,
    keeps any owned (adapter_release (X := X) (H := H) b rid reason))
    by (intros; by apply triple_adapter_release).
  assert (Hreserve : forall b, keeps any owned (adapter_reserve (X := X) (H := H) b req job))
    by (intros; by apply triple_adapter_reserve).
  assert (Hroll : forall l, keeps any owned (_rollback (H := H) req l)).
  { intros l. unfold _rollback, rollback_one. keep. }
  assert (Hloop : forall fp services l, keeps any owned
    (reserve_loop (H := H) req job fp services l)).
  { intros fp services. induction services as [|s services IH]; intros l; simpl; [keep|].
    unfold attempt_service. keep. }
  unfold run_attempt, _reserve_services, merge_extension, finish_reserve, _journal_failed_attempt.
  keep.
Qed.

(** *** The request *)

Lemma reserve_fine :
  ReserveRequest.service_ids req <> [] -> NoDup (ReserveRequest.service_ids req) ->
  triple any fine_here (_reserve (H := H) req uid) (fun _ => fine_here) cancelled.
Proof.
  intros Hne Hnd. unfold _reserve.
  apply (triple_try _ _ _ _ _ _ (caught fine_here)); [|intros e He; apply triple_ret;
    intros t Ht; by apply Ht|done].
  eapply triple_bind; [|intros job; cbv beta zeta].
  { apply keeps_caught, triple_external. }
  eapply (triple_bind _ _ _ _ (fun _ => fine_here)); [|intros [prior|]].
  { apply keeps_caught, (begin_operation_triple Hok fine_here). intros t f Ht. exact Ht. }
  { apply keeps_caught. unfold replay_reserve, accepted_allocation. keep. }
  eapply triple_bind; [|intros plan; cbv beta].
  { eapply triple_conseq; [by apply begin_allocation_begun|done|intros p t Ht; exact Ht|
      by intros e t Ht _]. }
  unfold begun. case_bool_decide.
  { apply keeps_caught. pose proof complete_operation_fine. unfold _complete. keep. }
  intros w r w' (S & Hp) Hr.
  destruct (attempt_recorded job (_operation_scope req) plan S _ Hp w r w' eq_refl Hr)
    as (l & Hl & Hany & Hpost). exists l. split_and!; [done..|]. by destruct r; [apply Hpost|].
Qed.
End reserve.

Section release.
Context {ucd : UnicodeData} {jenv : JournalEnv} {sha : Sha256} (Hok : no_faults jenv).
Context {X H : Type} {adapter_ops : AdapterOps X H} {verifier_ops : VerifierOps X}.
Context (req : ReleaseRequest.t).
Abbreviation c := (ReleaseRequest.cluster_name req).
Abbreviation j := (ReleaseRequest.canonical_job_id req).
Abbreviation k := (str_of_Z (ReleaseRequest.canonical_job_id req)).
Abbreviation fine_here := (fine c k).

(** Only the records still to release may be accepted, and they are as read. *)
Definition draining (l : list ReservationRecord.t) (t : tables) : Prop :=
  rows_ok t /\ only_accepted c k (map ReservationRecord.service_id l) t /\
  Forall (fun r => exists row, reservation_rows t !! (c, k, ReservationRecord.service_id r) = Some row /\
            ReservationRow.state row = ReservationRecord.state r) l.

Lemma draining_skip r l t :
  ReservationRecord.state r <> txt "accepted" -> draining (r :: l) t -> draining l t.
Proof.
  intros Hst (Hv & Ho & Hf). apply Forall_cons in Hf as [(row & Hrow & Hs) Hf].
  split_and!; [done| |done]. intros s row' Hr Ha.
  pose proof (Ho s row' Hr Ha) as [->|Hin]%elem_of_cons; [|done]. congruence.
Qed.

Lemma draining_record r l t row :
  NoDup (map ReservationRecord.service_id (r :: l)) ->
  row_ok row -> ReservationRow.state row <> txt "accepted" ->
  draining (r :: l) t ->
  draining l (set_reservations <[(c, k, ReservationRecord.service_id r) := row]> t).
Proof.
  intros [Hnew Hnd]%NoDup_cons Hr Hst (Hv & Ho & Hf). apply Forall_cons in Hf as [_ Hf].
  split_and!; [by apply rows_ok_insert|..].
  - intros s row'. simpl. destruct (decide (s = ReservationRecord.service_id r)) as [->|Hne].
    + rewrite lookup_insert_eq. by intros [= <-].
    + rewrite lookup_insert_ne by congruence. intros Hrow Ha.
      by pose proof (Ho s row' Hrow Ha) as [->|Hin]%elem_of_cons.
  - rewrite Forall_forall in Hf |- *. intros r' Hin. destruct (Hf r' Hin) as (row' & Hrow' & Hs).
    exists row'. split; [|done]. simpl. rewrite lookup_insert_ne; [done|]. intros [= E].
    apply Hnew. rewrite E. by apply list_elem_of_fmap_2.
Qed.

(** The state a release leaves is recorded, and it is not accepted. *)
Definition released_as (s : ReservationState.t) : Prop :=
  exists js, release_journal_state s = Ok js /\ js <> txt "accepted".

Lemma release_status_as raw s : release_status raw = Ok s -> released_as s.
Proof.
  unfold release_status. destruct (negb _); [done|]. intros [= <-].
  case_bool_decide; (eexists; split; [reflexivity|by vm_compute]).
Qed.

Lemma release_one_triple r l :
  NoDup (map ReservationRecord.service_id (r :: l)) -> has_id r = true ->
  triple any (draining (r :: l)) (_release_one (H := H) req r) (fun _ => draining l) cancelled.
Proof.
  intros Hnd Hid%bool_decide_eq_true. unfold _release_one.
  assert (Hq : forall s, s = ReservationState.STALE_RUNTIME \/ s = ReservationState.QPM_FAILURE ->
    released_as s) by (intros s [->| ->]; (eexists; split; [reflexivity|by vm_compute])).
  rewrite (bool_decide_eq_false_2 (ReservationRecord.reservation_id r = None))
    by (by destruct (ReservationRecord.reservation_id r), Hid). rewrite orb_false_r.
  destruct (one_of _ terminal_states) eqn:Ht.
  { apply triple_ret. intros t Hd. eapply draining_skip; [|exact Hd].
    intros E. rewrite E in Ht. by vm_compute in Ht. }
  eapply (triple_bind _ _ _ _ (fun p t => released_as p.1 /\ draining (r :: l) t));
    [|intros [s diag]; simpl].
  - eapply (triple_try _ _ _ _ _ _ (fun _ => draining (r :: l)));
      [|intros e _; apply triple_ret; intros t Hd; split; [apply Hq; auto|done]|done].
    eapply triple_bind; [apply triple_external|intros b; cbv beta].
    destruct (negb _); [apply triple_ret; intros t Hd; split; [apply Hq; auto|done]|].
    eapply triple_bind; [by apply triple_adapter_release|intros raw; cbv beta].
    eapply (triple_bind _ _ _ _ (fun s t => released_as s /\ draining (r :: l) t)).
    + apply triple_lift; [|done]. intros t s Hd Hs. split; [by eapply release_status_as|done].
    + intros s. by apply triple_ret.
  - intros w r0 w' [(js & Hjs & Hna) Hd] Hr.
    assert (Htr : triple any (draining (r :: l))
      (_ ← journal (X := X) (record_reservation c j (ReservationRecord.with_state r js) diag);
       mret (ReleaseResult.mk (ReservationRecord.service_id r)
         (default 0 (ReservationRecord.reservation_id r)) s
         (if bool_decide (s = ReservationState.QPM_FAILURE) then Some GatewayError.QPM else None)
         diag)) (fun _ => draining l) cancelled).
    { eapply (triple_bind _ _ _ _ (fun _ => draining l)); [|intros []; by apply triple_ret].
      eapply triple_conseq; [apply (record_triple Hok (draining (r :: l)) c j _ diag (draining l))|
        done|done|by intros e t []].
      intros t now Ht'. apply (draining_record r l); [done| |done|exact Ht'].
      apply row_of_record_ok. by intros ?. }
    rewrite Hjs in Hr. exact (Htr w r0 w' Hd Hr).
Qed.

Lemma release_loop_triple l :
  NoDup (map ReservationRecord.service_id l) -> Forall (fun r => has_id r = true) l ->
  triple any (draining l) (mapM (_release_one (H := H) req) l) (fun _ => draining []) cancelled.
Proof.
  intros Hnd Hid. induction Hid as [|r l Hr Hid IH]; simpl; [by apply triple_ret|].
  eapply triple_bind; [by apply release_one_triple|intros y].
  apply NoDup_cons in Hnd as [_ Hnd].
  eapply triple_bind; [by apply IH|intros ys]. by apply triple_ret.
Qed.

(** Reading the records to release *)
Lemma int_column_some s o : int_column (Some s) = Ok o -> is_Some o.
Proof. unfold int_column. intros Ho. inv_ok. by eexists. Qed.

Lemma draining_init t records :
  rows_ok t -> records_of t c k = Ok records ->
  let l := List.filter has_id records in
  draining l t /\ NoDup (map ReservationRecord.service_id l) /\ Forall (fun r => has_id r = true) l.
Proof.
  intros Hv Hr l. unfold draining. split_and!.
  - done.
  - intros s row Hrow Ha. destruct (row_record _ _ _ _ _ _ Hr Hrow) as (r & Hin & <- & Hread & _).
    apply list_elem_of_fmap_2, elem_of_filter_bool. split; [done|].
    destruct (map_Forall_lookup_1 _ _ _ _ Hv Hrow) as [_ Hid]. specialize (Hid Ha).
    unfold record_of_row in Hread. inv_ok. unfold has_id. simpl. apply bool_decide_eq_true.
    destruct (ReservationRow.reservation_id row); [|done].
    rewrite <-Hread. by eapply int_column_some.
  - apply Forall_forall. intros r [Hin _]%elem_of_filter_bool.
    destruct (proj1 (elem_of_records _ _ _ _ _ Hr) Hin) as (row & Hrow & Hread).
    exists row. split; [done|]. by apply record_of_row_id in Hread as [_ ->].
  - by apply NoDup_map_filter, (records_NoDup t c k).
  - apply Forall_forall. by intros r [_ Hid]%elem_of_filter_bool.
Qed.

(** From reading the records to the state of the allocation *)
Lemma release_all_triple {A} unresolved (f : list ReleaseResult.t -> pyval)
    (cont : list ReleaseResult.t -> M (world X) A) :
  (forall results, keeps any fine_here (cont results)) ->
  triple any fine_here
    (records ← journal (reservations c j);
     results ← mapM (_release_one (H := H) req) (List.filter has_id records);
     _ ← journal (complete_allocation c j (release_state unresolved results) (f results));
     cont results) (fun _ => fine_here) (caught fine_here).
Proof.
  intros Hcont.
  eapply (triple_bind _ _ _ _ (fun records t => fine_here t /\ records_of t c k = Ok records)).
  { apply statement_triple; [done|]. intros now t Ht. cbv zeta.
    change (mapR _ _) with (records_of t c k).
    destruct (records_of t c k); [done|by intros _]. }
  intros records. cbv beta.
  set (l := List.filter has_id records).
  assert (Ht : NoDup (map ReservationRecord.service_id l) -> Forall (fun r => has_id r = true) l ->
    triple any (draining l)
      (results ← mapM (_release_one (H := H) req) l;
       _ ← journal (complete_allocation c j (release_state unresolved results) (f results));
       cont results) (fun _ => fine_here) (caught fine_here)).
  { intros Hnd Hid. eapply triple_bind.
    { eapply triple_conseq; [by apply release_loop_triple|done|intros rs t Ht; exact Ht|].
      intros e t He. unfold caught. congruence. }
    intros results. cbv beta.
    eapply (triple_bind _ _ _ _ (fun _ => fine_here)); [|intros []; apply keeps_caught, Hcont].
    apply update_triple; [done|..].
    - intros t now row (Hv & Ho & _) _. split; [done|]. unfold consistent_at. simpl.
      rewrite lookup_insert_eq. unfold row_consistent, release_state. simpl.
      by destruct (existsb _ results).
    - intros t (Hv & Ho & _) Hn _. split; [done|]. unfold consistent_at. by rewrite Hn. }
  intros w r w' [[Hv Hc] Hrec] Hr.
  destruct (draining_init _ _ Hv Hrec) as (Hd & Hnd & Hid). exact (Ht Hnd Hid w r w' Hd Hr).
Qed.

Lemma release_fine uid : triple any fine_here (_release (H := H) req uid) (fun _ => fine_here) cancelled.
Proof.
  unfold _release.
  apply (triple_try _ _ _ _ _ _ (caught fine_here)); [|intros e He; apply triple_ret;
    intros t Ht; by apply Ht|done].
  cbv zeta. eapply (triple_bind _ _ _ _ (fun _ => fine_here)); [|intros [prior|]].
  { apply keeps_caught, (begin_operation_triple Hok fine_here). intros t f Ht. exact Ht. }
  { apply keeps_caught. keep. }
  unfold run_release. cbv zeta.
  eapply (triple_bind _ _ _ _ (fun _ => fine_here)); [|intros status].
  { apply keeps_caught, keeps_reads. unfold allocation_status, reservations. preserve. }
  eapply (triple_bind _ _ _ _ (fun _ => fine_here)); [|intros expected].
  { apply keeps_caught. keep. }
  eapply (triple_bind _ _ _ _ (fun _ => fine_here)); [|intros job].
  { apply keeps_caught. keep. }
  apply (release_all_triple _ (fun results => response_to_dict (ReleaseResponse
    (ReleaseResponse.mk (ReleaseRequest.request_id req) results)))).
  intros results. apply keeps_bind; [|intros []; apply keeps_mret].
  apply operation_triple; [done|]. intros t f Ht. exact Ht.
Qed.

Lemma retry_release_fine :
  triple any fine_here (retry_release (H := H) req) (fun _ => fine_here) (caught fine_here).
Proof.
  unfold retry_release. cbv zeta.
  apply (release_all_triple _ (fun results => response_to_dict (ReleaseResponse
    (ReleaseResponse.mk (ReleaseRequest.request_id req) results)))).
  intros results. apply keeps_mret.
Qed.
End release.
