(* ===== verification/ReleaseProps.v ===== *)
(** * What a release does

    The outcome of a release on a healthy disk: one result per recorded
    reservation, the rows it leaves, the state of the allocation, and the
    calls it makes; and what a refused release leaves behind. *)

From S2P Require Import Prelude Python Utf8 Enums Messages Wire Values ResponseDict Effects Journal JournalFacts JournalProps SlurmVerifier Adapter VerifierProps DefwClient AdapterProps Service Sample ServiceFacts ServiceProps Triples Consistency ReserveFacts HandlerFacts.
Local Open Scope Z_scope.

Section release.
Context {ucd : UnicodeData} {jenv : JournalEnv} {sha : Sha256} (Hok : no_faults jenv).
Context {X H : Type} {adapter_ops : AdapterOps X H} {verifier_ops : VerifierOps X}
  {laws : AdapterLaws X H}.
Context (req : ReleaseRequest.t).
Abbreviation c := (ReleaseRequest.cluster_name req).
Abbreviation j := (ReleaseRequest.canonical_job_id req).
Abbreviation k := (str_of_Z (ReleaseRequest.canonical_job_id req)).

















(** *** The calls behind each result *)











(** *** The operation of a release *)

Definition release_key (uid : Z) : op_key :=
  (uid, txt "release", str_of_Z (ReleaseRequest.request_id req), txt "allocation").

(** A new release records its operation first. *)
Lemma begin_release uid (w : world X) :
  operations (tables_of w) !! release_key uid = None ->
  exists w1 now, journal (begin_operation uid (txt "release") (ReleaseRequest.request_id req)
      (_fingerprint (release_request_dict req)) (txt "allocation")) w = (Ok None, w1) /\
    w_ext w1 = w_ext w /\ w_log w1 = w_log w /\
    tables_of w1 = set_operations <[release_key uid := Operation.mk
      (_fingerprint (release_request_dict req)) (txt "started") None now]> (tables_of w).
Proof.
  intros Hnone. unfold journal, zoom, begin_operation. rewrite statement_run by done. cbv beta zeta.
  destruct (operations (db_tables (w_db w)) !! _) as [row|] eqn:E; [|by eexists _, _].
  change (operations (tables_of w) !! release_key uid = Some row) in E. congruence.
Qed.

(** A started release is not run again. *)
Lemma started_release uid (w : world X) now :
  operations (tables_of w) !! release_key uid = Some (Operation.mk
    (_fingerprint (release_request_dict req)) (txt "started") None now) ->
  (_release (H := H) req uid w).1 = Ok (_error GatewayError.INTERNAL
    (ReleaseRequest.request_id req) (txt "release operation requires recovery")).
Proof.
  intros Hrow. unfold _release, try_except, mbind at 1, m_mbind, m_bind at 1. cbv zeta.
  unfold journal at 1, zoom at 1, begin_operation. rewrite statement_run by done. cbv beta zeta.
  destruct (operations (db_tables (w_db w)) !! _) as [row|] eqn:E;
    change (operations (tables_of w) !! release_key uid) with
      (operations (db_tables (w_db w)) !! release_key uid) in Hrow.
  - assert (Some row = Some (Operation.mk (_fingerprint (release_request_dict req))
      (txt "started") None now)) as [= ->] by (rewrite <-Hrow; symmetry; exact E).
    simpl. by rewrite bool_decide_eq_true_2.
  - assert (None = Some (Operation.mk (_fingerprint (release_request_dict req))
      (txt "started") None now)) as [=] by (rewrite <-Hrow; symmetry; exact E).
Qed.

(** The owner the journal expects *)
Definition expected_owner (t : tables) : option Z := Allocation.job_uid <$> allocations t !! (c, k).

Lemma status_owner (w : world X) :
  rows_valid (tables_of w) ->
  exists status w1, journal (allocation_status c j) w = (Ok status, w1) /\
    status_uid status = Ok (expected_owner (tables_of w)) /\
    w_ext w1 = w_ext w /\ w_log w1 = w_log w /\ tables_of w1 = tables_of w.
Proof.
  intros Hv. unfold journal, zoom, allocation_status, mbind, m_mbind, m_bind, expected_owner.
  rewrite query_run by done. fold (tables_of w).
  destruct (allocations (tables_of w) !! (c, k)) as [row|] eqn:Hrow; [|by eexists _, _].
  rewrite reservations_run by done. simpl. fold (tables_of w).
  destruct (records_of_ok _ c k Hv) as [records ->]. by eexists _, _.
Qed.
End release.


(** C23 A release whose verification fails is answered UNAUTHORIZED and asks no
    QPM, but its operation is already recorded as started and nothing
    completes it: the same request id is refused from then on, even when the
    controller would accept it. *)
Theorem refused_release_is_stuck {ucd : UnicodeData} {jenv : JournalEnv} {sha : Sha256} {X H}
    {adapter_ops : AdapterOps X H} {verifier_ops : VerifierOps X} {laws : AdapterLaws X H}
    req uid (w : world X) msg x' :
  no_faults jenv -> rows_valid (tables_of w) ->
  operations (tables_of w) !! release_key req uid = None ->
  v_release req uid (expected_owner req (tables_of w)) (w_ext w)
    = (Raise (SlurmVerificationError msg), x') ->
  exists w', _release (H := H) req uid w
      = (Ok (_error GatewayError.UNAUTHORIZED (ReleaseRequest.request_id req) msg), w') /\
    w_log w' = w_log w /\
    forall x, (_release (H := H) req uid (mk_world (w_db w') x (w_log w'))).1
      = Ok (_error GatewayError.INTERNAL (ReleaseRequest.request_id req)
              (txt "release operation requires recovery")).
Proof.
  intros Hok Hv Hnone Hver.
  destruct (begin_release Hok req uid w Hnone) as (w1 & now & Hbegin & Hext1 & Hlog1 & Ht1).
  assert (rows_valid (tables_of w1)) as Hv1 by (by rewrite Ht1).
  destruct (status_owner Hok req w1 Hv1) as (status & w2 & Hstatus & Huid & Hext2 & Hlog2 & Ht2).
  assert (expected_owner req (tables_of w1) = expected_owner req (tables_of w)) as Howner
    by (by rewrite Ht1).
  exists (mk_world (w_db w2) x' (w_log w2)). split_and!.
  - unfold _release, try_except. cbv zeta. rewrite (m_bind_ok _ _ _ _ _ Hbegin). cbv beta iota.
    unfold run_release. cbv zeta. rewrite (m_bind_ok _ _ _ _ _ Hstatus).
    rewrite (m_bind_ok _ _ _ (expected_owner req (tables_of w)) w2)
      by (unfold lift; congruence).
    rewrite (m_bind_raise _ _ _ (SlurmVerificationError msg) (mk_world (w_db w2) x' (w_log w2))).
    { done. }
    unfold external, zoom. by rewrite Hext2, Hext1, Hver.
  - simpl. congruence.
  - intros x. apply (started_release Hok req uid _ now). unfold tables_of in *. simpl.
    rewrite Ht2, Ht1. apply lookup_insert_eq.
Qed.

(** ** Runs of the sample site *)



(** That release asked no QPM, yet the allocation is recorded as released. *)
Example stale_release_recorded :
  let run := _release (H := str) (sample_release 2) 1000 accepted_world in
  w_log run.2 = [] /\
  Allocation.state <$> allocations (tables_of run.2) !! (txt "hpc", txt "7") = Some (txt "released") /\
  ReservationRow.state <$> reservation_rows (tables_of run.2) !! (txt "hpc", txt "7", txt "aer")
    = Some (txt "stale-runtime").
Proof. vm_compute. done. Qed.

(** A sender that may not release job 7 *)
Lemma refused_release_is_stuck_witness :
  let msg := txt "MUNGE identity cannot release this job" in
  exists w', _release (H := str) (sample_release 2) 1234 accepted_world
      = (Ok (_error GatewayError.UNAUTHORIZED 2 msg), w') /\
    w_log w' = w_log accepted_world /\
    forall x, (_release (H := str) (sample_release 2) 1234 (mk_world (w_db w') x (w_log w'))).1
      = Ok (_error GatewayError.INTERNAL 2 (txt "release operation requires recovery")).
Proof.
  intros msg.
  assert (v_release (sample_release 2) 1234
      (expected_owner (sample_release 2) (tables_of accepted_world)) (w_ext accepted_world)
    = (Raise (SlurmVerificationError msg), w_ext accepted_world)) as Hver
    by (vm_compute; reflexivity).
  exact (refused_release_is_stuck (jenv := healthy_env) (laws := defw_adapter_laws)
    (sample_release 2) 1234 accepted_world msg _ (fun _ => eq_refl) accepted_db_rows eq_refl Hver).
Defined.
