(* ===== verification/ExtensionProps.v ===== *)
(** * Extensions whose rollback is incomplete

    A fresh attempt whose rollback fails leaves its allocation rolling back,
    and every repeat is refused. An extension puts its allocation back to
    accepted in any case, so that the next one goes on: the code does not do
    what its comments and the manual promise of an incomplete rollback. *)

From S2P Require Import Prelude Python Utf8 Enums Messages Wire Values ResponseDict Effects Journal JournalFacts JournalProps SlurmVerifier Adapter Service ServiceFacts Triples Consistency ReserveFacts.
Local Open Scope Z_scope.

(** C24 When the rollback of an extension is incomplete, the reserve fails with
    that error and its operation stays as it was, but the allocation is
    recorded as accepted again with its previous set, while the rows of the
    services that may still be reserved are kept as they are. So the next
    reserve of the job by its owner, whose requested services of that set are
    still held for its workload, is not refused: it is planned as an extension
    again, and whatever it requests outside the set is asked for anew, the
    services with an unreleased reservation included. *)
Theorem incomplete_extension_reopened {ucd : UnicodeData} {jenv : JournalEnv}
    {jlaws : JournalEnvLaws jenv} {sha : Sha256} {X H} {adapter_ops : AdapterOps X H}
    req uid job scope plan (w : world X) e w1 row :
  no_faults jenv -> is_extension plan = true ->
  _reserve_services (H := H) req job (missing_services plan) (_reservation_fingerprint req) w
    = (Raise e, w1) ->
  isa_RollbackIncomplete e = true ->
  let c := ReserveRequest.cluster_name req in
  let j := ReserveRequest.canonical_job_id req in
  allocations (tables_of w1) !! (c, str_of_Z j) = Some row ->
  exists w2 row', run_attempt (H := H) req uid job scope plan w = (Raise e, w2) /\
    allocations (tables_of w2) !! (c, str_of_Z j) = Some row' /\
    Allocation.state row' = txt "accepted" /\
    Allocation.service_set row' = sorted_str (existing_services plan) /\
    operations (tables_of w2) = operations (tables_of w1) /\
    reservation_rows (tables_of w2) = reservation_rows (tables_of w1) /\ w_log w2 = w_log w1 /\
    forall services fp rfp, services <> [] ->
      (forall s, s ∈ services -> s ∈ existing_services plan ->
         still_held c j rfp (tables_of w1) s) ->
      exists next d, begin_allocation c j (Allocation.job_uid row) (Allocation.job_gid row)
          services fp rfp (w_db w2) = (Ok next, d) /\
        forall s, s ∈ missing_services next <-> s ∈ services /\ s ∉ existing_services plan.
Proof.
  intros Hok Hx Hr He c j Hrow.
  assert (isa_Exception e = true) as Hexc by (by destruct e).
  unfold run_attempt, on_error, try_except. rewrite Hr, Hexc, Hx, He.
  unfold restore_plan, restore_accepted_allocation, update_allocation, journal, zoom, mbind,
    m_mbind, m_bind. rewrite statement_run by done. cbv beta zeta.
  destruct (allocations (db_tables (w_db w1)) !! _) as [row1|] eqn:E.
  2: { change (allocations (tables_of w1) !! (c, str_of_Z j) = None) in E. congruence. }
  assert (row1 = row) as ->
    by (change (allocations (tables_of w1) !! (c, str_of_Z j) = Some row1) in E; congruence).
  eexists _, _. split_and!; [reflexivity|apply lookup_insert_eq|done..|].
  intros services fp rfp Hne Hheld.
  match goal with |- exists _ _, begin_allocation _ _ _ _ _ _ _ (w_db ?w) = _ /\ _ =>
    assert (exists row2, allocations (db_tables (w_db w)) !! (c, str_of_Z j) = Some row2 /\
      accepted_alloc row2 /\ Allocation.job_uid row2 = Allocation.job_uid row /\
      Allocation.job_gid row2 = Allocation.job_gid row /\
      Allocation.service_set row2 = sorted_str (existing_services plan))
      as (row2 & Hrow2 & Hacc & Hu & Hg & Hset)
      by (eexists; split; [apply lookup_insert_eq|by split_and!; [|eexists|..]]);
    destruct (begin_allocation_extends c j services fp rfp row2 (w_db w) Hok Hne Hrow2 Hacc)
      as (next & d & Hb & _ & _ & Hm & _)
  end.
  - intros s Hs Hin. rewrite Hset, elem_of_sorted_str in Hin. exact (Hheld s Hs Hin).
  - rewrite Hu, Hg in Hb. exists next, d. split; [exact Hb|]. intros s.
    by rewrite Hm, Hset, elem_of_sorted_str.
Qed.

(** ** A site that cannot release *)

Section stuck.
Context {ucd : UnicodeData}.

(** A QPM that accepts everything but ["busy"], and never releases *)
#[local] Instance stuck_adapter : AdapterOps Z str := {|
  a_resolve := fun s n => (Ok (mk_binding s (txt "rt") 1 s), n);
  a_evaluate := fun b _ _ n => (Ok (ServiceResult.mk (service_id b) AdmissionDecision.ACCEPTED 0
    None None None None None None None), n);
  a_reserve := fun b _ _ n =>
    if bool_decide (service_id b = txt "busy") then
      (Ok (ServiceResult.mk (service_id b) AdmissionDecision.DELAYED 0 None None None None None
             None None), n)
    else (Ok (ServiceResult.mk (service_id b) AdmissionDecision.ACCEPTED 0 (Some n) None None None
             None None None), n + 1);
  a_release := fun _ _ _ n => (Raise (QFwAdapterError (txt "unreachable")), n);
|}.

Definition stuck_job : VerifiedJob.t :=
  VerifiedJob.mk (txt "hpc") 7 1000 100 (txt "ada") None None None (txt "RUNNING").

#[local] Instance stuck_verifier : VerifierOps Z := {|
  v_reserve := fun _ _ n => (Ok stuck_job, n);
  v_release := fun _ _ _ n => (Ok stuck_job, n);
  v_lookup := fun _ _ n => (Ok stuck_job, n);
|}.

#[local] Instance stuck_env : JournalEnv := healthy_env.
#[local] Instance stuck_sha : Sha256 := fun b => map b2z b.

Definition stuck_reserve (request_id : Z) (services : list string) : ReserveRequest.t :=
  ReserveRequest.mk request_id (txt "hpc") 7 1000 100
    (Some (Workload.mk WorkloadKind.QUANTUM 3600 4 29 1000 8192 None None None))
    (map txt services) None None.

(** ["aer"] is reserved; then an extension that ["busy"] delays *)
Definition stuck_world : world Z :=
  (_reserve (H := str) (stuck_reserve 1 ["aer"]%string) 1000 (mk_world empty_db 41 [])).2.
Definition reopened_world : world Z :=
  (_reserve (H := str) (stuck_reserve 2 ["aer"; "bee"; "busy"]%string) 1000 stuck_world).2.
Definition overwritten_world : world Z :=
  (_reserve (H := str) (stuck_reserve 3 ["aer"; "bee"]%string) 1000 reopened_world).2.

(** The plan of that extension, and the attempt *)
Definition stuck_request : ReserveRequest.t := stuck_reserve 2 ["aer"; "bee"; "busy"]%string.
Definition stuck_planning : result AllocationPlan * world Z :=
  journal (begin_allocation (txt "hpc") 7 1000 100 (ReserveRequest.service_ids stuck_request)
    (_allocation_fingerprint stuck_request) (_reservation_fingerprint stuck_request)) stuck_world.
Definition stuck_plan : AllocationPlan :=
  match stuck_planning.1 with Ok plan => plan | Raise _ => mk_plan None [] [] end.
Definition stuck_attempt : result ReserveResponse.t * world Z :=
  _reserve_services (H := str) stuck_request stuck_job (missing_services stuck_plan)
    (_reservation_fingerprint stuck_request) stuck_planning.2.

Definition incomplete : exn := RollbackIncomplete (txt "allocation rollback was incomplete").

Lemma stuck_attempt_fails :
  (if stuck_attempt.1 is Raise e then bool_decide (e = incomplete) else false) = true ->
  stuck_attempt = (Raise incomplete, stuck_attempt.2).
Proof.
  destruct stuck_attempt as [[a|e] w]; simpl; [done|]. by intros ->%bool_decide_eq_true.
Qed.
End stuck.

Lemma bee_requested : txt "bee" ∈ [txt "bee"].
Proof. by left. Qed.

Lemma bee_is_new s : s ∈ [txt "bee"] -> s ∉ [txt "aer"].
Proof.
  intros [->|[]%elem_of_nil]%elem_of_cons. by intros [?|[]%elem_of_nil]%elem_of_cons.
Qed.

Lemma incomplete_extension_reopened_witness :
  exists w2 row' next d, run_attempt (H := str) (ucd := ascii_ucd) (jenv := stuck_env)
      (sha := stuck_sha) (adapter_ops := stuck_adapter) stuck_request 1000 stuck_job
      (txt "allocation") (stuck_plan (ucd := ascii_ucd)) (stuck_planning (ucd := ascii_ucd)).2
      = (Raise incomplete, w2) /\
    allocations (tables_of w2) !! (txt "hpc", txt "7") = Some row' /\
    Allocation.state row' = txt "accepted" /\ Allocation.service_set row' = [txt "aer"] /\
    begin_allocation (ucd := ascii_ucd) (env := stuck_env) (txt "hpc") 7 1000 100 [txt "bee"]
      (txt "f") (txt "w") (w_db w2) = (Ok next, d) /\ txt "bee" ∈ missing_services next.
Proof.
  assert (stuck_attempt (ucd := ascii_ucd) = (Raise incomplete, (stuck_attempt (ucd := ascii_ucd)).2))
    as Hrun by (apply stuck_attempt_fails; vm_compute; reflexivity).
  assert (is_extension (stuck_plan (ucd := ascii_ucd)) = true) as Hx by (vm_compute; reflexivity).
  assert (existing_services (stuck_plan (ucd := ascii_ucd)) = [txt "aer"]) as Hex
    by (vm_compute; reflexivity).
  assert ((fun a => (Allocation.state a, Allocation.job_uid a, Allocation.job_gid a)) <$>
    allocations (tables_of (stuck_attempt (ucd := ascii_ucd)).2) !! (txt "hpc", txt "7")
    = Some (txt "rolling-back", 1000, 100)) as Hm by (vm_compute; reflexivity).
  destruct (allocations (tables_of (stuck_attempt (ucd := ascii_ucd)).2) !! (txt "hpc", txt "7"))
    as [row|] eqn:Hrow; [|discriminate Hm]. injection Hm as _ Hu Hg.
  destruct (incomplete_extension_reopened (ucd := ascii_ucd) (jenv := stuck_env)
    (jlaws := healthy_env_laws) (sha := stuck_sha)
    (adapter_ops := stuck_adapter) stuck_request 1000 stuck_job (txt "allocation")
    (stuck_plan (ucd := ascii_ucd)) _ incomplete _ row (fun _ => eq_refl) Hx Hrun eq_refl Hrow)
    as (w2 & row' & H1 & H2 & H3 & H4 & _ & _ & _ & Hnext).
  rewrite Hex in Hnext, H4. rewrite Hu, Hg in Hnext.
  destruct (Hnext [txt "bee"] (txt "f") (txt "w")) as (next & d & Hb & Hmiss); [done| |].
  { intros s Hs Hin. destruct (bee_is_new s Hs Hin). }
  exists w2, row', next, d. split; [exact H1|]. split; [exact H2|]. split; [exact H3|].
  split; [exact H4|]. split; [exact Hb|].
  exact (proj2 (Hmiss (txt "bee")) (conj bee_requested (bee_is_new _ bee_requested))).
Defined.

Definition bee_row {X} (w : world X) : option (str * option str) :=
  (fun r => (ReservationRow.state r, ReservationRow.reservation_id r)) <$>
    reservation_rows (tables_of w) !! (txt "hpc", txt "7", txt "bee").

(** The reservation that could not be released is recorded after the
    extension, and forgotten by the next reserve: its row is overwritten. *)
Example extension_forgets :
  bee_row (reopened_world (ucd := ascii_ucd)) = Some (txt "rollback-failed", Some (txt "42")) /\
  bee_row (overwritten_world (ucd := ascii_ucd)) = Some (txt "accepted", Some (txt "43")) /\
  released_in (w_log (overwritten_world (ucd := ascii_ucd))) = [] /\
  accepted_in (w_log (overwritten_world (ucd := ascii_ucd)))
    = [(txt "aer", Some 41); (txt "bee", Some 42); (txt "bee", Some 43)].
Proof. vm_compute. done. Qed.
