(* ===== verification/ConsistencyProps.v ===== *)
(** * The journal answers for every accepted allocation

    The states a healthy gateway reaches from an empty journal by handling
    frames are consistent, and in them a lookup of an accepted allocation
    answers exactly the reservations its reserve announced. *)

From S2P Require Import Prelude Python Utf8 Enums Messages Wire Codec RoundTrip DecodeFacts ProtocolProps Values ResponseDict Effects Journal JournalFacts JournalProps SlurmVerifier Adapter VerifierProps DefwClient AdapterProps Service Sample ServiceFacts Triples Consistency ReserveFacts HandlerFacts ServiceProps.
Local Open Scope Z_scope.

(** A request that arrives over the wire names at least one service, each once. *)
Lemma decoded_services_ok frame h q :
  decode_request frame = Ok (h, q) ->
  match q with
  | EvaluateRequest r | ReserveRequest r =>
      ReserveRequest.service_ids r <> [] /\ NoDup (ReserveRequest.service_ids r)
  | _ => True
  end.
Proof.
  intros Hq%dispatch_request. assert (Hv : forall mt r, _decode_admission_request frame mt = Ok (h, r) ->
    ReserveRequest.service_ids r <> [] /\ NoDup (ReserveRequest.service_ids r)).
  { intros mt r Hr. apply decoded_admission in Hr.
    apply validated_request in Hr as (_ & _ & _ & _ & _ & Hs & _).
    apply orb_false_iff in Hs as [Hc Hd]. unfold bad_count, has_dup in *.
    apply negb_false_iff, bool_decide_eq_true in Hd. split; [|done].
    intros E. rewrite E in Hc. by vm_compute in Hc. }
  destruct q as [r|r|r|r]; [by eapply Hv, Hq|by eapply Hv, Hq|done|done].
Qed.

Section reachable.
Context {ucd : UnicodeData} {jenv : JournalEnv} {sha : Sha256}.
Context {X H : Type} {adapter_ops : AdapterOps X H} {verifier_ops : VerifierOps X}.

(** The states of a gateway: it starts on an empty journal and handles decoded
    frames and administrative retries to their end; in between, the QPMs and
    the controller change as they like. *)
Inductive reachable : world X -> Prop :=
| reach_start x : reachable (mk_world empty_db x [])
| reach_outside w x : reachable w -> reachable (mk_world (w_db w) x (w_log w))
| reach_request w frame h q uid resp w' :
    reachable w -> decode_request frame = Ok (h, q) ->
    handle (H := H) q uid w = (Ok resp, w') -> reachable w'
| reach_retry w req resp w' :
    reachable w -> retry_release (H := H) req w = (Ok resp, w') -> reachable w'.

(** One allocation is fine, the others are untouched. *)
Lemma consistent_step c j t t' :
  consistent t -> untouched (fun K => K <> (c, str_of_Z j)) t t' -> fine c (str_of_Z j) t' ->
  consistent t'.
Proof.
  intros [_ Hc] Hu [Hv Hf]. split; [done|]. intros c' j'.
  destruct (decide ((c', str_of_Z j') = (c, str_of_Z j))) as [[= -> ->]|Hne]; [done|].
  destruct Hu as [Ha Hr]. eapply consistent_at_same; [|intros s|apply Hc].
  - by apply Ha.
  - by apply Hr.
Qed.

Lemma consistent_untouched t t' :
  consistent t -> untouched (fun _ => True) t t' -> consistent t'.
Proof.
  intros [Hv Hc] [Ha Hr]. split.
  - intros [[c k] s] row Hrow. rewrite Hr in Hrow by done. by eapply Hv.
  - intros c j. eapply consistent_at_same; [by apply Ha|intros s; by apply Hr|apply Hc].
Qed.

Context {jlaws : JournalEnvLaws jenv} (Hok : no_faults jenv) {laws : AdapterLaws X H}.

Lemma handle_consistent frame h q uid w resp w' :
  decode_request frame = Ok (h, q) -> consistent (tables_of w) ->
  handle (H := H) q uid w = (Ok resp, w') -> consistent (tables_of w').
Proof.
  intros Hq%decoded_services_ok Hc Hr.
  assert (Hfine : forall c j, fine c (str_of_Z j) (tables_of w)) by (intros; split; apply Hc).
  destruct q as [r|r|r|r]; simpl in Hr.
  - pose proof (evaluate_untouched (H := H) r uid w) as Hu. rewrite Hr in Hu.
    by eapply consistent_untouched.
  - pose proof (reserve_untouched (H := H) _ _ r eq_refl eq_refl uid w) as Hu. rewrite Hr in Hu.
    destruct (reserve_fine Hok r uid (proj1 Hq) (proj2 Hq) w _ _ (Hfine _ _) Hr)
      as (_ & _ & _ & Hf). by eapply consistent_step.
  - pose proof (release_untouched (H := H) _ _ r eq_refl eq_refl uid w) as Hu. rewrite Hr in Hu.
    destruct (release_fine Hok r uid w _ _ (Hfine _ _) Hr) as (_ & _ & _ & Hf).
    by eapply consistent_step.
  - pose proof (get_reservations_reads (untouched (fun _ => True)) r uid _ w) as Hu.
    rewrite Hr in Hu. by eapply consistent_untouched.
Qed.

Lemma retry_consistent req w resp w' :
  consistent (tables_of w) -> retry_release (H := H) req w = (Ok resp, w') ->
  consistent (tables_of w').
Proof.
  intros Hc Hr.
  pose proof (retry_untouched (H := H) _ _ req eq_refl eq_refl w) as Hu. rewrite Hr in Hu.
  assert (fine (ReleaseRequest.cluster_name req) (str_of_Z (ReleaseRequest.canonical_job_id req))
    (tables_of w)) as Hf by (split; apply Hc).
  destruct (retry_release_fine Hok req w _ _ Hf Hr) as (_ & _ & _ & Hf').
  by eapply consistent_step.
Qed.

Lemma empty_consistent : consistent (mk_tables ∅ ∅ ∅).
Proof.
  split; [apply map_Forall_empty|]. intros c j. unfold consistent_at. simpl.
  rewrite lookup_empty. intros s row. simpl. by rewrite lookup_empty.
Qed.

Lemma reachable_invariant (w : world X) : reachable w -> consistent (tables_of w).
Proof.
  induction 1 as [x|w x _ IH|w frame h q uid resp w' _ IH Hq Hr|w req resp w' _ IH Hr].
  - apply empty_consistent.
  - exact IH.
  - by eapply handle_consistent.
  - by eapply retry_consistent.
Qed.
End reachable.

(** ** What a lookup answers *)

Section answers.
Context {ucd : UnicodeData}.

(** The reservations a response announces *)
Definition announced (results : list ServiceResult.t) : list Reservation.t :=
  omap (fun x => Reservation.mk (ServiceResult.service_id x)
                   <$> ServiceResult.reservation_id x) results.

(** The records of the announced rows *)
Lemma accepted_records c k t results :
  Forall (fun x => reads_accepted c k t (ServiceResult.service_id x)
                     (ServiceResult.reservation_id x)) results ->
  exists records,
    map ReservationRecord.service_id records = map ServiceResult.service_id results /\
    reservation_tuple records = announced results /\
    Forall (fun r => exists row, reservation_rows t !! (c, k, ReservationRecord.service_id r) = Some row /\
        record_of_row (ReservationRecord.service_id r) row = Ok r /\
        ReservationRecord.state r = txt "accepted" /\
        ReservationRecord.reservation_id r <> None) records.
Proof.
  induction 1 as [|x l (Hsome & row & r & Hrow & Hread & Hst & Hid) _ (records & Hs & Ht & Hf)].
  { by exists []. }
  pose proof (proj1 (record_of_row_id _ _ _ Hread)) as Hser.
  exists (r :: records). split_and!.
  - simpl. by rewrite Hs, Hser.
  - unfold reservation_tuple, announced in *. cbn [omap list_omap]. rewrite Hser, Hid.
    destruct (ServiceResult.reservation_id x); [|done]. simpl. by rewrite Ht.
  - constructor; [|done]. exists row. rewrite Hser. split_and!; [done..|]. by rewrite Hid.
Qed.

Lemma accepted_set_complete c j t row :
  allocations t !! (c, str_of_Z j) = Some row -> Allocation.state row = txt "accepted" ->
  accepted_set c (str_of_Z j) t (Allocation.service_set row) (Allocation.response row) ->
  exists resp records,
    Allocation.response row = Some (response_to_dict (ReserveResponse resp)) /\
    ReserveResponse.decision resp = AdmissionDecision.ACCEPTED /\
    reservation_tuple records = announced (ReserveResponse.results resp) /\
    context_complete t c j (Allocation.job_uid row) (Allocation.job_gid row) records.
Proof.
  intros Hrow Hst (resp & Hr & Hd & Hne & Hnd & Hids & Hout & Hreads).
  destruct (accepted_records _ _ _ _ Hreads) as (records & Hs & Ht & Hf).
  exists resp, records. split_and!; [done..|]. exists row. split_and!; try done.
  - by rewrite Hs.
  - intros r Hin. rewrite Forall_forall in Hf. by apply Hf.
Qed.
End answers.

(** ** An attempt that asked a QPM *)

Section asked.
Context {ucd : UnicodeData} {jenv : JournalEnv} {sha : Sha256} {jlaws : JournalEnvLaws jenv}
  (Hok : no_faults jenv).
Context {X H : Type} {adapter_ops : AdapterOps X H} {verifier_ops : VerifierOps X}
  {laws : AdapterLaws X H}.
Context (req : ReserveRequest.t).
Abbreviation c := (ReserveRequest.cluster_name req).
Abbreviation j := (ReserveRequest.canonical_job_id req).
Abbreviation k := (str_of_Z (ReserveRequest.canonical_job_id req)).

(** A block whose triple forbids every event logs nothing. *)
Lemma quiet {A} (m : M (world X) A) w r w' :
  (forall P I, keeps P I m) -> m w = (r, w') -> w_log w' = w_log w.
Proof.
  intros Hm Hr. destruct (Hm (fun _ => False) (fun _ => True) w r w' I Hr) as (l & Hl & Hp & _).
  destruct l as [|e l]; [|by inversion Hp]. unfold logs in Hl. by rewrite app_nil_r in Hl.
Qed.

Lemma operation_error_shape op rid e : exists er, _operation_error op rid e = ErrorResponse er.
Proof. unfold _operation_error, _error. repeat case_match; by eexists. Qed.

(** Planning starts from the tables it leaves. *)
Lemma begin_allocation_owned uid gid services fp rfp d plan d' :
  services <> [] -> begin_allocation c j uid gid services fp rfp d = (Ok plan, d') ->
  missing_services plan <> [] ->
  forall row, allocations (db_tables d') !! (c, k) = Some row ->
    Allocation.job_uid row = uid /\ Allocation.job_gid row = gid.
Proof.
  intros Hne Hr Hm row. apply begin_allocation_cases in Hr as (_ & _ & Hp); [|done].
  rewrite bool_decide_eq_false_2 in Hp by done. destruct Hp as (row' & -> & Hu & Hg & _).
  simpl. rewrite lookup_insert_eq. by intros [= <-].
Qed.

(** The journal call of a run *)
Lemma journal_run {A} (m : M db A) (w : world X) r w' :
  journal m w = (r, w') -> m (w_db w) = (r, w_db w') /\ w_log w' = w_log w.
Proof. unfold journal, zoom. destruct (m (w_db w)). by intros [= <- <-]. Qed.

(** What the attempt of a reserve leaves, once the plan is made *)
Lemma attempt_outcome uid job scope plan (w : world X) resp w' :
  begun c k plan (tables_of w) -> owned req (tables_of w) -> missing_services plan <> [] ->
  (resp ← run_attempt (H := H) req uid job scope plan;
   resp ← merge_extension req plan resp;
   _ ← finish_reserve req uid scope plan resp; mret (ReserveResponse resp)) w
    = (Ok (ReserveResponse resp), w') ->
  recorded req resp (tables_of w') /\ owned req (tables_of w').
Proof.
  intros Hb Ho Hm Hr. unfold begun in Hb. rewrite bool_decide_eq_false_2 in Hb by done.
  destruct Hb as [S Hp]. split.
  - destruct (attempt_recorded Hok req uid job scope plan S _ Hp w _ _ eq_refl Hr)
      as (l & _ & _ & _ & Hpost). by apply Hpost.
  - by destruct (attempt_owned Hok req uid job scope plan w _ _ Ho Hr) as (l & _ & _ & Hpost).
Qed.

Lemma reserve_recorded uid (w : world X) resp w' :
  ReserveRequest.service_ids req <> [] -> NoDup (ReserveRequest.service_ids req) ->
  fine c k (tables_of w) ->
  _reserve (H := H) req uid w = (Ok (ReserveResponse resp), w') ->
  w_log w' <> w_log w ->
  recorded req resp (tables_of w') /\ owned req (tables_of w').
Proof.
  intros Hne Hnd Hfine Hr Hlog. unfold _reserve in Hr.
  apply try_except_cases in Hr as [[Hr _]|(e & w1 & _ & _ & Hh)];
    [|exfalso; injection Hh as Hh _;
      destruct (operation_error_shape "reserve" (ReserveRequest.request_id req) e) as [er Her];
      by rewrite Her in Hh].
  apply m_bind_inv in Hr as (job & w1 & Hjob & Hr).
  apply external_same in Hjob as (Hdb1 & Hlog1 & _). cbv zeta in Hr.
  apply m_bind_inv in Hr as (prior & w2 & Hprior & Hr).
  assert (fine c k (tables_of w2)) as Hfine2.
  { assert (fine c k (tables_of w1)) as Hf1 by (unfold tables_of; by rewrite Hdb1).
    destruct (begin_operation_triple Hok (X := X) (fine c k) _ _ _ _ _ (fun t f Ht => Ht)
      w1 _ _ Hf1 Hprior) as (_ & _ & _ & Hf2). exact Hf2. }
  apply journal_run in Hprior as [_ Hlog2]. destruct prior as [prior|].
  { exfalso. apply Hlog. rewrite <-Hlog1, <-Hlog2. eapply quiet; [|exact Hr].
    intros P I. unfold replay_reserve, accepted_allocation. keep. }
  apply m_bind_inv in Hr as (plan & w3 & Hplan & Hr).
  destruct (begin_allocation_begun Hok (X := X) _ _ _ _ _ _ _ Hne Hnd w2 _ _ Hfine2 Hplan)
    as (_ & _ & _ & Hbegun).
  apply journal_run in Hplan as [Hplan Hlog3]. case_bool_decide as Hm.
  { exfalso. apply Hlog. rewrite <-Hlog1, <-Hlog2, <-Hlog3.
    apply m_bind_inv in Hr as ([cls r] & w4 & Hr4 & Hr). injection Hr4 as _ <-.
    apply m_bind_inv in Hr as (u & w5 & Hc & Hr). injection Hr as _ <-.
    by apply journal_run in Hc as [_ ->]. }
  eapply attempt_outcome; [exact Hbegun| |exact Hm|exact Hr].
  exact (begin_allocation_owned _ _ _ _ _ _ _ _ Hne Hplan Hm).
Qed.
End asked.

(** The stored document determines the response. *)
Lemma reserve_dict_inj r1 r2 :
  response_to_dict (ReserveResponse r1) = response_to_dict (ReserveResponse r2) -> r1 = r2.
Proof.
  intros E. pose proof (response_dict_roundtrip (ReserveResponse r1)) as Hr.
  rewrite E, response_dict_roundtrip in Hr. by injection Hr.
Qed.

(** ** Properties *)

(** The journal of a healthy gateway is consistent in every state it
    reaches, whatever frames arrive and whatever the QPMs answer: every column
    reads back, and an allocation recorded as accepted stores an accepted
    response whose results are exactly its service set, one accepted row with
    the announced nonzero id each, and no other accepted row; an allocation
    that is delayed, rejected, rolled back, released or incompletely released
    keeps no accepted row. *)
Theorem reachable_consistent {ucd : UnicodeData} {jenv : JournalEnv} {sha : Sha256}
    {jlaws : JournalEnvLaws jenv} {X H} {adapter_ops : AdapterOps X H}
    {verifier_ops : VerifierOps X} {laws : AdapterLaws X H} (w : world X) :
  no_faults jenv -> reachable (H := H) w -> consistent (tables_of w).
Proof. intros Hok. by apply reachable_invariant. Qed.

(** Looking up an accepted allocation of a consistent journal *)
Lemma lookup_answers {ucd : UnicodeData} {jenv : JournalEnv} {X} {verifier_ops : VerifierOps X}
    req uid (w : world X) job x' row :
  no_faults jenv -> consistent (tables_of w) ->
  v_lookup req uid (w_ext w) = (Ok job, x') ->
  allocations (tables_of w) !! (GetReservationsRequest.cluster_name req,
    str_of_Z (VerifiedJob.canonical_job_id job)) = Some row ->
  Allocation.state row = txt "accepted" ->
  Allocation.job_uid row = VerifiedJob.uid job -> Allocation.job_gid row = VerifiedJob.gid job ->
  exists resp, Allocation.response row = Some (response_to_dict (ReserveResponse resp)) /\
    ReserveResponse.decision resp = AdmissionDecision.ACCEPTED /\
    (_get_reservations req uid w).1 = Ok (GetReservationsResponse
      (GetReservationsResponse.mk (GetReservationsRequest.request_id req)
         (VerifiedJob.canonical_job_id job) (announced (ReserveResponse.results resp)))).
Proof.
  intros Hok [Hv Hc] Hjob Hrow Hst Hu Hg.
  specialize (Hc (GetReservationsRequest.cluster_name req) (VerifiedJob.canonical_job_id job)).
  unfold consistent_at, row_consistent in Hc. rewrite Hrow, Hst in Hc. simpl in Hc.
  destruct (accepted_set_complete _ _ _ _ Hrow Hst Hc) as (resp & records & Hr & Hd & Ht & Hctx).
  exists resp. split_and!; [done..|]. rewrite Hu, Hg in Hctx.
  assert (rows_valid (tables_of w)) as Hrv
    by (eapply map_Forall_impl; [exact Hv|]; by intros ? ? [? _]).
  apply (context_of_complete _ _ _ _ _ _ Hrv) in Hctx.
  unfold _get_reservations, try_except, mbind, m_mbind, m_bind, external, zoom. rewrite Hjob.
  unfold journal, zoom. cbn [w_db].
  pose proof (reservation_context_run Hok (GetReservationsRequest.cluster_name req)
    (VerifiedJob.canonical_job_id job) (VerifiedJob.uid job) (VerifiedJob.gid job) (w_db w))
    as [Hrun _].
  destruct (reservation_context _ _ _ _ (w_db w)) as [r1 d1]. simpl in Hrun. subst r1.
  unfold tables_of in Hctx. rewrite Hctx. simpl. by rewrite Ht.
Qed.

(** In every state a healthy gateway reaches, a verified lookup of an
    allocation recorded as accepted for that owner succeeds, and its answer is
    the service and reservation id of every result of the accepted response
    the allocation stores. *)
Theorem accepted_lookup_answers {ucd : UnicodeData} {jenv : JournalEnv} {sha : Sha256}
    {jlaws : JournalEnvLaws jenv} {X H} {adapter_ops : AdapterOps X H}
    {verifier_ops : VerifierOps X} {laws : AdapterLaws X H} req uid (w : world X) job x' row :
  no_faults jenv -> reachable (H := H) w ->
  v_lookup req uid (w_ext w) = (Ok job, x') ->
  allocations (tables_of w) !! (GetReservationsRequest.cluster_name req,
    str_of_Z (VerifiedJob.canonical_job_id job)) = Some row ->
  Allocation.state row = txt "accepted" ->
  Allocation.job_uid row = VerifiedJob.uid job -> Allocation.job_gid row = VerifiedJob.gid job ->
  exists resp, Allocation.response row = Some (response_to_dict (ReserveResponse resp)) /\
    ReserveResponse.decision resp = AdmissionDecision.ACCEPTED /\
    (_get_reservations req uid w).1 = Ok (GetReservationsResponse
      (GetReservationsResponse.mk (GetReservationsRequest.request_id req)
         (VerifiedJob.canonical_job_id job) (announced (ReserveResponse.results resp)))).
Proof. intros Hok Hw. apply lookup_answers; [done|]. by apply (reachable_invariant (H := H) Hok). Qed.

(** C1 What an accepted reserve announces is what a lookup answers: when a
    reserve that arrives at a healthy gateway asks the QPMs and is accepted,
    whether it opens the allocation or extends it, a following lookup by the
    verified owner of the job answers the reservation of every result. *)
Theorem accepted_reserve_is_found {ucd : UnicodeData} {jenv : JournalEnv} {sha : Sha256}
    {jlaws : JournalEnvLaws jenv} {X H} {adapter_ops : AdapterOps X H}
    {verifier_ops : VerifierOps X} {laws : AdapterLaws X H}
    (w : world X) frame h req uid resp w' look uid' x job x' :
  no_faults jenv -> reachable (H := H) w ->
  decode_request frame = Ok (h, ReserveRequest req) ->
  handle (H := H) (ReserveRequest req) uid w = (Ok (ReserveResponse resp), w') ->
  ReserveResponse.decision resp = AdmissionDecision.ACCEPTED -> w_log w' <> w_log w ->
  GetReservationsRequest.cluster_name look = ReserveRequest.cluster_name req ->
  v_lookup look uid' x = (Ok job, x') ->
  VerifiedJob.canonical_job_id job = ReserveRequest.canonical_job_id req ->
  VerifiedJob.uid job = ReserveRequest.job_uid req ->
  VerifiedJob.gid job = ReserveRequest.job_gid req ->
  (_get_reservations look uid' (mk_world (w_db w') x (w_log w'))).1 =
    Ok (GetReservationsResponse (GetReservationsResponse.mk
      (GetReservationsRequest.request_id look) (ReserveRequest.canonical_job_id req)
      (announced (ReserveResponse.results resp)))).
Proof.
  intros Hok Hw Hq Hr Hd Hlog Hcl Hjob Hid Hu Hg.
  pose proof (reachable_invariant (H := H) Hok w Hw) as Hc.
  destruct (decoded_services_ok _ _ _ Hq) as [Hne Hnd].
  pose proof (handle_consistent Hok _ _ _ _ _ _ _ Hq Hc Hr) as Hc'.
  destruct (reserve_recorded Hok req uid w resp w' Hne Hnd) as [Hrec Howned];
    [split; apply Hc|exact Hr|exact Hlog|].
  destruct (proj2 Hrec Hd) as (row & Hrow & Hst & Hresp).
  destruct (Howned row Hrow) as [Hru Hrg].
  destruct (lookup_answers look uid' (mk_world (w_db w') x (w_log w')) job x' row Hok Hc' Hjob)
    as (resp' & Hresp' & _ & Hans); [by rewrite Hcl, Hid|done|congruence|congruence|].
  rewrite Hans, Hid. by rewrite (reserve_dict_inj resp resp') by congruence.
Qed.

(** ** A run of the sample site *)

Definition sample_request : ReserveRequest.t := sample_reserve 1 ["bee"; "aer"]%string.

Definition sample_frame : bytes :=
  match encode_reserve_request sample_request 77 with Ok f => f | Raise _ => [] end.

Definition sample_header : Header.t :=
  match decode_header sample_frame with
  | Ok h => h
  | Raise _ => Header.mk MessageType.ERROR_RESPONSE 0 0 0 0
  end.

Lemma sample_frame_decodes :
  decode_request sample_frame = Ok (sample_header, ReserveRequest sample_request).
Proof. vm_compute. reflexivity. Qed.

(** The answer to the sample request, and the world after it *)
Definition sample_answer : ReserveResponse.t :=
  match (handle (H := str) (ReserveRequest sample_request) 1000 sample_world).1 with
  | Ok (ReserveResponse r) => r
  | _ => ReserveResponse.mk 0 AdmissionDecision.REJECTED []
  end.

Definition answered_world : world site :=
  (handle (H := str) (ReserveRequest sample_request) 1000 sample_world).2.

Lemma sample_run :
  handle (H := str) (ReserveRequest sample_request) 1000 sample_world
    = (Ok (ReserveResponse sample_answer), answered_world).
Proof. unfold answered_world. apply run_outcome. vm_compute. reflexivity. Qed.

Lemma answered_reachable : reachable (H := str) answered_world.
Proof.
  eapply (reach_request _ sample_frame); [apply reach_start|exact sample_frame_decodes|exact sample_run].
Qed.

Lemma reachable_consistent_witness :
  no_faults healthy_env /\ reachable (H := str) answered_world /\ consistent (tables_of answered_world).
Proof.
  assert (no_faults healthy_env) as Hok by done. split; [exact Hok|].
  split; [exact answered_reachable|].
  exact (reachable_consistent (jlaws := healthy_env_laws) (laws := defw_adapter_laws)
    answered_world Hok answered_reachable).
Defined.

(** What the controller says about the owner of job 7 *)
Definition looked_up : VerifiedJob.t :=
  VerifiedJob.mk (txt "hpc") 7 1000 100 (txt "ada") (Some (txt "physics")) None (Some 12)
    (txt "RUNNING").

Lemma accepted_reserve_is_found_witness :
  let answer := GetReservationsResponse.mk 99 7
    [Reservation.mk (txt "aer") 41; Reservation.mk (txt "bee") 42] in
  reachable (H := str) sample_world /\
  decode_request sample_frame = Ok (sample_header, ReserveRequest sample_request) /\
  (_get_reservations sample_lookup 1000
     (mk_world (w_db answered_world) (w_ext answered_world) (w_log answered_world))).1
    = Ok (GetReservationsResponse answer).
Proof.
  intros answer.
  assert (no_faults healthy_env) as Hok by done.
  assert (reachable (H := str) sample_world) as Hw by apply reach_start.
  split; [exact Hw|]. split; [exact sample_frame_decodes|].
  assert (w_log answered_world <> w_log sample_world) as Hlog.
  { intros E. assert (length (w_log answered_world) = 2%nat) as Hl by (vm_compute; reflexivity).
    rewrite E in Hl. discriminate Hl. }
  assert (ReserveResponse.decision sample_answer = AdmissionDecision.ACCEPTED) as Hd
    by (vm_compute; reflexivity).
  assert (v_lookup sample_lookup 1000 (w_ext answered_world)
    = (Ok looked_up, (v_lookup sample_lookup 1000 (w_ext answered_world)).2)) as Hlook
    by (apply run_outcome; vm_compute; reflexivity).
  assert (announced (ReserveResponse.results sample_answer)
    = [Reservation.mk (txt "aer") 41; Reservation.mk (txt "bee") 42]) as Ha
    by (vm_compute; reflexivity).
  pose proof (accepted_reserve_is_found (jlaws := healthy_env_laws) (laws := defw_adapter_laws)
    sample_world sample_frame sample_header sample_request 1000 sample_answer answered_world
    sample_lookup 1000 (w_ext answered_world) looked_up _ Hok Hw sample_frame_decodes sample_run
    Hd Hlog eq_refl Hlook eq_refl eq_refl eq_refl) as Hans.
  rewrite Ha in Hans. exact Hans.
Defined.

Lemma accepted_lookup_answers_witness :
  exists resp, ReserveResponse.decision resp = AdmissionDecision.ACCEPTED /\
    (_get_reservations sample_lookup 1000 answered_world).1 = Ok (GetReservationsResponse
      (GetReservationsResponse.mk 99 7 (announced (ReserveResponse.results resp)))).
Proof.
  assert (no_faults healthy_env) as Hok by done.
  assert (v_lookup sample_lookup 1000 (w_ext answered_world)
    = (Ok looked_up, (v_lookup sample_lookup 1000 (w_ext answered_world)).2)) as Hlook
    by (apply run_outcome; vm_compute; reflexivity).
  assert ((fun r => (Allocation.state r, Allocation.job_uid r, Allocation.job_gid r)) <$>
    (allocations (tables_of answered_world) !! (txt "hpc", txt "7"))
    = Some (txt "accepted", 1000, 100)) as Hm by (vm_compute; reflexivity).
  destruct (allocations (tables_of answered_world) !! (txt "hpc", txt "7")) as [row|] eqn:Hrow;
    [|discriminate Hm]. injection Hm as Hst Hu Hg.
  destruct (accepted_lookup_answers (jlaws := healthy_env_laws) (laws := defw_adapter_laws)
    sample_lookup 1000 answered_world looked_up _ row Hok answered_reachable Hlook Hrow Hst Hu Hg)
    as (resp & _ & Hd & Hans).
  exists resp. split; [exact Hd|exact Hans].
Defined.
