(* ===== verification/Ledger.v ===== *)
(** * What the coordinator promises: a ledger of allocations

    The abstract service behind the journal. Its state says who holds which
    reservations, and nothing else; a request takes one of the steps below. *)

From S2P Require Import Prelude Python Enums Messages Values ResponseDict Journal OperationProps ConsistencyProps.
Local Open Scope Z_scope.

(** The reservations of an allocation and their owner *)
Record entry := mk_entry {
  owner_uid : Z;
  owner_gid : Z;
  held : list Reservation.t;
}.

Definition services_of (e : entry) : list str := map Reservation.service_id (held e).

(** By cluster and canonical job id *)
Abbreviation ledger := (gmap (str * str) entry).

Definition reserve_key (r : ReserveRequest.t) : str * str :=
  (ReserveRequest.cluster_name r, str_of_Z (ReserveRequest.canonical_job_id r)).
Definition release_ledger_key (r : ReleaseRequest.t) : str * str :=
  (ReleaseRequest.cluster_name r, str_of_Z (ReleaseRequest.canonical_job_id r)).

(** The entry that holds what a response announces, for the job of a request *)
Definition granted (r : ReserveRequest.t) (resp : ReserveResponse.t) : entry :=
  mk_entry (ReserveRequest.job_uid r) (ReserveRequest.job_gid r)
    (announced (ReserveResponse.results resp)).

(** The entry has a reservation of every service the request names. *)
Definition covers (e : entry) (r : ReserveRequest.t) : Prop :=
  forall s, s ∈ ReserveRequest.service_ids r -> s ∈ services_of e.

(** [recorded] is the answer on record for the operation of the request. *)
Inductive ledger_step (recorded : option response) (L : ledger) : request -> response -> ledger -> Prop :=
(** an error means that nothing happened *)
| step_refused q er : ledger_step recorded L q (ErrorResponse er) L
(** an evaluation holds nothing *)
| step_evaluated r resp : ledger_step recorded L (EvaluateRequest r) resp L
(** a lookup answers the entry of its owner *)
| step_looked_up r resp e :
    L !! (GetReservationsRequest.cluster_name r,
          str_of_Z (GetReservationsResponse.canonical_job_id resp)) = Some e ->
    owner_uid e = GetReservationsRequest.job_uid r ->
    owner_gid e = GetReservationsRequest.job_gid r ->
    GetReservationsResponse.reservations resp = held e ->
    ledger_step recorded L (GetReservationsRequest r) (GetReservationsResponse resp) L
(** a repeated request is answered from the record *)
| step_replayed q resp : recorded = Some resp -> ledger_step recorded L q resp L
(** a reserve that is delayed or rejected holds nothing more *)
| step_declined r resp :
    ReserveResponse.decision resp <> AdmissionDecision.ACCEPTED ->
    ledger_step recorded L (ReserveRequest r) (ReserveResponse resp) L
(** a reserve of services that are held answers the entry *)
| step_covered r resp :
    ReserveResponse.decision resp = AdmissionDecision.ACCEPTED ->
    L !! reserve_key r = Some (granted r resp) -> covers (granted r resp) r ->
    ledger_step recorded L (ReserveRequest r) (ReserveResponse resp) L
(** an accepted reserve adds to the entry of its owner what it announces *)
| step_granted r resp :
    ReserveResponse.decision resp = AdmissionDecision.ACCEPTED ->
    covers (granted r resp) r ->
    (forall e, L !! reserve_key r = Some e ->
       owner_uid e = ReserveRequest.job_uid r /\ owner_gid e = ReserveRequest.job_gid r /\
       forall x, x ∈ held e -> x ∈ held (granted r resp)) ->
    ledger_step recorded L (ReserveRequest r) (ReserveResponse resp)
      (<[reserve_key r := granted r resp]> L)
(** a release empties the entry *)
| step_released r resp :
    ledger_step recorded L (ReleaseRequest r) (ReleaseResponse resp)
      (delete (release_ledger_key r) L).

(** ** The ledger of a journal *)

(** What a stored document says is held *)
Definition entry_of (uid gid : Z) (document : pyval) : option entry :=
  match response_from_dict document with
  | Ok (ReserveResponse resp) => Some (mk_entry uid gid (announced (ReserveResponse.results resp)))
  | _ => None
  end.

Definition entry_of_row (row : Allocation.t) : option entry :=
  if bool_decide (Allocation.state row = txt "accepted") then
    document ← Allocation.response row;
    entry_of (Allocation.job_uid row) (Allocation.job_gid row) document
  else None.

Definition ledger_of (t : tables) : ledger := omap entry_of_row (allocations t).

(** The answer a completed operation stores *)
Definition answer_of_row (row : Operation.t) : option response :=
  if bool_decide (Operation.state row = txt "complete") then
    document ← Operation.response row;
    match response_from_dict document with Ok resp => Some resp | Raise _ => None end
  else None.

(** The answer on record for the operation of a request *)
Definition recorded_answer (q : request) (uid : Z) (t : tables) : option response :=
  K ← operation_key q uid; row ← operations t !! K; answer_of_row row.

Lemma ledger_lookup t K : ledger_of t !! K = allocations t !! K ≫= entry_of_row.
Proof. apply lookup_omap. Qed.

Lemma entry_of_reserve uid gid resp :
  entry_of uid gid (response_to_dict (ReserveResponse resp))
  = Some (mk_entry uid gid (announced (ReserveResponse.results resp))).
Proof. unfold entry_of. by rewrite response_dict_roundtrip. Qed.

(** Two ledgers that agree at a key and everywhere else are the same. *)
Lemma ledger_same_at t t' K :
  (forall K', K' <> K -> allocations t' !! K' = allocations t !! K') ->
  ledger_of t' = partial_alter (fun _ => ledger_of t' !! K) K (ledger_of t).
Proof.
  intros Hother. apply map_eq. intros K'. destruct (decide (K' = K)) as [->|Hne].
  - by rewrite lookup_partial_alter, decide_True.
  - rewrite lookup_partial_alter, decide_False by done. by rewrite !ledger_lookup, Hother.
Qed.

Lemma ledger_unchanged t t' K :
  (forall K', K' <> K -> allocations t' !! K' = allocations t !! K') ->
  ledger_of t' !! K = ledger_of t !! K -> ledger_of t' = ledger_of t.
Proof.
  intros Ho E. rewrite (ledger_same_at t t' K Ho), E. apply partial_alter_self.
Qed.
