(* ===== verification/LedgerFacts.v ===== *)
(** * The journal carries the ledger

    Triples of the coordinator's requests on a healthy disk: how they change
    the entry of their allocation. *)

From S2P Require Import Prelude Python Utf8 Enums Messages Wire Values ResponseDict Effects Journal JournalFacts JournalProps SlurmVerifier Adapter Service ServiceFacts Triples Consistency ReserveFacts HandlerFacts OperationProps ConsistencyProps Ledger.
Local Open Scope Z_scope.

(** ** Closed allocations store no acceptance *)

(** Read as the answer of a reserve, the document does not accept. *)
Definition declines (document : pyval) : Prop :=
  forall msg cls r, reserve_response_of document msg = Ok (cls, r) ->
    cls = ReserveResponse /\ ReserveResponse.decision r <> AdmissionDecision.ACCEPTED.

Definition row_settled (row : Allocation.t) : Prop :=
  open_state (Allocation.state row) = false -> Allocation.state row <> txt "accepted" ->
  forall document, Allocation.response row = Some document -> declines document.

Definition settled (t : tables) : Prop := map_Forall (fun _ => row_settled) (allocations t).

Lemma declines_error er : declines (response_to_dict (ErrorResponse er)).
Proof. intros msg cls r. unfold reserve_response_of. by rewrite response_dict_roundtrip. Qed.

Lemma declines_release resp : declines (response_to_dict (ReleaseResponse resp)).
Proof. intros msg cls r. unfold reserve_response_of. by rewrite response_dict_roundtrip. Qed.

Lemma declines_reserve resp :
  ReserveResponse.decision resp <> AdmissionDecision.ACCEPTED ->
  declines (response_to_dict (ReserveResponse resp)).
Proof.
  intros Hd msg cls r. unfold reserve_response_of. rewrite response_dict_roundtrip. simpl.
  by intros [= <- <-].
Qed.

Lemma row_settled_insert K row t :
  settled t -> row_settled row -> settled (set_allocations <[K := row]> t).
Proof. intros Ht Hr. by apply map_Forall_insert_2. Qed.

Lemma open_settled row : open_state (Allocation.state row) = true -> row_settled row.
Proof. intros Ho Hc. congruence. Qed.

Lemma accepted_settled row : Allocation.state row = txt "accepted" -> row_settled row.
Proof. by intros Ha _ Hn. Qed.

Section settled.
Context {ucd : UnicodeData} {jenv : JournalEnv} {sha : Sha256} (Hok : no_faults jenv).
Context {X H : Type} {adapter_ops : AdapterOps X H} {verifier_ops : VerifierOps X}.

Lemma update_settled c j missing f :
  (forall now row, row_settled row -> row_settled (f now row)) ->
  keeps any settled (journal (X := X) (update_allocation c j missing f)).
Proof.
  intros Hf. apply update_triple; [done| |done]. intros t now row Ht Hrow.
  apply row_settled_insert; [done|]. apply Hf. by eapply map_Forall_lookup_1 in Ht.
Qed.

Lemma complete_settled c j st document :
  st = txt "accepted" \/ declines document ->
  keeps any settled (journal (X := X) (complete_allocation c j st document)).
Proof.
  intros Hd. apply update_settled. intros now row _.
  destruct Hd as [->|Hd]; [by apply accepted_settled|]. by intros _ _ d [= <-].
Qed.

Lemma operation_settled uid op rid r scope st :
  keeps any settled (journal (X := X) (complete_operation uid op rid r scope st)).
Proof. apply operation_triple; [done|]. intros t f Ht. exact Ht. Qed.

Lemma begin_operation_settled uid op rid fp scope :
  keeps any settled (journal (X := X) (begin_operation uid op rid fp scope)).
Proof. apply begin_operation_triple; [done|]. intros t f Ht. exact Ht. Qed.

Lemma set_state_settled c j :
  keeps any settled (journal (X := X) (set_allocation_state c j (txt "rolling-back"))).
Proof.
  apply statement_triple; [done|]. intros now t Ht.
  destruct (allocations t !! _) eqn:E; [|done]. apply row_settled_insert; [done|by apply open_settled].
Qed.

Lemma record_settled c j r diag :
  keeps any settled (journal (X := X) (record_reservation c j r diag)).
Proof. apply statement_triple; [done|]. intros now t Ht. exact Ht. Qed.

Lemma begin_allocation_settled c j uid gid services fp rfp :
  keeps any settled (journal (X := X) (begin_allocation c j uid gid services fp rfp)).
Proof.
  apply statement_triple; [done|]. intros now t Ht. cbv zeta.
  repeat case_match; simplify_eq/=; try done; by apply row_settled_insert; [|apply open_settled].
Qed.

Lemma release_event_settled b rid reason :
  keeps any settled (adapter_release (X := X) (H := H) b rid reason).
Proof. by apply triple_adapter_release. Qed.

Lemma reserve_event_settled b req job :
  keeps any settled (adapter_reserve (X := X) (H := H) b req job).
Proof. by apply triple_adapter_reserve. Qed.
End settled.

#[export] Hint Resolve operation_settled begin_operation_settled set_state_settled record_settled
  begin_allocation_settled release_event_settled reserve_event_settled : triples.

Section requests.
Context {ucd : UnicodeData} {jenv : JournalEnv} {sha : Sha256} (Hok : no_faults jenv).
Context {X H : Type} {adapter_ops : AdapterOps X H} {verifier_ops : VerifierOps X}.

Lemma finish_settled req uid scope plan resp :
  keeps any settled (finish_reserve (X := X) req uid scope plan resp).
Proof.
  unfold finish_reserve. apply keeps_bind; [|intros _; by apply operation_settled].
  destruct (_ || _); [|apply keeps_mret]. apply complete_settled; [done|].
  destruct (ReserveResponse.decision resp) eqn:E; [by left|right..];
    apply declines_reserve; by rewrite E.
Qed.

Lemma failed_settled req uid scope plan e :
  keeps any settled (_journal_failed_attempt (X := X) req uid scope plan e).
Proof.
  unfold _journal_failed_attempt. apply keeps_bind; [|intros _; by apply operation_settled].
  destruct (is_extension plan); [apply keeps_mret|]. apply complete_settled; [done|]. right.
  destruct (operation_error_shape "reserve" (ReserveRequest.request_id req) e) as [er ->].
  apply declines_error.
Qed.

Lemma restore_settled req plan : keeps any settled (restore_plan (X := X) req plan).
Proof. apply update_settled; [done|]. intros now row _. by apply accepted_settled. Qed.

Lemma rollback_settled req l : keeps any settled (_rollback (X := X) (H := H) req l).
Proof. unfold _rollback, rollback_one. keep. Qed.

Lemma loop_settled req job fp services l :
  keeps any settled (reserve_loop (X := X) (H := H) req job fp services l).
Proof.
  pose proof (rollback_settled req).
  revert l. induction services as [|s services IH]; intros l; simpl; [keep|].
  unfold attempt_service. keep.
Qed.

Lemma reserve_settled req uid : keeps any settled (_reserve (X := X) (H := H) req uid).
Proof.
  pose proof (finish_settled req uid). pose proof (failed_settled req uid).
  pose proof (restore_settled req). pose proof (loop_settled req).
  unfold _reserve, run_attempt, _reserve_services, merge_extension, replay_reserve,
    accepted_allocation, _complete. keep.
Qed.

Lemma release_one_closed req r : keeps any settled (_release_one (X := X) (H := H) req r).
Proof. unfold _release_one. keep. Qed.

Lemma complete_release_settled c j st resp :
  keeps any settled (journal (X := X) (complete_allocation c j st (response_to_dict (ReleaseResponse resp)))).
Proof. apply complete_settled; [done|]. right. apply declines_release. Qed.

Lemma reservations_settled c j : keeps any settled (journal (X := X) (reservations c j)).
Proof. apply keeps_query. Qed.

Lemma status_settled c j : keeps any settled (journal (X := X) (allocation_status c j)).
Proof. apply keeps_reads. unfold allocation_status, reservations. preserve. Qed.

Lemma release_settled_ledger req uid : keeps any settled (_release (X := X) (H := H) req uid).
Proof.
  pose proof (release_one_closed req). pose proof complete_release_settled.
  pose proof reservations_settled. pose proof status_settled.
  unfold _release, run_release. keep.
Qed.

Lemma retry_settled req : keeps any settled (retry_release (X := X) (H := H) req).
Proof.
  pose proof (release_one_closed req). pose proof complete_release_settled.
  pose proof reservations_settled. unfold retry_release. keep.
Qed.
End requests.

(** ** Operations on record *)

Definition recorded_op (K : Z * str * str * str) (t : tables) : Prop := is_Some (operations t !! K).

Section operations.
Context {ucd : UnicodeData} {jenv : JournalEnv} {sha : Sha256} (Hok : no_faults jenv) {X : Type}.
Context (I : tables -> Prop) (Hi : forall t f, I t -> I (set_operations f t)).

(** An operation that was begun can be completed. *)
Lemma complete_known uid name rid scope r st :
  one_of st ["complete"; "retryable"]%string = true ->
  triple any (fun t => I t /\ recorded_op (uid, name, str_of_Z rid, scope) t)
    (journal (X := X) (complete_operation uid name rid r scope st))
    (fun _ t => I t /\ recorded_op (uid, name, str_of_Z rid, scope) t) (fun _ _ => False).
Proof.
  intros Hst. unfold complete_operation. rewrite Hst. simpl. apply statement_triple; [done|].
  intros now t [Ht [row Hrow]]. cbv zeta. rewrite Hrow. split; [by apply Hi|].
  eexists. simpl. apply lookup_insert_eq.
Qed.

(** Beginning an operation records it; a prior record is returned. *)
Lemma begin_recorded uid name rid fp scope before :
  triple any (fun t => I t /\ operations t !! (uid, name, str_of_Z rid, scope) = before)
    (journal (X := X) (begin_operation uid name rid fp scope))
    (fun prior t => I t /\ match prior with
       | Some prior => exists row, before = Some row /\
           prior = mk_operation_record (Operation.state row) (Operation.response row)
       | None => recorded_op (uid, name, str_of_Z rid, scope) t
       end)
    (fun _ => I).
Proof.
  apply statement_triple; [done|]. intros now t [Ht <-]. cbv zeta.
  destruct (operations t !! _) as [row|] eqn:Hrow.
  - case_bool_decide; simpl; [|done]. case_bool_decide; simpl; [|by eauto].
    split; [by apply Hi|]. eexists. simpl. apply lookup_insert_eq.
  - split; [by apply Hi|]. eexists. simpl. apply lookup_insert_eq.
Qed.
End operations.

(** What a replay reads is the answer on record. *)
Lemma completed_answer name row stored resp :
  completed_response name (mk_operation_record (Operation.state row) (Operation.response row)) = Ok stored ->
  response_from_dict stored = Ok resp -> answer_of_row row = Some resp.
Proof.
  unfold completed_response, answer_of_row. simpl.
  destruct (Operation.response row) as [document|]; [|done]. case_bool_decide; [|done].
  intros [= <-]. simpl. by intros ->.
Qed.
