(* ===== verification/ReserveLedger.v ===== *)
(** * A reserve in the ledger

    How a reserve changes the entry of its allocation: not at all, or to what
    its accepted answer announces. *)

From S2P Require Import Prelude Python Utf8 Enums Messages Wire Values ResponseDict Effects Journal JournalFacts JournalProps SlurmVerifier Adapter Service ServiceFacts Triples Consistency ReserveFacts HandlerFacts OperationProps ConsistencyProps Ledger LedgerFacts.
Local Open Scope Z_scope.

(** ** Announced reservations *)

Definition has_reservation (x : ServiceResult.t) : Prop := ServiceResult.reservation_id x <> None.

Lemma announced_services results :
  Forall has_reservation results ->
  map Reservation.service_id (announced results) = map ServiceResult.service_id results.
Proof.
  unfold announced. induction 1 as [|x l Hx _ IH]; [done|]. unfold has_reservation in Hx.
  cbn [omap list_omap map]. destruct (ServiceResult.reservation_id x); [|done]. simpl. by rewrite IH.
Qed.

Lemma announced_subset results results' :
  (forall x, x ∈ results -> x ∈ results') -> forall y, y ∈ announced results -> y ∈ announced results'.
Proof.
  intros Hs y. unfold announced. rewrite !list_elem_of_omap. intros (x & Hx & E). eauto.
Qed.

(** Two triples of one block *)
Lemma triple_and {X A} P P' (I I' : tables -> Prop) (m : M (world X) A) Q Q' E E' :
  triple P I m Q E -> triple P' I' m Q' E' ->
  triple P (fun t => I t /\ I' t) m (fun a t => Q a t /\ Q' a t) E.
Proof.
  intros H1 H2 w r w' [Hi Hi'] Hr. destruct (H1 w r w' Hi Hr) as (l & Hl & Hp & Hpost).
  destruct (H2 w r w' Hi' Hr) as (_ & _ & _ & Hpost'). exists l. split_and!; [done..|].
  by destruct r.
Qed.

(** A fact of the precondition that does not speak of the tables *)
Lemma triple_pure {X A} P (I : tables -> Prop) (fact : Prop) (m : M (world X) A) Q E :
  (fact -> triple P I m Q E) -> triple P (fun t => I t /\ fact) m Q E.
Proof. intros Hm w r w' [Hi Hf]. by apply Hm. Qed.

Section reserve.
Context {ucd : UnicodeData} {jenv : JournalEnv} {sha : Sha256} {jlaws : JournalEnvLaws jenv}
  (Hok : no_faults jenv).
Context {X H : Type} {adapter_ops : AdapterOps X H} {verifier_ops : VerifierOps X}
  {laws : AdapterLaws X H}.
Context (req : ReserveRequest.t) (uid : Z) (e0 : option entry).
Abbreviation c := (ReserveRequest.cluster_name req).
Abbreviation j := (ReserveRequest.canonical_job_id req).
Abbreviation k := (str_of_Z (ReserveRequest.canonical_job_id req)).
Abbreviation key := (reserve_key req).
Abbreviation op := (uid, txt "reserve", str_of_Z (ReserveRequest.request_id req), _operation_scope req).

Definition at_entry (e : option entry) (t : tables) : Prop := ledger_of t !! key = e.
Abbreviation has_op := (recorded_op op).

(** While the attempt runs, nothing is held and the row is the owner's. *)
Definition during (t : tables) : Prop :=
  has_op t /\
  exists row, allocations t !! key = Some row /\ Allocation.state row <> txt "accepted" /\
    Allocation.job_uid row = ReserveRequest.job_uid req /\
    Allocation.job_gid row = ReserveRequest.job_gid req.

Lemma entry_closed row t :
  Allocation.state row <> txt "accepted" -> at_entry None (set_allocations <[key := row]> t).
Proof.
  intros Hst. unfold at_entry. rewrite ledger_lookup. simpl. rewrite lookup_insert_eq. simpl.
  unfold entry_of_row. by rewrite bool_decide_eq_false_2.
Qed.

Lemma entry_accepted row document t :
  Allocation.state row = txt "accepted" -> Allocation.response row = Some document ->
  at_entry (entry_of (Allocation.job_uid row) (Allocation.job_gid row) document)
    (set_allocations <[key := row]> t).
Proof.
  intros Hst Hr. unfold at_entry. rewrite ledger_lookup. simpl. rewrite lookup_insert_eq. simpl.
  unfold entry_of_row. by rewrite bool_decide_eq_true_2, Hr.
Qed.

Lemma during_closed t : during t -> at_entry None t.
Proof.
  intros (_ & row & Hrow & Hst & _). unfold at_entry. rewrite ledger_lookup, Hrow. simpl.
  unfold entry_of_row. by rewrite bool_decide_eq_false_2.
Qed.

Lemma record_during r diag :
  triple any during (journal (X := X) (record_reservation c j r diag)) (fun _ => during) (fun _ => during).
Proof. apply statement_triple; [done|]. intros now t Ht. exact Ht. Qed.

Lemma set_state_during :
  triple any during (journal (X := X) (set_allocation_state c j (txt "rolling-back")))
    (fun _ => during) (fun _ => during).
Proof.
  apply statement_triple; [done|]. intros now t (Hop & row & Hrow & _ & Hu & Hg).
  unfold key, reserve_key in Hrow. rewrite Hrow. split; [done|].
  eexists. split_and!; [apply lookup_insert_eq|done..].
Qed.

Lemma rollback_during l : keeps any during (_rollback (X := X) (H := H) req l).
Proof.
  pose proof record_during. pose proof set_state_during.
  assert (forall b rid reason, keeps any during (adapter_release (X := X) (H := H) b rid reason))
    by (intros; by apply triple_adapter_release).
  unfold _rollback, rollback_one. keep.
Qed.

Lemma loop_during job fp services l :
  keeps any during (reserve_loop (X := X) (H := H) req job fp services l).
Proof.
  pose proof rollback_during. pose proof record_during.
  assert (forall b, keeps any during (adapter_reserve (X := X) (H := H) b req job))
    by (intros; by apply triple_adapter_reserve).
  revert l. induction services as [|s services IH]; intros l; simpl; [keep|].
  unfold attempt_service. keep.
Qed.

(** ** The attempt *)

(** What the plan starts from: an extension from the entry it holds *)
Definition resumes (plan : AllocationPlan) : Prop :=
  if is_extension plan then
    exists previous, existing_response plan = Some (response_to_dict (ReserveResponse previous)) /\
      map ServiceResult.service_id (ReserveResponse.results previous)
        = sorted_str (existing_services plan) /\
      Forall has_reservation (ReserveResponse.results previous) /\
      e0 = Some (granted req previous)
  else existing_services plan = [] /\ e0 = None.

Definition requested (plan : AllocationPlan) : Prop :=
  forall s, s ∈ ReserveRequest.service_ids req ->
    s ∈ existing_services plan \/ s ∈ missing_services plan.

Lemma restore_entry plan :
  is_extension plan = true -> resumes plan ->
  triple any during (restore_plan (X := X) req plan) (fun _ t => at_entry e0 t /\ has_op t)
    (fun _ _ => False).
Proof.
  intros Hx Hres. unfold resumes in Hres. rewrite Hx in Hres.
  destruct Hres as (previous & Hprev & _ & _ & ->).
  apply update_triple; [done|..].
  - intros t now row (Hop & row' & Hrow' & _ & Hu & Hg) Hrow.
    unfold key, reserve_key in Hrow'. assert (row' = row) as -> by congruence.
    split; [|done]. rewrite Hprev. unfold granted. rewrite <-Hu, <-Hg, <-entry_of_reserve.
    exact (entry_accepted (Allocation.mk _ _ _ _ _ _ _) _ t eq_refl eq_refl).
  - intros t (_ & row & Hrow & _) Hn. unfold key, reserve_key in Hrow. congruence.
Qed.

Lemma complete_closed_entry st document :
  st <> txt "accepted" ->
  triple any during (journal (X := X) (complete_allocation c j st document))
    (fun _ t => at_entry None t /\ has_op t) (fun _ _ => False).
Proof.
  intros Hst. apply update_triple; [done|..].
  - intros t now row (Hop & _) _. split; [by apply entry_closed|done].
  - intros t (_ & row & Hrow & _) Hn. unfold key, reserve_key in Hrow. congruence.
Qed.

Lemma at_entry_operations e t f : at_entry e t -> at_entry e (set_operations f t).
Proof. done. Qed.

Lemma run_attempt_entry job plan :
  resumes plan ->
  triple any during (run_attempt (H := H) req uid job (_operation_scope req) plan)
    (fun _ => during) (caught (at_entry e0)).
Proof.
  intros Hres. unfold run_attempt, on_error. eapply triple_try.
  - unfold _reserve_services. apply loop_during.
  - intros e He. eapply (triple_bind _ _ _ _ (fun _ => at_entry e0));
      [|intros []; apply triple_raise; by intros t Ht _].
    apply (triple_conseq _ _ during _ _ (fun _ => at_entry e0) _ (fun _ _ => False)); [|done..].
    unfold _journal_failed_attempt.
    destruct (is_extension plan) eqn:Hx.
    + eapply triple_bind; [by apply restore_entry|intros []; cbv beta].
      destruct (isa_RollbackIncomplete e); [by apply triple_ret; intros t []|].
      apply (triple_bind _ _ _ _ (fun _ t => at_entry e0 t /\ has_op t)); [by apply triple_ret|intros []].
      eapply triple_conseq; [by apply (complete_known Hok (at_entry e0))|done|by intros _ t []|done].
    + unfold resumes in Hres. rewrite Hx in Hres. destruct Hres as [_ ->].
      eapply (triple_bind _ _ _ _ (fun _ => during)); [by apply triple_ret|intros []].
      destruct (isa_RollbackIncomplete e); [apply triple_ret; apply during_closed|].
      eapply triple_bind; [by apply complete_closed_entry|intros []; cbv beta].
      eapply triple_conseq; [by apply (complete_known Hok (at_entry None))|done|by intros _ t []|done].
  - intros e t He _. unfold caught. congruence.
Qed.
(** An accepted attempt has a reservation of each missing service. *)
Definition fresh (plan : AllocationPlan) (resp : ReserveResponse.t) : Prop :=
  ReserveResponse.decision resp = AdmissionDecision.ACCEPTED ->
  map ServiceResult.service_id (ReserveResponse.results resp) = sorted_str (missing_services plan) /\
  Forall has_reservation (ReserveResponse.results resp).

Lemma attempt_end_fresh plan S t0 resp t :
  attempt_end (H := H) req S (missing_services plan) t0 [] (sorted_str (missing_services plan)) resp t ->
  fresh plan resp.
Proof.
  unfold attempt_end, fresh. intros Ht Hd. rewrite bool_decide_eq_true_2 in Ht by done.
  destruct Ht as (l & Hl & -> & Hids). destruct (held_results _ _ _ _ _ _ Hl) as (_ & E & Hreads).
  split; [by rewrite E, Hids|]. eapply Forall_impl; [exact Hreads|]. by intros x [Hx _].
Qed.

(** The entry after an accepted reserve *)
Definition grown (resp : ReserveResponse.t) : Prop :=
  covers (granted req resp) req /\
  forall e, e0 = Some e ->
    owner_uid e = ReserveRequest.job_uid req /\ owner_gid e = ReserveRequest.job_gid req /\
    forall x, x ∈ held e -> x ∈ held (granted req resp).

Lemma covers_granted resp :
  Forall has_reservation (ReserveResponse.results resp) ->
  (forall s, s ∈ ReserveRequest.service_ids req ->
     s ∈ map ServiceResult.service_id (ReserveResponse.results resp)) ->
  covers (granted req resp) req.
Proof.
  intros Hr Hs s Hin. unfold services_of, granted. simpl. rewrite announced_services by done. auto.
Qed.

Lemma grown_new plan resp :
  is_extension plan = false -> resumes plan -> requested plan -> fresh plan resp ->
  ReserveResponse.decision resp = AdmissionDecision.ACCEPTED -> grown resp.
Proof.
  unfold resumes. intros Hx Hres Hreq Hf Hd. rewrite Hx in Hres. destruct Hres as [He He0].
  destruct (Hf Hd) as [Hids Hr]. split; [|by rewrite He0].
  apply covers_granted; [done|]. intros s Hs. rewrite Hids, elem_of_sorted_str.
  destruct (Hreq s Hs) as [Hin|]; [|done]. rewrite He in Hin. by apply not_elem_of_nil in Hin.
Qed.

Lemma grown_extension plan previous resp rid :
  is_extension plan = true -> resumes plan -> requested plan -> fresh plan resp ->
  ReserveResponse.decision resp = AdmissionDecision.ACCEPTED ->
  existing_response plan = Some (response_to_dict (ReserveResponse previous)) ->
  grown (ReserveResponse.mk rid AdmissionDecision.ACCEPTED
    (sort_by str_leb ServiceResult.service_id
       (ReserveResponse.results previous ++ ReserveResponse.results resp))).
Proof.
  unfold resumes. intros Hx Hres Hreq Hf Hd Hprev. rewrite Hx in Hres.
  destruct Hres as (p & Hp & Hids0 & Hr0 & He0).
  assert (p = previous) as -> by (apply reserve_dict_inj; congruence).
  destruct (Hf Hd) as [Hids Hr]. split.
  - apply covers_granted; simpl.
    + rewrite sort_by_perm. by apply Forall_app.
    + intros s Hs. rewrite sort_by_perm, map_app, Hids0, Hids, elem_of_app, !elem_of_sorted_str. auto.
  - rewrite He0. intros e [= <-]. split_and!; [done..|]. simpl. apply announced_subset.
    intros x Hin. rewrite sort_by_perm. apply elem_of_app. by left.
Qed.

(** What is left to record after the merge *)
Definition to_record (plan : AllocationPlan) (resp : ReserveResponse.t) (t : tables) : Prop :=
  if bool_decide (ReserveResponse.decision resp = AdmissionDecision.ACCEPTED)
  then during t /\ grown resp
  else if is_extension plan then at_entry e0 t /\ has_op t else during t /\ e0 = None.

Lemma merge_entry plan resp :
  resumes plan -> requested plan -> fresh plan resp ->
  triple any during (merge_extension (X := X) req plan resp) (to_record plan) (fun _ _ => False).
Proof.
  intros Hres Hreq Hf. unfold merge_extension, to_record. destruct (is_extension plan) eqn:Hx.
  - case_bool_decide as Hd.
    + pose proof Hres as Hp. unfold resumes in Hp. rewrite Hx in Hp.
      destruct Hp as (previous & Hprev & _). eapply (triple_lift_ok _ _ _ (ReserveResponse, previous)).
      { unfold planned_response, reserve_response_of. rewrite Hprev. simpl.
        by rewrite response_dict_roundtrip. }
      apply triple_ret. intros t Ht. simpl. split; [done|]. by eapply grown_extension.
    + eapply triple_bind; [by apply restore_entry|intros []; cbv beta].
      apply triple_ret. intros t Ht. by rewrite bool_decide_eq_false_2.
  - apply triple_ret. intros t Ht. case_bool_decide as Hd; (split; [done|]).
    + by eapply grown_new.
    + unfold resumes in Hres. rewrite Hx in Hres. apply Hres.
Qed.

(** The entry once the outcome is recorded *)
Definition recorded_entry (resp : ReserveResponse.t) (t : tables) : Prop :=
  if bool_decide (ReserveResponse.decision resp = AdmissionDecision.ACCEPTED)
  then at_entry (Some (granted req resp)) t /\ grown resp
  else at_entry e0 t.

Lemma complete_granted resp :
  triple any during
    (journal (X := X) (complete_allocation c j (txt "accepted") (response_to_dict (ReserveResponse resp))))
    (fun _ t => at_entry (Some (granted req resp)) t /\ has_op t) (fun _ _ => False).
Proof.
  apply update_triple; [done|..].
  - intros t now row (Hop & row' & Hrow' & _ & Hu & Hg) Hrow.
    unfold reserve_key in Hrow'. assert (row' = row) as -> by congruence.
    split; [|done]. unfold granted. rewrite <-Hu, <-Hg, <-entry_of_reserve.
    exact (entry_accepted (Allocation.mk _ _ _ _ _ _ _) _ t eq_refl eq_refl).
  - intros t (_ & row & Hrow & _) Hn. unfold reserve_key in Hrow. congruence.
Qed.

Lemma finish_entry plan resp :
  triple any (to_record plan resp)
    (finish_reserve (X := X) req uid (_operation_scope req) plan resp)
    (fun _ => recorded_entry resp) (fun _ _ => False).
Proof.
  unfold finish_reserve, to_record, recorded_entry.
  assert (forall e st (Q : tables -> Prop), one_of st ["complete"; "retryable"]%string = true ->
    (forall t, at_entry e t -> Q t) ->
    triple any (fun t => at_entry e t /\ has_op t)
      (journal (X := X) (complete_operation uid (txt "reserve") (ReserveRequest.request_id req)
         (response_to_dict (ReserveResponse resp)) (_operation_scope req) st))
      (fun _ => Q) (fun _ _ => False)) as Hop.
  { intros e st Q Hst HQ. eapply triple_conseq; [by apply (complete_known Hok (at_entry e))|done| |done].
    intros _ t [Ht _]. by apply HQ. }
  assert (forall st st', st <> txt "accepted" -> one_of st' ["complete"; "retryable"]%string = true ->
    triple any (fun t => if is_extension plan then at_entry e0 t /\ has_op t else during t /\ e0 = None)
      (_ ← (if negb (is_extension plan) || false then
              journal (X := X) (complete_allocation c j st (response_to_dict (ReserveResponse resp)))
            else mret tt);
       journal (X := X) (complete_operation uid (txt "reserve") (ReserveRequest.request_id req)
         (response_to_dict (ReserveResponse resp)) (_operation_scope req) st'))
      (fun _ => at_entry e0) (fun _ _ => False)) as Hdeclined.
  { intros st st' Hst Hst'. destruct (is_extension plan); simpl.
    - apply (triple_bind _ _ _ _ (fun _ t => at_entry e0 t /\ has_op t)); [by apply triple_ret|intros []].
      by apply Hop.
    - apply triple_pure. intros ->. eapply triple_bind; [by apply complete_closed_entry|intros []; cbv beta].
      by apply Hop. }
  destruct (ReserveResponse.decision resp) eqn:Hd; simpl; [|by apply Hdeclined..].
  rewrite orb_true_r. apply triple_pure. intros Hg.
  eapply triple_bind; [apply complete_granted|intros []; cbv beta]. by apply Hop.
Qed.
Lemma attempt_entry job plan S t0 :
  planned_from c k S plan t0 -> resumes plan -> requested plan ->
  triple any (fun t => during t /\ t = t0)
    (resp ← run_attempt (H := H) req uid job (_operation_scope req) plan;
     resp ← merge_extension req plan resp;
     _ ← finish_reserve req uid (_operation_scope req) plan resp; mret (ReserveResponse resp))
    (fun r t => exists resp, r = ReserveResponse resp /\ recorded_entry resp t)
    (caught (at_entry e0)).
Proof.
  intros Hp Hres Hreq.
  eapply (triple_bind _ _ _ _ (fun resp t => during t /\ fresh plan resp)).
  { eapply triple_conseq; [exact (triple_and _ _ _ _ _ _ _ _ _ (run_attempt_entry job plan Hres)
      (run_attempt_triple Hok req uid job (_operation_scope req) plan S t0 Hp))|done| |done].
    intros resp t [Hd He]. split; [done|]. by eapply attempt_end_fresh. }
  intros resp. apply triple_pure. intros Hf.
  eapply triple_bind; [eapply triple_conseq; [by apply merge_entry|done|intros r t Ht; exact Ht|done]|].
  intros resp'. cbv beta.
  eapply triple_bind; [eapply triple_conseq; [apply finish_entry|done|intros r t Ht; exact Ht|done]|].
  intros []. apply triple_ret. intros t Ht. by exists resp'.
Qed.

(** ** The plan *)

(** The answer of an allocation that needs no attempt *)
Definition answered (plan : AllocationPlan) : Prop :=
  forall cls r, planned_response plan = Ok (cls, r) -> cls = ReserveResponse /\
    (ReserveResponse.decision r <> AdmissionDecision.ACCEPTED \/
     ReserveResponse.decision r = AdmissionDecision.ACCEPTED /\
       e0 = Some (granted req r) /\ covers (granted req r) req).

Definition planned_entry (plan : AllocationPlan) (t : tables) : Prop :=
  if bool_decide (missing_services plan = []) then (at_entry e0 t /\ has_op t) /\ answered plan
  else during t /\ resumes plan /\ requested plan.

Lemma entry_open row t :
  at_entry e0 t -> allocations t !! key = Some row -> Allocation.state row <> txt "accepted" -> e0 = None.
Proof.
  unfold at_entry. intros He Hrow Hst. rewrite ledger_lookup, Hrow in He. simpl in He.
  unfold entry_of_row in He. by rewrite bool_decide_eq_false_2 in He.
Qed.

(** Starting a set over, or a new allocation *)
Lemma planned_restart row t :
  e0 = None -> has_op t -> ReserveRequest.service_ids req <> [] ->
  Allocation.state row = txt "reserving" -> Allocation.job_uid row = ReserveRequest.job_uid req ->
  Allocation.job_gid row = ReserveRequest.job_gid req ->
  planned_entry (mk_plan None [] (sorted_str (ReserveRequest.service_ids req)))
    (set_allocations <[(c, k) := row]> t).
Proof.
  intros He Hop Hne Hst Hu Hg. unfold planned_entry. simpl. rewrite bool_decide_eq_false_2.
  - split_and!.
    + split; [done|]. exists row. split_and!; [apply lookup_insert_eq|by rewrite Hst|done..].
    + split; [done|exact He].
    + intros s Hs. right. by apply elem_of_sorted_str.
  - intros E. apply Hne, Permutation_nil_r. rewrite <-E. symmetry. apply sorted_str_perm.
Qed.

(** The accepted row of a consistent journal *)
Lemma accepted_entry row document t :
  allocations t !! key = Some row -> Allocation.state row = txt "accepted" ->
  Allocation.response row = Some document ->
  accepted_set c k t (Allocation.service_set row) (Some document) -> at_entry e0 t ->
  exists previous, document = response_to_dict (ReserveResponse previous) /\
    ReserveResponse.decision previous = AdmissionDecision.ACCEPTED /\
    map ServiceResult.service_id (ReserveResponse.results previous) = sorted_str (Allocation.service_set row) /\
    Forall has_reservation (ReserveResponse.results previous) /\
    e0 = Some (mk_entry (Allocation.job_uid row) (Allocation.job_gid row)
                 (announced (ReserveResponse.results previous))).
Proof.
  intros Hrow Hst Hdoc (previous & Hp & Hd & _ & _ & Hids & _ & Hreads) He. injection Hp as ->.
  exists previous. split_and!; [done..| |].
  - eapply Forall_impl; [exact Hreads|]. by intros x [Hx _].
  - unfold at_entry in He. rewrite <-He, ledger_lookup, Hrow. simpl. unfold entry_of_row.
    rewrite bool_decide_eq_true_2, Hdoc by done. simpl. by rewrite entry_of_reserve.
Qed.
Lemma begin_entry afp rfp :
  ReserveRequest.service_ids req <> [] ->
  triple any (fun t => fine c k t /\ settled t /\ at_entry e0 t /\ has_op t)
    (journal (X := X) (begin_allocation c j (ReserveRequest.job_uid req) (ReserveRequest.job_gid req)
       (ReserveRequest.service_ids req) afp rfp)) planned_entry (fun _ => at_entry e0).
Proof.
  intros Hne. apply statement_triple; [done|]. intros now t ([Hv Hc] & Hs & He & Hop). cbv zeta.
  unfold consistent_at in Hc.
  destruct (allocations t !! (c, k)) as [row|] eqn:Hrow.
  2: { apply planned_restart; [|done..]. unfold at_entry in He.
    rewrite ledger_lookup in He. unfold reserve_key in He. by rewrite Hrow in He. }
  destruct (_ && _) eqn:Hown; simpl; [|done].
  apply andb_true_iff in Hown as [Hu Hg]. apply bool_decide_eq_true in Hu, Hg.
  assert (forall fp, Allocation.state row <> txt "accepted" ->
    planned_entry (mk_plan None [] (sorted_str (ReserveRequest.service_ids req)))
      (set_allocations <[(c, k) := restart (sorted_str (ReserveRequest.service_ids req)) fp now row]> t))
    as Hrestart by (intros fp Hst; apply planned_restart; by eauto using entry_open).
  destruct (bool_decide (Allocation.state row = txt "accepted")) eqn:Hst; simpl.
  - apply bool_decide_eq_true in Hst. unfold row_consistent in Hc. rewrite Hst in Hc. simpl in Hc.
    destruct (Allocation.response row) as [document|] eqn:Hdoc; [|by destruct Hc as (? & [=] & _)].
    rewrite bool_decide_eq_true_2 by done.
    destruct (accepted_entry row document t Hrow Hst Hdoc Hc He) as (previous & -> & Hd & Hids & Hr & He0).
    rewrite Hu, Hg in He0.
    destruct (iterR _ _) as [[]|e]; [|done]. case_bool_decide as Hm.
    + unfold planned_entry. simpl. split; [done|]. intros cls r.
      unfold planned_response, reserve_response_of. simpl. rewrite response_dict_roundtrip. simpl.
      intros [= <- <-]. split; [done|]. right. split_and!; [done..|].
      apply covers_granted; [done|]. intros s Hs'. rewrite Hids, elem_of_sorted_str.
      destruct (decide (s ∈ Allocation.service_set row)) as [|Hno]; [done|]. exfalso.
      eapply not_elem_of_nil. rewrite <-Hm. apply elem_of_filter_new.
      split; [by apply elem_of_sorted_str|by rewrite elem_of_list_to_set].
    + unfold planned_entry. simpl. rewrite bool_decide_eq_false_2 by done. split_and!.
      * split; [done|]. eexists. split_and!; [apply lookup_insert_eq|done..].
      * unfold resumes, is_extension. simpl. rewrite bool_decide_eq_false_2 by done. simpl.
        by exists previous.
      * intros s Hs'. simpl. destruct (decide (s ∈ Allocation.service_set row)) as [|Hno]; [by left|].
        right. apply elem_of_filter_new. split; [by apply elem_of_sorted_str|by rewrite elem_of_list_to_set].
  - apply bool_decide_eq_false in Hst.
    destruct (one_of _ ["delayed"; "rolled-back"]%string); [by apply Hrestart|].
    fold (open_state (Allocation.state row)).
    destruct (open_state (Allocation.state row)) eqn:Ho; [done|].
    destruct (bool_decide (Allocation.state row = txt "released")); [done|].
    destruct (bool_decide (Allocation.request_fingerprint row = afp)); simpl; [|by apply Hrestart].
    destruct (Allocation.response row) as [document|] eqn:Hdoc; [|done].
    unfold planned_entry. simpl. split; [done|]. intros cls r Hp.
    destruct (map_Forall_lookup_1 _ _ _ _ Hs Hrow Ho Hst document Hdoc _ _ _ Hp) as [-> Hd]. auto.
Qed.

(** ** The request *)

(** What an answer that is not an exception says about the entry *)
Definition reserve_outcome (recorded : option response) (resp : response) (t : tables) : Prop :=
  (at_entry e0 t /\
   ((exists er, resp = ErrorResponse er) \/ recorded = Some resp \/
    exists r, resp = ReserveResponse r /\
      (ReserveResponse.decision r <> AdmissionDecision.ACCEPTED \/
       ReserveResponse.decision r = AdmissionDecision.ACCEPTED /\
         e0 = Some (granted req r) /\ covers (granted req r) req))) \/
  exists r, resp = ReserveResponse r /\ ReserveResponse.decision r = AdmissionDecision.ACCEPTED /\
    at_entry (Some (granted req r)) t /\ grown r.

(** The accepted allocation a replay finds is the entry. *)
Lemma current_entry :
  triple any (fun t => fine c k t /\ settled t /\ at_entry e0 t)
    (journal (X := X) (accepted_allocation c j (ReserveRequest.job_uid req) (ReserveRequest.job_gid req)
       (ReserveRequest.service_ids req)))
    (fun current t => at_entry e0 t /\ forall document, current = Some document ->
       exists resp, document = response_to_dict (ReserveResponse resp) /\
         ReserveResponse.decision resp = AdmissionDecision.ACCEPTED /\
         e0 = Some (granted req resp) /\ covers (granted req resp) req)
    (fun _ => at_entry e0).
Proof.
  apply statement_triple; [done|]. intros now t ([_ Hc] & _ & He). cbv zeta. unfold consistent_at in Hc.
  destruct (allocations t !! (c, k)) as [row|] eqn:Hrow; [|by split].
  destruct (_ && _) eqn:Hown; simpl; [|done]. apply andb_true_iff in Hown as [Hu Hg].
  apply bool_decide_eq_true in Hu, Hg. destruct (bool_decide (_ ⊆ _)) eqn:Hsub; simpl; [|done].
  apply bool_decide_eq_true in Hsub. case_bool_decide as Hst; [|by split].
  split; [done|]. intros document Hdoc. unfold row_consistent in Hc. rewrite Hst, Hdoc in Hc. simpl in Hc.
  destruct (accepted_entry row document t Hrow Hst Hdoc Hc He) as (resp & -> & Hd & Hids & Hr & He0).
  exists resp. rewrite Hu, Hg in He0. split_and!; [done..|]. apply covers_granted; [done|].
  intros s Hs. rewrite Hids, elem_of_sorted_str.
  apply (elem_of_list_to_set (C := gset str)), Hsub. by apply elem_of_list_to_set.
Qed.

(** A replay answers from the record, or what the allocation holds now. *)
Lemma replay_entry row :
  triple any (fun t => fine c k t /\ settled t /\ at_entry e0 t)
    (replay_reserve (X := X) req (mk_operation_record (Operation.state row) (Operation.response row)))
    (reserve_outcome (answer_of_row row)) (fun _ => at_entry e0).
Proof.
  unfold replay_reserve.
  eapply triple_bind_lift; [by intros e t (_ & _ & Ht) _|intros stored Hs].
  eapply triple_bind_lift; [by intros e t (_ & _ & Ht) _|intros [cls r] Hr].
  assert (answer_of_row row = Some (cls r)) as Hrec.
  { unfold reserve_response_of in Hr. destruct (response_from_dict stored) as [resp|] eqn:E; [|done].
    simpl in Hr. eapply completed_answer; [exact Hs|]. rewrite E.
    by destruct resp; try done; injection Hr as <- <-. }
  case_bool_decide; [|apply triple_ret; intros t (_ & _ & Ht); left; auto].
  eapply triple_bind; [apply current_entry|intros current; cbv beta].
  destruct current as [document|]; [|apply triple_ret; intros t [Ht _]; left; auto].
  intros w r0 w' [Ht Hcur]. revert w r0 w' Ht.
  destruct (Hcur _ eq_refl) as (resp & -> & Hd & He0 & Hcov).
  match goal with |- forall w r w', _ -> ?m w = _ -> _ =>
    change (triple any (at_entry e0) m (reserve_outcome (answer_of_row row)) (fun _ => at_entry e0)) end.
  eapply (triple_lift_ok _ _ _ (ReserveResponse, resp)).
  { unfold reserve_response_of. by rewrite response_dict_roundtrip. }
  apply triple_ret. intros t Ht. left. split; [done|]. right. right. eexists. split; [done|].
  destruct resp. auto.
Qed.

Lemma reserve_entry before :
  ReserveRequest.service_ids req <> [] -> NoDup (ReserveRequest.service_ids req) ->
  triple any (fun t => (fine c k t /\ settled t /\ at_entry e0 t) /\ operations t !! op = before)
    (_reserve (X := X) (H := H) req uid) (reserve_outcome (before ≫= answer_of_row)) cancelled.
Proof.
  intros Hne Hnd. unfold _reserve.
  apply (triple_try _ _ _ _ _ _ (caught (at_entry e0))); [| |done].
  2: { intros e He. apply triple_ret. intros t Ht. left. split; [by apply Ht|]. left.
    apply operation_error_shape. }
  eapply triple_bind; [|intros job; cbv beta zeta].
  { eapply triple_conseq; [apply triple_external|intros t Ht; exact Ht|intros a t Ht; exact Ht|].
    intros e t [[_ [_ He]] _] _. exact He. }
  eapply triple_bind; [|intros prior].
  { eapply triple_conseq; [by apply (begin_recorded Hok
      (fun t => fine c k t /\ settled t /\ at_entry e0 t))|
      intros t Ht; exact Ht|intros a t Ht; exact Ht|].
    intros e t (_ & _ & He) _. exact He. }
  destruct prior as [prior|]; cbv beta iota.
  { apply triple_pure. intros (row & -> & ->).
    eapply triple_conseq; [apply (replay_entry row)|done|done|]. by intros e t Ht _. }
  eapply triple_bind; [|intros plan; cbv beta].
  { eapply triple_conseq; [exact (triple_and _ _ _ _ _ _ _ _ _ (begin_entry _ _ Hne)
      (begin_allocation_begun Hok c j _ _ _ _ _ Hne Hnd))| | |].
    - intros t [(Hf & Hs & He) Ho]. auto.
    - intros p t Ht. exact Ht.
    - intros e t Ht _. exact Ht. }
  unfold planned_entry, begun. case_bool_decide as Hm.
  - intros w r w' [[Hw Ha] _]. revert w r w' Hw.
    match goal with |- forall w r w', _ -> ?m w = _ -> _ =>
      change (triple any (fun t => at_entry e0 t /\ has_op t) m
        (fun resp t => reserve_outcome (before ≫= answer_of_row) resp t) (caught (at_entry e0))) end.
    destruct (planned_response plan) as [[cls r]|e] eqn:Hp.
    2: { unfold mbind, m_mbind. intros w r w' [Hw _] [= <- <-].
      exists []. split_and!; [apply logs_nil|done|by intros _]. }
    eapply (triple_lift_ok _ _ _ (cls, r)); [done|]. cbv beta iota zeta.
    destruct (Ha _ _ Hp) as [-> Hcase]. unfold _complete.
    eapply triple_bind.
    { eapply triple_conseq; [by apply (complete_known Hok (at_entry e0))|done|intros a t Ht; exact Ht|done]. }
    intros []. apply triple_ret. intros t [Ht _]. left. split; [done|]. right. right.
    eexists. split; [done|]. destruct r. exact Hcase.
  - intros w r w' [(Hd & Hres & Hreq) [S Hp]] Hr.
    destruct (attempt_entry job plan S _ Hp Hres Hreq w r w' (conj Hd eq_refl) Hr)
      as (l & Hl & Hany & Hpost). exists l. split_and!; [done..|].
    destruct r as [resp|e]; [|exact Hpost]. destruct Hpost as (resp' & -> & Hrec).
    unfold recorded_entry in Hrec. case_bool_decide as Hacc.
    + right. exists resp'. split_and!; [done..|apply Hrec|apply Hrec].
    + left. split; [done|]. right. right. exists resp'. auto.
Qed.
End reserve.
