(* ===== verification/LedgerProps.v ===== *)
(** * The coordinator refines the ledger

    Every request a healthy gateway answers is a step of the ledger that its
    journal carries. *)

From S2P Require Import Prelude Python Utf8 Enums Messages Wire Codec ProtocolProps Values ResponseDict Effects Journal JournalFacts JournalProps SlurmVerifier Adapter DefwClient AdapterProps VerifierProps Service Sample ServiceFacts Triples Consistency ReserveFacts HandlerFacts OperationProps ServiceProps ConsistencyProps Ledger LedgerFacts ReserveLedger.
Local Open Scope Z_scope.

Section release.
Context {ucd : UnicodeData} {jenv : JournalEnv} {sha : Sha256} (Hok : no_faults jenv).
Context {X H : Type} {adapter_ops : AdapterOps X H} {verifier_ops : VerifierOps X}.
Context (req : ReleaseRequest.t) (e0 : option entry).
Abbreviation c := (ReleaseRequest.cluster_name req).
Abbreviation j := (ReleaseRequest.canonical_job_id req).

Definition release_entry (e : option entry) (t : tables) : Prop :=
  ledger_of t !! release_ledger_key req = e.

(** Releasing one reservation does not touch allocations or operations. *)
Lemma release_one_same (I : tables -> Prop) r :
  (forall t f, I t -> I (set_reservations f t)) -> keeps any I (_release_one (X := X) (H := H) req r).
Proof.
  intros Hi. assert (forall r diag, keeps any I (journal (X := X) (record_reservation c j r diag)))
    by (intros; apply statement_triple; [done|]; intros now t Ht; by apply Hi).
  assert (forall b rid reason, keeps any I (adapter_release (X := X) (H := H) b rid reason))
    by (intros; by apply triple_adapter_release).
  unfold _release_one. keep.
Qed.

Lemma complete_released (I : tables -> Prop) unresolved results document :
  (forall t f, I t -> I (set_allocations f t)) ->
  triple any (fun t => release_entry e0 t /\ I t)
    (journal (X := X) (complete_allocation c j (release_state unresolved results) document))
    (fun _ t => release_entry None t /\ I t) (fun _ => release_entry e0).
Proof.
  intros Hi. apply update_triple; [done| |by intros t []].
  intros t now row [_ Ht] _. split; [|by apply Hi].
  unfold release_entry. rewrite ledger_lookup. simpl. unfold release_ledger_key.
  rewrite lookup_insert_eq. simpl. unfold entry_of_row, release_state. simpl.
  by destruct (existsb _ results).
Qed.

(** What an answer says about the entry *)
Definition release_answer (recorded : option response) (resp : response) (t : tables) : Prop :=
  (release_entry e0 t /\ ((exists er, resp = ErrorResponse er) \/ recorded = Some resp)) \/
  (release_entry None t /\ exists r, resp = ReleaseResponse r).

Lemma release_error_shape rid e : exists er, release_error rid e = ErrorResponse er.
Proof. unfold release_error, _error. repeat case_match; by eexists. Qed.

Lemma release_refines uid before :
  triple any (fun t => release_entry e0 t /\
      operations t !! (uid, txt "release", str_of_Z (ReleaseRequest.request_id req), txt "allocation") = before)
    (_release (X := X) (H := H) req uid) (release_answer (before ≫= answer_of_row)) cancelled.
Proof.
  unfold _release. cbv zeta.
  set (op := (uid, txt "release", str_of_Z (ReleaseRequest.request_id req), txt "allocation")).
  apply (triple_try _ _ _ _ _ _ (caught (release_entry e0))); [| |done].
  2: { intros e He. apply triple_ret. intros t Ht. left. split; [by apply Ht|]. left.
    apply release_error_shape. }
  eapply triple_bind; [|intros prior].
  { eapply triple_conseq; [by apply (begin_recorded Hok (release_entry e0))|intros t Ht; exact Ht|
      intros a t Ht; exact Ht|intros e t He _; exact He]. }
  destruct prior as [prior|]; cbv beta iota.
  { apply triple_pure. intros (row & -> & ->).
    eapply triple_bind_lift; [by intros e t Ht _ _|intros stored Hs].
    eapply triple_bind_lift; [by intros e t Ht _ _|intros resp Hr].
    destruct resp; try (apply triple_raise; by intros t Ht _).
    apply triple_ret. intros t Ht. left. split; [done|]. right. by eapply completed_answer. }
  set (I := fun t => release_entry e0 t /\ recorded_op op t).
  assert (forall A (m : M (world X) A) Q, triple any I m Q (fun _ => I) ->
    triple any I m Q (caught (release_entry e0))) as Hc.
  { intros A m Q Hm. eapply triple_conseq; [exact Hm|done|done|]. by intros e t [Ht _] _. }
  unfold run_release. cbv zeta.
  eapply triple_bind; [apply Hc, keeps_reads; unfold allocation_status, reservations; preserve|intros status].
  eapply triple_bind; [apply Hc, keeps_lift|intros expected].
  eapply triple_bind; [apply Hc, triple_external|intros job].
  eapply triple_bind; [apply Hc, keeps_query|intros records].
  eapply triple_bind; [apply Hc, keeps_mapM; intros r _; by apply release_one_same|intros results].
  eapply triple_bind; [eapply triple_conseq; [by apply (complete_released (recorded_op op))|done|
    intros a t Ht; exact Ht|intros e t He _; exact He]|intros []; cbv beta].
  eapply triple_bind.
  { eapply triple_conseq; [by apply (complete_known Hok (release_entry None))|done|
      intros a t Ht; exact Ht|done]. }
  intros []. apply triple_ret. intros t [Ht _]. right. split; [done|by eexists].
Qed.
End release.

(** A lookup that answers gives the entry. *)
Lemma lookup_refines {ucd : UnicodeData} {jenv : JournalEnv} {X} {verifier_ops : VerifierOps X}
    {vlaws : VerifierLaws X} req uid (w : world X) resp w' :
  no_faults jenv -> consistent (tables_of w) ->
  _get_reservations req uid w = (Ok (GetReservationsResponse resp), w') ->
  exists e, ledger_of (tables_of w) !! (GetReservationsRequest.cluster_name req,
      str_of_Z (GetReservationsResponse.canonical_job_id resp)) = Some e /\
    owner_uid e = GetReservationsRequest.job_uid req /\
    owner_gid e = GetReservationsRequest.job_gid req /\
    GetReservationsResponse.reservations resp = held e.
Proof.
  intros Hok Hc Hr.
  assert (rows_valid (tables_of w)) as Hv.
  { eapply map_Forall_impl; [apply Hc|]. by intros ? ? [? _]. }
  destruct (lookup_complete req uid w resp w' Hok Hv Hr)
    as (records & (row & Hrow & Hu & Hg & Hst & _) & _).
  pose proof Hr as Hr'. unfold _get_reservations in Hr'.
  apply try_except_cases in Hr' as [[Hr' _]|(e & w1 & _ & _ & Hh)];
    [|exfalso; injection Hh as Hh _; by destruct e].
  apply m_bind_inv in Hr' as (job & w1 & Hjob & Hr').
  apply m_bind_inv in Hr' as (records' & w2 & Hrec & Hr'). injection Hr' as Hresp _.
  unfold external, zoom in Hjob. destruct (v_lookup req uid (w_ext w)) as [r0 x1] eqn:Ev.
  injection Hjob as -> _. pose proof (lookup_identity _ _ _ _ _ Ev) as [Hju Hjg].
  subst resp. simpl in Hrow |- *.
  destruct (lookup_answers req uid w job x1 row Hok Hc Ev Hrow Hst) as (resp' & Hdoc & _ & Hans);
    [congruence..|].
  rewrite Hr in Hans. injection Hans as Hans. eexists. split_and!.
  - rewrite ledger_lookup. unfold tables_of. rewrite Hrow. simpl. unfold entry_of_row.
    rewrite bool_decide_eq_true_2, Hdoc by done. simpl. by rewrite entry_of_reserve.
  - exact Hu.
  - exact Hg.
  - exact Hans.
Qed.

Section reachable.
Context {ucd : UnicodeData} {jenv : JournalEnv} {sha : Sha256} {jlaws : JournalEnvLaws jenv}
  (Hok : no_faults jenv).
Context {X H : Type} {adapter_ops : AdapterOps X H} {verifier_ops : VerifierOps X}
  {laws : AdapterLaws X H}.

Lemma keeps_settled {A} (m : M (world X) A) w r w' :
  keeps any settled m -> settled (tables_of w) -> m w = (r, w') -> settled (tables_of w').
Proof. intros Hm Hs Hr. destruct (Hm w r w' Hs Hr) as (_ & _ & _ & Hp). by destruct r. Qed.

Lemma untouched_settled (t t' : tables) : untouched (fun _ => True) t t' -> settled t -> settled t'.
Proof. intros [Ha _] Hs K row Hrow. eapply Hs. rewrite <-Ha; [exact Hrow|done]. Qed.

(** Requests keep it that closed allocations store no acceptance. *)
Lemma handle_settled q uid (w : world X) r w' :
  settled (tables_of w) -> handle (H := H) q uid w = (r, w') -> settled (tables_of w').
Proof.
  intros Hs Hr. destruct q as [req|req|req|req]; simpl in Hr.
  - pose proof (evaluate_untouched (H := H) req uid w) as Hu. rewrite Hr in Hu.
    by eapply untouched_settled.
  - eapply keeps_settled; [by apply reserve_settled|exact Hs|exact Hr].
  - eapply keeps_settled; [by apply release_settled_ledger|exact Hs|exact Hr].
  - pose proof (get_reservations_reads (untouched (fun _ => True)) req uid _ w) as Hu.
    rewrite Hr in Hu. by eapply untouched_settled.
Qed.

Lemma reachable_settled (w : world X) : reachable (H := H) w -> settled (tables_of w).
Proof.
  induction 1 as [x|w x _ IH|w frame h q uid resp w' _ IH Hq Hr|w req resp w' _ IH Hr].
  - apply map_Forall_empty.
  - exact IH.
  - by eapply handle_settled.
  - eapply keeps_settled; [by apply retry_settled|exact IH|exact Hr].
Qed.

(** Requests that write nothing *)
Lemma untouched_ledger (t t' : tables) :
  untouched (fun _ => True) t t' -> ledger_of t' = ledger_of t.
Proof. intros [Ha _]. apply map_eq. intros K. rewrite !ledger_lookup. by rewrite Ha. Qed.

(** A request changes the ledger at its key alone. *)
Lemma ledger_at_key (t t' : tables) (key : str * str) e :
  untouched (fun K => K <> key) t t' -> ledger_of t' !! key = e ->
  ledger_of t' = partial_alter (fun _ => e) key (ledger_of t).
Proof. intros [Ha _] <-. apply ledger_same_at. intros K Hne. by apply Ha. Qed.

Lemma ledger_kept (t t' : tables) (key : str * str) :
  untouched (fun K => K <> key) t t' -> ledger_of t' !! key = ledger_of t !! key ->
  ledger_of t' = ledger_of t.
Proof. intros [Ha _]. apply ledger_unchanged. intros K Hne. by apply Ha. Qed.
End reachable.

Lemma lookup_shape {ucd : UnicodeData} {jenv : JournalEnv} {X} {verifier_ops : VerifierOps X}
    req uid (w : world X) resp w' :
  _get_reservations req uid w = (Ok resp, w') ->
  (exists er, resp = ErrorResponse er) \/ exists r, resp = GetReservationsResponse r.
Proof.
  intros Hr. unfold _get_reservations in Hr.
  apply try_except_cases in Hr as [[Hr _]|(e & w1 & _ & _ & Hh)].
  - apply m_bind_inv in Hr as (job & w1 & _ & Hr). apply m_bind_inv in Hr as (l & w2 & _ & Hr).
    injection Hr as <- _. right. by eexists.
  - injection Hh as <- _. left. unfold lookup_error, _error. case_match; by eexists.
Qed.

Section steps.
Context {ucd : UnicodeData} {jenv : JournalEnv} {sha : Sha256} {jlaws : JournalEnvLaws jenv}
  (Hok : no_faults jenv).
Context {X H : Type} {adapter_ops : AdapterOps X H} {verifier_ops : VerifierOps X}
  {laws : AdapterLaws X H}.

Lemma reserve_step r uid (w : world X) resp w' :
  ReserveRequest.service_ids r <> [] -> NoDup (ReserveRequest.service_ids r) ->
  consistent (tables_of w) -> settled (tables_of w) ->
  _reserve (H := H) r uid w = (Ok resp, w') ->
  ledger_step (recorded_answer (ReserveRequest r) uid (tables_of w)) (ledger_of (tables_of w))
    (ReserveRequest r) resp (ledger_of (tables_of w')).
Proof.
  intros Hne Hnd Hc Hs Hr. set (L := ledger_of (tables_of w)).
  assert (fine (ReserveRequest.cluster_name r) (str_of_Z (ReserveRequest.canonical_job_id r))
    (tables_of w)) as Hf by (split; apply Hc).
  destruct (reserve_entry Hok r uid (L !! reserve_key r) _ Hne Hnd w _ _
    (conj (conj Hf (conj Hs eq_refl)) eq_refl) Hr) as (_ & _ & _ & Hout).
  pose proof (reserve_untouched (H := H) _ _ r eq_refl eq_refl uid w) as Hu. rewrite Hr in Hu.
  change (untouched (fun K => K <> reserve_key r) (tables_of w) (tables_of w')) in Hu.
  destruct Hout as [[Hsame Hcase]|(resp' & -> & Hd & Hent & Hcov & Hgrow)].
  - apply (ledger_kept _ _ _ Hu) in Hsame. rewrite Hsame.
    destruct Hcase as [[er ->]|[Hrep|(resp' & -> & [Hd|(Hd & He & Hcov)])]].
    + apply step_refused.
    + by apply step_replayed.
    + by apply step_declined.
    + by apply step_covered.
  - rewrite (ledger_at_key _ _ _ _ Hu Hent). by apply step_granted.
Qed.

Lemma release_step r uid (w : world X) resp w' :
  _release (H := H) r uid w = (Ok resp, w') ->
  ledger_step (recorded_answer (ReleaseRequest r) uid (tables_of w)) (ledger_of (tables_of w))
    (ReleaseRequest r) resp (ledger_of (tables_of w')).
Proof.
  intros Hr. set (L := ledger_of (tables_of w)).
  destruct (release_refines Hok r (L !! release_ledger_key r) uid _ w _ _ (conj eq_refl eq_refl) Hr)
    as (_ & _ & _ & Hout).
  pose proof (release_untouched (H := H) _ _ r eq_refl eq_refl uid w) as Hu. rewrite Hr in Hu.
  change (untouched (fun K => K <> release_ledger_key r) (tables_of w) (tables_of w')) in Hu.
  destruct Hout as [[Hsame [[er ->]|Hrep]]|[Hnone [r' ->]]].
  - apply (ledger_kept _ _ _ Hu) in Hsame. rewrite Hsame. apply step_refused.
  - apply (ledger_kept _ _ _ Hu) in Hsame. rewrite Hsame. by apply step_replayed.
  - rewrite (ledger_at_key _ _ _ _ Hu Hnone). apply step_released.
Qed.

(** A request that is no lookup is a step of the ledger. *)
Lemma handle_step frame h q uid (w : world X) resp w' :
  (if q is GetReservationsRequest _ then False else True) ->
  decode_request frame = Ok (h, q) -> consistent (tables_of w) -> settled (tables_of w) ->
  handle (H := H) q uid w = (Ok resp, w') ->
  ledger_step (recorded_answer q uid (tables_of w)) (ledger_of (tables_of w)) q resp
    (ledger_of (tables_of w')).
Proof.
  intros Hl Hq%decoded_services_ok Hc Hs Hr. destruct q as [r|r|r|r]; simpl in Hr; [| | |done].
  - pose proof (evaluate_untouched (H := H) r uid w) as Hu. rewrite Hr in Hu.
    rewrite (untouched_ledger (tables_of w) (tables_of w') Hu). apply step_evaluated.
  - destruct Hq as [Hne Hnd]. by eapply reserve_step.
  - by apply release_step.
Qed.
End steps.

(** ** Properties *)

(** C4 The coordinator refines the ledger: whatever frame a healthy gateway
    decodes in a state it reaches, and whatever the QPMs and the controller do,
    the answer and the change of the journal's ledger are one step of the
    abstract service. An error means nothing happened; an evaluation and a
    declined reserve hold nothing more; a repeated request changes nothing and
    gets the answer on record, or for an accepted reserve the entry as it is
    now; a lookup answers the entry of its owner; an accepted reserve leaves the
    owner an entry that covers the request, keeps what was held and is what it
    announces; a release empties the entry. *)
Theorem handle_refines_ledger {ucd : UnicodeData} {jenv : JournalEnv} {sha : Sha256}
    {jlaws : JournalEnvLaws jenv} {X H} {adapter_ops : AdapterOps X H}
    {verifier_ops : VerifierOps X} {laws : AdapterLaws X H} {vlaws : VerifierLaws X}
    (w : world X) frame h q uid resp w' :
  no_faults jenv -> reachable (H := H) w -> decode_request frame = Ok (h, q) ->
  handle (H := H) q uid w = (Ok resp, w') ->
  ledger_step (recorded_answer q uid (tables_of w)) (ledger_of (tables_of w)) q resp
    (ledger_of (tables_of w')).
Proof.
  intros Hok Hw Hq Hr. pose proof (reachable_invariant (H := H) Hok w Hw) as Hc.
  assert (settled (tables_of w)) as Hs by (by apply (reachable_settled (H := H) Hok)).
  destruct q as [r|r|r|r]; [by eapply (handle_step Hok)..|]. simpl in Hr.
  pose proof (get_reservations_reads (untouched (fun _ => True)) r uid _ w) as Hu. rewrite Hr in Hu.
  rewrite (untouched_ledger (tables_of w) (tables_of w') Hu).
  destruct (lookup_shape _ _ _ _ _ Hr) as [[er ->]|[res ->]]; [apply step_refused|].
  destruct (lookup_refines r uid w res w' Hok Hc Hr) as (e & He & Hou & Hog & Hh).
  by eapply step_looked_up.
Qed.

(** The sample reserve grants two services. *)
Example answered_ledger :
  ledger_of (tables_of answered_world) =
    {[ (txt "hpc", txt "7") := mk_entry 1000 100
         [Reservation.mk (txt "aer") 41; Reservation.mk (txt "bee") 42] ]}.
Proof. vm_compute. reflexivity. Qed.

Lemma handle_refines_ledger_witness :
  ledger_step (recorded_answer (ReserveRequest sample_request) 1000 (tables_of sample_world))
    (ledger_of (tables_of sample_world)) (ReserveRequest sample_request)
    (ReserveResponse sample_answer) (ledger_of (tables_of answered_world)).
Proof.
  apply (handle_refines_ledger (jlaws := healthy_env_laws) (laws := defw_adapter_laws)
    (vlaws := slurm_verifier_laws (mk_verifier (txt "hpc") [64030])) sample_world sample_frame sample_header).
  - done.
  - apply reach_start.
  - exact sample_frame_decodes.
  - exact sample_run.
Defined.
