(* ===== verification/Tasks.v ===== *)
(** * The handlers as tasks ([service.py])

    The methods of [GatewayService] with their await points. A task makes
    journal calls, which run on the event loop, and awaits calls that
    [asyncio.to_thread] runs in a thread, while other tasks go on. Run alone, a
    task does what the handler of [Service] does ([TaskFacts]); [Interleaving]
    runs many. *)

From S2P Require Import Prelude Python Utf8 Enums Messages Wire Values ResponseDict Effects Journal SlurmVerifier Adapter Service.
Local Open Scope Z_scope.

(** The awaited calls, by the type of what they return *)
Inductive call {H : Type} : Type -> Type :=
| VerifyReserve (request : ReserveRequest.t) (sender_uid : Z) : call VerifiedJob.t
| VerifyRelease (request : ReleaseRequest.t) (sender_uid : Z) (expected_uid : option Z)
    : call VerifiedJob.t
| VerifyLookup (request : GetReservationsRequest.t) (sender_uid : Z) : call VerifiedJob.t
| Resolve (service_id : str) : call (QPMBinding H)
| Evaluate (b : QPMBinding H) (request : ReserveRequest.t) (job : VerifiedJob.t)
    : call ServiceResult.t
| Reserve (b : QPMBinding H) (request : ReserveRequest.t) (job : VerifiedJob.t)
    : call ServiceResult.t
| Release (b : QPMBinding H) (reservation_id : option Z) (reason : Z)
    : call (list (str * pyval)).
Arguments call : clear implicits.

(** A coroutine: it is done, calls the journal, or awaits a call. *)
Inductive task {H A : Type} : Type :=
| Done (r : result A)
| Sync {B : Type} (m : JournalEnv -> M db B) (k : result B -> task)
| Await {B : Type} (c : call H B) (k : result B -> task).
Arguments task : clear implicits.

Module Tasks.
Section combinators.
Context {H : Type}.
Local Abbreviation T := (task H).

Fixpoint bind {A B} (f : A -> T B) (p : T A) : T B :=
  match p with
  | Done (Ok a) => f a
  | Done (Raise e) => Done (Raise e)
  | Sync m k => Sync m (fun r => bind f (k r))
  | Await c k => Await c (fun r => bind f (k r))
  end.

#[global] Instance task_mret : MRet T := fun A a => Done (Ok a).
#[global] Instance task_mbind : MBind T := fun A B f p => bind f p.

Definition lift {A} (r : result A) : T A := Done r.
Definition raise {A} (e : exn) : T A := Done (Raise e).
Definition raise_when (b : bool) (e : exn) : T unit := if b then raise e else mret tt.

(** [self.journal.m(...)] and [await asyncio.to_thread(c, ...)] *)
Definition journal {A} (m : JournalEnv -> M db A) : T A := Sync m Done.
Definition await {A} (c : call H A) : T A := Await c Done.

(** [try: p except Exception as error: h(error)] *)
Fixpoint try_except {A} (p : T A) (h : exn -> T A) : T A :=
  match p with
  | Done (Ok a) => Done (Ok a)
  | Done (Raise e) => if isa_Exception e then h e else Done (Raise e)
  | Sync m k => Sync m (fun r => try_except (k r) h)
  | Await c k => Await c (fun r => try_except (k r) h)
  end.

Fixpoint mapM {A B} (f : A -> T B) (l : list A) : T (list B) :=
  match l with
  | [] => mret []
  | x :: l => y ← f x; ys ← mapM f l; mret (y :: ys)
  end.

Definition on_error {A} (m : T A) (handler : exn -> T unit) : T A :=
  try_except m (fun e => _ ← handler e; raise e).

Definition collecting (m : T unit) (f : exn -> str) : T (list str) :=
  try_except (_ ← m; mret []) (fun e => mret [f e]).

(** A step inside the [try] block of the reserve loop *)
Fixpoint try_step {A} (pending : option (QPMBinding H * ServiceResult.t)) (m : T A)
    (k : A -> T (attempt (H := H))) : T (attempt (H := H)) :=
  match m with
  | Done (Ok a) => k a
  | Done (Raise e) => if isa_Exception e then mret (Failed e pending) else Done (Raise e)
  | Sync m k' => Sync m (fun r => try_step pending (k' r) k)
  | Await c k' => Await c (fun r => try_step pending (k' r) k)
  end.
End combinators.

Section service.
Context {ucd : UnicodeData} {sha : Sha256} {H : Type}.
Local Abbreviation T := (task H).
Local Abbreviation held := (QPMBinding H * ServiceResult.t)%type.

(** ** Lookup and evaluation *)

Definition _get_reservations (request : GetReservationsRequest.t) (sender_uid : Z)
    : T response :=
  let request_id := GetReservationsRequest.request_id request in
  try_except (
    job ← await (VerifyLookup request sender_uid);
    records ← journal (fun _ => reservation_context (GetReservationsRequest.cluster_name request)
      (VerifiedJob.canonical_job_id job) (VerifiedJob.uid job) (VerifiedJob.gid job));
    mret (GetReservationsResponse (GetReservationsResponse.mk request_id
            (VerifiedJob.canonical_job_id job) (reservation_tuple records))))
  (fun e => mret (lookup_error request_id e)).

Definition _evaluate_services (request : ReserveRequest.t) (job : VerifiedJob.t)
    : T (list ServiceResult.t) :=
  mapM (fun service_id =>
    binding ← await (Resolve service_id);
    result ← await (Evaluate binding request job);
    _ ← raise_when (bool_decide (is_Some (ServiceResult.reservation_id result)))
          (QFwAdapterError (txt "QPM " ++ repr service_id
             ++ txt " evaluation returned a reservation"));
    mret result)
    (sorted_str (ReserveRequest.service_ids request)).

Definition _journal_failed_evaluation (request : ReserveRequest.t) (sender_uid : Z)
    (scope : str) (error : exn) : T unit :=
  let request_id := ReserveRequest.request_id request in
  journal (fun _ => complete_operation sender_uid (txt "evaluate") request_id
    (response_to_dict (_operation_error "evaluate" request_id error)) scope
    (txt "retryable")).

Definition _evaluate (request : ReserveRequest.t) (sender_uid : Z) : T response :=
  let request_id := ReserveRequest.request_id request in
  try_except (
    job ← await (VerifyReserve request sender_uid);
    let fingerprint := _fingerprint (reserve_request_dict request) in
    let scope := _operation_scope request in
    prior ← journal (fun _ => begin_operation sender_uid (txt "evaluate") request_id fingerprint scope);
    match prior with
    | Some prior =>
        stored ← lift (completed_response "evaluate" prior);
        response ← lift (response_from_dict stored);
        match response with
        | EvaluateResponse _ => mret response
        | _ => raise (JournalError (txt "stored evaluate response has wrong type"))
        end
    | None =>
        results ← on_error (_evaluate_services request job)
                    (_journal_failed_evaluation request sender_uid scope);
        let decision := overall_decision (map ServiceResult.decision results) in
        let response := EvaluateResponse (ReserveResponse.mk request_id decision results) in
        let state := if bool_decide (decision = AdmissionDecision.DELAYED)
                     then txt "retryable" else txt "complete" in
        _ ← journal (fun _ => complete_operation sender_uid (txt "evaluate") request_id
                       (response_to_dict response) scope state);
        mret response
    end)
  (fun e => mret (_operation_error "evaluate" request_id e)).

(** ** Reservation *)

Definition rollback_one (request : ReserveRequest.t) (h : held) : T (list str) :=
  let '(binding, result) := h in
  let rid := ServiceResult.reservation_id result in
  released ← try_except
    (_ ← await (Release binding rid 1); mret None)
    (fun e => mret (Some (bounded_diagnostic (exn_str e))));
  let state := match released with None => txt "rolled-back" | Some _ => txt "rollback-failed" end in
  failures ← collecting
    (journal (fun _ => record_reservation (ReserveRequest.cluster_name request)
       (ReserveRequest.canonical_job_id request)
       (ReservationRecord.mk (service_id binding) rid (Some (runtime_id binding))
          (Some (generation binding)) state (Some (_reservation_fingerprint request)))
       released)) exn_str;
  mret (option_list released ++ failures).

Definition _rollback (request : ReserveRequest.t) (accepted : list held) : T unit :=
  failures ← collecting
    (journal (fun _ => set_allocation_state (ReserveRequest.cluster_name request)
       (ReserveRequest.canonical_job_id request) (txt "rolling-back"))) exn_str;
  more ← mapM (rollback_one request) (reverse accepted);
  raise_when (negb (bool_decide (failures ++ concat more = [])))
    (RollbackIncomplete (txt "allocation rollback was incomplete")).

Definition attempt_service (request : ReserveRequest.t) (job : VerifiedJob.t)
    (fingerprint s : str) : T attempt :=
  let record r := journal (fun _ => record_reservation (ReserveRequest.cluster_name request)
                     (ReserveRequest.canonical_job_id request) r None) in
  try_step None (await (Resolve s)) (fun binding =>
  try_step None (record (attempt_record s binding None (txt "pending") fingerprint)) (fun _ =>
  try_step None (await (Reserve binding request job)) (fun result =>
  try_step (if is_accepted result then Some (binding, result) else None)
    (record (attempt_record s binding (ServiceResult.reservation_id result)
               (lower (enum_name (ServiceResult.decision result))) fingerprint)) (fun _ =>
  mret (Reserved (binding, result)))))).

Fixpoint reserve_loop (request : ReserveRequest.t) (job : VerifiedJob.t) (fingerprint : str)
    (services : list str) (accepted : list held) : T ReserveResponse.t :=
  let respond := ReserveResponse.mk (ReserveRequest.request_id request) in
  match services with
  | [] => mret (respond AdmissionDecision.ACCEPTED (map snd accepted))
  | s :: services =>
      outcome ← attempt_service request job fingerprint s;
      match outcome with
      | Failed error pending =>
          _ ← try_except (_rollback request (accepted ++ option_list pending))
                (fun e => raise (RollbackIncomplete
                   (txt "reserve failed and rollback was incomplete: " ++ exn_str e)));
          raise error
      | Reserved (binding, result) =>
          if is_accepted result then
            reserve_loop request job fingerprint services (accepted ++ [(binding, result)])
          else
            _ ← _rollback request accepted;
            mret (respond (ServiceResult.decision result)
                    (map (fun h => rolled_back result h.2) accepted ++ [result]))
      end
  end.

Definition _reserve_services (request : ReserveRequest.t) (job : VerifiedJob.t)
    (service_ids : list str) (reservation_fingerprint : str) : T ReserveResponse.t :=
  reserve_loop request job reservation_fingerprint (sorted_str service_ids) [].

Definition _journal_failed_attempt (request : ReserveRequest.t) (sender_uid : Z)
    (scope : str) (plan : AllocationPlan) (error : exn) : T unit :=
  let request_id := ReserveRequest.request_id request in
  let failure := response_to_dict (_operation_error "reserve" request_id error) in
  _ ← (if is_extension plan then mret tt
       else journal (fun _ => complete_allocation (ReserveRequest.cluster_name request)
              (ReserveRequest.canonical_job_id request) (txt "rolled-back") failure));
  journal (fun _ => complete_operation sender_uid (txt "reserve") request_id failure scope
             (txt "retryable")).

Definition replay_reserve (request : ReserveRequest.t) (prior : OperationRecord)
    : T response :=
  stored ← lift (completed_response "reserve" prior);
  '(cls, response) ← lift (reserve_response_of stored "stored reserve response has wrong type");
  if bool_decide (ReserveResponse.decision response = AdmissionDecision.ACCEPTED) then
    current ← journal (fun _ => accepted_allocation (ReserveRequest.cluster_name request)
      (ReserveRequest.canonical_job_id request) (ReserveRequest.job_uid request)
      (ReserveRequest.job_gid request) (ReserveRequest.service_ids request));
    match current with
    | Some current =>
        '(cls, response) ← lift (reserve_response_of current
                             "stored allocation response has wrong type");
        mret (cls (ReserveResponse.with_request_id response
                     (ReserveRequest.request_id request)))
    | None => mret (cls response)
    end
  else mret (cls response).

Definition _complete (operation : string) (sender_uid request_id : Z) (r : response)
    (scope : str) : T unit :=
  journal (fun _ => complete_operation sender_uid (txt operation) request_id (response_to_dict r)
             scope (txt "complete")).

Definition restore_plan (request : ReserveRequest.t) (plan : AllocationPlan) : T unit :=
  journal (fun _ => restore_accepted_allocation (ReserveRequest.cluster_name request)
    (ReserveRequest.canonical_job_id request) (existing_services plan)
    (default PNone (existing_response plan))).

Definition run_attempt (request : ReserveRequest.t) (sender_uid : Z) (job : VerifiedJob.t)
    (scope : str) (plan : AllocationPlan) : T ReserveResponse.t :=
  on_error
    (_reserve_services request job (missing_services plan) (_reservation_fingerprint request))
    (fun error =>
       _ ← (if is_extension plan then restore_plan request plan else mret tt);
       if isa_RollbackIncomplete error then mret tt
       else _journal_failed_attempt request sender_uid scope plan error).

Definition merge_extension (request : ReserveRequest.t) (plan : AllocationPlan)
    (response : ReserveResponse.t) : T ReserveResponse.t :=
  if is_extension plan then
    if bool_decide (ReserveResponse.decision response = AdmissionDecision.ACCEPTED) then
      '(_, previous) ← lift (planned_response plan);
      mret (ReserveResponse.mk (ReserveRequest.request_id request) AdmissionDecision.ACCEPTED
              (sort_by str_leb ServiceResult.service_id
                 (ReserveResponse.results previous ++ ReserveResponse.results response)))
    else
      _ ← restore_plan request plan; mret response
  else mret response.

Definition finish_reserve (request : ReserveRequest.t) (sender_uid : Z) (scope : str)
    (plan : AllocationPlan) (response : ReserveResponse.t) : T unit :=
  let state := state_of_decision (ReserveResponse.decision response) in
  let encoded := response_to_dict (ReserveResponse response) in
  _ ← (if negb (is_extension plan) || bool_decide (state = txt "accepted") then
         journal (fun _ => complete_allocation (ReserveRequest.cluster_name request)
           (ReserveRequest.canonical_job_id request) state encoded)
       else mret tt);
  journal (fun _ => complete_operation sender_uid (txt "reserve") (ReserveRequest.request_id request)
    encoded scope
    (if bool_decide (state = txt "delayed") then txt "retryable" else txt "complete")).

Definition _reserve (request : ReserveRequest.t) (sender_uid : Z) : T response :=
  let request_id := ReserveRequest.request_id request in
  try_except (
    job ← await (VerifyReserve request sender_uid);
    let fingerprint := _fingerprint (reserve_request_dict request) in
    let scope := _operation_scope request in
    prior ← journal (fun _ => begin_operation sender_uid (txt "reserve") request_id fingerprint scope);
    match prior with
    | Some prior => replay_reserve request prior
    | None =>
        plan ← journal (fun _ => begin_allocation (ReserveRequest.cluster_name request)
          (ReserveRequest.canonical_job_id request) (ReserveRequest.job_uid request)
          (ReserveRequest.job_gid request) (ReserveRequest.service_ids request)
          (_allocation_fingerprint request) (_reservation_fingerprint request));
        if bool_decide (missing_services plan = []) then
          '(cls, response) ← lift (planned_response plan);
          let response := cls (ReserveResponse.with_request_id response request_id) in
          _ ← _complete "reserve" sender_uid request_id response scope;
          mret response
        else
          response ← run_attempt request sender_uid job scope plan;
          response ← merge_extension request plan response;
          _ ← finish_reserve request sender_uid scope plan response;
          mret (ReserveResponse response)
    end)
  (fun e => mret (_operation_error "reserve" request_id e)).

(** ** Release *)

Definition _release_one (request : ReleaseRequest.t) (record : ReservationRecord.t)
    : T ReleaseResult.t :=
  let s := ReservationRecord.service_id record in
  let rid := ReservationRecord.reservation_id record in
  if one_of (ReservationRecord.state record) terminal_states || bool_decide (rid = None) then
    mret (ReleaseResult.mk s (default 0 rid) ReservationState.ALREADY_TERMINAL None None)
  else
    '(state, diagnostic) ← try_except
      (binding ← await (Resolve s);
       if negb (bool_decide (Some (runtime_id binding) = ReservationRecord.qpm_runtime_id record))
       then mret (ReservationState.STALE_RUNTIME,
                  Some (txt "QPM incarnation differs from reservation journal"))
       else
         raw ← await (Release binding rid (ReleaseRequest.reason request));
         state ← lift (release_status raw);
         mret (state, None))
      (fun e => mret (ReservationState.QPM_FAILURE, Some (bounded_diagnostic (exn_str e))));
    journal_state ← lift (release_journal_state state);
    _ ← journal (fun _ => record_reservation (ReleaseRequest.cluster_name request)
          (ReleaseRequest.canonical_job_id request)
          (ReservationRecord.with_state record journal_state) diagnostic);
    mret (ReleaseResult.mk s (default 0 rid) state
            (if bool_decide (state = ReservationState.QPM_FAILURE)
             then Some GatewayError.QPM else None) diagnostic).

Definition run_release (request : ReleaseRequest.t) (sender_uid : Z) (scope : str)
    : T response :=
  let cluster := ReleaseRequest.cluster_name request in
  let job_id := ReleaseRequest.canonical_job_id request in
  expected_uid ← journal (fun _ => status ← allocation_status cluster job_id;
                                   Effects.lift (status_uid status));
  _ ← await (VerifyRelease request sender_uid expected_uid);
  records ← journal (fun _ => reservations cluster job_id);
  results ← mapM (_release_one request) (List.filter has_id records);
  let response := ReleaseResponse
    (ReleaseResponse.mk (ReleaseRequest.request_id request) results) in
  let encoded := response_to_dict response in
  let state := release_state [ReservationState.AUTHORIZATION_FAILURE;
    ReservationState.QPM_FAILURE; ReservationState.GATEWAY_FAILURE] results in
  _ ← journal (fun _ => complete_allocation cluster job_id state encoded);
  _ ← journal (fun _ => complete_operation sender_uid (txt "release")
        (ReleaseRequest.request_id request) encoded scope (txt "complete"));
  mret response.

Definition _release (request : ReleaseRequest.t) (sender_uid : Z) : T response :=
  let request_id := ReleaseRequest.request_id request in
  try_except (
    let fingerprint := _fingerprint (release_request_dict request) in
    let scope := txt "allocation" in
    prior ← journal (fun _ => begin_operation sender_uid (txt "release") request_id fingerprint scope);
    match prior with
    | Some prior =>
        stored ← lift (completed_response "release" prior);
        response ← lift (response_from_dict stored);
        match response with
        | ReleaseResponse _ => mret response
        | _ => raise (JournalError (txt "stored release response has wrong type"))
        end
    | None => run_release request sender_uid scope
    end)
  (fun e => mret (release_error request_id e)).

Definition retry_release (request : ReleaseRequest.t) : T ReleaseResponse.t :=
  let cluster := ReleaseRequest.cluster_name request in
  let job_id := ReleaseRequest.canonical_job_id request in
  records ← journal (fun _ => reservations cluster job_id);
  results ← mapM (_release_one request) (List.filter has_id records);
  let response := ReleaseResponse.mk (ReleaseRequest.request_id request) results in
  let state := release_state [ReservationState.STALE_RUNTIME;
    ReservationState.QPM_FAILURE; ReservationState.GATEWAY_FAILURE] results in
  _ ← journal (fun _ => complete_allocation cluster job_id state
        (response_to_dict (ReleaseResponse response)));
  mret response.

(** What runs under the lock in [handle] *)
Definition dispatch (request : request) (sender_uid : Z) : T response :=
  match request with
  | EvaluateRequest r => _evaluate r sender_uid
  | ReserveRequest r => _reserve r sender_uid
  | GetReservationsRequest r => _get_reservations r sender_uid
  | ReleaseRequest r => _release r sender_uid
  end.
End service.
End Tasks.
