(* ===== verification/TaskFacts.v ===== *)
(** * A task run alone is the handler of [Service]

    The tasks of [Tasks] differ from the handlers of [Service] in that they
    show their await points. Run without interruption they are the same. *)

From S2P Require Import Prelude Python Utf8 Enums Messages Wire Values ResponseDict Effects Journal SlurmVerifier Adapter Service ServiceFacts Tasks.
Local Open Scope Z_scope.

(** What an awaited call does to the world *)
Definition perform {X H B : Type} `{AdapterOps X H} `{VerifierOps X} (c : call H B) : M (world X) B :=
  match c with
  | VerifyReserve r uid => external (v_reserve r uid)
  | VerifyRelease r uid expected => external (v_release r uid expected)
  | VerifyLookup r uid => external (v_lookup r uid)
  | Resolve s => external (a_resolve s)
  | Evaluate b r job => external (a_evaluate b r job)
  | Reserve b r job => adapter_reserve b r job
  | Release b rid reason => adapter_release b rid reason
  end.

Section run.
Context {jenv : JournalEnv} {X H : Type} {adapter_ops : AdapterOps X H} {verifier_ops : VerifierOps X}.
Local Abbreviation W := (world X).

(** Run a task without interruption. *)
Fixpoint run_task {A} (p : task H A) : M W A :=
  match p with
  | Done r => lift r
  | Sync m k => fun w => let (r, w') := journal (m jenv) w in run_task (k r) w'
  | Await c k => fun w => let (r, w') := perform c w in run_task (k r) w'
  end.

Definition runs {A} (p : task H A) (m : M W A) : Prop := forall w, run_task p w = m w.

Lemma runs_done {A} (r : result A) : runs (Done r) (lift r).
Proof. done. Qed.
Lemma runs_mret {A} (a : A) : runs (mret a) (mret (M := M W) a).
Proof. done. Qed.
Lemma runs_lift {A} (r : result A) : runs (Tasks.lift r) (lift r).
Proof. done. Qed.
Lemma runs_raise {A} e : runs (Tasks.raise (A := A) e) (raise e).
Proof. done. Qed.
Lemma runs_raise_when b e : runs (Tasks.raise_when b e) (raise_when b e).
Proof. by destruct b. Qed.

Lemma runs_journal {A} (m : JournalEnv -> M db A) : runs (Tasks.journal m) (journal (m jenv)).
Proof. intros w. simpl. by destruct (journal (m jenv) w). Qed.

Lemma runs_await {A} (c : call H A) : runs (Tasks.await c) (perform c).
Proof. intros w. simpl. by destruct (perform c w). Qed.

Lemma runs_bind {A B} (p : task H A) m (f : A -> task H B) (g : A -> M W B) :
  runs p m -> (forall a, runs (f a) (g a)) -> runs (p ≫= f) (m ≫= g).
Proof.
  intros Hp Hf w. unfold mbind at 2, m_mbind, m_bind. rewrite <-(Hp w). clear Hp. revert w.
  unfold mbind, Tasks.task_mbind. induction p as [r|C n k IH|C c k IH]; intros w; simpl.
  - destruct r; [apply Hf|done].
  - destruct (journal (n jenv) w). apply IH.
  - destruct (perform c w). apply IH.
Qed.

Lemma runs_try {A} (p : task H A) m h h' :
  runs p m -> (forall e, runs (h e) (h' e)) -> runs (Tasks.try_except p h) (try_except m h').
Proof.
  intros Hp Hh w. unfold try_except. rewrite <-(Hp w). clear Hp. revert w.
  induction p as [r|C n k IH|C c k IH]; intros w; simpl.
  - destruct r as [a|e]; [done|]. simpl. destruct (isa_Exception e); [apply Hh|done].
  - destruct (journal (n jenv) w). apply IH.
  - destruct (perform c w). apply IH.
Qed.

Lemma runs_try_step {A} pending (p : task H A) m k k' :
  runs p m -> (forall a, runs (k a) (k' a)) ->
  runs (Tasks.try_step pending p k) (try_step pending m k').
Proof.
  intros Hp Hk w. unfold try_step. rewrite <-(Hp w). clear Hp. revert w.
  induction p as [r|C n q IH|C c q IH]; intros w; simpl.
  - destruct r as [a|e]; [apply Hk|]. simpl. by destruct (isa_Exception e).
  - destruct (journal (n jenv) w). apply IH.
  - destruct (perform c w). apply IH.
Qed.

Lemma runs_mapM {A B} (f : A -> task H B) g l :
  (forall x, runs (f x) (g x)) -> runs (Tasks.mapM f l) (mapM g l).
Proof.
  intros Hf. induction l as [|x l IH]; simpl; [apply runs_mret|].
  apply runs_bind; [apply Hf|intros y]. apply runs_bind; [exact IH|intros ys; apply runs_mret].
Qed.

Lemma runs_on_error {A} (p : task H A) m h h' :
  runs p m -> (forall e, runs (h e) (h' e)) -> runs (Tasks.on_error p h) (on_error m h').
Proof.
  intros Hp Hh. apply runs_try; [done|]. intros e.
  apply runs_bind; [apply Hh|intros []; apply runs_raise].
Qed.

Lemma runs_collecting (p : task H unit) m f :
  runs p m -> runs (Tasks.collecting p f) (collecting m f).
Proof.
  intros Hp. apply runs_try; [|intros e; apply runs_mret].
  apply runs_bind; [done|intros []; apply runs_mret].
Qed.

End run.

Create HintDb runs discriminated.
#[export] Hint Resolve runs_mret runs_lift runs_raise runs_raise_when : runs.

(** Walk through a task and its handler. *)
Ltac walk :=
  repeat first
    [ solve [auto with runs]
    | lazymatch goal with
      | |- runs (mbind _ _) _ => apply runs_bind; [|intros ?]
      | |- runs (Tasks.try_except _ _) _ => apply runs_try; [|intros ?]
      | |- runs (Tasks.try_step _ _ _) _ => apply runs_try_step; [|intros ?]
      | |- runs (Tasks.on_error _ _) _ => apply runs_on_error; [|intros ?]
      | |- runs (Tasks.collecting _ _) _ => apply runs_collecting
      | |- runs (Tasks.mapM _ _) _ => apply runs_mapM; intros ?
      | |- runs (Tasks.journal _) _ => apply (runs_journal (fun _ => _))
      | |- runs (Tasks.await ?c) _ => apply (runs_await c)
      | |- runs (match _ with _ => _ end) _ => case_match
      end
    | progress cbv beta zeta iota ].

Section handlers.
Context {ucd : UnicodeData} {jenv : JournalEnv} {sha : Sha256}.
Context {X H : Type} {adapter_ops : AdapterOps X H} {verifier_ops : VerifierOps X}.

Lemma runs_get_reservations r uid :
  runs (H := H) (Tasks._get_reservations r uid) (_get_reservations (X := X) r uid).
Proof. unfold Tasks._get_reservations, _get_reservations. cbv zeta. walk. Qed.

Lemma runs_evaluate r uid : runs (Tasks._evaluate r uid) (_evaluate (X := X) (H := H) r uid).
Proof.
  unfold Tasks._evaluate, _evaluate, Tasks._evaluate_services, _evaluate_services,
    Tasks._journal_failed_evaluation, _journal_failed_evaluation. cbv zeta. walk.
Qed.

Lemma runs_rollback r l : runs (Tasks._rollback r l) (_rollback (X := X) (H := H) r l).
Proof.
  unfold Tasks._rollback, _rollback. walk. destruct x as [binding result].
  unfold Tasks.rollback_one, rollback_one. walk.
Qed.

Lemma runs_attempt_service r job fp s :
  runs (Tasks.attempt_service r job fp s) (attempt_service (X := X) (H := H) r job fp s).
Proof. unfold Tasks.attempt_service, attempt_service. cbv zeta. walk. Qed.

Lemma runs_reserve_loop r job fp services l :
  runs (Tasks.reserve_loop r job fp services l) (reserve_loop (X := X) (H := H) r job fp services l).
Proof.
  pose proof (runs_rollback r). revert l.
  induction services as [|s services IH]; intros l; cbn [Tasks.reserve_loop reserve_loop];
    [apply runs_mret|].
  apply runs_bind; [apply runs_attempt_service|intros [[b result]|error pending]]; walk.
Qed.

Lemma runs_replay r prior :
  runs (H := H) (Tasks.replay_reserve r prior) (replay_reserve (X := X) r prior).
Proof. unfold Tasks.replay_reserve, replay_reserve. walk. Qed.

Lemma runs_run_attempt r uid job scope plan :
  runs (Tasks.run_attempt r uid job scope plan) (run_attempt (X := X) (H := H) r uid job scope plan).
Proof.
  pose proof (runs_reserve_loop r).
  unfold Tasks.run_attempt, run_attempt, Tasks._reserve_services, _reserve_services,
    Tasks.restore_plan, restore_plan, Tasks._journal_failed_attempt, _journal_failed_attempt. walk.
Qed.

Lemma runs_reserve r uid : runs (Tasks._reserve r uid) (_reserve (X := X) (H := H) r uid).
Proof.
  pose proof (runs_replay r). pose proof (runs_run_attempt r uid).
  unfold Tasks._reserve, _reserve, Tasks._complete, _complete, Tasks.merge_extension,
    merge_extension, Tasks.restore_plan, restore_plan, Tasks.finish_reserve, finish_reserve.
  cbv zeta. walk.
Qed.

Lemma runs_release_one r record :
  runs (Tasks._release_one r record) (_release_one (X := X) (H := H) r record).
Proof. unfold Tasks._release_one, _release_one. cbv zeta. walk. Qed.

Lemma runs_retry r : runs (Tasks.retry_release r) (retry_release (X := X) (H := H) r).
Proof.
  pose proof (runs_release_one r). unfold Tasks.retry_release, retry_release. cbv zeta. walk.
Qed.

(** The two reads before the verification are one journal call of the task. *)
Lemma runs_expected_uid c j (f : option Z -> task H response) g :
  (forall u, runs (f u) (g u)) ->
  runs (Tasks.journal (fun _ => status ← allocation_status c j; lift (status_uid status)) ≫= f)
    (status ← journal (X := X) (allocation_status c j); u ← lift (status_uid status); g u).
Proof.
  intros Hf w. rewrite (runs_bind _ _ _ g (runs_journal _) Hf w).
  unfold mbind, m_mbind, m_bind, journal, zoom, lift.
  destruct (allocation_status c j (w_db w)) as [[a|e] d]; [|done]. simpl. by destruct (status_uid a).
Qed.

Lemma runs_release r uid : runs (Tasks._release r uid) (_release (X := X) (H := H) r uid).
Proof.
  pose proof (runs_release_one r).
  unfold Tasks._release, _release, Tasks.run_release, run_release. cbv zeta. walk.
  apply runs_expected_uid. intros u. walk.
Qed.

Lemma runs_dispatch q uid : runs (Tasks.dispatch q uid) (handle (X := X) (H := H) q uid).
Proof.
  destruct q; simpl; [apply runs_evaluate|apply runs_reserve|apply runs_release|apply runs_get_reservations].
Qed.
End handlers.
