(* ===== verification/Interleaving.v ===== *)
(** * Requests that run at the same time ([service.py])

    The gateway runs one task per request. A task holds the lock of the
    allocation its request names; between its journal calls and its awaited
    calls, the tasks of other allocations run, and QPMs and the controller
    change as they like. *)

From S2P Require Import Prelude Python Enums Messages Wire Codec Values ResponseDict Effects Journal JournalFacts SlurmVerifier Adapter Service Tasks TaskFacts Triples.
Local Open Scope Z_scope.

(** The key of the lock that [handle] takes. A lookup takes the lock of the
    job it observes, which may be a component of a heterogeneous job. *)
Definition lock_key (q : request) : str * Z :=
  match q with
  | EvaluateRequest r | ReserveRequest r =>
      (ReserveRequest.cluster_name r, ReserveRequest.canonical_job_id r)
  | ReleaseRequest r => (ReleaseRequest.cluster_name r, ReleaseRequest.canonical_job_id r)
  | GetReservationsRequest r =>
      (GetReservationsRequest.cluster_name r, GetReservationsRequest.observed_job_id r)
  end.

(** What a task serves: a request of a sender, or an administrative retry,
    which takes the lock of its allocation, too. *)
Inductive job :=
| Serving (q : request) (sender_uid : Z)
| Retrying (r : ReleaseRequest.t).

Definition lock_of (b : job) : str * Z :=
  match b with
  | Serving q _ => lock_key q
  | Retrying r => (ReleaseRequest.cluster_name r, ReleaseRequest.canonical_job_id r)
  end.

Definition is_lookup (b : job) : bool :=
  if b is Serving (GetReservationsRequest _) _ then true else false.

(** The task that holds a lock: what it serves, and, as a ghost, the tables at
    its first journal call *)
Record holder {H : Type} := mk_holder {
  h_job : job;
  h_opened : option tables;
  h_task : task H response;
}.
Arguments holder : clear implicits.
Arguments mk_holder {H}.

(** The shared world, the holders of the locks, and the allocations whose task
    was cancelled. A task that waits for a lock has not started. *)
Record gateway {X H : Type} := mk_gateway {
  g_world : world X;
  holders : gmap (str * Z) (holder H);
  abandoned : gset (str * Z);
}.
Arguments gateway : clear implicits.
Arguments mk_gateway {X H}.

Section interleaving.
Context {ucd : UnicodeData} {jenv : JournalEnv} {sha : Sha256}.
Context {X H : Type} {adapter_ops : AdapterOps X H} {verifier_ops : VerifierOps X}.
Local Abbreviation G := (gateway X H).

(** One journal call or one awaited call of a task. Tasks switch at awaited
    calls only; allowing a switch at every journal call allows more. *)
Definition advance {A} (p : task H A) (w : world X) : option (task H A * world X) :=
  match p with
  | Done _ => None
  | Sync m k => let (r, w') := journal (m jenv) w in Some (k r, w')
  | Await c k => let (r, w') := perform c w in Some (k r, w')
  end.

Definition job_task (b : job) : task H response :=
  match b with
  | Serving q uid => Tasks.dispatch q uid
  | Retrying r => response ← Tasks.retry_release r; mret (ReleaseResponse response)
  end.

Definition arrival (b : job) : holder H := mk_holder b None (job_task b).

(** The holder after a call that leaves the task [p] to do *)
Definition moved (h : holder H) (w : world X) (p : task H response) : holder H :=
  mk_holder (h_job h)
    (match h_opened h, h_task h with
     | None, Sync _ _ => Some (db_tables (w_db w))
     | o, _ => o
     end) p.

(** What the task does when it runs alone *)
Definition run_job (b : job) : M (world X) response :=
  match b with
  | Serving q uid => handle q uid
  | Retrying r => response ← retry_release r; mret (ReleaseResponse response)
  end.

Lemma runs_job b : runs (job_task b) (run_job b).
Proof.
  destruct b as [q uid|r]; [apply runs_dispatch|].
  apply runs_bind; [apply runs_retry|intros a; apply runs_mret].
Qed.

(** The requests that arrive are decoded from a frame. *)
Definition arrives (b : job) : Prop :=
  match b with
  | Serving q _ => exists frame h, decode_request frame = Ok (h, q)
  | Retrying _ => True
  end.

Inductive step : G -> G -> Prop :=
(** a task gets its lock *)
| step_start b w ts ab :
    arrives b -> ts !! lock_of b = None ->
    step (mk_gateway w ts ab) (mk_gateway w (<[lock_of b := arrival b]> ts) ab)
(** a task makes a call *)
| step_task K h p w w' ts ab :
    ts !! K = Some h -> advance (h_task h) w = Some (p, w') ->
    step (mk_gateway w ts ab) (mk_gateway w' (<[K := moved h w p]> ts) ab)
(** a task returns its answer and releases the lock *)
| step_answer K h resp w ts ab :
    ts !! K = Some h -> h_task h = Done (Ok resp) ->
    step (mk_gateway w ts ab) (mk_gateway w (delete K ts) ab)
(** so does a task that raises: a cancelled one, or a failed retry *)
| step_raised K h e w ts ab :
    ts !! K = Some h -> h_task h = Done (Raise e) ->
    step (mk_gateway w ts ab) (mk_gateway w (delete K ts) ({[K]} ∪ ab))
(** what is outside changes *)
| step_outside x w ts ab :
    step (mk_gateway w ts ab) (mk_gateway (mk_world (w_db w) x (w_log w)) ts ab).

(** The gateway starts on an empty journal. *)
Definition initial (x : X) : G := mk_gateway (mk_world empty_db x []) ∅ ∅.

Definition reaches (g : G) : Prop := exists x, rtc step (initial x) g.

(** ** Schedules *)

Inductive move :=
| Start (frame : bytes) (sender_uid : Z)
| Retry (r : ReleaseRequest.t)
| Turn (K : str * Z)
| Leave (K : str * Z).

(** Start a task whose lock is free. *)
Definition take_lock (b : job) (g : G) : option G :=
  let '(mk_gateway w ts ab) := g in
  if ts !! lock_of b is None
  then Some (mk_gateway w (<[lock_of b := arrival b]> ts) ab) else None.

Definition play (m : move) (g : G) : option G :=
  let '(mk_gateway w ts ab) := g in
  match m with
  | Start frame uid =>
      match decode_request frame with
      | Ok (_, q) => take_lock (Serving q uid) g
      | Raise _ => None
      end
  | Retry r => take_lock (Retrying r) g
  | Turn K =>
      h ← ts !! K;
      '(p, w') ← advance (h_task h) w;
      Some (mk_gateway w' (<[K := moved h w p]> ts) ab)
  | Leave K =>
      h ← ts !! K;
      match h_task h with
      | Done (Ok _) => Some (mk_gateway w (delete K ts) ab)
      | Done (Raise _) => Some (mk_gateway w (delete K ts) ({[K]} ∪ ab))
      | _ => None
      end
  end.

Fixpoint plays (l : list move) (g : G) : option G :=
  match l with
  | [] => Some g
  | m :: l => g' ← play m g; plays l g'
  end.

Lemma take_lock_step b g g' : arrives b -> take_lock b g = Some g' -> step g g'.
Proof.
  destruct g as [w ts ab]. simpl. intros Hb. destruct (ts !! lock_of b) eqn:HL; [done|].
  intros [= <-]. by apply step_start.
Qed.

Lemma play_step m g g' : play m g = Some g' -> step g g'.
Proof.
  destruct g as [w ts ab], m as [frame uid|r|K|K]; unfold play.
  - destruct (decode_request frame) as [[h q]|] eqn:Hq; [|done]. apply take_lock_step. by exists frame, h.
  - by apply take_lock_step.
  - destruct (ts !! K) as [h|] eqn:Hp; [|done]. simpl.
    destruct (advance (h_task h) w) as [[p w']|] eqn:Hstep; [|done]. intros [= <-].
    by eapply step_task.
  - destruct (ts !! K) as [h|] eqn:Hp; [|done]. simpl.
    destruct (h_task h) as [[resp|e]|?|?] eqn:Ht; try done; intros [= <-];
      [by eapply step_answer|by eapply step_raised].
Qed.

Lemma plays_reaches l x g : plays l (initial x) = Some g -> reaches g.
Proof.
  intros Hl. exists x. revert Hl. generalize (initial x). induction l as [|m l IH]; simpl.
  - intros g0 [= ->]. done.
  - intros g0 Hl. destruct (play m g0) as [g1|] eqn:Hm; [|done].
    eapply rtc_l; [by eapply play_step|by apply IH].
Qed.
End interleaving.
