(* ===== verification/Replay.v ===== *)
(** * A task seen alone

    What a task does to the journal when no other task runs, whatever its calls
    return: [alone]. Every such run is one of the handlers of [Service], on a
    site that answers from a script. *)

From S2P Require Import Prelude Python Utf8 Enums Messages Wire Values ResponseDict Effects Journal JournalFacts SlurmVerifier Adapter Service ServiceFacts Tasks TaskFacts Triples.
Local Open Scope Z_scope.

(** ** What calls may return *)

Definition result_lawful {H} (b : QPMBinding H) (r : ServiceResult.t) : bool :=
  bool_decide (ServiceResult.service_id r = service_id b) &&
  match ServiceResult.reservation_id r with
  | Some rid => bool_decide (ServiceResult.decision r = AdmissionDecision.ACCEPTED)
                && (0 <? rid) && (rid <? 2 ^ 64)
  | None => negb (bool_decide (ServiceResult.decision r = AdmissionDecision.ACCEPTED))
  end.

Lemma result_lawful_ok {H} (b : QPMBinding H) r : result_lawful b r = true <-> reserve_result_ok b r.
Proof.
  unfold result_lawful, reserve_result_ok. rewrite andb_true_iff, bool_decide_eq_true.
  destruct (ServiceResult.reservation_id r).
  - rewrite !andb_true_iff, bool_decide_eq_true. intuition lia.
  - by rewrite negb_true_iff, bool_decide_eq_false.
Qed.

Definition lawful {H B} (c : call H B) : result B -> bool :=
  match c with
  | Resolve s => fun r => if r is Ok b then bool_decide (service_id b = s) else true
  | Evaluate b _ _ => fun r =>
      if r is Ok x then bool_decide (ServiceResult.service_id x = service_id b)
                        && bool_decide (ServiceResult.reservation_id x = None) else true
  | Reserve b _ _ => fun r => if r is Ok x then result_lawful b x else true
  | _ => fun _ => true
  end.

Lemma perform_lawful {X H B} {adapter_ops : AdapterOps X H} {verifier_ops : VerifierOps X}
    {laws : AdapterLaws X H} (c : call H B) (w : world X) r w' :
  perform c w = (r, w') -> lawful c r = true.
Proof.
  destruct c; simpl; try done; unfold adapter_reserve, external, zoom; intros Hr.
  - destruct (a_resolve _ _) as [[b|e] x] eqn:E; injection Hr as <- _; [|done].
    apply bool_decide_eq_true. by apply resolve_service in E.
  - destruct (a_evaluate _ _ _ _) as [[b'|e] x] eqn:E; injection Hr as <- _; [|done].
    apply evaluate_result in E as [??]. by rewrite !bool_decide_eq_true_2.
  - destruct (a_reserve _ _ _ _) as [[b'|e] x] eqn:E; injection Hr as <- _; [|done].
    apply result_lawful_ok. by apply reserve_result in E.
Qed.

(** ** A site that answers from a script *)

Inductive answer {H : Type} :=
| AJob (r : result VerifiedJob.t)
| ABinding (r : result (QPMBinding H))
| AResult (r : result ServiceResult.t)
| ADocument (r : result (list (str * pyval))).
Arguments answer : clear implicits.

Abbreviation script H := (list (answer H)).

(** The next answer, when it is of the right kind and lawful *)
Definition next {H B} (select : answer H -> option (result B)) (allowed : result B -> bool)
    : M (script H) B :=
  fun l => match l with
           | a :: l => match select a with
                       | Some r => if allowed r then (r, l) else (Raise CancelledError, l)
                       | None => (Raise CancelledError, l)
                       end
           | [] => (Raise CancelledError, [])
           end.

Definition job_of {H} (a : answer H) := if a is AJob r then Some r else None.
Definition binding_of {H} (a : answer H) := if a is ABinding r then Some r else None.
Definition result_of {H} (a : answer H) := if a is AResult r then Some r else None.
Definition document_of {H} (a : answer H) := if a is ADocument r then Some r else None.

Definition script_adapter {H} : AdapterOps (script H) H := {|
  a_resolve s := next binding_of (lawful (Resolve s));
  a_evaluate b r job := next result_of (lawful (Evaluate b r job));
  a_reserve b r job := next result_of (lawful (Reserve b r job));
  a_release b rid reason := next document_of (lawful (Release b rid reason));
|}.
Definition script_verifier {H} : VerifierOps (script H) := {|
  v_reserve r uid := next job_of (fun _ => true);
  v_release r uid expected := next job_of (fun _ => true);
  v_lookup r uid := next job_of (fun _ => true);
|}.

Lemma next_allowed {H B} select allowed (l : script H) (b : B) l' :
  next select allowed l = (Ok b, l') -> allowed (Ok b) = true.
Proof.
  destruct l as [|a l]; [done|]. simpl. destruct (select a) as [r|]; [|done].
  destruct (allowed r) eqn:E; [|done]. by intros [= -> _].
Qed.

#[export] Instance script_laws {H} : @AdapterLaws (script H) H script_adapter.
Proof.
  split.
  - intros s x b x' E%next_allowed. by apply bool_decide_eq_true in E.
  - intros b req job x r x' E%next_allowed. by apply result_lawful_ok.
  - intros b req job x r x' E%next_allowed. simpl in E.
    apply andb_true_iff in E as [?%bool_decide_eq_true ?%bool_decide_eq_true]. done.
Qed.

(** Every lawful answer can be scripted. *)
Lemma perform_scripted {H B} (c : call H B) (r : result B) :
  lawful c r = true -> exists a, forall d l log, exists log',
    @perform (script H) H B script_adapter script_verifier c (mk_world d (a :: l) log)
      = (r, mk_world d l log').
Proof.
  intros Hr. destruct c; simpl in *;
    [exists (AJob r)|exists (AJob r)|exists (AJob r)|exists (ABinding r)|exists (AResult r)
    |exists (AResult r)|exists (ADocument r)]; intros d l log;
    unfold adapter_reserve, adapter_release, external, zoom; simpl; rewrite ?Hr; by eexists.
Qed.

(** ** Runs of a task alone *)

Section alone.
Context {jenv : JournalEnv}.

(** A working disk and a clock that stands still *)
Definition clock_env (now : Z) : JournalEnv := {|
  sqlite_fault := fun _ => None;
  time_ns := fun _ => now;
  set_order := set_order;
|}.

(** A journal call as a function of the time and the tables *)
Definition body {B} (m : JournalEnv -> M db B) (now : Z) (t : tables) : result B * tables :=
  let (r, d) := m (clock_env now) (mk_db t 0) in (r, db_tables d).

(** A call that reads the clock once and cannot fail on a working disk: it is
    its body, on any such disk with the same set order. *)
Definition atomic {B} (m : JournalEnv -> M db B) : Prop :=
  exists count : tables -> nat, forall env t n,
    no_faults env -> @set_order env = @set_order jenv ->
    m env (mk_db t n) = ((body m (@time_ns env n) t).1,
                         mk_db (body m (@time_ns env n) t).2 (n + S (count t))).

Context {H : Type}.

Inductive alone {A} : task H A -> tables -> result A -> tables -> Prop :=
| alone_done r t : alone (Done r) t r t
| alone_sync {B} (m : JournalEnv -> M db B) k now t r t1 res t2 :
    atomic m -> body m now t = (r, t1) -> alone (k r) t1 res t2 -> alone (Sync m k) t res t2
| alone_await {B} (c : call H B) k t r res t2 :
    lawful c r = true -> alone (k r) t res t2 -> alone (Await c k) t res t2.

(** The disk of a run, with the clock it needs *)
Definition replay_env (clock : nat -> Z) : JournalEnv := {|
  sqlite_fault := fun _ => None;
  time_ns := clock;
  set_order := set_order;
|}.

(** Every run alone is a run of the task on a scripted site. *)
Lemma alone_scripted {A} (p : task H A) t res t' n :
  alone p t res t' -> exists clock l, forall env log,
    no_faults env -> @set_order env = @set_order jenv -> (forall i, (n <= i)%nat -> @time_ns env i = clock i) ->
    exists d log' l', @run_task env (script H) H script_adapter script_verifier A p
      (mk_world (mk_db t n) l log) = (res, mk_world d l' log') /\ db_tables d = t'.
Proof.
  intros Ha. revert n.
  induction Ha as [r t|B m k now t r t1 res t2 [count Hm] Hb _ IH|B c k t r res t2 Hl _ IH]; intros n.
  - exists (fun _ => 0), []. intros env log _ _ _. by do 3 eexists.
  - destruct (IH (n + S (count t))%nat) as (clock & l & Hrun).
    exists (fun i => if (i <? n + S (count t))%nat then now else clock i), l.
    intros env log Hf Ho Ht. simpl. unfold journal, zoom. simpl. rewrite Hm by done.
    rewrite (Ht n), (proj2 (Nat.ltb_lt n _)), Hb by lia. simpl.
    apply Hrun; [done..|]. intros i Hi. rewrite Ht by lia.
    by rewrite (proj2 (Nat.ltb_ge i _)) by lia.
  - destruct (perform_scripted c r Hl) as [a Hc]. destruct (IH n) as (clock & l & Hrun).
    exists clock, (a :: l). intros env log Hf Ho Ht.
    destruct (Hc (mk_db t n) l log) as [log' E]. simpl. rewrite E. by apply Hrun.
Qed.

Lemma alone_runs {A} (p : task H A) t res t' :
  alone p t res t' -> exists clock l w', 
    @run_task (replay_env clock) (script H) H script_adapter script_verifier A p
      (mk_world (mk_db t 0) l []) = (res, w') /\ tables_of w' = t'.
Proof.
  intros Ha. destruct (alone_scripted p t res t' 0 Ha) as (clock & l & Hrun).
  destruct (Hrun (replay_env clock) []) as (d & log' & l' & E & <-); [done..|].
  exists clock, l. by eexists.
Qed.
End alone.
