(* ===== verification/Locality.v ===== *)
(** * Journal calls are local

    What a journal call of a task returns and writes depends on the rows of the
    task's allocation and on the presence of its own operation, and it writes
    nothing of other allocations. So a task cannot tell whether the tasks of
    other allocations run. *)

From S2P Require Import Prelude Python Values Effects Journal JournalFacts SlurmVerifier Adapter Service ServiceFacts Tasks TaskFacts Triples Replay.
Local Open Scope Z_scope.

(** ** Tables that agree on an allocation *)

(** The operation of the key, if any, is recorded. *)
Definition present (o : option op_key) (t : tables) : Prop :=
  match o with Some key => is_Some (operations t !! key) | None => True end.

(** The rows of the allocation are the same. *)
Abbreviation same_rows K := (untouched (eq K)).

#[export] Instance untouched_symmetric P : Symmetric (untouched P).
Proof. intros t t' [H1 H2]. split; intros; symmetry; auto. Qed.

(** Nothing a task of the allocation, with its operation, could tell apart *)
Definition similar (K : alloc_key) (o : option op_key) (t t' : tables) : Prop :=
  same_rows K t t' /\ present o t /\ present o t'.

(** What one task promises the others: it leaves other allocations as they are
    and deletes no operation. *)
Definition guarantee (P : alloc_key -> Prop) (t t' : tables) : Prop :=
  untouched P t t' /\ forall key, is_Some (operations t !! key) -> is_Some (operations t' !! key).

#[export] Instance guarantee_preorder P : PreOrder (guarantee P).
Proof.
  split; [by intros t; split|]. intros t1 t2 t3 [Hu1 Ho1] [Hu2 Ho2].
  split; [by etrans|auto].
Qed.

Lemma guarantee_weaken (P Q : alloc_key -> Prop) t t' :
  (forall K, Q K -> P K) -> guarantee P t t' -> guarantee Q t t'.
Proof. intros HQ [[H1 H2] Ho]. split; [split; auto|done]. Qed.

(** All allocations but one *)
Definition other_than (K K' : alloc_key) : Prop := K' <> K.

Lemma similar_guarantee K o t t' t'' :
  similar K o t t' -> guarantee (eq K) t' t'' -> similar K o t t''.
Proof. intros (Hr & Hp & Hp') [Hu Ho]. split; [by etrans|]. split; [done|]. destruct o; [by apply Ho|done]. Qed.

Section rows.
Context {K : alloc_key} {o : option op_key}.
Implicit Types (t : tables).

Lemma similar_lookup c k t t' :
  similar (c, k) o t t' -> allocations t' !! (c, k) = allocations t !! (c, k).
Proof. intros [[H _] _]. by apply H. Qed.

Lemma similar_row c k s t t' :
  K = (c, k) -> similar K o t t' ->
  reservation_rows t !! (c, k, s) = reservation_rows t' !! (c, k, s).
Proof. intros E [[_ H] _]. symmetry. by apply H. Qed.

Lemma similar_allocation row t t' :
  similar K o t t' ->
  similar K o (set_allocations <[K := row]> t) (set_allocations <[K := row]> t').
Proof.
  intros ([H1 H2] & ? & ?). split; [|by destruct o]. split; [|done].
  intros K' <-. simpl. by rewrite !lookup_insert_eq.
Qed.

Lemma similar_reservation c k s row t t' :
  K = (c, k) -> similar K o t t' ->
  similar K o (set_reservations <[(c, k, s) := row]> t) (set_reservations <[(c, k, s) := row]> t').
Proof.
  intros E ([H1 H2] & ? & ?). split; [|by destruct o]. split; [done|].
  intros c' k' s' E'. simpl. destruct (decide ((c', k', s') = (c, k, s))) as [[= -> -> ->]|Hne].
  - by rewrite !lookup_insert_eq.
  - rewrite !lookup_insert_ne by done. by apply H2.
Qed.

Lemma present_insert key row t : present o t -> present o (set_operations <[key := row]> t).
Proof.
  destruct o as [k|]; [|done]. simpl. intros Hk. destruct (decide (k = key)) as [->|Hne].
  - by rewrite lookup_insert_eq.
  - by rewrite lookup_insert_ne.
Qed.

Lemma similar_operation key row row' t t' :
  similar K o t t' ->
  similar K o (set_operations <[key := row]> t) (set_operations <[key := row']> t').
Proof. intros (H & ? & ?). split; [by destruct H|]. split; by apply present_insert. Qed.
End rows.

Section guarantees.
Context {P : alloc_key -> Prop}.

Lemma guarantee_allocation K row t : ~ P K -> guarantee P t (set_allocations <[K := row]> t).
Proof. intros HK. split; [by apply untouched_allocation|done]. Qed.
Lemma guarantee_reservation c k s row t :
  ~ P (c, k) -> guarantee P t (set_reservations <[(c, k, s) := row]> t).
Proof. intros HK. split; [by apply untouched_reservation|done]. Qed.
Lemma guarantee_operation key row t : guarantee P t (set_operations <[key := row]> t).
Proof. split; [by split|]. intros k Hk. by apply (present_insert (o := Some k)). Qed.
End guarantees.

Lemma other_than_self K : ~ other_than K K.
Proof. unfold other_than. by intros []. Qed.
Create HintDb local discriminated.
#[export] Hint Resolve guarantee_allocation guarantee_reservation guarantee_operation
  other_than_self : local.
#[export] Hint Extern 1 (~ _ = _) => apply other_than_self : local.

(** ** What each call promises *)

Section guards.
Context {ucd : UnicodeData} {env : JournalEnv}.

Ltac promises := apply statement_preserves; [apply _|]; intros now t; cbv beta zeta;
  repeat case_match; simpl; first [reflexivity|auto with local].

Lemma begin_operation_guarded P uid op rid fp scope :
  preserves (on_tables (guarantee P)) (begin_operation uid op rid fp scope).
Proof. promises. Qed.

Lemma complete_operation_guarded P uid op rid r scope st :
  preserves (on_tables (guarantee P)) (complete_operation uid op rid r scope st).
Proof. unfold complete_operation. case_match; [intros d; reflexivity|]. promises. Qed.

Context (c : str) (j : Z).
Local Abbreviation others := (other_than (c, str_of_Z j)).

Lemma begin_allocation_guarded uid gid services fp rfp :
  preserves (on_tables (guarantee others)) (begin_allocation c j uid gid services fp rfp).
Proof. promises. Qed.

Lemma update_allocation_guarded m f :
  preserves (on_tables (guarantee others)) (update_allocation c j m f).
Proof. promises. Qed.

Lemma set_allocation_state_guarded s :
  preserves (on_tables (guarantee others)) (set_allocation_state c j s).
Proof. promises. Qed.

Lemma record_reservation_guarded r diag :
  preserves (on_tables (guarantee others)) (record_reservation c j r diag).
Proof. promises. Qed.
End guards.

#[export] Hint Resolve begin_operation_guarded complete_operation_guarded begin_allocation_guarded
  update_allocation_guarded set_allocation_state_guarded record_reservation_guarded : preserves.

(** ** What a call can see *)

Section tracks.
Context {ucd : UnicodeData} {jenv : JournalEnv} (K : alloc_key) (o : option op_key).
Context {A : Type}.
Implicit Types (m : JournalEnv -> M db A).

(** On similar tables the call answers the same and leaves similar tables. *)
Definition tracks m : Prop :=
  atomic m /\ forall now t t', similar K o t t' ->
    (body m now t).1 = (body m now t').1 /\ similar K o (body m now t).2 (body m now t').2.

(** So it does when the operations agree, and its own is then recorded. *)
Definition opens m : Prop :=
  atomic m /\ forall now t t', same_rows K t t' -> operations t = operations t' ->
    (body m now t).1 = (body m now t').1 /\ similar K o (body m now t).2 (body m now t').2.

(** A method that is one statement, which may iterate over a set *)
Definition is_statement m (F : (gset str -> list str) -> str -> tables -> result A * tables) : Prop :=
  forall env, m env = @statement env A (F (@set_order env)).

Lemma body_statement m F now t :
  is_statement m F -> body m now t = F (@set_order jenv) (str_of_Z now) t.
Proof. intros Hm. unfold body. rewrite (Hm (clock_env now)), (statement_run (env := clock_env now)) by done. simpl. by destruct (F _ _ _). Qed.

Lemma atomic_statement m F : is_statement m F -> atomic m.
Proof.
  intros Hm. exists (fun _ => 0%nat). intros env t n Hf Ho.
  rewrite (Hm env), (statement_run Hf), (body_statement _ _ _ _ Hm), Nat.add_1_r. simpl.
  by rewrite Ho.
Qed.

Lemma tracks_statement m F :
  is_statement m F ->
  (forall now t t', similar K o t t' ->
     (F (@set_order jenv) now t).1 = (F (@set_order jenv) now t').1 /\
     similar K o (F (@set_order jenv) now t).2 (F (@set_order jenv) now t').2) ->
  tracks m.
Proof.
  intros Hm HF. split; [by eapply atomic_statement|]. intros now t t' Hs.
  rewrite !(body_statement _ _ _ _ Hm). by apply HF.
Qed.

Lemma tracks_plain (f : str -> tables -> result A * tables) :
  (forall now t t', similar K o t t' ->
     (f now t).1 = (f now t').1 /\ similar K o (f now t).2 (f now t').2) ->
  tracks (fun _ => statement f).
Proof. intros Hf. by apply (tracks_statement _ (fun _ => f)). Qed.

Lemma atomic_reads m (f : tables -> result A) count :
  (forall env, no_faults env -> forall t n, m env (mk_db t n) = (f t, mk_db t (n + S (count t)))) ->
  atomic m /\ forall now t, body m now t = (f t, t).
Proof.
  intros Hm. assert (forall now t, body m now t = (f t, t)) as Hb
    by (intros now t; unfold body; by rewrite (Hm (clock_env now))).
  split; [|done]. exists count. intros env t n Hf _. by rewrite Hb, Hm.
Qed.

(** A method that only reads *)
Lemma tracks_reads m (f : tables -> result A) count :
  (forall env, no_faults env -> forall t n, m env (mk_db t n) = (f t, mk_db t (n + S (count t)))) ->
  (forall t t', similar K o t t' -> f t = f t') -> tracks m.
Proof.
  intros [Ha Hb]%atomic_reads Hf. split; [done|]. intros now t t' Hs. rewrite !Hb.
  split; [by apply Hf|done].
Qed.

End tracks.

(** Without an operation the rows are enough. *)
Lemma tracks_opens {jenv : JournalEnv} {A} K (m : JournalEnv -> M db A) :
  tracks K None m -> opens K None m.
Proof. intros [Ha Hm]. split; [done|]. intros now t t' Hs _. by apply Hm. Qed.

Section methods.
Context {ucd : UnicodeData} {jenv : JournalEnv} (c : str) (j : Z) (o : option op_key).
Local Abbreviation K := (c, str_of_Z j).

Lemma record_reservation_tracks r diag :
  tracks K o (fun _ => record_reservation c j r diag).
Proof.
  apply tracks_plain. intros now t t' Hs. simpl. split; [done|].
  by apply similar_reservation.
Qed.

Lemma update_allocation_tracks msg f :
  tracks K o (fun _ => update_allocation c j msg f).
Proof.
  apply tracks_plain. intros now t t' Hs. simpl.
  rewrite (similar_lookup _ _ _ _ Hs). destruct (allocations t !! K); [|done].
  split; [done|]. by apply similar_allocation.
Qed.

Lemma set_allocation_state_tracks st :
  tracks K o (fun _ => set_allocation_state c j st).
Proof.
  apply tracks_plain. intros now t t' Hs. simpl.
  rewrite (similar_lookup _ _ _ _ Hs). destruct (allocations t !! K); [|done].
  split; [done|]. by apply similar_allocation.
Qed.

Lemma accepted_allocation_tracks uid gid services :
  tracks K o (fun _ => accepted_allocation c j uid gid services).
Proof.
  apply tracks_plain. intros now t t' Hs. simpl.
  by rewrite (similar_lookup _ _ _ _ Hs).
Qed.

Lemma check_reserved_similar t t' fp s :
  similar K o t t' -> check_reserved t c (str_of_Z j) fp s = check_reserved t' c (str_of_Z j) fp s.
Proof. intros Hs. unfold check_reserved. by rewrite (similar_row _ _ _ _ _ eq_refl Hs). Qed.

Lemma begin_allocation_tracks uid gid services fp rfp :
  tracks K o (fun _ => begin_allocation c j uid gid services fp rfp).
Proof.
  eapply tracks_statement.
  { intros env. unfold begin_allocation.
    lazymatch goal with |- statement ?b = statement (?G _) =>
      lazymatch eval pattern (@set_order env) in b with ?F _ => unify G F; reflexivity end end. }
  intros now t t' Hs. cbv beta zeta.
  rewrite (similar_lookup _ _ _ _ Hs). 
  assert (forall l, iterR (check_reserved t c (str_of_Z j) rfp) l
    = iterR (check_reserved t' c (str_of_Z j) rfp) l) as Hcheck.
  { intros l. unfold iterR. rewrite (mapR_ext _ (check_reserved t' c (str_of_Z j) rfp)); [done|].
    intros s. by apply check_reserved_similar. }
  destruct (allocations t !! K) as [row|]; [|split; [done|by apply similar_allocation]].
  rewrite Hcheck.
  repeat case_match; simpl; (split; [done|]); first [done|by apply similar_allocation].
Qed.

Lemma rows_of_similar t t' :
  similar K o t t' -> rows_of t c (str_of_Z j) = rows_of t' c (str_of_Z j).
Proof.
  intros Hs. apply sort_by_unique; [exact str_leb_total|exact str_leb_trans|..].
  - intros [s row] [s' row'] H1 H2 H3 H4. simpl in *. pose proof (str_leb_antisym _ _ H3 H4) as <-.
    apply (elem_of_sort_by str_leb fst), elem_of_rows in H1.
    apply (elem_of_sort_by str_leb fst), elem_of_rows in H2. congruence.
  - etrans; [symmetry; apply (sort_by_perm str_leb fst)|].
    etrans; [|apply (sort_by_perm str_leb fst)].
    apply NoDup_Permutation; [by eapply NoDup_fmap_1, rows_NoDup..|].
    intros [s row]. etrans; [apply elem_of_rows|]. etrans; [|symmetry; apply elem_of_rows].
    by rewrite (similar_row _ _ _ _ _ eq_refl Hs).
Qed.

Lemma records_of_similar t t' :
  similar K o t t' -> records_of t c (str_of_Z j) = records_of t' c (str_of_Z j).
Proof. intros Hs. unfold records_of. by rewrite (rows_of_similar _ _ Hs). Qed.

Lemma reservations_tracks : tracks K o (fun _ => reservations c j).
Proof.
  apply (tracks_reads _ _ _ (fun t => records_of t c (str_of_Z j)) (fun _ => 0%nat)).
  - intros env Hok t n. by rewrite (reservations_run Hok), Nat.add_1_r.
  - exact records_of_similar.
Qed.

(** The two reads of a release, as a function of the tables *)
Definition expected_uid (t : tables) : result (option Z) :=
  match allocations t !! K with
  | None => status_uid (PDict [(txt "state", PStr (txt "not-found"));
                               (txt "reservations", PList [])])
  | Some row =>
      records ← records_of t c (str_of_Z j);
      status_uid (PDict (allocation_dict c (str_of_Z j) row
                         ++ [(txt "reservations", PList (map record_dict records))]))
  end.

Lemma expected_uid_tracks :
  tracks K o (fun _ => status ← allocation_status c j; Effects.lift (status_uid status)).
Proof.
  apply (tracks_reads _ _ _ expected_uid
    (fun t => match allocations t !! K with Some _ => 1%nat | None => 0%nat end)).
  - intros env Hok t n. unfold allocation_status, expected_uid.
    unfold mbind, m_mbind, m_bind. rewrite (query_run Hok). cbn [db_tables db_calls].
    destruct (allocations t !! K) as [row|]; [|by rewrite Nat.add_1_r].
    rewrite (reservations_run Hok). cbn [db_tables db_calls].
    replace (S (S n)) with (n + 2)%nat by lia. by destruct (records_of t c (str_of_Z j)).
  - intros t t' Hs. unfold expected_uid.
    by rewrite (similar_lookup _ _ _ _ Hs), (records_of_similar _ _ Hs).
Qed.
End methods.

(** The operation of a request *)
Section operation.
Context {ucd : UnicodeData} {jenv : JournalEnv} (K : alloc_key).
Context (uid : Z) (op : str) (rid : Z) (scope : str).
Local Abbreviation key := (uid, op, str_of_Z rid, scope).

Lemma begin_operation_opens fp :
  opens K (Some key) (fun _ => begin_operation uid op rid fp scope).
Proof.
  assert (is_statement (fun _ => begin_operation uid op rid fp scope) (fun _ => _)) as Hm
    by (intros env; reflexivity).
  split; [by eapply atomic_statement|]. intros now t t' Hr Ho.
  rewrite !(body_statement _ _ _ _ Hm). cbv beta zeta. rewrite Ho.
  destruct (operations t' !! key) as [row|] eqn:Hrow.
  - repeat case_match; simpl; (split; [done|]);
      (split; [by destruct Hr|]); (split; [|]); simpl; rewrite ?Ho, ?lookup_insert_eq, ?Hrow; done.
  - split; [done|]. split; [by destruct Hr|]. by split; simpl; rewrite lookup_insert_eq.
Qed.

Lemma complete_operation_tracks resp st :
  one_of st ["complete"; "retryable"]%string = true ->
  tracks K (Some key) (fun _ => complete_operation uid op rid resp scope st).
Proof.
  intros Hst. unfold complete_operation. rewrite Hst. simpl. apply tracks_plain.
  intros now t t' Hs. cbv beta zeta. 
  assert (is_Some (operations t !! key)) as [row Hrow] by apply Hs.
  assert (is_Some (operations t' !! key)) as [row' Hrow'] by apply Hs.
  rewrite Hrow, Hrow'. split; [done|]. by apply similar_operation.
Qed.
End operation.
