(* ===== verification/Shapes.v ===== *)
(** * The journal calls of each task

    Which journal calls the tasks of [Tasks] make: the calls of a reserve or a
    release are local to its allocation, those of an evaluation or a lookup
    write no allocation, and every task keeps its promise to the others. *)

From S2P Require Import Prelude Python Utf8 Enums Messages Wire Values ResponseDict Effects Journal JournalFacts SlurmVerifier Adapter Service ServiceFacts Tasks TaskFacts Triples Interleaving Replay Locality.
Local Open Scope Z_scope.

(** ** Predicates on journal calls *)

(** Every journal call the task may make satisfies [P]. *)
Fixpoint calls {H A} (P : forall B, (JournalEnv -> M db B) -> Prop) (p : task H A) : Prop :=
  match p with
  | Done _ => True
  | Sync m k => P _ m /\ forall r, calls P (k r)
  | Await _ k => forall r, calls P (k r)
  end.

Section calls.
Context {H : Type} (P : forall B, (JournalEnv -> M db B) -> Prop).

Lemma calls_weaken {A} (Q : forall B, (JournalEnv -> M db B) -> Prop) (p : task H A) :
  (forall B m, P B m -> Q B m) -> calls P p -> calls Q p.
Proof.
  intros HQ. induction p as [r|B m k IH|B c k IH]; simpl; [done| |eauto].
  intros [Hm Hk]. split; eauto.
Qed.

Lemma calls_done {A} (r : result A) : calls P (Done (H := H) r).
Proof. done. Qed.
Lemma calls_mret {A} (a : A) : calls P (mret (M := task H) a).
Proof. done. Qed.
Lemma calls_lift {A} (r : result A) : calls P (Tasks.lift (H := H) r).
Proof. done. Qed.
Lemma calls_raise {A} e : calls P (Tasks.raise (H := H) (A := A) e).
Proof. done. Qed.
Lemma calls_raise_when b e : calls P (Tasks.raise_when (H := H) b e).
Proof. by destruct b. Qed.
Lemma calls_await {A} (c : call H A) : calls P (Tasks.await c).
Proof. done. Qed.
Lemma calls_journal {A} (m : JournalEnv -> M db A) : P A m -> calls P (Tasks.journal (H := H) m).
Proof. by split. Qed.

Lemma calls_bind {A B} (p : task H A) (f : A -> task H B) :
  calls P p -> (forall a, calls P (f a)) -> calls P (p ≫= f).
Proof.
  intros Hp Hf. unfold mbind, Tasks.task_mbind.
  induction p as [[a|e]|C m k IH|C c k IH]; simpl in *; [auto|done| |auto].
  destruct Hp. split; auto.
Qed.

Lemma calls_try {A} (p : task H A) h :
  calls P p -> (forall e, calls P (h e)) -> calls P (Tasks.try_except p h).
Proof.
  intros Hp Hh. induction p as [[a|e]|C m k IH|C c k IH]; simpl in *; [done| | |auto].
  - by destruct (isa_Exception e).
  - destruct Hp. split; auto.
Qed.

Lemma calls_try_step {A} pending (p : task H A) k :
  calls P p -> (forall a, calls P (k a)) -> calls P (Tasks.try_step pending p k).
Proof.
  intros Hp Hk. induction p as [[a|e]|C m q IH|C c q IH]; simpl in *; [auto| | |auto].
  - by destruct (isa_Exception e).
  - destruct Hp. split; auto.
Qed.

Lemma calls_mapM {A B} (f : A -> task H B) l :
  (forall x, calls P (f x)) -> calls P (Tasks.mapM f l).
Proof.
  intros Hf. induction l as [|x l IH]; simpl; [done|].
  apply calls_bind; [apply Hf|intros y]. apply calls_bind; [exact IH|done].
Qed.

Lemma calls_on_error {A} (p : task H A) h :
  calls P p -> (forall e, calls P (h e)) -> calls P (Tasks.on_error p h).
Proof. intros Hp Hh. apply calls_try; [done|]. intros e. by apply calls_bind. Qed.

Lemma calls_collecting (p : task H unit) f : calls P p -> calls P (Tasks.collecting p f).
Proof. intros Hp. apply calls_try; [|done]. by apply calls_bind. Qed.
End calls.

Create HintDb calls discriminated.
#[export] Hint Resolve calls_done calls_mret calls_lift calls_raise calls_raise_when calls_await : calls.
#[export] Hint Extern 1 (calls _ (Tasks.journal _)) => apply calls_journal; solve [auto with calls] : calls.

(** Walk through a task. *)
Ltac walk_calls :=
  repeat first
    [ solve [auto with calls]
    | lazymatch goal with
      | |- calls _ (mbind _ _) => apply calls_bind; [|intros ?]
      | |- calls _ (Tasks.try_except _ _) => apply calls_try; [|intros ?]
      | |- calls _ (Tasks.try_step _ _ _) => apply calls_try_step; [|intros ?]
      | |- calls _ (Tasks.on_error _ _) => apply calls_on_error; [|intros ?]
      | |- calls _ (Tasks.collecting _ _) => apply calls_collecting
      | |- calls _ (Tasks.mapM _ _) => apply calls_mapM; intros ?
      | |- calls _ (match _ with _ => _ end) => case_match
      end
    | progress cbv beta zeta iota ].

(** The first journal call satisfies [P0], the later ones satisfy [P]. *)
Fixpoint opens_with {H A} (P0 P : forall B, (JournalEnv -> M db B) -> Prop) (p : task H A) : Prop :=
  match p with
  | Done _ => True
  | Sync m k => P0 _ m /\ forall r, calls P (k r)
  | Await _ k => forall r, opens_with P0 P (k r)
  end.

Section opens_with.
Context {H : Type} (P0 P : forall B, (JournalEnv -> M db B) -> Prop).

Lemma opens_with_await {A B} (c : call H A) (f : A -> task H B) :
  (forall a, opens_with P0 P (f a)) -> opens_with P0 P (Tasks.await c ≫= f).
Proof. intros Hf [a|e]; [apply Hf|done]. Qed.

Lemma opens_with_journal {A B} (m : JournalEnv -> M db A) (f : A -> task H B) :
  P0 A m -> (forall a, calls P (f a)) -> opens_with P0 P (Tasks.journal m ≫= f).
Proof. intros Hm Hf. split; [exact Hm|]. intros [a|e]; [apply Hf|done]. Qed.

(** Nothing is called after [p]. *)
Lemma opens_with_last {A B} (p : task H A) (f : A -> B) :
  opens_with P0 P p -> opens_with P0 P (a ← p; mret (f a)).
Proof.
  unfold mbind, Tasks.task_mbind. intros Hp.
  induction p as [[a|e]|C m k IH|C c k IH]; simpl in *; [done..| |auto].
  destruct Hp as [Hm Hk]. split; [exact Hm|]. intros r.
  apply (calls_bind P (k r) (fun a => mret (f a))); [apply Hk|done].
Qed.

Lemma opens_with_try {A} (p : task H A) h :
  opens_with P0 P p -> (forall e, exists a, h e = mret a) -> opens_with P0 P (Tasks.try_except p h).
Proof.
  intros Hp Hh. induction p as [[a|e]|C m k IH|C c k IH]; simpl in *; [done| | |auto].
  - destruct (isa_Exception e); [|done]. by destruct (Hh e) as [a ->].
  - destruct Hp as [Hm Hk]. split; [exact Hm|]. intros r. apply calls_try; [apply Hk|].
    intros e. by destruct (Hh e) as [a ->].
Qed.
End opens_with.

Lemma opens_with_calls {H A} P (p : task H A) : opens_with P P p -> calls P p.
Proof. induction p; simpl; auto. Qed.

Lemma opens_with_weaken {H A} P0 P Q0 Q (p : task H A) :
  (forall B m, P0 B m -> Q0 B m) -> (forall B m, P B m -> Q B m) ->
  opens_with P0 P p -> opens_with Q0 Q p.
Proof.
  intros H0 HQ. induction p as [r|B m k IH|B c k IH]; simpl; [done| |eauto].
  intros [Hm Hk]. split; [auto|]. intros r. eapply calls_weaken; [exact HQ|apply Hk].
Qed.

(** ** What the handlers call *)

(** A predicate that the journal calls of one allocation satisfy *)
Class AllocationCalls {ucd : UnicodeData} (c : str) (j : Z)
    (P : forall B, (JournalEnv -> M db B) -> Prop) : Prop := {
  record_call r diag : P _ (fun _ => record_reservation c j r diag);
  complete_call st r : P _ (fun _ => complete_allocation c j st r);
  restore_call services r : P _ (fun _ => restore_accepted_allocation c j services r);
  state_call st : P _ (fun _ => set_allocation_state c j st);
  accepted_call uid gid services : P _ (fun _ => accepted_allocation c j uid gid services);
  begin_call uid gid services fp rfp :
    P _ (fun _ => begin_allocation c j uid gid services fp rfp);
  reservations_call : P _ (fun _ => reservations c j);
  expected_call : P _ (fun _ => status ← allocation_status c j; Effects.lift (status_uid status));
}.

(** A predicate that the completion of one operation satisfies *)
Class OperationCalls {ucd : UnicodeData} (uid : Z) (op : str) (rid : Z) (scope : str)
    (P : forall B, (JournalEnv -> M db B) -> Prop) : Prop :=
  completion_call r st : one_of st ["complete"; "retryable"]%string = true ->
    P _ (fun _ => complete_operation uid op rid r scope st).

(** One of the calls of the interfaces *)
Ltac known_call := first
  [ apply record_call | apply complete_call | apply restore_call | apply state_call
  | apply accepted_call | apply begin_call | apply reservations_call | apply expected_call
  | apply completion_call; first [reflexivity|case_match; reflexivity] ].
#[export] Hint Extern 1 (calls _ (Tasks.journal _)) => apply calls_journal; known_call : calls.

Section handlers.
Context {ucd : UnicodeData} {sha : Sha256} {H : Type}.
Context (P0 P : forall B, (JournalEnv -> M db B) -> Prop).

Section reserve.
Context (req : ReserveRequest.t) (uid : Z).
Local Abbreviation c := (ReserveRequest.cluster_name req).
Local Abbreviation j := (ReserveRequest.canonical_job_id req).
Local Abbreviation rid := (ReserveRequest.request_id req).
Local Abbreviation begin op := (fun env => @begin_operation env uid op rid
  (_fingerprint (reserve_request_dict req)) (_operation_scope req)).

Section allocation.
Context `{!AllocationCalls c j P}.

Lemma rollback_calls (l : list (QPMBinding H * ServiceResult.t)) : calls P (Tasks._rollback req l).
Proof.
  unfold Tasks._rollback. walk_calls. destruct x as [b result]. unfold Tasks.rollback_one. walk_calls.
Qed.

Lemma reserve_loop_calls job fp services (l : list (QPMBinding H * ServiceResult.t)) :
  calls P (Tasks.reserve_loop req job fp services l).
Proof.
  pose proof rollback_calls. revert l. induction services as [|s services IH]; intros l;
    cbn [Tasks.reserve_loop]; [done|].
  apply calls_bind; [unfold Tasks.attempt_service; walk_calls|intros [[b result]|e pending]]; walk_calls.
Qed.
End allocation.

Lemma reserve_opens `{!AllocationCalls c j P}
    `{!OperationCalls uid (txt "reserve") rid (_operation_scope req) P} :
  P0 _ (begin (txt "reserve")) -> opens_with P0 P (Tasks._reserve (H := H) req uid).
Proof.
  intros H0. unfold Tasks._reserve. apply opens_with_try; [|eauto].
  apply opens_with_await. intros job. cbv beta zeta.
  apply opens_with_journal; [exact H0|]. intros [prior|].
  - unfold Tasks.replay_reserve. walk_calls.
  - pose proof reserve_loop_calls.
    unfold Tasks.run_attempt, Tasks._reserve_services, Tasks._journal_failed_attempt,
      Tasks.merge_extension, Tasks.finish_reserve, Tasks.restore_plan, Tasks._complete. walk_calls.
Qed.

Lemma evaluate_opens
    `{!OperationCalls uid (txt "evaluate") rid (_operation_scope req) P} :
  P0 _ (begin (txt "evaluate")) -> opens_with P0 P (Tasks._evaluate (H := H) req uid).
Proof.
  intros H0. unfold Tasks._evaluate. apply opens_with_try; [|eauto].
  apply opens_with_await. intros job. cbv beta zeta.
  apply opens_with_journal; [exact H0|]. intros [prior|]; [walk_calls|].
  unfold Tasks._evaluate_services, Tasks._journal_failed_evaluation. walk_calls.
Qed.
End reserve.

Section release.
Context (req : ReleaseRequest.t) (uid : Z).
Local Abbreviation c := (ReleaseRequest.cluster_name req).
Local Abbreviation j := (ReleaseRequest.canonical_job_id req).
Local Abbreviation rid := (ReleaseRequest.request_id req).
Context `{!AllocationCalls c j P}.

Lemma release_one_calls record : calls P (Tasks._release_one (H := H) req record).
Proof. unfold Tasks._release_one. walk_calls. Qed.

Lemma release_opens `{!OperationCalls uid (txt "release") rid (txt "allocation") P} :
  P0 _ (fun env => @begin_operation env uid (txt "release") rid
          (_fingerprint (release_request_dict req)) (txt "allocation")) ->
  opens_with P0 P (Tasks._release (H := H) req uid).
Proof.
  intros H0. unfold Tasks._release. apply opens_with_try; [|eauto]. cbv beta zeta.
  apply opens_with_journal; [exact H0|]. intros [prior|]; [walk_calls|].
  pose proof release_one_calls. unfold Tasks.run_release. walk_calls.
Qed.

Lemma retry_opens :
  P0 _ (fun _ => reservations c j) -> opens_with P0 P (job_task (H := H) (Retrying req)).
Proof.
  intros H0. unfold job_task. apply (opens_with_last P0 P _ ReleaseResponse).
  unfold Tasks.retry_release. cbv zeta. apply opens_with_journal; [exact H0|].
  pose proof release_one_calls. intros records. walk_calls.
Qed.
End release.

Lemma lookup_calls req uid :
  (forall c j u g, P _ (fun _ => reservation_context c j u g)) ->
  calls P (Tasks._get_reservations (H := H) req uid).
Proof. intros Hc. unfold Tasks._get_reservations. walk_calls. Qed.
End handlers.

(** ** The two readings of the calls *)

Section readings.
Context {jenv : JournalEnv}.

(** The call changes allocations outside [P] only, and deletes no operation. *)
Definition guarded (P : alloc_key -> Prop) : forall B, (JournalEnv -> M db B) -> Prop :=
  fun B m => preserves (on_tables (guarantee P)) (m jenv).

(** The call is local to an allocation and an operation. *)
Definition tracked K o : forall B, (JournalEnv -> M db B) -> Prop := fun B => tracks K o.
Definition opening K o : forall B, (JournalEnv -> M db B) -> Prop := fun B => opens K o.
End readings.

Section shapes.
Context {ucd : UnicodeData} {jenv : JournalEnv} {sha : Sha256} {H : Type}.

#[local] Hint Extern 1 (guarded _ _ _) => red : preserves.

Lemma guarded_reads {B} P (m : JournalEnv -> M db B) :
  (forall R, PreOrder R -> preserves (on_tables R) (m jenv)) -> guarded P B m.
Proof. intros Hm. apply Hm, _. Qed.

#[export] Instance guarded_allocation c j :
  AllocationCalls c j (guarded (other_than (c, str_of_Z j))).
Proof.
  split; intros; unfold guarded, complete_allocation, restore_accepted_allocation,
    accepted_allocation, reservations, allocation_status; preserve.
  unfold reservations. preserve.
Qed.

#[export] Instance guarded_operation P uid op rid scope :
  OperationCalls uid op rid scope (guarded P).
Proof. intros r st _. unfold guarded. preserve. Qed.

#[export] Instance tracked_allocation c j o : AllocationCalls c j (tracked (c, str_of_Z j) o).
Proof.
  split; intros; unfold tracked.
  - apply record_reservation_tracks.
  - apply update_allocation_tracks.
  - apply update_allocation_tracks.
  - apply set_allocation_state_tracks.
  - apply accepted_allocation_tracks.
  - apply begin_allocation_tracks.
  - apply reservations_tracks.
  - apply expected_uid_tracks.
Qed.

#[export] Instance tracked_operation K uid op rid scope :
  OperationCalls uid op rid scope (tracked K (Some (uid, op, str_of_Z rid, scope))).
Proof. intros r st Hst. by apply complete_operation_tracks. Qed.

(** The allocation a lock protects *)
Definition alloc_of (L : str * Z) : alloc_key := (L.1, str_of_Z L.2).

#[export] Instance alloc_of_inj : Inj (=) (=) alloc_of.
Proof. intros [c j] [c' j'] [= -> Hj%(inj _)]. by subst. Qed.

(** A lookup writes no allocation. *)
Lemma lookup_quiet req uid :
  calls (guarded (fun _ => True)) (Tasks._get_reservations (H := H) req uid).
Proof. apply lookup_calls. intros c j u g. by apply reservation_context_reads, _. Qed.

(** Every other task is local to the allocation of its lock. *)
Lemma job_opening b :
  is_lookup b = false ->
  exists o, opens_with (opening (alloc_of (lock_of b)) o) (tracked (alloc_of (lock_of b)) o)
              (job_task (H := H) b).
Proof.
  destruct b as [[r|r|r|r] uid|r]; intros Hb; [| | |done|].
  - exists (Some (uid, txt "evaluate", str_of_Z (ReserveRequest.request_id r), _operation_scope r)).
    apply evaluate_opens; [apply _|]. apply begin_operation_opens.
  - exists (Some (uid, txt "reserve", str_of_Z (ReserveRequest.request_id r), _operation_scope r)).
    apply reserve_opens; [apply _..|]. apply begin_operation_opens.
  - exists (Some (uid, txt "release", str_of_Z (ReleaseRequest.request_id r), txt "allocation")).
    apply release_opens; [apply _..|]. apply begin_operation_opens.
  - exists None. apply retry_opens; [apply _|]. apply tracks_opens, reservations_tracks.
Qed.

(** Every task keeps its promise. *)
Lemma job_guarded b :
  calls (guarded (other_than (alloc_of (lock_of b)))) (job_task (H := H) b).
Proof.
  destruct b as [[r|r|r|r] uid|r]; cbn [job_task Tasks.dispatch lock_of lock_key].
  - apply opens_with_calls, (evaluate_opens _ _ r uid). unfold guarded. preserve.
  - apply opens_with_calls, (reserve_opens _ _ r uid). unfold guarded. preserve.
  - apply opens_with_calls, (release_opens _ _ r uid). unfold guarded. preserve.
  - eapply calls_weaken; [|apply lookup_quiet]. intros B m Hm d.
    eapply guarantee_weaken, Hm; done.
  - apply opens_with_calls, (retry_opens _ _ r). unfold guarded, reservations. preserve.
Qed.
End shapes.
