(* ===== verification/InterleavingProps.v ===== *)
(** * Concurrent requests keep the journal consistent

    However the tasks of different allocations interleave, an allocation whose
    lock is free is consistent. The proof replays each task alone: the rows of
    its allocation are what its calls would have left had no other task run. *)

From S2P Require Import Prelude Python Utf8 Enums Messages Wire Codec Values ResponseDict Effects Journal JournalFacts ProtocolProps JournalProps SlurmVerifier Adapter DefwClient AdapterProps Service Sample ServiceFacts Triples Consistency ReserveFacts HandlerFacts OperationProps ConsistencyProps Ledger LedgerFacts LedgerProps Tasks TaskFacts Interleaving Replay Locality Shapes.
Local Open Scope Z_scope.

(** ** One allocation of the tables *)

(** The rows of one allocation are readable and consistent, and it stores no
    acceptance once it is closed. *)
Definition fine_at {ucd : UnicodeData} (K : alloc_key) (t : tables) : Prop :=
  (forall s row, reservation_rows t !! (K.1, K.2, s) = Some row -> row_ok row) /\
  consistent_at K.1 K.2 t /\
  (forall row, allocations t !! K = Some row -> row_settled row).

(** The tables with the rows of one allocation only *)
Definition restrict (K : alloc_key) (t : tables) : tables :=
  mk_tables (operations t)
    (filter (fun p : alloc_key * Allocation.t => p.1 = K) (allocations t))
    (filter (fun p : resv_key * ReservationRow.t => p.1.1 = K) (reservation_rows t)).

Section restriction.
Context {ucd : UnicodeData} (K : alloc_key).

Lemma restrict_same t : same_rows K t (restrict K t).
Proof.
  split.
  - intros K' <-. simpl. apply option_eq. intros row. rewrite map_lookup_filter_Some. naive_solver.
  - intros c k s ->. simpl. apply option_eq. intros row. rewrite map_lookup_filter_Some. naive_solver.
Qed.

Lemma restrict_other t K' : K' <> K -> allocations (restrict K t) !! K' = None.
Proof. intros HK. simpl. apply map_lookup_filter_None. right. by intros row _ E. Qed.

Lemma fine_at_same t t' : same_rows K t t' -> fine_at K t -> fine_at K t'.
Proof.
  destruct K as [c k]. intros [Ha Hr] (Hv & Hc & Hs). split_and!; simpl in *.
  - intros s row. rewrite (Hr c k s eq_refl). apply Hv.
  - eapply consistent_at_same; [by apply Ha|intros s; by apply Hr|exact Hc].
  - intros row. rewrite (Ha _ eq_refl). apply Hs.
Qed.

(** Then the restricted tables are those of a consistent journal. *)
Lemma restrict_consistent t : fine_at K t -> consistent (restrict K t).
Proof.
  intros Hf. pose proof (fine_at_same _ _ (restrict_same t) Hf) as (_ & Hc & _). split.
  - intros [[c k] s] row Hrow. simpl in Hrow.
    apply map_lookup_filter_Some in Hrow as [Hrow HK]. simpl in HK. subst K.
    by eapply (proj1 Hf).
  - intros c j. destruct (decide ((c, str_of_Z j) = K)) as [<-|Hne]; [exact Hc|].
    unfold consistent_at. rewrite restrict_other by done. intros s row Hrow. simpl in Hrow.
    apply map_lookup_filter_Some in Hrow as [_ HK]. by simpl in HK.
Qed.

Lemma restrict_settled t : fine_at K t -> settled (restrict K t).
Proof.
  intros (_ & _ & Hs) K' row Hrow. simpl in Hrow.
  apply map_lookup_filter_Some in Hrow as [Hrow HK]. simpl in HK. subst K'. by apply Hs.
Qed.
End restriction.

Lemma consistent_fine_at {ucd : UnicodeData} c j t :
  consistent t -> settled t -> fine_at (c, str_of_Z j) t.
Proof.
  intros [Hv Hc] Hs. split_and!; [|apply Hc|].
  - intros s row Hrow. by eapply Hv.
  - intros row Hrow. by eapply Hs.
Qed.

(** ** Where a task stands *)

Section phases.
Context {ucd : UnicodeData} {jenv : JournalEnv} {sha : Sha256}.
Context {X H : Type} {adapter_ops : AdapterOps X H} {verifier_ops : VerifierOps X}.
Implicit Types (t : tables) (p : task H response).

(** What the task answers alone from [t] is what the task of [b] answers alone
    from [t0]. *)
Definition descends (b : job) t0 p t : Prop :=
  forall resp t', alone p t (Ok resp) t' -> alone (job_task (H := H) b) t0 (Ok resp) t'.

(** Alone, the task of [b] leaves its allocation fine. *)
Definition settles (K : alloc_key) (b : job) : Prop :=
  forall t0 resp t', consistent t0 -> settled t0 ->
    alone (job_task (H := H) b) t0 (Ok resp) t' -> fine_at K t'.

(** A lookup writes no allocation; another task has called no journal method
    yet, or its allocation is as if it had run alone from the rows it found at
    its first journal call. *)
Definition phase (K : alloc_key) t (h : holder H) : Prop :=
  let '(mk_holder b opened p) := h in
  (is_lookup b = true /\ calls (guarded (fun _ => True)) p /\ fine_at K t) \/
  (exists o, opened = None /\ opens_with (opening K o) (tracked K o) p /\
     (forall t0, descends b t0 p t0) /\ fine_at K t) \/
  (exists o t0 ts, opened = Some t0 /\ calls (tracked K o) p /\ fine_at K t0 /\
     descends b (restrict K t0) p ts /\ similar K o ts t).

(** The tables a task found: at its first journal call, or now *)
Definition found (h : holder H) t : tables := default t (h_opened h).

(** The answer of a task is one it gives alone on the rows it found, and the
    rows are as that run leaves them. *)
Definition answers_alone (K : alloc_key) t (h : holder H) resp : Prop :=
  fine_at K (found h t) /\
  exists t', alone (job_task (H := H) (h_job h)) (restrict K (found h t)) (Ok resp) t' /\
    same_rows K t' t.

Lemma phase_answers K t h resp :
  h_task h = Done (Ok resp) -> phase K t h ->
  is_lookup (h_job h) = true /\ fine_at K t \/ answers_alone K t h resp.
Proof.
  destruct h as [b opened p]. simpl. intros ->.
  intros [(Hb & _ & Hf)|[(o & -> & _ & Hd & Hf)|(o & t0 & ts & -> & _ & Hf & Hd & Hr & _)]];
    [by left|right; split; [done|]..].
  - exists (restrict K t). split; [by apply Hd, alone_done|]. symmetry. apply restrict_same.
  - exists ts. split; [by apply Hd, alone_done|done].
Qed.

Lemma phase_answered K t h resp :
  settles K (h_job h) -> h_task h = Done (Ok resp) -> phase K t h -> fine_at K t.
Proof.
  intros Hs Hp Hph. destruct (phase_answers _ _ _ _ Hp Hph) as [[_ Hf]|(Hf & t' & Ha & Hr)]; [done|].
  eapply fine_at_same; [exact Hr|].
  eapply Hs, Ha; [by apply restrict_consistent|by apply restrict_settled].
Qed.

(** Other tasks do not disturb it. *)
Lemma phase_guarantee K t t' h : guarantee (eq K) t t' -> phase K t h -> phase K t' h.
Proof.
  destruct h as [b opened p]. intros Hg
    [(Hb & Hp & Hf)|[(o & Ho & Hp & Hs & Hf)|(o & t0 & ts & Ho & Hp & Hf & Hd & Hsim)]].
  - left. split_and!; [done..|]. eapply fine_at_same, Hf. apply Hg.
  - right; left. exists o. split_and!; [done..|]. eapply fine_at_same, Hf. apply Hg.
  - right; right. exists o, t0, ts. split_and!; [done..|]. by eapply similar_guarantee.
Qed.

Lemma perform_db {A} (c : call H A) (w : world X) r w' : perform c w = (r, w') -> w_db w' = w_db w.
Proof.
  destruct c; simpl; unfold adapter_reserve, adapter_release, external, zoom;
    intros Hr; repeat case_match; by simplify_eq/=.
Qed.

Lemma journal_tables {A} (m : JournalEnv -> M db A) (w : world X) r w' :
  no_faults jenv -> atomic m -> journal (m jenv) w = (r, w') ->
  exists now, body m now (tables_of w) = (r, tables_of w').
Proof.
  intros Hok [count Hm]. unfold journal, zoom, tables_of. destruct w as [[t n] x l]. simpl.
  rewrite (Hm jenv t n Hok eq_refl). intros [= <- <-]. eexists. apply surjective_pairing.
Qed.

Lemma descends_sync b t0 {A} (m : JournalEnv -> M db A) k now t r t1 :
  atomic m -> body m now t = (r, t1) -> descends b t0 (Sync m k) t -> descends b t0 (k r) t1.
Proof. intros Hm Hb Hd resp t' Ha. eapply Hd, alone_sync; eauto. Qed.

Lemma descends_await b t0 {A} (c : call H A) k t r :
  lawful c r = true -> descends b t0 (Await c k) t -> descends b t0 (k r) t.
Proof. intros Hl Hd resp t' Ha. by eapply Hd, alone_await. Qed.

(** A journal call on similar tables *)
Lemma tracked_step b K o t0 ts {A} (m : JournalEnv -> M db A) k now (w w' : world X) r :
  tracked K o A m -> body m now (tables_of w) = (r, tables_of w') ->
  similar K o ts (tables_of w) -> descends b t0 (Sync m k) ts ->
  exists ts', descends b t0 (k r) ts' /\ similar K o ts' (tables_of w').
Proof.
  intros [Hatomic Hm] Hb Hsim Hd. destruct (Hm now ts (tables_of w) Hsim) as [Hres Hsim'].
  rewrite Hb in Hres, Hsim'. simpl in Hres, Hsim'. exists (body m now ts).2. split; [|exact Hsim'].
  eapply descends_sync; [exact Hatomic| |exact Hd]. rewrite <-Hres. apply surjective_pairing.
Qed.

(** The first journal call, on the rows of the allocation only *)
Lemma opening_step b K o {A} (m : JournalEnv -> M db A) k now (w w' : world X) r :
  opening K o A m -> body m now (tables_of w) = (r, tables_of w') ->
  (forall t0, descends b t0 (Sync m k) t0) ->
  exists ts', descends b (restrict K (tables_of w)) (k r) ts' /\ similar K o ts' (tables_of w').
Proof.
  intros [Hatomic Hm] Hb Hd.
  destruct (Hm now (restrict K (tables_of w)) (tables_of w)) as [Hres Hsim'];
    [symmetry; apply restrict_same|done|].
  rewrite Hb in Hres, Hsim'. simpl in Hres, Hsim'. exists (body m now (restrict K (tables_of w))).2.
  split; [|exact Hsim'].
  eapply descends_sync; [exact Hatomic| |apply Hd]. rewrite <-Hres. apply surjective_pairing.
Qed.

(** A step of the task itself *)
Lemma phase_step {laws : AdapterLaws X H} K h p' (w w' : world X) :
  no_faults jenv -> advance (h_task h) w = Some (p', w') ->
  phase K (tables_of w) h -> phase K (tables_of w') (moved h w p').
Proof.
  intros Hok. destruct h as [b opened p]. unfold moved.
  destruct p as [r|B m k|B c k]; simpl;
    [done|destruct (journal _ w) as [r w1] eqn:Hr|destruct (perform c w) as [r w1] eqn:Hr];
    intros [= <- <-].
  - intros [(Hb & [Hm Hk] & Hf)
      |[(o & -> & [Hm Hk] & Hd & Hf)|(o & t0 & ts & -> & [Hm Hk] & Hf & Hd & Hsim)]].
    + left. split_and!; [done..|]. specialize (Hm (w_db w)).
      unfold journal, zoom in Hr. destruct (m jenv (w_db w)) as [r' d]. injection Hr as _ <-.
      eapply fine_at_same, Hf. destruct Hm as [[H1 H2] _]. split; auto.
    + destruct (journal_tables m w r w1 Hok (proj1 Hm) Hr) as [now Hb].
      destruct (opening_step b _ _ _ _ _ _ _ _ Hm Hb Hd) as (ts' & Hd' & Hsim').
      right; right. exists o, (tables_of w), ts'. by split_and!.
    + destruct (journal_tables m w r w1 Hok (proj1 Hm) Hr) as [now Hb].
      destruct (tracked_step b _ _ (restrict K t0) ts _ _ _ _ _ _ Hm Hb Hsim Hd) as (ts' & Hd' & Hsim').
      right; right. exists o, t0, ts'. by split_and!.
  - pose proof (perform_lawful _ _ _ _ Hr) as Hl. apply perform_db in Hr as Hdb.
    assert (tables_of w1 = tables_of w) as -> by (unfold tables_of; by rewrite Hdb).
    intros [(Hb & Hp & Hf)|[(o & -> & Ho & Hd & Hf)|(o & t0 & ts & -> & Hp & Hf & Hd & Hsim)]].
    + left. by split_and!.
    + right; left. exists o. split; [done|]. split; [apply Ho|]. split; [|done].
      intros t0. by eapply descends_await, Hd.
    + right; right. exists o, t0, ts. split; [done|]. split; [apply Hp|]. split; [done|].
      split; [|done]. by eapply descends_await.
Qed.
End phases.

(** ** The tasks of the requests *)

Section requests.
Context {ucd : UnicodeData} {jenv : JournalEnv} {sha : Sha256} {jlaws : JournalEnvLaws jenv}.
Context {H : Type}.

(** Every handler keeps a consistent journal consistent. *)
Lemma run_job_consistent {env : JournalEnv} {envlaws : JournalEnvLaws env} {X}
    {adapter_ops : AdapterOps X H} {verifier_ops : VerifierOps X} {laws : AdapterLaws X H}
    b (w : world X) resp w' :
  no_faults env -> arrives b -> consistent (tables_of w) -> settled (tables_of w) ->
  run_job b w = (Ok resp, w') -> consistent (tables_of w') /\ settled (tables_of w').
Proof.
  clear jlaws. intros Hok Hb Hc Hs Hr. destruct b as [q uid|req]; simpl in Hr.
  - destruct Hb as (frame & h & Hq). split; [by eapply (handle_consistent Hok)|].
    by eapply (handle_settled Hok).
  - apply m_bind_inv in Hr as (a & w1 & Hr & [= _ <-]). split.
    + by eapply (retry_consistent Hok).
    + eapply keeps_settled; [by apply retry_settled|exact Hs|exact Hr].
Qed.

(** A task alone is the handler on the scripted site. *)
Lemma alone_job b t0 resp t' :
  alone (job_task (H := H) b) t0 (Ok resp) t' ->
  exists clock l w', run_job (jenv := replay_env clock) (H := H) (adapter_ops := script_adapter)
    (verifier_ops := script_verifier) b (mk_world (mk_db t0 0) l []) = (Ok resp, w') /\
    tables_of w' = t'.
Proof.
  intros (clock & l & w' & Hr & Ht)%alone_runs. rewrite runs_job in Hr. by exists clock, l, w'.
Qed.

Lemma job_settles b : arrives b -> settles (H := H) (alloc_of (lock_of b)) b.
Proof.
  intros Hb t0 resp t' Hc Hs (clock & l & w' & Hr & <-)%alone_job.
  destruct (run_job_consistent (env := replay_env clock) (envlaws := jlaws) (laws := script_laws) b
    (mk_world (mk_db t0 0) l []) _ _ (fun _ => eq_refl) Hb Hc Hs Hr).
  by apply consistent_fine_at.
Qed.
End requests.

(** ** The invariant of the gateway *)

Section gateway.
Context {ucd : UnicodeData} {jenv : JournalEnv} {sha : Sha256} {jlaws : JournalEnvLaws jenv}
  (Hok : no_faults jenv).
Context {X H : Type} {adapter_ops : AdapterOps X H} {verifier_ops : VerifierOps X}
  {laws : AdapterLaws X H}.

Definition at_rest (t : tables) (o : option (holder H)) (L : str * Z) : Prop :=
  match o with
  | Some h => phase (alloc_of L) t h
  | None => fine_at (alloc_of L) t
  end.

(** The task of a lock serves a request for it and keeps its promise. *)
Definition proper (L : str * Z) (h : holder H) : Prop :=
  lock_of (h_job h) = L /\ arrives (h_job h) /\ calls (guarded (other_than (alloc_of L))) (h_task h).

Definition orderly (g : gateway X H) : Prop :=
  map_Forall proper (holders g) /\
  forall L, L ∉ abandoned g -> at_rest (tables_of (g_world g)) (holders g !! L) L.

Lemma arrival_phase b t :
  fine_at (alloc_of (lock_of b)) t -> phase (H := H) (alloc_of (lock_of b)) t (arrival b).
Proof.
  intros Hf. destruct (is_lookup b) eqn:Hb.
  - left. split_and!; [done| |done]. destruct b as [[r|r|r|r] uid|r]; try done. apply lookup_quiet.
  - right; left. destruct (job_opening (H := H) b Hb) as [o Ho]. exists o.
    split; [done|]. split; [exact Ho|]. split; [by intros t0 resp t'|exact Hf].
Qed.

(** What a task does to the allocations of the others *)
Lemma advance_guarantee {A} P (p p' : task H A) (w w' : world X) :
  calls (guarded P) p -> advance p w = Some (p', w') ->
  calls (guarded P) p' /\ guarantee P (tables_of w) (tables_of w').
Proof.
  destruct p as [r|B m k|B c k]; simpl; [done| |].
  - unfold journal, zoom. intros [Hm Hk]. specialize (Hm (w_db w)).
    destruct (m jenv (w_db w)) as [r d]. intros [= <- <-]. split; [apply Hk|done].
  - intros Hk. destruct (perform c w) as [r w1] eqn:Hr. intros [= <- <-]. split; [apply Hk|].
    apply perform_db in Hr. unfold tables_of. by rewrite Hr.
Qed.

Lemma at_rest_guarantee L L' t t' o :
  L <> L' -> guarantee (other_than (alloc_of L)) t t' -> at_rest t o L' -> at_rest t' o L'.
Proof.
  intros HL Hg. assert (guarantee (eq (alloc_of L')) t t') as Hg'.
  { eapply guarantee_weaken, Hg. intros K <- HK. by apply (inj alloc_of) in HK. }
  destruct o as [h|]; simpl; [by apply phase_guarantee|]. apply fine_at_same, Hg'.
Qed.

(** A task that leaves, with the lock of a fine allocation *)
Lemma orderly_leave L (w : world X) ts ab ab' :
  ab ⊆ ab' -> (L ∉ ab' -> fine_at (alloc_of L) (tables_of w)) ->
  orderly (mk_gateway w ts ab) -> orderly (mk_gateway w (delete L ts) ab').
Proof.
  intros Hab HL [Hc Hr]. split; [by apply map_Forall_delete|]. intros L' HL'. simpl in *.
  destruct (decide (L' = L)) as [->|Hne].
  - rewrite lookup_delete_eq. by apply HL.
  - rewrite lookup_delete_ne by done. apply Hr. set_solver.
Qed.

Lemma orderly_step g g' : step g g' -> orderly g -> orderly g'.
Proof.
  destruct 1 as [b w ts ab Hb HL|L h p w w' ts ab Hp Hstep
    |L h resp w ts ab Hp Ht|L h e w ts ab Hp Ht|x w ts ab]; intros [Hc Hr].
  - split.
    + apply map_Forall_insert_2; [|done]. split_and!; [done..|]. apply job_guarded.
    + intros L' HL'. simpl in *. specialize (Hr L' HL').
      destruct (decide (L' = lock_of b)) as [->|Hne]; [|by rewrite lookup_insert_ne].
      rewrite lookup_insert_eq. rewrite HL in Hr. by apply arrival_phase.
  - destruct (Hc L h Hp) as (Hkey & Harr & Hg).
    destruct (advance_guarantee _ _ _ _ _ Hg Hstep) as [Hg' Hgt].
    split; [by apply map_Forall_insert_2|]. intros L' HL'. simpl in *. specialize (Hr L' HL').
    destruct (decide (L' = L)) as [->|Hne].
    + rewrite lookup_insert_eq. rewrite Hp in Hr. by apply phase_step.
    + rewrite lookup_insert_ne by done. by eapply at_rest_guarantee.
  - eapply orderly_leave; [done| |by split]. intros HL. specialize (Hr L HL). simpl in Hr.
    rewrite Hp in Hr. destruct (Hc L h Hp) as (<- & Harr & _).
    eapply phase_answered, Hr; [by apply job_settles|exact Ht].
  - eapply (orderly_leave _ _ _ ab); [set_solver| |by split]. set_solver.
  - by split.
Qed.

Lemma orderly_initial x : orderly (initial x).
Proof.
  split; [apply map_Forall_empty|]. intros L _. simpl. rewrite lookup_empty. simpl.
  apply consistent_fine_at; [|apply map_Forall_empty]. apply empty_consistent.
Qed.

Lemma orderly_reached (g : gateway X H) : reaches g -> orderly g.
Proof.
  intros [x Hr]. pose proof (orderly_initial x) as Hi.
  induction Hr as [g|g g1 g2 Hs _ IH]; [done|]. by eapply IH, orderly_step.
Qed.
End gateway.

(** ** Properties *)

(** C3 Concurrent requests keep the journal consistent. The tasks of the
    requests take turns at their journal calls and awaited calls in any order,
    while the QPMs and the controller answer as they like. In every state a
    healthy gateway reaches, every allocation whose lock is free and that no
    cancelled task has left is consistent: its rows read back, an accepted
    allocation has exactly the accepted rows its stored response announces,
    one that is neither accepted nor under way has none, and one that is closed
    stores no acceptance. *)
Theorem interleaved_consistent {ucd : UnicodeData} {jenv : JournalEnv} {sha : Sha256}
    {jlaws : JournalEnvLaws jenv} {X H} {adapter_ops : AdapterOps X H}
    {verifier_ops : VerifierOps X} {laws : AdapterLaws X H} (g : gateway X H) c j :
  no_faults jenv -> reaches g ->
  holders g !! (c, j) = None -> (c, j) ∉ abandoned g ->
  fine_at (c, str_of_Z j) (tables_of (g_world g)).
Proof.
  intros Hok Hg HL Hab. pose proof (proj2 (orderly_reached Hok g Hg) (c, j) Hab) as Hr.
  by rewrite HL in Hr.
Qed.

(** C5 What a task answers while others run is what its handler answers alone:
    in every state a healthy gateway reaches, when the task of a request or of a
    retry, lookups apart, has its answer and no cancelled task has left its
    allocation, the sequential handler, run without interruption on the
    operations and the rows of the allocation that the task found at its first
    journal call, gives the same answer for some times and some answers of the
    QPMs and the controller, and leaves the rows of the allocation as they are
    now. *)
Theorem interleaved_answers {ucd : UnicodeData} {jenv : JournalEnv} {sha : Sha256}
    {jlaws : JournalEnvLaws jenv} {X H} {adapter_ops : AdapterOps X H}
    {verifier_ops : VerifierOps X} {laws : AdapterLaws X H} (g : gateway X H) L h resp :
  no_faults jenv -> reaches g ->
  holders g !! L = Some h -> h_task h = Done (Ok resp) -> is_lookup (h_job h) = false ->
  L ∉ abandoned g ->
  let t := tables_of (g_world g) in
  exists clock (script_of_calls : script H) w',
    run_job (jenv := replay_env clock) (adapter_ops := script_adapter)
      (verifier_ops := script_verifier) (h_job h)
      (mk_world (mk_db (restrict (alloc_of L) (found h t)) 0) script_of_calls []) = (Ok resp, w') /\
    same_rows (alloc_of L) (tables_of w') t.
Proof.
  intros Hok Hg HL Ht Hb Hab t. pose proof (proj2 (orderly_reached Hok g Hg) L Hab) as Hr.
  rewrite HL in Hr. destruct (phase_answers _ _ _ _ Ht Hr) as [[Hl _]|(_ & t' & Ha & Hs)];
    [congruence|].
  destruct (alone_job _ _ _ _ Ha) as (clock & l & w' & Hrun & <-). by exists clock, l, w'.
Qed.

(** The entry of an allocation, as a ledger of its own *)
Definition ledger_at (K : alloc_key) (t : tables) : ledger := ledger_of (restrict K t).

Lemma ledger_at_same {ucd : UnicodeData} K t t' :
  (forall K', K' <> K -> allocations t' !! K' = None) -> same_rows K t' t ->
  ledger_of t' = ledger_at K t.
Proof.
  intros Ho [Ha _]. apply map_eq. intros K'. unfold ledger_at. rewrite !ledger_lookup.
  destruct (decide (K' = K)) as [->|Hne]; [|by rewrite restrict_other, Ho].
  pose proof (proj1 (restrict_same K t) K eq_refl) as Er. pose proof (Ha K eq_refl) as Et.
  f_equal. exact (eq_trans (eq_sym Et) (eq_sym Er)).
Qed.

(** A handler leaves the allocations of other locks alone. *)
Lemma run_job_untouched {ucd : UnicodeData} {jenv : JournalEnv} {sha : Sha256} {X H}
    {adapter_ops : AdapterOps X H} {verifier_ops : VerifierOps X} q uid (w : world X) r w' :
  handle (H := H) q uid w = (r, w') ->
  untouched (other_than (alloc_of (lock_key q))) (tables_of w) (tables_of w').
Proof.
  intros Hr. destruct q as [req|req|req|req]; simpl in Hr.
  - pose proof (evaluate_untouched (H := H) req uid w) as [H1 H2]. rewrite Hr in H1, H2. split; auto.
  - pose proof (reserve_untouched (H := H) _ _ req eq_refl eq_refl uid w) as Hu. by rewrite Hr in Hu.
  - pose proof (release_untouched (H := H) _ _ req eq_refl eq_refl uid w) as Hu. by rewrite Hr in Hu.
  - pose proof (get_reservations_reads (untouched (other_than (alloc_of
      (lock_key (GetReservationsRequest req))))) req uid _ w) as Hu. by rewrite Hr in Hu.
Qed.

(** C2 Concurrent requests refine the ledger: in every state a healthy gateway
    reaches, however its tasks interleave, when the task of an evaluation, a
    reserve or a release has its answer and no cancelled task has left its
    allocation, that answer and the change of the allocation's entry, from the
    rows the task found at its first journal call to the rows now, are one step
    of the abstract service: an error, a declined reserve or an evaluation
    changes nothing, a repeated request gets the answer then on record or the
    entry as it is, an accepted reserve leaves the owner what it announces and
    all that was held, and a release empties the entry. *)
Theorem interleaved_ledger {ucd : UnicodeData} {jenv : JournalEnv} {sha : Sha256}
    {jlaws : JournalEnvLaws jenv} {X H} {adapter_ops : AdapterOps X H}
    {verifier_ops : VerifierOps X} {laws : AdapterLaws X H} (g : gateway X H) L h q uid resp :
  no_faults jenv -> reaches g ->
  holders g !! L = Some h -> h_task h = Done (Ok resp) -> h_job h = Serving q uid ->
  is_lookup (h_job h) = false -> L ∉ abandoned g ->
  let t := tables_of (g_world g) in
  ledger_step (recorded_answer q uid (found h t)) (ledger_at (alloc_of L) (found h t)) q resp
    (ledger_at (alloc_of L) t).
Proof.
  intros Hok Hg HL Ht Hj Hb Hab t. pose proof (orderly_reached Hok g Hg) as [Hp Hr].
  specialize (Hr L Hab). rewrite HL in Hr. destruct (Hp L h HL) as (Hkey & Harr & _).
  destruct (phase_answers _ _ _ _ Ht Hr) as [[Hl _]|(Hf & t' & Ha & Hs)]; [congruence|].
  destruct (alone_job _ _ _ _ Ha) as (clock & l & w' & Hrun & <-).
  rewrite Hj in Hrun, Harr, Hkey, Hb. destruct Harr as (frame & h' & Hq). simpl in Hrun, Hkey.
  pose proof (run_job_untouched _ _ _ _ _ Hrun) as [Hu _]. rewrite Hkey in Hu.
  assert (ledger_of (tables_of w') = ledger_at (alloc_of L) t) as <-
    by (apply ledger_at_same; [intros K' HK'; rewrite Hu by done; by apply restrict_other|exact Hs]).
  refine (handle_step (jenv := replay_env clock) (laws := script_laws) (fun _ => eq_refl) frame h' q
    uid (mk_world (mk_db (restrict (alloc_of L) (found h t)) 0) l []) resp w' _ Hq _ _ Hrun);
    [by destruct q|by apply restrict_consistent|by apply restrict_settled].
Qed.

(** C8 A lookup that runs while other requests do answers what was announced:
    in every state a healthy gateway reaches under concurrent requests, for an
    allocation recorded as accepted whose lock is free and that no cancelled
    task has left, the journal call of a lookup by its owner succeeds and
    returns the service and reservation id of every result of the stored
    accepted response. *)
Theorem interleaved_lookup {ucd : UnicodeData} {jenv : JournalEnv} {sha : Sha256}
    {jlaws : JournalEnvLaws jenv} {X H} {adapter_ops : AdapterOps X H}
    {verifier_ops : VerifierOps X} {laws : AdapterLaws X H} (g : gateway X H) c j row :
  no_faults jenv -> reaches g ->
  holders g !! (c, j) = None -> (c, j) ∉ abandoned g ->
  allocations (tables_of (g_world g)) !! (c, str_of_Z j) = Some row ->
  Allocation.state row = txt "accepted" ->
  exists resp records,
    Allocation.response row = Some (response_to_dict (ReserveResponse resp)) /\
    ReserveResponse.decision resp = AdmissionDecision.ACCEPTED /\
    (reservation_context c j (Allocation.job_uid row) (Allocation.job_gid row)
       (w_db (g_world g))).1 = Ok records /\
    reservation_tuple records = announced (ReserveResponse.results resp).
Proof.
  intros Hok Hg HL Hab Hrow Hst. pose proof (proj2 (orderly_reached Hok g Hg) (c, j) Hab) as Hr.
  rewrite HL in Hr.
  apply restrict_consistent in Hr as [Hv Hc]. specialize (Hc c j).
  change (alloc_of (c, j)) with (c, str_of_Z j) in *.
  set (t := tables_of (g_world g)) in *.
  assert (allocations (restrict (c, str_of_Z j) t) !! (c, str_of_Z j) = Some row) as Hrow'
    by (etrans; [by apply (proj1 (restrict_same (c, str_of_Z j) t))|exact Hrow]).
  unfold consistent_at, row_consistent in Hc. rewrite Hrow', Hst in Hc. simpl in Hc.
  destruct (accepted_set_complete c j (restrict (c, str_of_Z j) t) row Hrow' Hst Hc)
    as (resp & records & Hresp & Hd & Ht & Hctx).
  exists resp, records. split_and!; [done..| |done].
  rewrite (proj1 (reservation_context_run Hok c j _ _ (w_db (g_world g)))).
  fold (tables_of (g_world g)). fold t.
  apply context_of_complete in Hctx; [|eapply map_Forall_impl; [exact Hv|]; by intros ? ? [? _]].
  rewrite <-Hctx. unfold context_of. rewrite Hrow, Hrow'.
  by rewrite (records_of_similar c j None t (restrict (c, str_of_Z j) t))
    by (split; [apply restrict_same|done]).
Qed.

(** ** Two requests that take turns *)

Definition release_frame : bytes :=
  match encode_request (ReleaseRequest (ReleaseRequest.mk 5 (txt "hpc") 8 0)) 78 with
  | Ok f => f
  | Raise _ => []
  end.

(** A reserve of job 7 and a release of job 8 *)
Definition two_requests : list move :=
  let seven := (txt "hpc", 7) in
  let eight := (txt "hpc", 8) in
  [Start sample_frame 1000; Start release_frame 1000; Turn seven; Turn eight; Turn seven;
   Turn eight; Turn seven; Turn eight; Leave eight] ++ replicate 10 (Turn seven) ++ [Leave seven].

Definition both_answered : gateway site str :=
  default (initial (mk_adapter true [] 41)) (plays two_requests (initial (mk_adapter true [] 41))).

Lemma default_reaches l :
  bool_decide (is_Some (plays l (initial (H := str) (mk_adapter true [] 41)))) ->
  reaches (default (initial (mk_adapter true [] 41))
    (plays l (initial (H := str) (mk_adapter true [] 41)))).
Proof.
  intros [g Hg]%bool_decide_unpack. rewrite Hg. by apply (plays_reaches l (mk_adapter true [] 41)).
Qed.

Lemma both_answered_reached : reaches both_answered.
Proof. apply default_reaches. vm_compute. exact I. Qed.

Lemma seven_accepted :
  (fun row => (Allocation.state row, Allocation.service_set row)) <$>
    (allocations (tables_of (g_world both_answered)) !! (txt "hpc", txt "7"))
  = Some (txt "accepted", [txt "aer"; txt "bee"]).
Proof. vm_compute. reflexivity. Qed.

Lemma interleaved_consistent_witness :
  no_faults healthy_env /\ reaches both_answered /\
  holders both_answered !! (txt "hpc", 7) = None /\ ((txt "hpc", 7) ∉ abandoned both_answered) /\
  fine_at (txt "hpc", txt "7") (tables_of (g_world both_answered)).
Proof.
  assert (no_faults healthy_env) as Hok by done.
  assert (holders both_answered !! (txt "hpc", 7) = None) as HL by (vm_compute; reflexivity).
  assert ((txt "hpc", 7) ∉ abandoned both_answered) as Hab
    by (apply (bool_decide_unpack _); vm_compute; exact I).
  split_and!; [exact Hok|exact both_answered_reached|exact HL|exact Hab|].
  exact (interleaved_consistent (jlaws := healthy_env_laws) (laws := defw_adapter_laws)
    both_answered (txt "hpc") 7 Hok both_answered_reached HL Hab).
Defined.

(** Both tasks are done; job 7 still holds its lock. *)
Definition seven_answered : gateway site str :=
  default (initial (mk_adapter true [] 41))
    (plays (take 19 two_requests) (initial (mk_adapter true [] 41))).

Definition seven_holder : holder str :=
  default (mk_holder (Serving (ReserveRequest sample_request) 1000) None (Done (Raise CancelledError)))
    (holders seven_answered !! (txt "hpc", 7)).

Definition seven_response : response :=
  match h_task seven_holder with
  | Done (Ok resp) => resp
  | _ => ReserveResponse (ReserveResponse.mk 0 AdmissionDecision.REJECTED [])
  end.

Lemma seven_reached : reaches seven_answered.
Proof. apply (default_reaches (take 19 two_requests)). vm_compute. exact I. Qed.

Lemma seven_holds :
  holders seven_answered !! (txt "hpc", 7) = Some seven_holder /\
  h_task seven_holder = Done (Ok seven_response) /\
  h_job seven_holder = Serving (ReserveRequest sample_request) 1000 /\
  ((txt "hpc", 7) ∉ abandoned seven_answered).
Proof.
  assert (is_Some (holders seven_answered !! (txt "hpc", 7))) as [h Hh]
    by (apply (bool_decide_unpack _); vm_compute; exact I).
  split; [unfold seven_holder; by rewrite Hh|]. split; [vm_compute; reflexivity|].
  split; [vm_compute; reflexivity|]. apply (bool_decide_unpack _). vm_compute. exact I.
Qed.

Lemma interleaved_answers_witness :
  (exists results, seven_response
     = ReserveResponse (ReserveResponse.mk 1 AdmissionDecision.ACCEPTED results)) /\
  exists clock (script_of_calls : script str) w',
    run_job (jenv := replay_env clock) (adapter_ops := script_adapter)
      (verifier_ops := script_verifier) (h_job seven_holder)
      (mk_world (mk_db (restrict (txt "hpc", txt "7")
         (found seven_holder (tables_of (g_world seven_answered)))) 0) script_of_calls [])
      = (Ok seven_response, w') /\
    same_rows (txt "hpc", txt "7") (tables_of w') (tables_of (g_world seven_answered)).
Proof.
  split; [eexists; vm_compute; reflexivity|].
  assert (no_faults healthy_env) as Hok by done.
  destruct seven_holds as (HL & Ht & Hj & Hab).
  assert (is_lookup (h_job seven_holder) = false) as Hb by (by rewrite Hj).
  exact (interleaved_answers (jlaws := healthy_env_laws) (laws := defw_adapter_laws)
    seven_answered (txt "hpc", 7) seven_holder seven_response Hok seven_reached HL Ht Hb Hab).
Defined.

(** The reserve found no entry and leaves one. *)
Lemma interleaved_ledger_witness :
  ledger_at (txt "hpc", txt "7") (found seven_holder (tables_of (g_world seven_answered))) = ∅ /\
  ledger_at (txt "hpc", txt "7") (tables_of (g_world seven_answered)) <> ∅ /\
  ledger_step
    (recorded_answer (ReserveRequest sample_request) 1000
       (found seven_holder (tables_of (g_world seven_answered))))
    (ledger_at (txt "hpc", txt "7") (found seven_holder (tables_of (g_world seven_answered))))
    (ReserveRequest sample_request) seven_response
    (ledger_at (txt "hpc", txt "7") (tables_of (g_world seven_answered))).
Proof.
  split; [vm_compute; reflexivity|]. split; [intros E; vm_compute in E; discriminate E|].
  assert (no_faults healthy_env) as Hok by done.
  destruct seven_holds as (HL & Ht & Hj & Hab).
  assert (is_lookup (h_job seven_holder) = false) as Hb by (by rewrite Hj).
  exact (interleaved_ledger (jlaws := healthy_env_laws) (laws := defw_adapter_laws)
    seven_answered (txt "hpc", 7) seven_holder (ReserveRequest sample_request) 1000 seven_response
    Hok seven_reached HL Ht Hj Hb Hab).
Defined.

Lemma interleaved_lookup_witness :
  exists row resp records,
    allocations (tables_of (g_world both_answered)) !! (txt "hpc", txt "7") = Some row /\
    Allocation.response row = Some (response_to_dict (ReserveResponse resp)) /\
    reservation_tuple records = announced (ReserveResponse.results resp).
Proof.
  assert (no_faults healthy_env) as Hok by done.
  assert (holders both_answered !! (txt "hpc", 7) = None) as HL by (vm_compute; reflexivity).
  assert ((txt "hpc", 7) ∉ abandoned both_answered) as Hab
    by (apply (bool_decide_unpack _); vm_compute; exact I).
  pose proof seven_accepted as Hm.
  destruct (allocations (tables_of (g_world both_answered)) !! (txt "hpc", txt "7")) as [row|] eqn:Hrow;
    [|discriminate Hm]. injection Hm as Hst _.
  destruct (interleaved_lookup (jlaws := healthy_env_laws) (laws := defw_adapter_laws)
    both_answered (txt "hpc") 7 row Hok both_answered_reached HL Hab Hrow Hst)
    as (resp & records & Hresp & _ & _ & Ht).
  exists row, resp, records. split_and!; [reflexivity|exact Hresp|exact Ht].
Defined.
