(* ===== verification/RetryRace.v ===== *)
(** * A retry in a process of its own

    The [retry-release] command constructs its own [GatewayService] on the
    journal of the running gateway. Its locks are not those of the gateway, so
    its task and a reserve of the same allocation take turns. *)

From S2P Require Import Prelude Python Enums Messages Values Effects Journal SlurmVerifier Adapter DefwClient AdapterProps Service Sample Triples Consistency ConsistencyProps Tasks Interleaving InterleavingProps.
Local Open Scope Z_scope.

(** Let one of two tasks make its next call: [true] the first. *)
Fixpoint race {ucd : UnicodeData} {jenv : JournalEnv} {X H} {adapter_ops : AdapterOps X H}
    {verifier_ops : VerifierOps X} (turns : list bool) (p q : task H response) (w : world X)
    : option (task H response * task H response * world X) :=
  match turns with
  | [] => Some (p, q, w)
  | true :: turns => '(p, w) ← advance p w; race turns p q w
  | false :: turns => '(q, w) ← advance q w; race turns p q w
  end.

(** The retry reads the reservations of job 7; a reserve extends them; the
    retry releases what it read. *)
Definition retry_request : job := Retrying (sample_release 5).
Definition extending_request : job :=
  Serving (ReserveRequest (sample_reserve 2 ["aer"; "bee"; "cat"]%string)) 1000.

Definition overtaken : list bool := true :: replicate 9 false ++ replicate 7 true.

Definition raced : option (task str response * task str response * world site) :=
  race overtaken (job_task retry_request) (job_task extending_request) answered_world.

(** What the race leaves: both tasks have an answer, the reserve announced that
    it holds a reservation of [cat], and the allocation is released while the
    row of [cat] is accepted. *)
Definition race_outcome : option (bool * bool * option str * option str) :=
  '(p, q, w) ← raced;
  Some (if p is Done (Ok (ReleaseResponse _)) then true else false,
        if q is Done (Ok (ReserveResponse resp)) then
          bool_decide (txt "cat" ∈ map ServiceResult.service_id (ReserveResponse.results resp)) &&
          bool_decide (ReserveResponse.decision resp = AdmissionDecision.ACCEPTED)
        else false,
        Allocation.state <$> (allocations (tables_of w) !! (txt "hpc", txt "7")),
        ReservationRow.state <$> (reservation_rows (tables_of w) !! (txt "hpc", txt "7", txt "cat"))).

Lemma race_outcome_eq : race_outcome = Some (true, true, Some (txt "released"), Some (txt "accepted")).
Proof. vm_compute. reflexivity. Qed.

(** The retry of another process can leave the journal inconsistent: it starts
    when the allocation is consistent, both tasks answer, and the allocation
    ends as released with an accepted row that the reserve announced. *)
Theorem unlocked_retry_leaks :
  consistent (tables_of answered_world) /\
  exists p q w, raced = Some (Done (Ok p), Done (Ok q), w) /\
    ~ fine_at (txt "hpc", txt "7") (tables_of w).
Proof.
  split.
  { exact (reachable_consistent (jlaws := healthy_env_laws) (laws := defw_adapter_laws)
      answered_world (fun _ => eq_refl) answered_reachable). }
  pose proof race_outcome_eq as E. unfold race_outcome in E.
  destruct raced as [[[p q] w]|]; [|done]. simpl in E. injection E as Hp Hq Ha Hr.
  destruct p as [[p|]| |]; try done. destruct q as [[q|]| |]; try done.
  exists p, q, w. split; [done|]. intros (_ & Hc & _). simpl in Hc. unfold consistent_at in Hc.
  apply fmap_Some in Ha as (row & Hrow & Hst). apply fmap_Some in Hr as (cat & Hcat & Hacc).
  rewrite Hrow in Hc. unfold row_consistent in Hc. rewrite <-Hst in Hc. simpl in Hc.
  by eapply not_elem_of_nil, Hc.
Qed.
