(* ===== verification/Hoare.v ===== *)
(** * Hoare triples over stateful computations

    Rules for the combinators of [Effects] over any state: from a precondition,
    a run ends in one postcondition for values and one for exceptions. *)

From S2P Require Import Prelude Python Effects.

Definition hoare {W A} (Pre : W -> Prop) (m : M W A) (Q : A -> W -> Prop)
    (E : exn -> W -> Prop) : Prop :=
  forall w r w', Pre w -> m w = (r, w') ->
  match r with Ok a => Q a w' | Raise e => E e w' end.

Section rules.
Context {W : Type}.
Implicit Types (I : W -> Prop).

Lemma hoare_conseq {A} I I' (m : M W A) Q Q' E E' :
  hoare I' m Q' E' -> (forall w, I w -> I' w) ->
  (forall a w, Q' a w -> Q a w) -> (forall e w, E' e w -> E e w) -> hoare I m Q E.
Proof.
  intros Hm Hi Hq He w r w' Hw Hr. specialize (Hm w r w' (Hi _ Hw) Hr). destruct r; auto.
Qed.

Lemma hoare_ret {A} I (a : A) (Q : A -> W -> Prop) E :
  (forall w, I w -> Q a w) -> hoare I (mret a) Q E.
Proof. intros Hq w r w' Hw [= <- <-]. auto. Qed.

Lemma hoare_raise {A} I e (Q : A -> W -> Prop) (E : exn -> W -> Prop) :
  (forall w, I w -> E e w) -> hoare I (raise e) Q E.
Proof. intros He w r w' Hw [= <- <-]. auto. Qed.

Lemma hoare_lift {A} I (x : result A) (Q : A -> W -> Prop) (E : exn -> W -> Prop) :
  (forall w a, I w -> x = Ok a -> Q a w) -> (forall w e, I w -> x = Raise e -> E e w) ->
  hoare I (lift x) Q E.
Proof. intros Hq He w r w' Hw [= <- <-]. destruct x; auto. Qed.

Lemma hoare_gets {A} I (f : W -> A) (Q : A -> W -> Prop) E :
  (forall w, I w -> Q (f w) w) -> hoare I (gets f) Q E.
Proof. intros Hq w r w' Hw [= <- <-]. auto. Qed.

Lemma hoare_modify I (f : W -> W) (Q : unit -> W -> Prop) E :
  (forall w, I w -> Q tt (f w)) -> hoare I (modify f) Q E.
Proof. intros Hq w r w' Hw [= <- <-]. auto. Qed.

Lemma hoare_raise_when I b e (Q : unit -> W -> Prop) (E : exn -> W -> Prop) :
  (forall w, I w -> b = false -> Q tt w) -> (forall w, I w -> b = true -> E e w) ->
  hoare I (raise_when b e) Q E.
Proof. intros Hq He. destruct b; [apply hoare_raise|apply hoare_ret]; auto. Qed.

Lemma hoare_bind {A B} I (m : M W A) (f : A -> M W B) Q R E :
  hoare I m Q E -> (forall a, hoare (Q a) (f a) R E) -> hoare I (m ≫= f) R E.
Proof.
  intros Hm Hf w r w' Hw Hr.
  apply m_bind_cases in Hr as [(e & Hr & ->)|(a & w1 & Hr & Hrest)].
  - by apply (Hm w (Raise e)).
  - apply (Hf a w1 r w'); [|done]. by apply (Hm w (Ok a)).
Qed.

(** Pure preconditions move to the context. *)
Lemma hoare_pure {A} (P : Prop) I (m : M W A) Q E :
  (P -> hoare I m Q E) -> hoare (fun w => P /\ I w) m Q E.
Proof. intros Hm w r w' [HP Hw] Hr. by apply (Hm HP w). Qed.

Lemma hoare_try_catch {A} I catches (m : M W A) h Q E E' :
  hoare I m Q E' -> (forall e, catches e = true -> hoare (E' e) (h e) Q E) ->
  (forall e w, catches e = false -> E' e w -> E e w) ->
  hoare I (try_catch catches m h) Q E.
Proof.
  intros Hm Hh He w r w' Hw Hr. unfold try_catch in Hr. destruct (m w) as [[a|e] w1] eqn:Em.
  - injection Hr as <- <-. by apply (Hm w (Ok a)).
  - pose proof (Hm w (Raise e) w1 Hw Em) as Hx. destruct (catches e) eqn:Ec.
    + by apply (Hh e Ec w1 r w').
    + injection Hr as <- <-. by apply He.
Qed.

(** *** Blocks that keep an invariant, whatever their outcome *)

Definition stable {A} I (m : M W A) : Prop := hoare I m (fun _ => I) (fun _ => I).

Lemma stable_bind {A B} I (m : M W A) (f : A -> M W B) :
  stable I m -> (forall a, stable I (f a)) -> stable I (m ≫= f).
Proof. intros Hm Hf. exact (hoare_bind I m f (fun _ => I) _ _ Hm Hf). Qed.
Lemma stable_mret {A} I (a : A) : stable I (mret (M := M W) a).
Proof. by apply hoare_ret. Qed.
Lemma stable_raise {A} I e : stable I (raise (W := W) (A := A) e).
Proof. by apply hoare_raise. Qed.
Lemma stable_lift {A} I (x : result A) : stable I (lift (W := W) x).
Proof. by apply hoare_lift. Qed.
Lemma stable_gets {A} I (f : W -> A) : stable I (gets f).
Proof. by apply hoare_gets. Qed.
Lemma stable_raise_when I b e : stable I (raise_when (W := W) b e).
Proof. by apply hoare_raise_when. Qed.
Lemma stable_try_catch {A} I catches (m : M W A) h :
  stable I m -> (forall e, stable I (h e)) -> stable I (try_catch catches m h).
Proof.
  intros Hm Hh. apply (hoare_try_catch I catches m h _ _ (fun _ => I)); [done|by intros; apply Hh|done].
Qed.
End rules.

Create HintDb hoare discriminated.
#[export] Hint Resolve stable_mret stable_raise stable_lift stable_gets stable_raise_when : hoare.

(** Walk through a block that keeps an invariant. *)
Ltac stay :=
  repeat first
    [ solve [auto with hoare]
    | lazymatch goal with
      | |- stable _ (mbind _ _) => apply stable_bind; [|intros ?]
      | |- stable _ (try_catch _ _ _) => apply stable_try_catch; [|intros ?]
      | |- stable _ (match _ with _ => _ end) => case_match
      end
    | progress cbv beta zeta ].
