(* ===== verification/TextFacts.v ===== *)
(** * Facts about splitting text

    Lines, words and fields of a string, and the texts that split into given
    parts. *)

From S2P Require Import Prelude Python.
Local Open Scope Z_scope.

(** ** At a separator *)

Lemma split_at_iff c s a b : split_at c s = Some (a, b) <-> s = a ++ c :: b /\ c ∉ a.
Proof.
  revert a. induction s as [|x s IH]; intros a; simpl.
  { split; [done|]. intros [H _]. by destruct a. }
  destruct (Z.eqb_spec x c) as [->|Hne].
  - split; [intros [= <- <-]; split; [done|apply not_elem_of_nil]|].
    intros [H Hc]. destruct a as [|y a]; [by injection H as ->|].
    injection H as -> ->. destruct Hc. left.
  - split.
    + destruct (split_at c s) as [[a' b']|] eqn:E; [|done]. simpl. intros [= <- <-].
      destruct (proj1 (IH a') eq_refl) as [-> Hc]. split; [done|].
      apply not_elem_of_cons. by split.
    + intros [H Hc]. destruct a as [|y a]; [by injection H as -> ->|].
      injection H as -> ->. apply not_elem_of_cons in Hc as [_ Hc].
      by rewrite (proj2 (IH a) (conj eq_refl Hc)).
Qed.

Section text.
Context {ucd : UnicodeData}.

Definition nonspace (s : str) : Prop := Forall (fun c => is_space c = false) s.
Definition is_word (s : str) : Prop := s <> [] /\ nonspace s.

(** ** Words *)

Lemma words_word s : is_word s -> words s = [s].
Proof.
  intros [Hne Hs]. induction Hs as [|c s Hc Hs IH]; [done|].
  simpl. rewrite Hc. destruct s as [|c' s]; [done|].
  inversion Hs as [|? ? Hc' _]; subst. rewrite Hc'. by rewrite IH.
Qed.

Lemma words_cons w s : is_word w -> words (w ++ 32 :: s) = w :: words s.
Proof.
  intros [Hne Hs]. induction Hs as [|c w Hc Hs IH]; [done|].
  destruct w as [|c' w]; [simpl; by rewrite Hc|].
  inversion Hs as [|? ? Hc' _]; subst.
  change (words ((c :: c' :: w) ++ 32 :: s)) with
    (if is_space c then words ((c' :: w) ++ 32 :: s)
     else if is_space c' then [c] :: words ((c' :: w) ++ 32 :: s)
     else match words ((c' :: w) ++ 32 :: s) with
          | v :: vs => (c :: v) :: vs
          | [] => [[c]]
          end).
  rewrite Hc, Hc', IH by done. done.
Qed.

Lemma words_are_words s : Forall is_word (words s).
Proof.
  induction s as [|c s IH]; simpl; [done|].
  destruct (is_space c) eqn:Hc; [done|].
  assert (is_word [c]) as Hw by (split; [done|by constructor]).
  destruct s as [|c' s']; [by constructor|].
  destruct (is_space c'); [by constructor|].
  destruct (words (c' :: s')) as [|w ws]; [by constructor|].
  inversion IH as [|? ? [Hne Hn] Hws]; subst. constructor; [|done].
  split; [done|by constructor].
Qed.

(** Words joined by single spaces *)
Lemma words_join l : Forall is_word l -> words (join [32] l) = l.
Proof.
  induction 1 as [|w l Hw Hl IH]; [done|]. destruct l as [|w' l].
  - by apply words_word.
  - change (words (w ++ 32 :: join [32] (w' :: l)) = w :: w' :: l).
    rewrite words_cons by done. by rewrite IH.
Qed.

(** ** Lines *)

Definition no_break (s : str) : Prop := Forall (fun c => is_line_break c = false) s.

Lemma splitlines_line s : s <> [] -> no_break s -> splitlines s = [s].
Proof.
  intros Hne Hs. induction Hs as [|c s Hc Hs IH]; [done|]. simpl. rewrite Hc.
  destruct (Z.eqb_spec c 13) as [->|_]; [by unfold is_line_break in Hc|].
  destruct s as [|c' s]; [done|]. by rewrite IH.
Qed.

Lemma splitlines_cons s t : no_break s -> splitlines (s ++ 10 :: t) = s :: splitlines t.
Proof.
  induction 1 as [|c s Hc Hs IH]; [done|]. simpl. rewrite Hc.
  destruct (Z.eqb_spec c 13) as [->|_]; [by unfold is_line_break in Hc|].
  by rewrite IH.
Qed.

(** ** Stripping *)

Lemma lstrip_word c s : is_space c = false -> lstrip (c :: s) = c :: s.
Proof. simpl. by intros ->. Qed.

Lemma strip_framed a s b :
  is_space a = false -> is_space b = false -> strip (a :: s ++ [b]) = a :: s ++ [b].
Proof.
  intros Ha Hb. unfold strip. rewrite lstrip_word by done.
  change (a :: s ++ [b]) with ((a :: s) ++ [b]). rewrite reverse_app. simpl.
  rewrite Hb. change (b :: reverse (a :: s)) with (reverse [b] ++ reverse (a :: s)).
  by rewrite <-reverse_app, reverse_involutive.
Qed.

Lemma strip_id s :
  (forall c t, s = c :: t -> is_space c = false) ->
  (forall c t, s = t ++ [c] -> is_space c = false) -> strip s = s.
Proof.
  intros Hh Ht. destruct s as [|c s]; [done|]. unfold strip.
  rewrite lstrip_word by by eapply Hh.
  destruct (reverse (c :: s)) as [|d r] eqn:E.
  - by rewrite <-(reverse_involutive (c :: s)), E.
  - assert (c :: s = reverse r ++ [d]) as Hs
      by (by rewrite <-(reverse_involutive (c :: s)), E, reverse_cons).
    rewrite lstrip_word by by eapply Ht. by rewrite <-E, reverse_involutive.
Qed.

(** ** Printable ASCII without the blank *)

Definition plain (s : str) : Prop := Forall (fun c => 33 <= c <= 126) s.

Lemma plain_space c : 33 <= c <= 126 -> is_space c = false.
Proof. intros Hc. unfold is_space. replace (c <? 128) with true by lia. cbv iota. lia. Qed.

Lemma plain_break c : 32 <= c <= 126 -> is_line_break c = false.
Proof.
  intros Hc. apply bool_decide_eq_false_2. rewrite !elem_of_cons, elem_of_nil. lia.
Qed.

Lemma plain_word s : s <> [] -> plain s -> is_word s.
Proof. intros Hne Hp. split; [done|]. eapply Forall_impl; [exact Hp|apply plain_space]. Qed.

Lemma join_chars l :
  Forall plain l -> Forall (fun c => 32 <= c <= 126) (join [32] l).
Proof.
  assert (forall w, plain w -> Forall (fun c => 32 <= c <= 126) w) as Hw.
  { intros w Hw. eapply Forall_impl; [exact Hw|]. simpl. lia. }
  induction 1 as [|w l Hp Hl IH]; [done|]. destruct l as [|w' l]; [by apply Hw|].
  apply Forall_app. split; [by apply Hw|]. by constructor; [lia|].
Qed.

Lemma join_last l c t :
  Forall (fun w => w <> [] /\ plain w) l -> join [32] l = t ++ [c] -> 33 <= c <= 126.
Proof.
  revert t. induction l as [|w l IH]; intros t Hl Hj; [by destruct t|].
  inversion Hl as [|? ? [Hne Hp] Hl']; subst. destruct l as [|w' l].
  - change (w = t ++ [c]) in Hj. subst w. apply Forall_app in Hp as [_ Hp]. by inversion Hp.
  - assert (exists t', join [32] (w' :: l) = t' ++ [c]) as [t' Ht'].
    { change (w ++ 32 :: join [32] (w' :: l) = t ++ [c]) in Hj.
      destruct (exists_last (l := join [32] (w' :: l))) as (t' & d & Hd).
      - inversion Hl' as [|? ? [Hne' _] _]; subst. destruct l; [done|].
        by destruct w'.
      - exists t'. rewrite Hd in Hj |- *. rewrite app_comm_cons, app_assoc in Hj.
        by apply app_inj_tail in Hj as [_ ->]. }
    by eapply IH.
Qed.

Lemma split_on_chars sep s c : c ∈ s -> c = sep \/ exists part, part ∈ split_on sep s /\ c ∈ part.
Proof.
  induction s as [|x s IH]; [by intros ?%elem_of_nil|]. simpl. intros [->|Hc]%elem_of_cons.
  - destruct (Z.eqb_spec x sep); [by left|right].
    destruct (split_on sep s) as [|part parts].
    + exists [x]. split; left.
    + exists (x :: part). split; left.
  - destruct (IH Hc) as [|(part & Hp & Hin)]; [by left|right].
    destruct (Z.eqb_spec x sep); [exists part; split; [by right|done]|].
    destruct (split_on sep s) as [|part' parts]; [by apply elem_of_nil in Hp|].
    apply elem_of_cons in Hp as [->|Hp].
    + exists (x :: part'). split; [left|by right].
    + exists part. split; [by right|done].
Qed.

(** Lines, each with its end *)
Definition unlines (l : list str) : str := concat (map (fun s => s ++ [10]) l).

Lemma splitlines_unlines l : Forall no_break l -> splitlines (unlines l) = l.
Proof.
  induction 1 as [|s l Hs Hl IH]; [done|].
  change (unlines (s :: l)) with ((s ++ [10]) ++ unlines l).
  rewrite <-app_assoc. change ([10] ++ unlines l) with (10 :: unlines l).
  by rewrite splitlines_cons, IH.
Qed.

(** ** Numbers *)

Lemma parse_digits b s :
  s <> [] \/ b = true -> Forall (fun c => 48 <= c <= 57) s -> exists u, parse_uint b s = Some u.
Proof.
  intros Hne Hs. revert b Hne. induction Hs as [|c s Hc Hs IH]; intros b Hne.
  { destruct Hne as [?|Hb]; [done|subst b]. by eexists. }
  simpl. replace (c =? 95) with false by lia.
  destruct (IH true) as [u Hu]; [by right|]. rewrite Hu.
  unfold dec_digit. replace (c <? 128) with true by lia.
  replace ((48 <=? c) && (c <=? 57)) with true by lia.
  assert (c - 48 = 0 \/ c - 48 = 1 \/ c - 48 = 2 \/ c - 48 = 3 \/ c - 48 = 4 \/ c - 48 = 5 \/
    c - 48 = 6 \/ c - 48 = 7 \/ c - 48 = 8 \/ c - 48 = 9) as Hd by lia.
  repeat destruct Hd as [->|Hd]; [by eexists..|]. rewrite Hd. by eexists.
Qed.

(** A nonempty string of ASCII digits is a natural number. *)
Lemma int_of_digits s :
  s <> [] -> Forall (fun c => 48 <= c <= 57) s -> exists z, int_of_str s = Some z /\ 0 <= z.
Proof.
  intros Hne Hs. unfold int_of_str.
  assert (nonspace s) as Hn.
  { eapply Forall_impl; [exact Hs|]. intros c Hc. cbv beta in Hc. unfold is_space.
    replace (c <? 128) with true by lia. cbv iota. lia. }
  rewrite strip_no_space by done.
  destruct (parse_digits false s) as [u Hu]; [by left|done|].
  destruct s as [|c s]; [done|]. inversion Hs as [|? ? Hc _]; subst.
  exists (Z.of_int (Decimal.Pos u)). split; [|apply N2Z.is_nonneg].
  assert (c = 48 \/ c = 49 \/ c = 50 \/ c = 51 \/ c = 52 \/ c = 53 \/ c = 54 \/ c = 55 \/
    c = 56 \/ c = 57) as Hd by lia.
  repeat destruct Hd as [Hd|Hd]; subst c; cbv beta iota; by rewrite Hu.
Qed.
End text.
