(* ===== verification/BurstBuffer.v ===== *)
(** * The burst-buffer helper ([slurm/qfw_slurm_bb.py])

    The command that Slurm runs at each step of an allocation. It parses the
    directive of the job script, asks the native driver to evaluate, reserve or
    release, and keeps one state file per allocation. The state is the parsed
    arguments (two of them are rewritten while it runs), the state directory, a
    count of file writes, the state [D] behind the driver, the output and a
    ghost log of the driver's answers. A state file is its mode and the JSON
    document it holds; writing stores the document, since key order is never
    looked at. *)

From S2P Require Import Prelude Python Values Effects.
Local Open Scope Z_scope.

(** ** Constants *)

Definition EXIT_OK : Z := 0.
Definition EXIT_DELAYED : Z := 10.
Definition EXIT_REJECTED : Z := 20.
Definition EXIT_OPERATIONAL : Z := 30.
Definition MAX_DIRECTIVE : Z := 2048.

Definition FIELDS : list str := map txt
  ["qpu"; "workload"; "circuits"; "qubits"; "depth"; "shots"; "oneq"; "twoq"; "measurements"]%string.
Definition REQUIRED : list str := map txt
  ["qpu"; "workload"; "circuits"; "qubits"; "depth"; "shots"]%string.
Definition DRIVER_OPTIONS : list (str * str) := zip FIELDS (map txt
  ["--qpu"; "--workload-kind"; "--circ-count"; "--max-qubits"; "--max-depth"; "--max-shots";
   "--max-one-q-gates"; "--max-two-q-gates"; "--max-measurements"]%string).

Definition is_digit (c : Z) : bool := (48 <=? c) && (c <=? 57).
Definition is_alpha (c : Z) : bool :=
  ((65 <=? c) && (c <=? 90)) || ((97 <=? c) && (c <=? 122)).

(** [IDENTIFIER.fullmatch(s)] and [UINT.fullmatch(s)] *)
Definition IDENTIFIER (s : str) : bool :=
  negb (bool_decide (s = [])) &&
  forallb (fun c => is_alpha c || is_digit c || bool_decide (c ∈ [95; 46; 45])) s.
Definition UINT (s : str) : bool := negb (bool_decide (s = [])) && forallb is_digit s.

(** ** The directive *)

Fixpoint lookup (name : str) (values : list (str * str)) : option str :=
  match values with
  | [] => None
  | (n, v) :: values => if decide (n = name) then Some v else lookup name values
  end.

Section directive.
Context {ucd : UnicodeData}.

(** The stripped lines that are not blank, and the QFW ones among them *)
Definition nonblank_lines (data : str) : list str :=
  List.filter (fun l => negb (bool_decide (l = []))) (map strip (splitlines data)).
Definition qfw_lines (data : str) : list str :=
  List.filter (startswith (txt "#QFW ")) (nonblank_lines data).

(** [for token in tokens[2:]] *)
Fixpoint parse_fields (values : list (str * str)) (tokens : list str)
    : result (list (str * str)) :=
  match tokens with
  | [] => Ok values
  | token :: tokens =>
      match split_at 61 token with
      | None => Raise (HelperError (txt "malformed QFW directive field"))
      | Some (name, value) =>
          if negb (bool_decide (name ∈ FIELDS)) || bool_decide (name ∈ map fst values)
             || bool_decide (value = []) then
            Raise (HelperError (txt "invalid or duplicate QFW field: " ++ name))
          else parse_fields (values ++ [(name, value)]) tokens
      end
  end.

Definition missing_fields (values : list (str * str)) : list str :=
  List.filter (fun n => negb (bool_decide (n ∈ map fst values))) REQUIRED.

Definition bad_number (values : list (str * str)) (name : str) : bool :=
  match lookup name values with
  | Some v => negb (UINT v) || bool_decide (int_of_str v = Some 0)
  | None => false
  end.

Definition item (values : list (str * str)) (name : string) : result str :=
  or_raise (lookup (txt name) values) (PyError KeyError (repr (txt name))).

Definition parse_directive (data : str) : result (list (str * str)) :=
  match qfw_lines data with
  | [directive] =>
      _ ← raise_if (MAX_DIRECTIVE <? Z.of_nat (length directive))
            (HelperError (txt "QFW directive exceeds 2048 bytes"));
      let tokens := words directive in
      _ ← raise_if (negb (bool_decide (take 2 tokens = [txt "#QFW"; txt "v=1"])))
            (HelperError (txt "unsupported QFW directive version"));
      values ← parse_fields [] (drop 2 tokens);
      _ ← raise_if (negb (bool_decide (missing_fields values = [])))
            (HelperError (txt "missing QFW fields: "
               ++ join (txt ",") (sorted_str (missing_fields values))));
      workload ← item values "workload";
      _ ← raise_if (negb (bool_decide (workload ∈ [txt "quantum"; txt "hybrid"])))
            (HelperError (txt "invalid QFW workload"));
      qpu ← item values "qpu";
      let services := split_on 44 qpu in
      _ ← raise_if (bool_decide (services = []) || negb (bool_decide (NoDup services)))
            (HelperError (txt "QPM service list is empty or contains duplicates"));
      _ ← raise_if (existsb (fun s => negb (IDENTIFIER s)) services)
            (HelperError (txt "invalid QPM service identifier"));
      _ ← iterR (fun name => raise_if (bad_number values name)
                   (HelperError (txt "invalid QFW numeric field: " ++ name))) (drop 2 FIELDS);
      Ok values
  | _ => Raise (HelperError (txt "exactly one QFW directive is required"))
  end.
End directive.

(** ** Arguments, files and the driver *)

Module Args.
Record t := mk {
  operation : str;
  driver : str;
  plugin_config : str;
  job_script : option str;
  cluster : str;
  job_id : Z;
  canonical_job_id : Z;
  uid : Z;
  gid : Z;
  submit_time : Z;
  restart_count : Z;
  walltime_seconds : Z;
  het_job_id : Z;
  het_component : Z;
  max_reservation_attempts : Z;
}.

(** [args.cluster = ...] and [args.canonical_job_id = ...] *)
Definition with_allocation (a : t) (name : str) (id : Z) : t :=
  mk (operation a) (driver a) (plugin_config a) (job_script a) name (job_id a) id (uid a) (gid a)
    (submit_time a) (restart_count a) (walltime_seconds a) (het_job_id a) (het_component a)
    (max_reservation_attempts a).
End Args.

(** What reading the text of a state file gives *)
Inductive file_body :=
| Document (v : pyval)   (* JSON *)
| Garbage                (* text that is not JSON *)
| Undecodable            (* bytes that are not UTF-8 *)
| Unreadable.            (* an [OSError] *)

Record file := mk_file { f_mode : Z; f_body : file_body }.

(** What [subprocess.run] returns *)
Record completed := mk_run { returncode : Z; stdout : str; stderr : str }.

(** A fault of a file write: before or after the file was replaced. *)
Inductive write_fault := BeforeReplace | AfterReplace.

(** What the helper reads from outside: the driver process, the JSON parser,
    the job scripts and the faults of the file system. *)
Class HelperEnv (D : Type) := {
  run_driver : list str -> D -> result completed * D;
  json_loads : str -> option pyval;
  read_script : str -> result str;
  write_faults : nat -> option write_fault;
}.

(** The answer of one call to the driver *)
Record call := mk_call { called : str; answer : result pyval }.

Record state {D : Type} := mk_state {
  s_args : Args.t;
  s_files : gmap str file;
  s_writes : nat;
  s_driver : D;
  s_calls : list call;
  s_stdout : list pyval;
  s_stderr : list str;
}.
Arguments state : clear implicits.
Arguments mk_state {D}.

Definition allocation_epoch (submit_time restart_count : Z) : result Z :=
  if (submit_time <=? 0) || (restart_count <? 0) || (999999 <? restart_count) then
    Raise (HelperError (txt "invalid Slurm allocation epoch"))
  else
    let value := submit_time * 1000000 + restart_count in
    if Z.shiftl 1 64 - 1 <? value then
      Raise (HelperError (txt "Slurm allocation epoch exceeds uint64"))
    else Ok value.

(** The name of a state file under the state directory *)
Definition file_name (cluster : str) (job_id : Z) : str :=
  cluster ++ txt "-" ++ str_of_Z job_id ++ txt ".json".

Definition state_path (cluster : str) (job_id : Z) : result str :=
  if negb (IDENTIFIER cluster) then Raise (HelperError (txt "invalid Slurm cluster name"))
  else Ok (file_name cluster job_id).

(** [value or default] on a diagnostic *)
Definition or_text {ucd : UnicodeData} (v : pyval) (dflt : string) : str :=
  if truthy v then py_str v else txt dflt.

Section helper.
Context {ucd : UnicodeData} {D : Type} {env : HelperEnv D}.
Local Abbreviation S := (state D).

Definition args : M S Args.t := gets s_args.
Definition set_args (f : Args.t -> Args.t) : M S unit :=
  modify (fun s => mk_state (f (s_args s)) (s_files s) (s_writes s) (s_driver s) (s_calls s)
                     (s_stdout s) (s_stderr s)).
Definition print_out (v : pyval) : M S unit :=
  modify (fun s => mk_state (s_args s) (s_files s) (s_writes s) (s_driver s) (s_calls s)
                     (s_stdout s ++ [v]) (s_stderr s)).
Definition print_err (m : str) : M S unit :=
  modify (fun s => mk_state (s_args s) (s_files s) (s_writes s) (s_driver s) (s_calls s)
                     (s_stdout s) (s_stderr s ++ [m])).

(** ** State files *)

Definition read_file (f : option file) : result (list (str * pyval)) :=
  match f with
  | None => Raise (HelperError (txt "accepted allocation state is unavailable"))
  | Some f =>
      if negb (Z.land (f_mode f) 63 =? 0) then
        Raise (HelperError (txt "allocation state permissions are unsafe"))
      else match f_body f with
           | Document (PDict d) => Ok d
           | Document _ => Raise (HelperError (txt "allocation state is malformed"))
           | Garbage | Unreadable => Raise (HelperError (txt "allocation state is unreadable"))
           | Undecodable => Raise (PyError UnicodeDecodeError (txt "invalid start byte"))
           end
  end.

Definition read_state (path : str) : M S (list (str * pyval)) :=
  f ← gets (fun s => s_files s !! path); lift (read_file f).

Definition write_error : exn := PyError OSError (txt "write failed").

(** A temporary file, renamed over the old one: all or nothing, even when the
    final directory sync fails. *)
Definition write_state (path : str) (d : list (str * pyval)) : M S unit :=
  fun s =>
    let put b := mk_state (s_args s)
      (if b : bool then <[path := mk_file 384 (Document (PDict d))]> (s_files s) else s_files s)
      (Datatypes.S (s_writes s)) (s_driver s) (s_calls s) (s_stdout s) (s_stderr s) in
    match write_faults (s_writes s) with
    | None => (Ok tt, put true)
    | Some AfterReplace => (Raise write_error, put true)
    | Some BeforeReplace => (Raise write_error, put false)
    end.

(** [args.state_dir.glob(f"*-{args.job_id}.json")] *)
Definition glob (job_id : Z) : M S (list str) :=
  gets (fun s => List.filter (endswith (txt "-" ++ str_of_Z job_id ++ txt ".json"))
                   (map fst (map_to_list (s_files s)))).

(** [int(v)] where [v] may be absent *)
Definition adopt_allocation (cluster canonical_job_id : pyval) : M S unit :=
  _ ← set_args (fun a => Args.with_allocation a (py_str cluster) (Args.canonical_job_id a));
  id ← lift (py_int canonical_job_id);
  set_args (fun a => Args.with_allocation a (Args.cluster a) id).

Definition path_of_args : M S str :=
  a ← args; lift (state_path (Args.cluster a) (Args.canonical_job_id a)).

Definition locate_state (allow_missing : bool) : M S str :=
  a ← args;
  if negb (bool_decide (Args.cluster a = txt "auto")) then path_of_args
  else
    matches ← glob (Args.job_id a);
    match matches with
    | [path] =>
        current ← read_state path;
        _ ← adopt_allocation (default (PStr []) (assoc (txt "cluster") current))
              (default (PInt 0) (assoc (txt "canonical_job_id") current));
        path_of_args
    | [] =>
        raise (HelperError (if allow_missing
          then txt "cannot release allocation without configured Slurm cluster name"
          else txt "cannot identify allocation state for teardown"))
    | _ => raise (HelperError (txt "cannot identify allocation state for teardown"))
    end.

(** ** The driver *)

Definition directive_options (directive : list (str * str)) : list str :=
  concat (map (fun '(name, option) =>
    match lookup name directive with Some v => [option; v] | None => [] end) DRIVER_OPTIONS).

Definition driver_command (operation : str) (directive : option (list (str * str)))
    : M S (list str * Z) :=
  a ← args;
  epoch ← lift (allocation_epoch (Args.submit_time a) (Args.restart_count a));
  mret ([Args.driver a; operation; txt "--config"; Args.plugin_config a;
         txt "--cluster"; Args.cluster a; txt "--job-id"; str_of_Z (Args.canonical_job_id a);
         txt "--uid"; str_of_Z (Args.uid a); txt "--gid"; str_of_Z (Args.gid a);
         txt "--allocation-epoch"; str_of_Z epoch; txt "--json"]
        ++ (if negb (Args.het_job_id a =? 0) then
              [txt "--hetero-job-id"; str_of_Z (Args.job_id a);
               txt "--hetero-component"; str_of_Z (Args.het_component a)]
            else [])
        ++ match directive with
           | Some d => [txt "--walltime-seconds"; str_of_Z (Args.walltime_seconds a)]
                         ++ directive_options d
           | None => []
           end, epoch).

(** The last line of the driver's output that is not blank, parsed *)
Definition parse_result (operation : str) (epoch : Z) (c : completed) : result (list (str * pyval)) :=
  match last (List.filter (fun l => negb (bool_decide (strip l = []))) (splitlines (stdout c))) with
  | None =>
      Raise (HelperError (match strip (stderr c) with
                          | [] => txt "native gateway operation returned no result"
                          | m => m
                          end))
  | Some line =>
      match json_loads line with
      | None => Raise (HelperError (txt "native gateway operation returned invalid JSON"))
      | Some v =>
          op ← py_get v (txt "operation");
          _ ← raise_if (negb (bool_decide (op = PStr operation)))
                (HelperError (txt "native gateway operation returned the wrong result"));
          match v with
          | PDict d =>
              Ok (dict_set (txt "allocation_epoch") (PStr (str_of_Z epoch))
                    (dict_set (txt "driver_status") (PInt (returncode c)) d))
          | _ => Raise (PyError TypeError (txt "object does not support item assignment"))
          end
      end
  end.

(** [subprocess.run] of the command, logged with what the caller gets of it *)
Definition run_logged (operation : str) (command : list str) (epoch : Z)
    : M S (list (str * pyval)) :=
  fun s =>
    let (r, d) := run_driver command (s_driver s) in
    let r := match r with Ok c => parse_result operation epoch c | Raise e => Raise e end in
    (r, mk_state (s_args s) (s_files s) (s_writes s) d
          (s_calls s ++ [mk_call operation (PDict <$> r)]) (s_stdout s) (s_stderr s)).

Definition invoke_driver (operation : str) (directive : option (list (str * str)))
    : M S (list (str * pyval)) :=
  '(command, epoch) ← driver_command operation directive;
  run_logged operation command epoch.

(** ** Records *)

Definition get (key : string) (d : list (str * pyval)) : pyval := default PNone (assoc (txt key) d).

Definition base_state (a : Args.t) (epoch request_id diagnostic : pyval) (st : str)
    : list (str * pyval) := [
  (txt "schema", PStr (txt "qfw-slurm-allocation-v1"));
  (txt "state", PStr st);
  (txt "cluster", PStr (Args.cluster a));
  (txt "canonical_job_id", PStr (str_of_Z (Args.canonical_job_id a)));
  (txt "job_uid", PInt (Args.uid a));
  (txt "job_gid", PInt (Args.gid a));
  (txt "restart_count", PInt (Args.restart_count a));
  (txt "allocation_epoch", epoch);
  (txt "request_id", PStr (py_str request_id));
  (txt "diagnostic", diagnostic)].

(** [base_state(args, result, state)] for a result of the driver *)
Definition result_state (result : list (str * pyval)) (st : str) : M S (list (str * pyval)) :=
  a ← args;
  epoch ← lift (py_item (PDict result) (txt "allocation_epoch"));
  mret (base_state a epoch (default (PInt 0) (assoc (txt "request_id") result))
          (default (PStr []) (assoc (txt "diagnostic") result)) st).

(** [base_state] of a literal result without an answer of the driver *)
Definition local_state (diagnostic : string) (st : string) : M S (list (str * pyval)) :=
  a ← args;
  epoch ← lift (allocation_epoch (Args.submit_time a) (Args.restart_count a));
  mret (base_state a (PStr (str_of_Z epoch)) (PInt 0) (PStr (txt diagnostic)) (txt st)).

Definition isa_HelperError (e : exn) : bool := if e is HelperError _ then true else false.

Definition attempts_of (d : list (str * pyval)) : result Z :=
  match default (PInt 0) (assoc (txt "reservation_attempts") d) with
  | PInt n =>
      if n <? 0 then Raise (HelperError (txt "allocation reservation attempt state is invalid"))
      else Ok n
  | _ => Raise (HelperError (txt "allocation reservation attempt state is invalid"))
  end.

Definition reservation_attempts (path : str) : M S Z :=
  f ← gets (fun s => s_files s !! path);
  match read_file f with
  | Ok d => lift (attempts_of d)
  | Raise e => if isa_HelperError e then mret 0 else raise e
  end.

(** ** Operations *)

(** The exit status of a decision *)
Definition decision_exit (st : pyval) (diagnostic : pyval) (what : string) : M S Z :=
  if bool_decide (st = PStr (txt "delayed")) then mret EXIT_DELAYED
  else if bool_decide (st = PStr (txt "rejected")) then mret EXIT_REJECTED
  else raise (HelperError (or_text diagnostic what)).

Definition evaluation (path : str) (directive : list (str * str)) : M S Z :=
  result ← invoke_driver (txt "evaluate") (Some directive);
  let st := get "state" result in
  record ← result_state result (txt "evaluation-" ++ py_str st);
  attempts ← reservation_attempts path;
  _ ← write_state path (dict_set (txt "reservation_attempts") (PInt attempts) record);
  if bool_decide (st = PStr (txt "accepted")) then mret EXIT_OK
  else decision_exit st (get "diagnostic" result) "QPM evaluation failed".

Definition nonempty_list (v : pyval) : bool := if v is PList (_ :: _) then true else false.

(** A component's own copy of the record of its leader *)
Definition write_component (record : list (str * pyval)) : M S unit :=
  a ← args;
  if negb (Args.job_id a =? Args.canonical_job_id a) then
    path ← lift (state_path (Args.cluster a) (Args.job_id a));
    write_state path record
  else mret tt.

Definition reservation (path : str) (directive : list (str * str)) : M S Z :=
  a ← args;
  attempts ← reservation_attempts path;
  if Args.max_reservation_attempts a <=? attempts then
    record ← local_state "final QPM reservation attempt limit exhausted" "reservation-exhausted";
    _ ← write_state path (dict_set (txt "reservation_attempts") (PInt attempts) record);
    mret EXIT_REJECTED
  else
    result ← invoke_driver (txt "reserve") (Some directive);
    let st := get "state" result in
    record ← result_state result (txt "reservation-" ++ py_str st);
    let record := dict_set (txt "reservation_attempts") (PInt (attempts + 1)) record in
    if bool_decide (st = PStr (txt "accepted")) then
      let reservations := get "reservations" result in
      if negb (nonempty_list reservations) then
        raise (HelperError (txt "accepted reserve result has no reservations"))
      else
        let record := dict_set (txt "reservations") reservations record in
        _ ← write_state path record;
        _ ← write_component record;
        mret EXIT_OK
    else
      _ ← write_state path record;
      decision_exit st (get "diagnostic" result) "QPM reservation failed".

(** [except (HelperError, OSError, subprocess.SubprocessError)] *)
Definition caught (e : exn) : bool :=
  match e with
  | HelperError _ | PyError OSError _ | PyError TimeoutExpired _ => true
  | _ => false
  end.

(** The record to release and the path of the canonical one *)
Definition release_record (path : str) : M S (list (str * pyval) * str) :=
  f ← gets (fun s => s_files s !! path);
  match read_file f with
  | Raise e =>
      if isa_HelperError e then
        record ← local_state "local reservation state was unavailable" "release-recovery";
        mret (record, path)
      else raise e
  | Ok current =>
      a ← args;
      _ ← adopt_allocation (default (PStr (Args.cluster a)) (assoc (txt "cluster") current))
            (default (PInt (Args.canonical_job_id a)) (assoc (txt "canonical_job_id") current));
      canonical_path ← path_of_args;
      mret (current, canonical_path)
  end.

Definition releasable_states : list pyval :=
  map (fun s => PStr (txt s)) ["release-recovery"; "reservation-accepted"; "release-unresolved"]%string.

(** Whether the state of a record asks for a release. A value that cannot be
    hashed cannot be looked up in the set of states. *)
Definition is_releasable (st : pyval) : result bool :=
  match st with
  | PList _ | PDict _ => Raise (PyError TypeError (txt "unhashable type"))
  | _ => Ok (bool_decide (st ∈ releasable_states))
  end.

(** The record after the driver was asked *)
Definition released_record (current : list (str * pyval)) : M S (list (str * pyval)) :=
  try_catch caught
    (result ← invoke_driver (txt "release") None;
     let st := if bool_decide (get "state" result = PStr (txt "released"))
               then txt "released" else txt "release-unresolved" in
     mret (dict_set (txt "state") (PStr st) (dict_set (txt "release") (PDict result) current)))
    (fun error =>
       mret (dict_set (txt "release") (PDict [(txt "diagnostic", PStr (exn_str error))])
               (dict_set (txt "state") (PStr (txt "release-unresolved")) current))).

Definition release (path : str) : M S Z :=
  '(current, canonical_path) ← release_record path;
  releasable ← lift (is_releasable (get "state" current));
  if negb releasable then mret EXIT_OK
  else
    record ← released_record current;
    _ ← write_state path record;
    _ ← (if negb (bool_decide (canonical_path = path)) then write_state canonical_path record
         else mret tt);
    mret EXIT_OK.

Definition dispatch (path : str) : M S Z :=
  a ← args;
  if bool_decide (Args.operation a = txt "status") then
    d ← read_state path;
    _ ← print_out (PDict d);
    mret EXIT_OK
  else if bool_decide (Args.operation a = txt "release") then release path
  else
    match Args.job_script a with
    | None => raise (HelperError (txt "--job-script is required"))
    | Some script =>
        data ← lift (read_script script);
        directive ← lift (parse_directive data);
        if bool_decide (Args.operation a = txt "evaluate") then evaluation path directive
        else reservation path directive
    end.

Definition main : M S Z :=
  try_catch caught
    (a ← args;
     _ ← raise_when
           (Z.min (Z.min (Args.job_id a) (Args.canonical_job_id a))
              (Z.min (Args.uid a) (Args.gid a)) <? 0)
           (HelperError (txt "invalid Slurm job identity"));
     _ ← raise_when (Args.max_reservation_attempts a <=? 0)
           (HelperError (txt "reservation attempt limit must be positive"));
     path ← locate_state (bool_decide (Args.operation a = txt "release"));
     dispatch path)
    (fun error =>
       _ ← print_err (txt "qfw-slurm-bb: " ++ exn_str error);
       mret EXIT_OPERATIONAL).
End helper.
