(* ===== verification/DirectiveProps.v ===== *)
(** * The directive, the allocation epoch and the state file name

    What [parse_directive] accepts, stated as a grammar, and the identities the
    helper derives for an allocation. *)

From S2P Require Import Prelude Python Values Effects TextFacts BurstBuffer.
Local Open Scope Z_scope.

(** ** The grammar *)

(** [name=value] *)
Definition render_field (f : str * str) : str := f.1 ++ 61 :: f.2.

(** [#QFW v=1 name=value name=value ...] *)
Definition render_directive (values : list (str * str)) : str :=
  join [32] (txt "#QFW" :: txt "v=1" :: map render_field values).

Definition field_ok (f : str * str) : Prop := f.1 ∈ FIELDS /\ f.2 <> [].

Section grammar.
Context {ucd : UnicodeData}.

(** What the values of a directive satisfy *)
Definition directive_values (values : list (str * str)) : Prop :=
  NoDup (map fst values) /\ Forall field_ok values /\ REQUIRED ⊆ map fst values /\
  (exists w, lookup (txt "workload") values = Some w /\ w ∈ [txt "quantum"; txt "hybrid"]) /\
  (exists q, lookup (txt "qpu") values = Some q /\ NoDup (split_on 44 q) /\
     Forall (fun s => IDENTIFIER s = true) (split_on 44 q)) /\
  forall name v, name ∈ drop 2 FIELDS -> lookup name values = Some v ->
    UINT v = true /\ exists z, int_of_str v = Some z /\ 0 < z.

Lemma field_name_ok n : n ∈ FIELDS -> 61 ∉ n.
Proof.
  intros Hn. assert (forallb (fun s => negb (bool_decide (61 ∈ s))) FIELDS = true) as H by done.
  rewrite forallb_forall in H. specialize (H n (proj1 (list_elem_of_In _ _) Hn)).
  by apply negb_true_iff, bool_decide_eq_false in H.
Qed.

Lemma parse_fields_iff acc tokens values :
  NoDup (map fst acc) ->
  parse_fields acc tokens = Ok values <->
  exists new, values = acc ++ new /\ tokens = map render_field new /\ Forall field_ok new /\
    NoDup (map fst values).
Proof.
  revert acc. induction tokens as [|token tokens IH]; intros acc Hacc; simpl.
  { split.
    - intros [= <-]. exists []. by rewrite app_nil_r.
    - intros (new & -> & Hn & _). destruct new; [by rewrite app_nil_r|done]. }
  destruct (split_at 61 token) as [[n v]|] eqn:Hs.
  - apply split_at_iff in Hs as [-> Hn]. split.
    + destruct (_ || _) eqn:Hg; [done|]. intros Hp.
      apply orb_false_iff in Hg as [[H1 H2]%orb_false_iff H3].
      apply negb_false_iff, bool_decide_eq_true in H1.
      apply bool_decide_eq_false in H2, H3.
      apply IH in Hp as (new & -> & -> & Hf & Hnd).
      2:{ rewrite map_app. apply NoDup_app. split_and!; [done| |apply NoDup_singleton].
          simpl. intros x Hx ->%list_elem_of_singleton. done. }
      exists ((n, v) :: new). rewrite <-app_assoc in *. split_and!; [done..| |done].
      by constructor.
    + intros (new & -> & Ht & Hf & Hnd). destruct new as [|[n' v'] new]; [done|].
      injection Ht as Ht ->. inversion Hf as [|? ? [Hin Hv] Hf']; subst. simpl in Hin, Hv.
      pose proof (proj2 (split_at_iff 61 _ n' v') (conj Ht (field_name_ok _ Hin))) as E.
      rewrite (proj2 (split_at_iff 61 _ n v) (conj eq_refl Hn)) in E. injection E as -> ->.
      rewrite map_app in Hnd. apply NoDup_app in Hnd as (_ & Hdis & Hnd).
      rewrite bool_decide_eq_true_2 by done.
      rewrite bool_decide_eq_false_2 by (intros Hx; apply (Hdis _ Hx); left).
      rewrite bool_decide_eq_false_2 by done. simpl.
      assert (NoDup (map fst (acc ++ (n', v') :: new))) as Hall
        by (rewrite map_app; by apply NoDup_app).
      apply IH.
      * rewrite map_app. apply NoDup_app. split_and!; [done| |apply NoDup_singleton].
        simpl. intros x Hx ->%list_elem_of_singleton. apply (Hdis _ Hx). left.
      * exists new. by rewrite <-app_assoc.
  - split; [done|]. intros (new & _ & Ht & Hf & _). destruct new as [|[n v] new]; [done|].
    injection Ht as -> _. inversion Hf as [|? ? [Hin _] _]; subst.
    assert (split_at 61 (render_field (n, v)) = Some (n, v)) as E
      by (apply split_at_iff; split; [done|by apply field_name_ok]).
    by rewrite E in Hs.
Qed.

Lemma lookup_none name values : lookup name values = None <-> name ∉ map fst values.
Proof.
  induction values as [|[n v] values IH]; simpl; [split; [intros _; apply not_elem_of_nil|done]|].
  rewrite not_elem_of_cons. destruct (decide (n = name)) as [->|Hne].
  - split; [done|]. by intros [? _].
  - rewrite IH. split; [|by intros [_ ?]]. intros ?. by split.
Qed.

Lemma lookup_some name values : name ∈ map fst values -> exists v, lookup name values = Some v.
Proof.
  intros Hin. destruct (lookup name values) as [v|] eqn:E; [by eexists|].
  by apply lookup_none in E.
Qed.

Lemma missing_fields_nil values : missing_fields values = [] <-> REQUIRED ⊆ map fst values.
Proof.
  unfold missing_fields. split.
  - intros H n Hn. destruct (decide (n ∈ map fst values)) as [|Hno]; [done|].
    assert (n ∈ List.filter (fun n => negb (bool_decide (n ∈ map fst values))) REQUIRED) as Hf
      by (apply elem_of_filter_bool; split; [done|by rewrite bool_decide_eq_false_2]).
    rewrite H in Hf. by apply not_elem_of_nil in Hf.
  - intros H. destruct (List.filter _ _) as [|n l] eqn:E; [done|].
    assert (n ∈ n :: l) as Hn by left. rewrite <-E in Hn.
    apply elem_of_filter_bool in Hn as [Hn Hd].
    rewrite bool_decide_eq_true_2 in Hd; [done|]. by apply H.
Qed.

Lemma UINT_digits v : UINT v = true <-> v <> [] /\ Forall (fun c => 48 <= c <= 57) v.
Proof.
  unfold UINT. rewrite andb_true_iff, negb_true_iff, bool_decide_eq_false, forallb_forall.
  rewrite Forall_forall. setoid_rewrite list_elem_of_In. unfold is_digit.
  split; intros [? H]; (split; [done|]); intros c Hc; specialize (H c Hc); lia.
Qed.

Lemma bad_number_false values name :
  bad_number values name = false <->
  forall v, lookup name values = Some v -> UINT v = true /\ exists z, int_of_str v = Some z /\ 0 < z.
Proof.
  unfold bad_number. destruct (lookup name values) as [v|]; [|done]. split.
  - intros [Hu Hz]%orb_false_iff v' [= <-]. apply negb_false_iff in Hu. split; [done|].
    apply UINT_digits in Hu as [Hne Hd]. destruct (int_of_digits v Hne Hd) as (z & Hi & Hpos).
    apply bool_decide_eq_false in Hz. exists z. split; [done|].
    destruct (decide (z = 0)) as [->|]; [done|lia].
  - intros H. destruct (H v eq_refl) as (-> & z & -> & Hpos). simpl.
    apply bool_decide_eq_false. intros [= ->]. lia.
Qed.

Lemma numbers_ok values :
  iterR (fun name => raise_if (bad_number values name)
           (HelperError (txt "invalid QFW numeric field: " ++ name))) (drop 2 FIELDS) = Ok tt <->
  forall name v, name ∈ drop 2 FIELDS -> lookup name values = Some v ->
    UINT v = true /\ exists z, int_of_str v = Some z /\ 0 < z.
Proof.
  rewrite iterR_ok, Forall_forall. setoid_rewrite raise_if_ok.
  setoid_rewrite bad_number_false. naive_solver.
Qed.

Lemma services_ok q :
  existsb (fun s => negb (IDENTIFIER s)) (split_on 44 q) = false <->
  Forall (fun s => IDENTIFIER s = true) (split_on 44 q).
Proof.
  rewrite existsb_false_elem, Forall_forall. by setoid_rewrite negb_false_iff.
Qed.

Lemma split_on_nil sep s : split_on sep s <> [].
Proof. destruct s as [|c s]; simpl; [done|]. by repeat case_match. Qed.

(** The checks on the parsed values *)
Definition check_values (values : list (str * str)) : result (list (str * str)) :=
  _ ← raise_if (negb (bool_decide (missing_fields values = [])))
        (HelperError (txt "missing QFW fields: "
           ++ join (txt ",") (sorted_str (missing_fields values))));
  workload ← item values "workload";
  _ ← raise_if (negb (bool_decide (workload ∈ [txt "quantum"; txt "hybrid"])))
        (HelperError (txt "invalid QFW workload"));
  qpu ← item values "qpu";
  let services := split_on 44 qpu in
  _ ← raise_if (bool_decide (services = []) || negb (bool_decide (NoDup services)))
        (HelperError (txt "QPM service list is empty or contains duplicates"));
  _ ← raise_if (existsb (fun s => negb (IDENTIFIER s)) services)
        (HelperError (txt "invalid QPM service identifier"));
  _ ← iterR (fun name => raise_if (bad_number values name)
               (HelperError (txt "invalid QFW numeric field: " ++ name))) (drop 2 FIELDS);
  Ok values.

Lemma parse_directive_line data line :
  qfw_lines data = [line] ->
  parse_directive data =
    (_ ← raise_if (MAX_DIRECTIVE <? Z.of_nat (length line))
           (HelperError (txt "QFW directive exceeds 2048 bytes"));
     _ ← raise_if (negb (bool_decide (take 2 (words line) = [txt "#QFW"; txt "v=1"])))
           (HelperError (txt "unsupported QFW directive version"));
     values ← parse_fields [] (drop 2 (words line)); check_values values).
Proof. unfold parse_directive. by intros ->. Qed.

Lemma check_values_iff values r :
  Forall field_ok values -> NoDup (map fst values) ->
  check_values values = Ok r <-> r = values /\ directive_values values.
Proof.
  intros Hf Hnd. unfold check_values, item, directive_values. split.
  - intros H. inv_ok. apply negb_false_iff, bool_decide_eq_true in E.
    apply negb_false_iff, bool_decide_eq_true in E1. apply orb_false_iff in E3 as [_ E3].
    apply negb_false_iff, bool_decide_eq_true in E3.
    destruct (lookup (txt "workload") r) as [w|] eqn:Hw; [|done]. injection E0 as ->.
    destruct (lookup (txt "qpu") r) as [q|] eqn:Hq; [|done]. injection E2 as ->.
    apply missing_fields_nil in E. apply services_ok in E4.
    destruct a5. pose proof (proj1 (numbers_ok r) E5) as Hn.
    split_and!; [done..|by eexists|by eexists|exact Hn].
  - intros (Hr & _ & _ & Hm & (w & Hw & Hwk) & (q & Hq & Hs & Hi) & Hn).
    subst r. rewrite raise_if_bind
      by (by rewrite bool_decide_eq_true_2 by (by apply missing_fields_nil)).
    rewrite Hw. cbn [or_raise]. rewrite ok_bind.
    rewrite raise_if_bind by (by rewrite bool_decide_eq_true_2).
    rewrite Hq. cbn [or_raise]. rewrite ok_bind.
    rewrite raise_if_bind by (rewrite bool_decide_eq_false_2 by apply split_on_nil;
      by rewrite bool_decide_eq_true_2).
    rewrite raise_if_bind by (by apply services_ok).
    by rewrite (proj2 (numbers_ok values)).
Qed.
Lemma parse_directive_spec data values :
  parse_directive data = Ok values <->
  exists line, qfw_lines data = [line] /\ Z.of_nat (length line) <= MAX_DIRECTIVE /\
    words line = txt "#QFW" :: txt "v=1" :: map render_field values /\
    directive_values values.
Proof.
  destruct (qfw_lines data) as [|line [|line' rest]] eqn:Hlines.
  1,3: unfold parse_directive; rewrite Hlines; split; [done|]; by intros (? & ? & _).
  rewrite (parse_directive_line _ _ Hlines). split.
  - intros H. inv_ok. apply negb_false_iff, bool_decide_eq_true in E0.
    apply Z.ltb_ge in E.
    apply parse_fields_iff in E1 as (new & Hnew & Ht & Hf & Hnd); [|constructor].
    simpl in Hnew. subst a1. apply check_values_iff in H as [-> Hv]; [|done..].
    exists line. split_and!; [done..| |done].
    by rewrite <-(take_drop 2 (words line)), E0, Ht.
  - intros (l & [= <-] & Hlen & Hw & Hv). rewrite Hw.
    rewrite raise_if_bind by (by apply Z.ltb_ge).
    rewrite raise_if_bind by (by rewrite bool_decide_eq_true_2).
    change (drop 2 (txt "#QFW" :: txt "v=1" :: map render_field values))
      with (map render_field values).
    pose proof Hv as (Hnd & Hf & _).
    rewrite (proj2 (parse_fields_iff [] (map render_field values) values (NoDup_nil_2)))
      by (by exists values).
    rewrite ok_bind. by apply check_values_iff.
Qed.

(** *** Values have no blanks *)

Lemma lookup_in name v values :
  NoDup (map fst values) -> (name, v) ∈ values -> lookup name values = Some v.
Proof.
  induction values as [|[n x] values IH]; simpl; [by intros _ ?%elem_of_nil|].
  intros [Hn Hnd]%NoDup_cons Hin. apply elem_of_cons in Hin as [[= -> ->]|Hin];
    [by rewrite decide_True|].
  rewrite decide_False; [by apply IH|]. intros ->. destruct Hn.
  by apply (list_elem_of_fmap_2 fst) in Hin.
Qed.

Lemma identifier_plain s : IDENTIFIER s = true -> plain s.
Proof.
  unfold IDENTIFIER. intros [_ H]%andb_true_iff. apply Forall_forall. intros c Hc.
  rewrite forallb_forall in H. specialize (H c (proj1 (list_elem_of_In _ _) Hc)).
  unfold is_alpha, is_digit in H. rewrite !orb_true_iff, !andb_true_iff in H.
  destruct H as [H|H]; [lia|]. apply bool_decide_eq_true in H.
  rewrite !elem_of_cons, elem_of_nil in H. lia.
Qed.

Lemma name_plain n : n ∈ FIELDS -> plain n.
Proof.
  intros Hn. assert (Forall plain FIELDS) as H.
  { repeat (apply Forall_cons; split; [apply identifier_plain; reflexivity|]). by constructor. }
  rewrite Forall_forall in H. by apply H.
Qed.

Lemma value_plain values f : directive_values values -> f ∈ values -> plain f.2.
Proof.
  intros (Hnd & Hf & _ & (w & Hw & Hk) & (q & Hq & _ & Hi) & Hn) Hin. destruct f as [n v].
  pose proof (lookup_in _ _ _ Hnd Hin) as Hl. rewrite Forall_forall in Hf.
  destruct (Hf _ Hin) as [Hname _]. simpl in *.
  assert (n = txt "qpu" \/ n = txt "workload" \/ n ∈ drop 2 FIELDS) as [->|[->|Hnum]].
  { unfold FIELDS in Hname. simpl in Hname. apply elem_of_cons in Hname as [->|Hname]; [by left|].
    apply elem_of_cons in Hname as [->|Hname]; [by right; left|]. by right; right. }
  - rewrite Hq in Hl. injection Hl as <-. apply Forall_forall. intros c Hc.
    destruct (split_on_chars 44 q c Hc) as [->|(part & Hp & Hcp)]; [lia|].
    rewrite Forall_forall in Hi. pose proof (identifier_plain _ (Hi _ Hp)) as Hpl.
    exact (proj1 (Forall_forall _ _) Hpl c Hcp).
  - rewrite Hw in Hl. injection Hl as <-.
    apply elem_of_cons in Hk as [->|Hk]; [by apply identifier_plain|].
    apply list_elem_of_singleton in Hk as ->. by apply identifier_plain.
  - destruct (Hn n v Hnum Hl) as [Hu _]. apply UINT_digits in Hu as [_ Hd].
    eapply Forall_impl; [exact Hd|]. simpl. lia.
Qed.

Lemma render_words values :
  directive_values values ->
  Forall (fun w => w <> [] /\ plain w) (txt "#QFW" :: txt "v=1" :: map render_field values).
Proof.
  intros Hv. constructor; [split; [done|]; repeat constructor; done|].
  constructor; [split; [done|]; repeat constructor; done|].
  apply Forall_fmap, Forall_forall. intros f Hf. simpl. split.
  - unfold render_field. by destruct f.1.
  - unfold render_field. apply Forall_app. split.
    + apply name_plain. destruct Hv as (_ & Hok & _). rewrite Forall_forall in Hok. by apply Hok.
    + constructor; [lia|]. by eapply value_plain.
Qed.

(** Any other line of a script *)
Definition other_line (s : str) : Prop :=
  no_break s /\ startswith (txt "#QFW ") (strip s) = false.

Lemma qfw_lines_unlines l :
  Forall no_break l ->
  qfw_lines (unlines l) = List.filter (startswith (txt "#QFW ")) (map strip l).
Proof.
  intros Hl. unfold qfw_lines, nonblank_lines. rewrite splitlines_unlines by done.
  induction (map strip l) as [|s ls IH]; [done|]. simpl.
  destruct (decide (s = [])) as [->|Hne].
  - rewrite bool_decide_eq_true_2 by done. exact IH.
  - rewrite bool_decide_eq_false_2 by done. simpl. destruct (startswith _ s); [|done].
    by rewrite IH.
Qed.

Lemma other_lines_filtered l :
  Forall other_line l -> List.filter (startswith (txt "#QFW ")) (map strip l) = [].
Proof. induction 1 as [|s l [_ Hs] _ IH]; [done|]. simpl. by rewrite Hs. Qed.

Lemma qfw_lines_script before after values :
  Forall other_line before -> Forall other_line after -> directive_values values ->
  qfw_lines (unlines (before ++ render_directive values :: after)) = [render_directive values].
Proof.
  intros Hb Ha Hv. pose proof (render_words _ Hv) as Hw.
  assert (Forall plain (txt "#QFW" :: txt "v=1" :: map render_field values)) as Hp
    by (eapply Forall_impl; [exact Hw|]; by intros ? [_ ?]).
  assert (strip (render_directive values) = render_directive values) as Hstrip.
  { apply strip_id.
    - intros c t Ht. unfold render_directive in Ht. injection Ht as <- _. by apply plain_space.
    - intros c t Ht. apply plain_space. by eapply join_last. }
  rewrite qfw_lines_unlines.
  - rewrite map_app, List.filter_app, (other_lines_filtered before) by done. simpl.
    rewrite Hstrip, (other_lines_filtered after) by done.
    replace (startswith _ _) with true; [done|]. symmetry. by apply bool_decide_eq_true_2.
  - apply Forall_app. split; [|constructor].
    + eapply Forall_impl; [exact Hb|]. by intros ? [? _].
    + eapply Forall_impl; [by apply join_chars|]. simpl. apply plain_break.
    + eapply Forall_impl; [exact Ha|]. by intros ? [? _].
Qed.
End grammar.

(** ** Properties *)

(** C33 The directive parser accepts exactly the grammar: a script with one QFW
    line, of at most 2048 characters, that reads [#QFW v=1] and then one
    [name=value] per value, in order; where the names are distinct known
    fields with every required one, the workload is quantum or hybrid, the
    services are distinct identifiers, and every numeric field is a positive
    decimal number. *)
Theorem parse_directive_iff {ucd : UnicodeData} data values :
  parse_directive data = Ok values <->
  exists line, qfw_lines data = [line] /\ Z.of_nat (length line) <= MAX_DIRECTIVE /\
    words line = txt "#QFW" :: txt "v=1" :: map render_field values /\
    directive_values values.
Proof. apply parse_directive_spec. Qed.

(** C34 Every directive comes back: valid values rendered on one line of at most
    2048 characters, anywhere in a script whose other lines are not QFW lines,
    are what the parser returns. *)
Theorem parse_directive_roundtrip {ucd : UnicodeData} before after values :
  directive_values values -> Forall other_line before -> Forall other_line after ->
  Z.of_nat (length (render_directive values)) <= MAX_DIRECTIVE ->
  parse_directive (unlines (before ++ render_directive values :: after)) = Ok values.
Proof.
  intros Hv Hb Ha Hlen. apply parse_directive_spec. exists (render_directive values).
  split_and!; [by apply qfw_lines_script|done| |done].
  apply words_join. eapply Forall_impl; [by apply render_words|].
  intros w [? ?]. by apply plain_word.
Qed.

(** An allocation epoch fits 64 bits and determines the submission it was
    built from: the helper accepts exactly the positive submit times and the
    restart counts below a million whose epoch is an unsigned 64-bit integer,
    and both are read back from it by division. *)
Theorem allocation_epoch_iff submit_time restart_count epoch :
  allocation_epoch submit_time restart_count = Ok epoch <->
  0 < submit_time /\ epoch < 2 ^ 64 /\
  submit_time = epoch / 1000000 /\ restart_count = epoch mod 1000000.
Proof.
  unfold allocation_epoch. change (Z.shiftl 1 64 - 1) with (2 ^ 64 - 1).
  pose proof (Z.div_mod epoch 1000000 ltac:(lia)) as Hd.
  pose proof (Z.mod_pos_bound epoch 1000000 ltac:(lia)) as Hm.
  destruct (_ || _) eqn:E.
  - split; [done|]. intros (Hs & Hb & -> & ->). exfalso. lia.
  - split.
    + destruct (Z.ltb_spec (2 ^ 64 - 1) (submit_time * 1000000 + restart_count)); [done|].
      intros [= <-]. split_and!; [lia|lia| |].
      * rewrite Z.div_add_l, Z.div_small by lia. lia.
      * rewrite Z.add_comm, Z.mod_add, Z.mod_small by lia. done.
    + intros (Hs & Hb & -> & ->). destruct (Z.ltb_spec (2 ^ 64 - 1) (epoch / 1000000 * 1000000 +
        epoch mod 1000000)) as [Hlt|_]; [lia|]. f_equal. lia.
Qed.

(** A directive with two services *)
Definition sample_values : list (str * str) := [
  (txt "qpu", txt "aer,nwqsim-1"); (txt "workload", txt "hybrid"); (txt "circuits", txt "12");
  (txt "qubits", txt "5"); (txt "depth", txt "40"); (txt "shots", txt "1024");
  (txt "twoq", txt "007")].

Lemma sample_values_ok : directive_values (ucd := ascii_ucd) sample_values.
Proof.
  assert (parse_directive (ucd := ascii_ucd) (render_directive sample_values) = Ok sample_values)
    as H by (vm_compute; reflexivity).
  apply parse_directive_spec in H. by destruct H as (_ & _ & _ & _ & H).
Qed.

Lemma parse_directive_roundtrip_witness :
  let script := unlines [txt "#!/bin/sh"; render_directive sample_values; txt "srun app"] in
  parse_directive (ucd := ascii_ucd) script = Ok sample_values.
Proof.
  apply (parse_directive_roundtrip (ucd := ascii_ucd) [txt "#!/bin/sh"] [txt "srun app"]
    sample_values sample_values_ok).
  - repeat constructor.
  - repeat constructor.
  - vm_compute. discriminate.
Defined.
