(* ===== verification/HelperSample.v ===== *)
(** * Runs of the burst-buffer helper

    A run with its own arguments, and a small site on which sequences of runs
    are evaluated: a driver that answers from a list of outputs. *)

From S2P Require Import Prelude Python Values Effects BurstBuffer.
Local Open Scope Z_scope.

(** A new process: its own arguments, the files of the runs before it *)
Definition started {D} (a : Args.t) (s : state D) : state D :=
  mk_state a (s_files s) (s_writes s) (s_driver s) (s_calls s) (s_stdout s) (s_stderr s).

(** ** A site *)

(** A driver that answers from a list of outputs, and their documents *)
Definition site_document (operation state : string) (reservations : list pyval) : pyval := PDict [
  (txt "operation", PStr (txt operation)); (txt "state", PStr (txt state));
  (txt "request_id", PInt 7); (txt "diagnostic", PStr (txt "queue full"));
  (txt "reservations", PList reservations)].

Definition site_tuple : pyval := PDict [(txt "service_id", PStr (txt "aer")); (txt "id", PInt 41)].

Definition site_documents : list (str * pyval) := [
  (txt "evaluated", site_document "evaluate" "accepted" []);
  (txt "delayed", site_document "reserve" "delayed" []);
  (txt "accepted", site_document "reserve" "accepted" [site_tuple]);
  (txt "released", site_document "release" "released" [])].

(** An output starting with [!] is a driver that timed out. *)
Definition site_env : HelperEnv (list str) := {|
  run_driver _ outputs :=
    match outputs with
    | [33] :: outputs => (Raise (PyError TimeoutExpired (txt "timed out")), outputs)
    | line :: outputs => (Ok (mk_run 0 (line ++ [10]) []), outputs)
    | [] => (Ok (mk_run 1 [] (txt "no gateway")), [])
    end;
  json_loads line := assoc line site_documents;
  read_script _ := Ok (txt
    "#QFW v=1 qpu=aer workload=quantum circuits=1 qubits=2 depth=3 shots=4");
  write_faults _ := None;
|}.

Definition site_args (operation cluster : string) : Args.t :=
  Args.mk (txt operation) (txt "driver") (txt "plugin.conf") (Some (txt "job.sh")) (txt cluster)
    12 12 1000 1000 1700000000 0 3600 0 0 2.

Definition site_start (outputs : list str) : state (list str) :=
  mk_state (site_args "status" "alpha") ∅ 0 outputs [] [] [].

#[local] Existing Instance ascii_ucd.
#[local] Existing Instance site_env.

(** The exit codes of a sequence of runs, and the state they leave *)
Fixpoint site_runs (l : list Args.t) (s : state (list str)) : list (result Z) * state (list str) :=
  match l with
  | [] => ([], s)
  | a :: l =>
      let (r, s') := main (started a s) in
      let (rs, s'') := site_runs l s' in (r :: rs, s'')
  end.
