(* ===== verification/AttemptProps.v ===== *)
(** * The attempt limit of the burst-buffer helper

    Every run of the helper for one allocation, in any order and with any
    answers of the driver: the number of reserve requests the driver has
    decided never exceeds the configured limit. The invariant ties the attempt
    count of the state file to the calls in the ghost log. *)

From S2P Require Import Prelude Python Values Effects Hoare TextFacts BurstBuffer HelperSample.
Local Open Scope Z_scope.

(** A reserve request whose answer the helper records: every well-formed answer
    but an acceptance without reservations *)
Definition decided (c : call) : bool :=
  bool_decide (called c = txt "reserve") &&
  match answer c with
  | Ok (PDict d) =>
      negb (bool_decide (get "state" d = PStr (txt "accepted")) &&
            negb (nonempty_list (get "reservations" d)))
  | _ => false
  end.
Definition decided_calls (l : list call) : Z := Z.of_nat (length (List.filter decided l)).

Lemma decided_calls_app l c :
  decided_calls (l ++ [c]) = decided_calls l + (if decided c then 1 else 0).
Proof.
  unfold decided_calls. rewrite List.filter_app, length_app. simpl.
  destruct (decided c); simpl; lia.
Qed.

Section attempts.
Context {ucd : UnicodeData} {D : Type} {env : HelperEnv D}.
Context (healthy : forall n, write_faults n = None).
Context (C : str) (J N : Z) (HC : IDENTIFIER C = true) (Hauto : C <> txt "auto") (HN : 0 < N).

Local Abbreviation path := (file_name C J).

(** Runs for the allocation: its cluster by name or to be found, and no
    component of a heterogeneous job *)
Definition ours (a : Args.t) : Prop :=
  (Args.cluster a = C \/ Args.cluster a = txt "auto") /\ Args.job_id a = J /\
  Args.canonical_job_id a = J /\ Args.max_reservation_attempts a = N.
Definition located (a : Args.t) : Prop := ours a /\ Args.cluster a = C.

(** A record of the allocation with [n] attempts *)
Definition recorded (n : Z) (d : list (str * pyval)) : Prop :=
  attempts_of d = Ok n /\ assoc (txt "cluster") d = Some (PStr C) /\
  assoc (txt "canonical_job_id") d = Some (PStr (str_of_Z J)).

Definition private_file (d : list (str * pyval)) : file := mk_file 384 (Document (PDict d)).

(** The directory holds at most the file of the allocation, [n] attempts. *)
Definition directory (n : Z) (files : gmap str file) : Prop :=
  (files = ∅ /\ n = 0) \/ exists d, files = {[path := private_file d]} /\ recorded n d.

Definition bounded (n : Z) (s : state D) : Prop :=
  directory n (s_files s) /\ decided_calls (s_calls s) <= n <= N.

(** The invariant between runs, and inside one once the path is known *)
Definition bounded_by_file (s : state D) : Prop := exists n, bounded n s.
Definition inside (s : state D) : Prop := located (s_args s) /\ bounded_by_file s.
Definition inside_with (n : Z) (s : state D) : Prop := located (s_args s) /\ bounded n s.

Lemma directory_read n files :
  directory n files ->
  match read_file (files !! path) with
  | Ok d => recorded n d
  | Raise e => isa_HelperError e = true /\ n = 0
  end.
Proof.
  intros [[-> ->]|(d & -> & Hd)]; [by rewrite lookup_empty|].
  by rewrite lookup_singleton_eq.
Qed.

Lemma directory_nonneg n files : directory n files -> 0 <= n.
Proof.
  intros [[_ ->]|(d & _ & Hn & _)]; [done|]. unfold attempts_of in Hn.
  repeat case_match; try done; injection Hn as <-; lia.
Qed.

Lemma directory_insert n m d files :
  directory n files -> recorded m d -> directory m (<[path := private_file d]> files).
Proof.
  intros Hf Hd. right. exists d. split; [|done].
  destruct Hf as [[-> _]|(d' & -> & _)]; [done|]. apply insert_singleton_eq.
Qed.

(** *** The steps *)

(** The directory of a record with [n] attempts and at most [m] decisions *)
Definition before_write (n m : Z) (s : state D) : Prop :=
  located (s_args s) /\ directory n (s_files s) /\ decided_calls (s_calls s) <= m.

Lemma write_state_hoare n m d :
  recorded m d -> m <= N ->
  hoare (before_write n m) (write_state path d) (fun _ => inside_with m) (fun _ => inside).
Proof.
  intros Hd Hm s r s' (Ha & Hf & Hc) Hr. unfold write_state in Hr. rewrite healthy in Hr.
  injection Hr as <- <-. split; [done|]. split; simpl; [|done].
  by eapply directory_insert.
Qed.

Lemma reservation_attempts_hoare :
  hoare inside (reservation_attempts path) inside_with (fun _ => inside).
Proof.
  intros s r s' [Ha [n [Hf Hc]]] Hr. pose proof (directory_read _ _ Hf) as Hd.
  unfold reservation_attempts, gets, mbind, m_mbind, m_bind in Hr.
  destruct (read_file _) as [d|e].
  - unfold lift in Hr. destruct Hd as [E Hd]. rewrite E in Hr. by injection Hr as <- <-.
  - destruct Hd as [He ->]. rewrite He in Hr. by injection Hr as <- <-.
Qed.

Lemma dict_set_recorded n d key v :
  recorded n d -> key <> txt "reservation_attempts" -> key <> txt "cluster" ->
  key <> txt "canonical_job_id" -> recorded n (dict_set key v d).
Proof.
  intros (Hn & Hc & Hj) H1 H2 H3. unfold recorded, attempts_of in *.
  by rewrite !assoc_dict_set_ne.
Qed.

Lemma base_state_recorded a epoch id diag st n :
  located a -> 0 <= n ->
  recorded n (dict_set (txt "reservation_attempts") (PInt n) (base_state a epoch id diag st)).
Proof.
  intros ((_ & _ & Hj & _) & Hc) Hn. unfold recorded, attempts_of.
  rewrite assoc_dict_set, !assoc_dict_set_ne by done. simpl. rewrite Hc, Hj.
  by replace (n <? 0) with false by lia.
Qed.

Lemma base_state_fresh a epoch id diag st :
  located a -> recorded 0 (base_state a epoch id diag st).
Proof. intros ((_ & _ & Hj & _) & Hc). unfold recorded. simpl. by rewrite Hc, Hj. Qed.

Lemma parse_result_epoch op epoch c d :
  parse_result op epoch c = Ok d -> assoc (txt "allocation_epoch") d = Some (PStr (str_of_Z epoch)).
Proof.
  unfold parse_result. destruct (last _) as [line|]; [|done].
  destruct (json_loads line) as [v|]; [|done]. intros H. inv_ok.
  destruct v; try done. injection H as <-. by rewrite assoc_dict_set.
Qed.

(** A call to the driver changes the log alone. *)
Definition after_call (s : state D) d op (r : result (list (str * pyval))) : state D :=
  mk_state (s_args s) (s_files s) (s_writes s) d (s_calls s ++ [mk_call op (PDict <$> r)])
    (s_stdout s) (s_stderr s).

Lemma invoke_driver_hoare op directive I K :
  (forall s d r, I s -> K r (after_call s d op r)) ->
  hoare I (invoke_driver op directive)
    (fun d s => assoc (txt "allocation_epoch") d <> None /\ K (Ok d) s)
    (fun e s => I s \/ K (Raise e) s).
Proof.
  intros Hlog.
  assert (stable I (driver_command op directive)) as Hc by (unfold driver_command, args; stay).
  eapply (hoare_bind _ _ _ (fun _ => I)).
  - eapply hoare_conseq; [exact Hc|done..|]. by left.
  - intros [command epoch] s r s' Hs Hr. unfold run_logged in Hr.
    destruct (run_driver command (s_driver s)) as [r0 d0].
    set (res := match r0 with Ok c => _ | Raise e => _ end) in Hr.
    injection Hr as <- <-. specialize (Hlog s d0 res Hs).
    destruct res as [d|e] eqn:E; [|by right]. split; [|done].
    destruct r0 as [c|]; [|done]. by rewrite (parse_result_epoch _ _ _ _ E).
Qed.

(** A call that decides nothing *)
Lemma invoke_undecided n op directive :
  op <> txt "reserve" ->
  hoare (inside_with n) (invoke_driver op directive)
    (fun d s => assoc (txt "allocation_epoch") d <> None /\ inside_with n s)
    (fun _ => inside_with n).
Proof.
  intros Hop. eapply hoare_conseq;
    [apply (invoke_driver_hoare op directive (inside_with n) (fun _ => inside_with n))|done|done|
     by intros e s [?|?]].
  intros s d r [Ha [Hf Hc]]. split; [done|]. split; [done|]. simpl.
  rewrite decided_calls_app. unfold decided. simpl.
  by rewrite bool_decide_eq_false_2, Z.add_0_r by done.
Qed.

(** A reserve request: one more decision at most *)
Lemma invoke_reserve n directive :
  n < N ->
  hoare (inside_with n) (invoke_driver (txt "reserve") directive)
    (fun d s => assoc (txt "allocation_epoch") d <> None /\
       before_write n (n + (if decided (mk_call (txt "reserve") (Ok (PDict d))) then 1 else 0)) s)
    (fun _ => inside_with n).
Proof.
  intros Hn.
  set (K := fun (r : result (list (str * pyval))) =>
    before_write n (n + (if decided (mk_call (txt "reserve") (PDict <$> r)) then 1 else 0))).
  eapply hoare_conseq; [apply (invoke_driver_hoare _ directive (inside_with n) K)|done|done|].
  - intros s d r [Ha [Hf Hc]]. split; [done|]. split; [done|]. simpl.
    rewrite decided_calls_app. lia.
  - intros e s [?|(Ha & Hf & Hc)]; [done|]. split; [done|]. split; [done|].
    simpl in Hc. rewrite Z.add_0_r in Hc. unfold decided in Hc. simpl in Hc. lia.
Qed.

(** *** The operations *)

Lemma inside_some {A} (m : M (state D) A) Q E :
  (forall n, hoare (inside_with n) m Q E) -> hoare inside m Q E.
Proof. intros Hm s r s' [Ha [n Hb]] Hr. by apply (Hm n s). Qed.

Lemma inside_with_inside n s : inside_with n s -> inside s.
Proof. intros [? ?]. split; [done|by exists n]. Qed.

Lemma result_state_hoare (I : state D -> Prop) d st :
  (forall s, I s -> located (s_args s)) -> assoc (txt "allocation_epoch") d <> None ->
  hoare I (result_state d st)
    (fun record s => (forall m, 0 <= m ->
       recorded m (dict_set (txt "reservation_attempts") (PInt m) record)) /\ I s)
    (fun _ _ => False).
Proof.
  intros Hl He s r s' Hs Hr. unfold result_state, args, gets, mbind, m_mbind, m_bind in Hr.
  simpl in Hr. destruct (assoc (txt "allocation_epoch") d) as [epoch|]; [|done].
  injection Hr as <- <-. split; [|done]. intros m Hm. by apply base_state_recorded; [apply Hl|].
Qed.

Lemma local_state_hoare n diag st :
  hoare (inside_with n) (local_state diag st)
    (fun record s => ((forall m, 0 <= m ->
       recorded m (dict_set (txt "reservation_attempts") (PInt m) record)) /\ recorded 0 record) /\
       inside_with n s)
    (fun _ => inside_with n).
Proof.
  unfold local_state. eapply hoare_bind.
  { apply (hoare_gets _ _ (fun a s => located a /\ inside_with n s)). by intros s [? ?]. }
  intros a. apply hoare_pure. intros Ha.
  eapply (hoare_bind _ _ _ (fun _ => inside_with n)); [by apply stable_lift|].
  intros epoch. apply hoare_ret. intros s Hs. split; [|done]. split; [|by apply base_state_fresh].
  intros m Hm. by apply base_state_recorded.
Qed.

Lemma write_recorded n d :
  recorded n d -> hoare (inside_with n) (write_state path d) (fun _ => inside) (fun _ => inside).
Proof.
  intros Hd s r s' [Ha [Hf Hc]] Hr.
  pose proof (write_state_hoare n n d Hd ltac:(lia) s r s'
    (conj Ha (conj Hf (proj1 Hc))) Hr) as Hw.
  destruct r; [by apply inside_with_inside in Hw|done].
Qed.

Lemma write_attempts n record :
  (forall m, 0 <= m -> recorded m (dict_set (txt "reservation_attempts") (PInt m) record)) ->
  hoare (inside_with n)
    (write_state path (dict_set (txt "reservation_attempts") (PInt n) record))
    (fun _ => inside) (fun _ => inside).
Proof.
  intros Hrec s r s' Hs Hr.
  assert (0 <= n) as Hn by (by eapply directory_nonneg; apply Hs).
  exact (write_recorded n _ (Hrec n Hn) s r s' Hs Hr).
Qed.

Lemma stable_decision_exit st diag what : stable inside (decision_exit st diag what).
Proof. unfold decision_exit. stay. Qed.

Lemma evaluation_inside directive : stable inside (evaluation path directive).
Proof.
  apply inside_some. intros n. unfold evaluation. eapply hoare_bind.
  { eapply hoare_conseq; [by apply (invoke_undecided n)|done| |intros ? ?; apply inside_with_inside].
    intros d s H. exact H. }
  intros d. apply hoare_pure. intros He. cbv zeta. eapply hoare_bind.
  { eapply hoare_conseq; [apply (result_state_hoare (inside_with n) d); [by intros ? [? _]|done]
      |done|intros record s H; exact H|done]. }
  intros record. apply hoare_pure. intros Hrec.
  eapply (hoare_bind _ _ _ inside_with).
  { eapply hoare_conseq; [apply reservation_attempts_hoare|apply inside_with_inside|done|done]. }
  intros m. eapply (hoare_bind _ _ _ (fun _ => inside)); [by apply write_attempts|].
  intros []. case_match; [apply stable_mret|apply stable_decision_exit].
Qed.

Lemma write_component_inside record : stable inside (write_component record).
Proof.
  unfold write_component, args, gets, mbind, m_mbind, m_bind. intros s r s' Hs Hr.
  pose proof Hs as [((_ & Hj & Hk & _) & _) _]. simpl in Hr.
  rewrite Hj, Hk, Z.eqb_refl in Hr. by injection Hr as <- <-.
Qed.

(** What a reserve does with the answer of the driver *)
Definition after_reserve (n : Z) (d record : list (str * pyval)) : M (state D) Z :=
  let record := dict_set (txt "reservation_attempts") (PInt (n + 1)) record in
  if bool_decide (get "state" d = PStr (txt "accepted")) then
    if negb (nonempty_list (get "reservations" d)) then
      raise (HelperError (txt "accepted reserve result has no reservations"))
    else
      let record := dict_set (txt "reservations") (get "reservations" d) record in
      _ ← write_state path record;
      _ ← write_component record;
      mret EXIT_OK
  else
    _ ← write_state path record;
    decision_exit (get "state" d) (get "diagnostic" d) "QPM reservation failed".

Lemma after_reserve_inside n d record :
  0 <= n < N -> recorded (n + 1) (dict_set (txt "reservation_attempts") (PInt (n + 1)) record) ->
  hoare (before_write n (n + (if decided (mk_call (txt "reserve") (Ok (PDict d))) then 1 else 0)))
    (after_reserve n d record) (fun _ => inside) (fun _ => inside).
Proof.
  intros Hn Hrec. unfold after_reserve, decided. simpl. cbv zeta.
  case_bool_decide as Hst; simpl; [destruct (nonempty_list _) eqn:He; simpl|].
  - eapply (hoare_bind _ _ _ (fun _ => inside)).
    + eapply hoare_conseq; [apply (write_state_hoare n (n + 1)); [|lia]|done| |done].
      * by apply dict_set_recorded.
      * intros ? s. apply inside_with_inside.
    + intros []. apply stable_bind; [apply write_component_inside|intros []; apply stable_mret].
  - apply hoare_raise. intros s (Ha & Hf & Hc). split; [done|]. exists n.
    split; [done|]. lia.
  - eapply (hoare_bind _ _ _ (fun _ => inside)); [|intros []; apply stable_decision_exit].
    eapply hoare_conseq; [by apply (write_state_hoare n (n + 1)); [|lia]|done| |done].
    intros ? s. apply inside_with_inside.
Qed.

Lemma reservation_inside directive : stable inside (reservation path directive).
Proof.
  unfold reservation. eapply hoare_bind.
  { apply (hoare_gets _ _ (fun a s => located a /\ inside s)). by intros s [? ?]. }
  intros a. apply hoare_pure. intros Ha.
  eapply (hoare_bind _ _ _ inside_with); [apply reservation_attempts_hoare|].
  intros n. destruct Ha as ((_ & _ & _ & Hmax) & _). rewrite Hmax.
  destruct (Z.leb_spec N n) as [_|Hn].
  - eapply hoare_bind.
    { eapply hoare_conseq; [apply local_state_hoare|done|intros record s H; exact H|
        intros ? ?; apply inside_with_inside]. }
    intros record. apply hoare_pure. intros [Hrec _].
    eapply (hoare_bind _ _ _ (fun _ => inside)); [by apply write_attempts|].
    intros []. apply stable_mret.
  - eapply hoare_bind.
    { eapply hoare_conseq; [by apply (invoke_reserve n)|done|intros d s H; exact H|
        intros ? ?; apply inside_with_inside]. }
    intros d. apply hoare_pure. intros He. cbv zeta. eapply hoare_bind.
    { eapply hoare_conseq; [apply (result_state_hoare (before_write n (n +
          (if decided (mk_call (txt "reserve") (Ok (PDict d))) then 1 else 0))) d); [by intros ? [? _]|done]
        |intros s H; exact H|intros record s H; exact H|done]. }
    intros record. apply hoare_pure. intros Hrec s r s' Hs Hr.
    assert (0 <= n) as Hpos by (by eapply directory_nonneg; apply Hs).
    apply (after_reserve_inside n d record ltac:(lia) (Hrec (n + 1) ltac:(lia)) s r s' Hs Hr).
Qed.

Lemma state_path_ours : state_path C J = Ok path.
Proof. unfold state_path. by rewrite HC. Qed.

Lemma adopt_hoare n :
  hoare (fun s => ours (s_args s) /\ bounded n s)
    (adopt_allocation (PStr C) (PStr (str_of_Z J))) (fun _ => inside_with n) (fun _ _ => False).
Proof.
  intros s r s' [(_ & Hj & _ & Hmax) Hb] Hr.
  unfold adopt_allocation, set_args, modify, lift, mbind, m_mbind, m_bind in Hr. simpl in Hr.
  rewrite int_of_str_of_Z in Hr. injection Hr as <- <-. simpl. split; [|done].
  split; [|done]. split_and!; [by left|done..].
Qed.

Lemma path_of_args_hoare n :
  hoare (inside_with n) path_of_args (fun p s => p = path /\ inside_with n s) (fun _ _ => False).
Proof.
  intros s r s' [Ha Hb] Hr. unfold path_of_args, args, gets, lift, mbind, m_mbind, m_bind in Hr.
  pose proof Ha as ((_ & _ & Hk & _) & Hc). rewrite Hc, Hk, state_path_ours in Hr.
  injection Hr as <- <-. done.
Qed.

Lemma release_record_hoare n :
  hoare (inside_with n) (release_record path)
    (fun rc s => (recorded n rc.1 /\ rc.2 = path) /\ inside_with n s) (fun _ => inside_with n).
Proof.
  intros s r s' Hs Hr. pose proof Hs as [Ha [Hf Hc]]. pose proof (directory_read _ _ Hf) as Hd.
  unfold release_record in Hr. unfold gets, mbind at 1, m_mbind at 1, m_bind at 1 in Hr.
  destruct (read_file _) as [d|e].
  - unfold args, gets, mbind at 1, m_mbind at 1, m_bind at 1 in Hr.
    pose proof Hd as (_ & Hcl & Hid). rewrite Hcl, Hid in Hr. cbn [default] in Hr.
    revert s r s' Hs Hr Ha Hf Hc. intros s r s' Hs Hr _ _ _.
    revert s r s' Hs Hr. apply (hoare_bind _ _ _ (fun _ => inside_with n)).
    { eapply hoare_conseq; [apply adopt_hoare|intros s [[? _] ?]; by split|done|done]. }
    intros []. eapply hoare_bind; [eapply hoare_conseq; [apply path_of_args_hoare|done|
      intros p s H; exact H|done]|].
    intros p. apply hoare_pure. intros ->. apply hoare_ret. done.
  - destruct Hd as [He ->]. rewrite He in Hr.
    revert s r s' Hs Hr Ha Hf Hc. intros s r s' Hs Hr _ _ _. revert s r s' Hs Hr.
    eapply hoare_bind; [eapply hoare_conseq; [apply local_state_hoare|done|
      intros rec s H; exact H|done]|].
    intros rec. apply hoare_pure. intros [_ Hrec]. by apply hoare_ret.
Qed.

Lemma released_record_hoare n d :
  recorded n d ->
  hoare (inside_with n) (released_record d) (fun rec s => recorded n rec /\ inside_with n s)
    (fun _ => inside_with n).
Proof.
  intros Hd. eapply (hoare_try_catch _ _ _ _ _ _ (fun _ => inside_with n)); [| |done].
  - eapply hoare_bind; [eapply hoare_conseq; [by apply invoke_undecided|done|
      intros res s H; exact H|done]|].
    intros res. apply hoare_pure. intros _. apply hoare_ret. intros s Hs. split; [|done].
    by repeat apply dict_set_recorded.
  - intros e _. apply hoare_ret. intros s Hs. split; [|done]. by repeat apply dict_set_recorded.
Qed.

Lemma release_inside : stable inside (release path).
Proof.
  apply inside_some. intros n. unfold release. eapply hoare_bind.
  { eapply hoare_conseq; [apply release_record_hoare|done|intros rc s H; exact H|
      intros ? ?; apply inside_with_inside]. }
  intros [d cp]. apply hoare_pure. intros [Hd Hcp]. simpl in Hd, Hcp. subst cp.
  eapply (hoare_bind _ _ _ (fun _ => inside_with n)).
  { apply hoare_lift; [done|]. intros s e Hs _. by eapply inside_with_inside. }
  intros b. destruct b; simpl; [|apply hoare_ret; apply inside_with_inside].
  eapply hoare_bind.
  { eapply hoare_conseq; [by apply released_record_hoare|done|intros rec s H; exact H|
      intros ? ?; apply inside_with_inside]. }
  intros rec. apply hoare_pure. intros Hrec.
  eapply (hoare_bind _ _ _ (fun _ => inside)); [by apply write_recorded|].
  intros []. rewrite bool_decide_eq_true_2 by done. simpl.
  apply stable_bind; [apply stable_mret|intros []; apply stable_mret].
Qed.

Lemma dispatch_inside : stable inside (dispatch path).
Proof.
  unfold dispatch. apply stable_bind; [by unfold args; stay|]. intros a.
  case_match; [|case_match; [apply release_inside|]].
  - apply stable_bind; [|intros d].
    + unfold read_state. stay.
    + apply stable_bind; [|intros []; apply stable_mret].
      apply hoare_modify. by intros s.
  - case_match; [|apply stable_raise].
    do 2 (apply stable_bind; [apply stable_lift|intros ?]).
    case_match; [apply evaluation_inside|apply reservation_inside].
Qed.

Lemma endswith_app p q : endswith p (q ++ p) = true.
Proof.
  unfold endswith, startswith. apply bool_decide_eq_true_2.
  by rewrite reverse_app, take_app_length.
Qed.

Lemma endswith_file : endswith (txt "-" ++ str_of_Z J ++ txt ".json") path = true.
Proof. apply endswith_app. Qed.

Definition between (s : state D) : Prop := ours (s_args s) /\ bounded_by_file s.

Lemma between_inside s : inside s -> between s.
Proof. intros [[Ha _] ?]. by split. Qed.

Lemma located_path n s :
  Args.cluster (s_args s) = C -> ours (s_args s) -> bounded n s ->
  hoare (fun s' => s' = s) path_of_args (fun p s' => p = path /\ inside s') (fun _ => between).
Proof.
  intros Hc Ha Hb. eapply hoare_conseq; [apply (path_of_args_hoare n)|by intros ? ->| |done].
  intros p s' [-> Hs]. split; [done|]. by apply inside_with_inside in Hs.
Qed.

Lemma locate_state_hoare b :
  hoare between (locate_state b) (fun p s => p = path /\ inside s) (fun _ => between).
Proof.
  intros s r s' [Ha [n Hb]] Hr. unfold locate_state in Hr.
  unfold args, gets, mbind at 1, m_mbind at 1, m_bind at 1 in Hr.
  destruct (proj1 Ha) as [Hc|Hc]; rewrite Hc in Hr.
  { rewrite bool_decide_eq_false_2 in Hr by done. simpl in Hr.
    by apply (located_path n s Hc Ha Hb s r s'). }
  rewrite bool_decide_eq_true_2 in Hr by done. cbn [negb] in Hr.
  unfold glob, gets, mbind at 1, m_mbind at 1, m_bind at 1 in Hr.
  pose proof Ha as (_ & Hj & _). rewrite Hj in Hr.
  pose proof Hb as [[[Hf _]|(d & Hf & Hd)] _]; rewrite Hf in Hr.
  - rewrite map_to_list_empty in Hr. simpl in Hr. injection Hr as <- <-. by split; [|exists n].
  - rewrite map_to_list_singleton in Hr. simpl in Hr.
    replace (endswith _ _) with true in Hr by (symmetry; apply endswith_file).
    assert (read_state path s = (Ok d, s)) as Hread.
    { unfold read_state, gets, lift, mbind, m_mbind, m_bind.
      by rewrite Hf, lookup_singleton_eq. }
    rewrite (m_bind_ok _ _ _ _ _ Hread) in Hr.
    pose proof Hd as (_ & Hcl & Hid). rewrite Hcl, Hid in Hr. cbn [default] in Hr.
    revert Hr. refine (hoare_bind (fun s => ours (s_args s) /\ bounded n s) _ _
      (fun _ => inside_with n) (fun p s => p = path /\ inside s) (fun _ => between) _ _
      s r s' (conj Ha Hb)).
    + eapply hoare_conseq; [apply (adopt_hoare n)|done|by intros|by intros].
    + intros []. eapply hoare_conseq; [apply (path_of_args_hoare n)|done| |by intros].
      intros p s2 [-> Hs2]. split; [done|]. by eapply inside_with_inside.
Qed.

Lemma main_between : hoare between main (fun _ => bounded_by_file) (fun _ => bounded_by_file).
Proof.
  assert (forall s, between s -> bounded_by_file s) as Hout by (by intros s [? ?]).
  unfold main. apply (hoare_try_catch _ _ _ _ _ _ (fun _ => between)); [| |by intros; apply Hout].
  - eapply (hoare_bind _ _ _ (fun _ => between)); [by apply hoare_gets|]. intros a.
    do 2 (eapply (hoare_bind _ _ _ (fun _ => between)); [apply stable_raise_when|intros []]).
    eapply hoare_bind; [apply locate_state_hoare|]. intros p. apply hoare_pure. intros ->.
    eapply hoare_conseq; [apply dispatch_inside|done| |].
    + intros z s Hs. by apply Hout, between_inside.
    + intros e s Hs. by apply between_inside.
  - intros e _. apply (hoare_bind _ _ _ (fun _ => between)); [by apply hoare_modify|].
    intros []. by apply hoare_ret.
Qed.

(** Runs of the helper, one after the other, from an empty state directory *)
Inductive runs : state D -> Prop :=
| runs_none s : s_files s = ∅ -> s_calls s = [] -> runs s
| runs_again a s : runs s -> ours a -> runs (main (started a s)).2.

Lemma runs_bounded s : runs s -> bounded_by_file s.
Proof.
  induction 1 as [s Hf Hc|a s _ [n Hb] Ha].
  - exists 0. split; [by left|]. rewrite Hc. unfold decided_calls. simpl. lia.
  - pose proof (main_between (started a s) (main (started a s)).1 (main (started a s)).2) as H.
    destruct (main (started a s)) as [[z|e] s'] eqn:E; simpl in *;
      apply H; try done; by split; [|exists n].
Qed.
End attempts.

(** ** Properties *)

(** C31 The attempt limit holds over the whole life of an allocation: whatever
    operations the helper runs for it, in whatever order, with whatever answers
    of the driver, at most [N] reserve requests have been answered with a
    decision, [N] being the configured limit; as long as the writes of the
    state file succeed and no run is for a component of a heterogeneous job. *)
Theorem reserve_attempts_bounded {ucd : UnicodeData} {D} {env : HelperEnv D} C J N (s : state D) :
  (forall n, write_faults n = None) -> IDENTIFIER C = true -> C <> txt "auto" ->
  0 < N -> runs C J N s -> decided_calls (s_calls s) <= N.
Proof.
  intros Hok HC Hauto HN Hs. destruct (runs_bounded Hok C J N HC Hauto HN s Hs) as (n & _ & H).
  lia.
Qed.

#[local] Existing Instance ascii_ucd.
#[local] Existing Instance site_env.

Lemma site_runs_runs l s C J N :
  runs C J N s -> Forall (ours C J N) l -> runs C J N (site_runs l s).2.
Proof.
  intros Hs Hl. revert s Hs. induction Hl as [|a l Ha _ IH]; intros s Hs; [done|]. simpl.
  pose proof (runs_again C J N a s Hs Ha) as Hr. destruct (main (started a s)) as [r s'].
  specialize (IH s' Hr). by destruct (site_runs l s').
Qed.

(** Evaluated once, delayed twice, then rejected without asking again *)
Definition site_session : list Args.t :=
  [site_args "evaluate" "alpha"; site_args "reserve" "alpha"; site_args "reserve" "auto";
   site_args "reserve" "alpha"; site_args "release" "auto"].
Definition site_outputs : list str := map txt ["evaluated"; "delayed"; "delayed"; "accepted"]%string.

Example site_session_codes :
  (site_runs site_session (site_start site_outputs)).1 =
    [Ok EXIT_OK; Ok EXIT_DELAYED; Ok EXIT_DELAYED; Ok EXIT_REJECTED; Ok EXIT_OK].
Proof. vm_compute. reflexivity. Qed.

Lemma reserve_attempts_bounded_witness :
  let s := (site_runs site_session (site_start site_outputs)).2 in
  runs (txt "alpha") 12 2 s /\ decided_calls (s_calls s) <= 2.
Proof.
  intros s. assert (runs (txt "alpha") 12 2 s) as Hs.
  { apply site_runs_runs; [by apply runs_none|].
    repeat (apply Forall_cons; split; [unfold ours; simpl; by auto|]). constructor. }
  split; [exact Hs|].
  apply (reserve_attempts_bounded (txt "alpha") 12 2 s); done.
Defined.
