(* ===== verification/HelperReleaseProps.v ===== *)
(** * Releases and interrupted reserves of the burst-buffer helper

    When a teardown asks the driver and what it leaves in the state file, and
    what happens to a reserve whose driver was interrupted. *)

From S2P Require Import Prelude Python Values Effects TextFacts BurstBuffer HelperSample.
Local Open Scope Z_scope.

Section release.
Context {ucd : UnicodeData} {D : Type} {env : HelperEnv D}.
Context (healthy : forall n, write_faults n = None).
Implicit Types (s : state D).

(** A run named by cluster and job, with arguments the helper accepts *)
Definition named (operation : string) (a : Args.t) : Prop :=
  Args.operation a = txt operation /\ IDENTIFIER (Args.cluster a) = true /\
  Args.cluster a <> txt "auto" /\ 0 <= Args.job_id a /\ 0 <= Args.canonical_job_id a /\
  0 <= Args.uid a /\ 0 <= Args.gid a /\ 0 < Args.max_reservation_attempts a /\
  exists epoch, allocation_epoch (Args.submit_time a) (Args.restart_count a) = Ok epoch.

Definition path_of (a : Args.t) : str := file_name (Args.cluster a) (Args.canonical_job_id a).

(** The record names the allocation of the arguments. *)
Definition belongs (a : Args.t) (d : list (str * pyval)) : Prop :=
  assoc (txt "cluster") d = Some (PStr (Args.cluster a)) /\
  assoc (txt "canonical_job_id") d = Some (PStr (str_of_Z (Args.canonical_job_id a))).

Definition state_read (s : state D) : result (list (str * pyval)) :=
  read_file (s_files s !! path_of (s_args s)).

(** The record a release works on: the stored one, or a recovery record when
    there is none the helper can use *)
Definition recovery_record (a : Args.t) (epoch : Z) : list (str * pyval) :=
  base_state a (PStr (str_of_Z epoch)) (PInt 0)
    (PStr (txt "local reservation state was unavailable")) (txt "release-recovery").

(** The states of a reservation that may still be held: it was accepted, a
    release of it was not confirmed, or the record stands for a lost one *)
Definition may_be_held (st : pyval) : Prop :=
  st = PStr (txt "reservation-accepted") \/ st = PStr (txt "release-unresolved") \/
  st = PStr (txt "release-recovery").

(** A state that can be looked up in a set *)
Definition hashable (st : pyval) : Prop :=
  match st with PList _ | PDict _ => False | _ => True end.

Definition to_release s (current : list (str * pyval)) : Prop :=
  (exists m epoch, state_read s = Raise (HelperError m) /\
     allocation_epoch (Args.submit_time (s_args s)) (Args.restart_count (s_args s)) = Ok epoch /\
     current = recovery_record (s_args s) epoch) \/
  (state_read s = Ok current /\ belongs (s_args s) current /\
   may_be_held (get "state" current)).

Lemma held_releasable st : may_be_held st -> is_releasable st = Ok true.
Proof. by intros [->|[->| ->]]. Qed.

Lemma not_releasable st : hashable st -> ~ may_be_held st -> is_releasable st = Ok false.
Proof.
  intros Hh Hn. unfold is_releasable. destruct st; try done; f_equal; apply bool_decide_eq_false;
    unfold releasable_states; simpl; rewrite !elem_of_cons; intros H; apply Hn; unfold may_be_held;
    destruct H as [?|[?|[?|[]%elem_of_nil]]]; auto.
Qed.

(** The record after the answer of the driver *)
Definition with_answer (r : result (list (str * pyval))) (current : list (str * pyval)) :=
  match r with
  | Ok d =>
      dict_set (txt "state")
        (PStr (if bool_decide (get "state" d = PStr (txt "released"))
               then txt "released" else txt "release-unresolved"))
        (dict_set (txt "release") (PDict d) current)
  | Raise e =>
      dict_set (txt "release") (PDict [(txt "diagnostic", PStr (exn_str e))])
        (dict_set (txt "state") (PStr (txt "release-unresolved")) current)
  end.

Lemma adopt_same s d :
  belongs (s_args s) d ->
  adopt_allocation (default (PStr (Args.cluster (s_args s))) (assoc (txt "cluster") d))
    (default (PInt (Args.canonical_job_id (s_args s))) (assoc (txt "canonical_job_id") d)) s
  = (Ok tt, s).
Proof.
  intros [Hc Hk]. rewrite Hc, Hk. unfold adopt_allocation, set_args, modify, lift, mbind, m_mbind, m_bind.
  simpl. rewrite int_of_str_of_Z. by destruct s as [[] ? ? ? ? ? ?].
Qed.

Lemma path_of_args_run s :
  IDENTIFIER (Args.cluster (s_args s)) = true -> path_of_args s = (Ok (path_of (s_args s)), s).
Proof.
  intros H. unfold path_of_args, args, gets, lift, mbind, m_mbind, m_bind, state_path. by rewrite H.
Qed.

Lemma release_record_stored s d :
  IDENTIFIER (Args.cluster (s_args s)) = true -> state_read s = Ok d -> belongs (s_args s) d ->
  release_record (path_of (s_args s)) s = (Ok (d, path_of (s_args s)), s).
Proof.
  intros Hi Hr Hb. unfold release_record.
  rewrite (m_bind_ok (gets _) _ s (s_files s !! path_of (s_args s)) s) by done.
  unfold state_read in Hr. rewrite Hr.
  rewrite (m_bind_ok args _ s (s_args s) s) by done.
  rewrite (m_bind_ok _ _ _ _ _ (adopt_same s d Hb)).
  by rewrite (m_bind_ok _ _ _ _ _ (path_of_args_run s Hi)).
Qed.

Lemma release_record_missing s m epoch :
  state_read s = Raise (HelperError m) ->
  allocation_epoch (Args.submit_time (s_args s)) (Args.restart_count (s_args s)) = Ok epoch ->
  release_record (path_of (s_args s)) s
    = (Ok (recovery_record (s_args s) epoch, path_of (s_args s)), s).
Proof.
  intros Hr He. unfold release_record.
  rewrite (m_bind_ok (gets _) _ s (s_files s !! path_of (s_args s)) s) by done.
  unfold state_read in Hr. rewrite Hr. cbn [isa_HelperError].
  unfold local_state. rewrite (m_bind_ok _ _ s (recovery_record (s_args s) epoch) s); [done|].
  rewrite (m_bind_ok args _ s (s_args s) s) by done. by rewrite He.
Qed.

(** One call of the driver *)
Lemma invoke_driver_run op directive s epoch :
  allocation_epoch (Args.submit_time (s_args s)) (Args.restart_count (s_args s)) = Ok epoch ->
  exists r d, invoke_driver op directive s =
    (r, mk_state (s_args s) (s_files s) (s_writes s) d (s_calls s ++ [mk_call op (PDict <$> r)])
          (s_stdout s) (s_stderr s)).
Proof.
  intros He. unfold invoke_driver, driver_command.
  unfold args, gets, lift, mbind, m_mbind, m_bind. rewrite He. simpl. unfold run_logged.
  destruct (run_driver _ _) as [r d]. by eexists _, _.
Qed.

Lemma write_state_run path d s :
  write_state path d s =
    (Ok tt, mk_state (s_args s) (<[path := mk_file 384 (Document (PDict d))]> (s_files s))
              (Datatypes.S (s_writes s)) (s_driver s) (s_calls s) (s_stdout s) (s_stderr s)).
Proof. unfold write_state. by rewrite healthy. Qed.

(** The run up to the operation *)
Lemma main_named operation s :
  named operation (s_args s) ->
  main s = try_catch caught (dispatch (path_of (s_args s)))
             (fun error => _ ← print_err (txt "qfw-slurm-bb: " ++ exn_str error);
                mret EXIT_OPERATIONAL) s.
Proof.
  intros (_ & Hi & Ha & Hj & Hk & Hu & Hg & Hm & _). unfold main, try_catch.
  rewrite (m_bind_ok args _ s (s_args s) s) by done.
  replace (Z.min _ _ <? 0) with false by lia.
  replace (Args.max_reservation_attempts (s_args s) <=? 0) with false by lia.
  rewrite (m_bind_ok (raise_when false _) _ s tt s) by done.
  rewrite (m_bind_ok (raise_when false _) _ s tt s) by done.
  rewrite (m_bind_ok (locate_state _) _ s (path_of (s_args s)) s); [done|].
  unfold locate_state. rewrite (m_bind_ok args _ s (s_args s) s) by done.
  rewrite bool_decide_eq_false_2 by done. by apply path_of_args_run.
Qed.

Lemma dispatch_release s :
  Args.operation (s_args s) = txt "release" ->
  dispatch (path_of (s_args s)) s = release (path_of (s_args s)) s.
Proof.
  intros Ho. unfold dispatch. rewrite (m_bind_ok args _ s (s_args s) s) by done.
  rewrite Ho. by rewrite bool_decide_eq_false_2, bool_decide_eq_true_2.
Qed.

Lemma release_not_asked s d :
  named "release" (s_args s) -> state_read s = Ok d -> belongs (s_args s) d ->
  is_releasable (get "state" d) = Ok false -> main s = (Ok EXIT_OK, s).
Proof.
  intros Hn Hr Hb Hrel. rewrite (main_named _ _ Hn). unfold try_catch.
  rewrite dispatch_release by apply Hn. unfold release.
  rewrite (m_bind_ok _ _ _ _ _ (release_record_stored s d (proj1 (proj2 Hn)) Hr Hb)).
  cbv beta iota. rewrite Hrel. done.
Qed.

Lemma release_asked s current :
  named "release" (s_args s) -> to_release s current ->
  exists r s', main s = (match r with
                         | Raise e => if caught e then Ok EXIT_OK else Raise e
                         | Ok _ => Ok EXIT_OK
                         end, s') /\
    s_calls s' = s_calls s ++ [mk_call (txt "release") (PDict <$> r)] /\
    s_files s' = match r with
                 | Raise e => if caught e then id else fun _ => s_files s
                 | Ok _ => id
                 end (<[path_of (s_args s) :=
                        mk_file 384 (Document (PDict (with_answer r current)))]> (s_files s)).
Proof.
  intros Hn Hto. rewrite (main_named _ _ Hn). unfold try_catch.
  rewrite dispatch_release by apply Hn. unfold release.
  pose proof Hn as (_ & Hi & _ & _ & _ & _ & _ & _ & epoch & He).
  assert (release_record (path_of (s_args s)) s = (Ok (current, path_of (s_args s)), s) /\
    is_releasable (get "state" current) = Ok true) as [Hrec Hrel].
  { destruct Hto as [(m & ep & Hr & He' & ->)|(Hr & Hb & Hrel)].
    - split; [by eapply release_record_missing|done].
    - split; [by apply release_record_stored|by apply held_releasable]. }
  rewrite (m_bind_ok _ _ _ _ _ Hrec). cbv beta iota. rewrite Hrel.
  rewrite (m_bind_ok (lift (Ok true)) _ s true s) by done. cbn [negb].
  destruct (invoke_driver_run (txt "release") None s epoch He) as (r & dr & Hcall).
  exists r. destruct r as [d|e].
  - set (s1 := mk_state _ _ _ _ _ _ _) in Hcall.
    assert (released_record current s = (Ok (with_answer (Ok d) current), s1)) as Hans.
    { unfold released_record, try_catch. by rewrite (m_bind_ok _ _ _ _ _ Hcall). }
    rewrite (m_bind_ok _ _ _ _ _ Hans), (m_bind_ok _ _ _ _ _ (write_state_run _ _ s1)).
    rewrite bool_decide_eq_true_2 by done. by eexists.
  - set (s1 := mk_state _ _ _ _ _ _ _) in Hcall. destruct (caught e) eqn:Hc.
    + assert (released_record current s = (Ok (with_answer (Raise e) current), s1)) as Hans.
      { unfold released_record, try_catch. rewrite (m_bind_raise _ _ _ _ _ Hcall). by rewrite Hc. }
      rewrite (m_bind_ok _ _ _ _ _ Hans), (m_bind_ok _ _ _ _ _ (write_state_run _ _ s1)).
      rewrite bool_decide_eq_true_2 by done. by eexists.
    + assert (released_record current s = (Raise e, s1)) as Hans.
      { unfold released_record, try_catch. rewrite (m_bind_raise _ _ _ _ _ Hcall). by rewrite Hc. }
      rewrite (m_bind_raise _ _ _ _ _ Hans), Hc. by exists s1.
Qed.

Lemma belongs_set a key v d :
  key <> txt "cluster" -> key <> txt "canonical_job_id" -> belongs a d ->
  belongs a (dict_set key v d).
Proof. intros H1 H2 [Hc Hk]. split; by rewrite assoc_dict_set_ne. Qed.

Lemma to_release_belongs s current : to_release s current -> belongs (s_args s) current.
Proof. intros [(m & epoch & _ & _ & ->)|(_ & Hb & _)]; [by split|done]. Qed.

(** A reserve whose driver does not answer *)
Lemma reserve_unanswered s values data script d n e :
  named "reserve" (s_args s) -> Args.job_script (s_args s) = Some script ->
  read_script script = Ok data -> parse_directive data = Ok values ->
  state_read s = Ok d -> attempts_of d = Ok n -> n < Args.max_reservation_attempts (s_args s) ->
  (invoke_driver (txt "reserve") (Some values) s).1 = Raise e -> caught e = true ->
  exists s', main s = (Ok EXIT_OPERATIONAL, s') /\ s_files s' = s_files s /\
    s_calls s' = s_calls s ++ [mk_call (txt "reserve") (Raise e)].
Proof.
  intros Hn Hscript Hdata Hv Hr Ha Hmax Hcall He. rewrite (main_named _ _ Hn). unfold try_catch.
  pose proof Hn as (Ho & _ & _ & _ & _ & _ & _ & _ & epoch & Hep).
  destruct (invoke_driver_run (txt "reserve") (Some values) s epoch Hep) as (r & dr & Hrun).
  rewrite Hrun in Hcall. simpl in Hcall. subst r.
  set (s1 := mk_state _ _ _ _ _ _ _) in Hrun.
  assert (dispatch (path_of (s_args s)) s = (Raise e, s1)) as Hd.
  { unfold dispatch. rewrite (m_bind_ok args _ s (s_args s) s) by done. rewrite Ho.
    rewrite !bool_decide_eq_false_2 by done. rewrite Hscript, Hdata.
    rewrite (m_bind_ok (lift _) _ s data s) by done. rewrite Hv.
    rewrite (m_bind_ok (lift _) _ s values s) by done.
    unfold reservation. rewrite (m_bind_ok args _ s (s_args s) s) by done.
    rewrite (m_bind_ok _ _ s n s).
    { replace (_ <=? n) with false by lia. by apply m_bind_raise. }
    unfold reservation_attempts.
    rewrite (m_bind_ok (gets _) _ s (s_files s !! path_of (s_args s)) s) by done.
    unfold state_read in Hr. by rewrite Hr, Ha. }
  rewrite Hd, He. by eexists.
Qed.
End release.

(** ** Properties *)

(** C32 A teardown asks the driver for exactly one release when the allocation
    has no usable state file, or one whose state is reservation-accepted,
    release-unresolved or release-recovery; in any other state it asks nothing
    and changes nothing. When it asks, it succeeds whether the driver answers
    or fails, and the state file then says released exactly when the driver
    said so and release-unresolved otherwise, with the answer or the error
    kept. So a teardown after a released one asks nothing. *)
Theorem helper_release {ucd : UnicodeData} {D} {env : HelperEnv D} (s : state D) :
  (forall n, write_faults n = None) -> named "release" (s_args s) ->
  (forall current, to_release s current ->
     exists r s', main s = (match r with
                            | Raise e => if caught e then Ok EXIT_OK else Raise e
                            | Ok _ => Ok EXIT_OK
                            end, s') /\
       s_calls s' = s_calls s ++ [mk_call (txt "release") (PDict <$> r)] /\
       match r with
       | Ok d =>
           state_read (started (s_args s) s') = Ok (with_answer r current) /\
           (get "state" d = PStr (txt "released") ->
            let again := started (s_args s) s' in main again = (Ok EXIT_OK, again))
       | Raise e =>
           if caught e then state_read (started (s_args s) s') = Ok (with_answer r current)
           else s_files s' = s_files s
       end) /\
  (forall d, state_read s = Ok d -> belongs (s_args s) d -> hashable (get "state" d) ->
     ~ may_be_held (get "state" d) -> main s = (Ok EXIT_OK, s)).
Proof.
  intros Hok Hn. split.
  2: { intros d Hr Hb Hh Hs. by apply (release_not_asked s d), not_releasable. }
  intros current Hto. destruct (release_asked Hok s current Hn Hto) as (r & s' & Hm & Hc & Hf).
  exists r, s'. split_and!; [done..|].
  assert (forall d, s_files s' = <[path_of (s_args s) := mk_file 384 (Document (PDict d))]> (s_files s) ->
    state_read (started (s_args s) s') = Ok d) as Hread.
  { intros d E. unfold state_read. simpl. by rewrite E, lookup_insert_eq. }
  destruct r as [d|e]; simpl in Hf.
  - split; [by apply Hread|]. intros Hst. cbv zeta.
    apply (release_not_asked _ (with_answer (Ok d) current)); [done|by apply Hread| |].
    + simpl. by repeat apply belongs_set; [..|apply (to_release_belongs s)].
    + simpl. unfold get at 1. rewrite assoc_dict_set. simpl. by rewrite Hst.
  - destruct (caught e); [by apply Hread|done].
Qed.

(** C36 A reserve whose driver does not answer is forgotten: the helper exits
    with the operational status and leaves every file as it was, the state
    file at the evaluation that was accepted; and the teardown that follows
    succeeds without asking for a release and leaves them so as well, whatever
    the gateway may have reserved. *)
Theorem interrupted_reserve_not_released {ucd : UnicodeData} {D} {env : HelperEnv D}
    (s : state D) (teardown : Args.t) values data script d n e :
  named "reserve" (s_args s) -> Args.job_script (s_args s) = Some script ->
  read_script script = Ok data -> parse_directive data = Ok values ->
  state_read s = Ok d -> attempts_of d = Ok n -> n < Args.max_reservation_attempts (s_args s) ->
  (invoke_driver (txt "reserve") (Some values) s).1 = Raise e -> caught e = true ->
  named "release" teardown -> path_of teardown = path_of (s_args s) -> belongs teardown d ->
  get "state" d = PStr (txt "evaluation-accepted") ->
  exists s', main s = (Ok EXIT_OPERATIONAL, s') /\
    s_calls s' = s_calls s ++ [mk_call (txt "reserve") (Raise e)] /\
    s_files s' = s_files s /\
    exists s'', main (started teardown s') = (Ok EXIT_OK, s'') /\
      s_calls s'' = s_calls (started teardown s') /\ s_files s'' = s_files s /\
      state_read s'' = Ok d.
Proof.
  intros Hn Hscript Hdata Hv Hr Ha Hmax Hcall He Ht Hp Hb Hst.
  destruct (reserve_unanswered s values data script d n e) as (s' & Hm & Hf & Hc); [done..|].
  exists s'. split_and!; [done..|]. exists (started teardown s').
  assert (state_read (started teardown s') = Ok d) as Hread.
  { unfold state_read in *. simpl. by rewrite Hp, Hf. }
  split_and!; [|done|exact Hf|exact Hread].
  apply (release_not_asked _ d); [done|exact Hread|done|by rewrite Hst].
Qed.

#[local] Existing Instance ascii_ucd.
#[local] Existing Instance site_env.

(** A record read from the state of a site *)
Definition stored (s : state (list str)) : list (str * pyval) :=
  match state_read s with Ok d => d | Raise _ => [] end.

(** Accepted, then torn down *)
Definition teardown_site : state (list str) :=
  started (site_args "release" "alpha")
    (site_runs [site_args "evaluate" "alpha"; site_args "reserve" "alpha"]
       (site_start (map txt ["evaluated"; "accepted"; "released"]%string))).2.

Lemma site_named operation :
  named operation (site_args operation "alpha").
Proof. unfold named. simpl. split_and!; try done; try lia. by eexists. Qed.

Lemma helper_release_witness :
  to_release teardown_site (stored teardown_site) /\
  exists r s', main teardown_site = (Ok EXIT_OK, s') /\
    s_calls s' = s_calls teardown_site ++ [mk_call (txt "release") (PDict <$> r)].
Proof.
  assert (to_release teardown_site (stored teardown_site)) as Hto.
  { right. split_and!; [vm_compute; reflexivity|split; vm_compute; reflexivity|left; vm_compute; reflexivity]. }
  split; [exact Hto|].
  destruct (proj1 (helper_release (env := site_env) teardown_site (fun _ => eq_refl)
    (site_named "release")) (stored teardown_site) Hto) as (r & s' & Hm & Hc & _).
  exists r, s'. split; [|exact Hc].
  assert ((main teardown_site).1 = Ok EXIT_OK) as Hcode by (vm_compute; reflexivity).
  rewrite Hm in Hcode |- *. simpl in Hcode. by rewrite Hcode.
Defined.

(** Evaluated, then a reserve whose driver times out *)
Definition interrupted_site : state (list str) :=
  started (site_args "reserve" "alpha")
    (site_runs [site_args "evaluate" "alpha"] (site_start (map txt ["evaluated"; "!"]%string))).2.

Lemma interrupted_reserve_not_released_witness :
  let teardown := site_args "release" "alpha" in
  let e := PyError TimeoutExpired (txt "timed out") in
  exists s', main interrupted_site = (Ok EXIT_OPERATIONAL, s') /\
    s_calls s' = s_calls interrupted_site ++ [mk_call (txt "reserve") (Raise e)] /\
    s_files s' = s_files interrupted_site /\
    exists s'', main (started teardown s') = (Ok EXIT_OK, s'') /\
      s_calls s'' = s_calls (started teardown s') /\ s_files s'' = s_files interrupted_site /\
      state_read s'' = Ok (stored interrupted_site).
Proof.
  intros teardown e.
  destruct (parse_directive (txt "#QFW v=1 qpu=aer workload=quantum circuits=1 qubits=2 depth=3 shots=4"))
    as [values|] eqn:Hv; [|by vm_compute in Hv].
  apply (interrupted_reserve_not_released interrupted_site teardown values
    (txt "#QFW v=1 qpu=aer workload=quantum circuits=1 qubits=2 depth=3 shots=4") (txt "job.sh")
    (stored interrupted_site) 0 e); try exact Hv; try (vm_compute; reflexivity);
    try apply site_named.
  split; vm_compute; reflexivity.
Defined.
