(* ===== verification/Config.v ===== *)
(** * Configuration of the gateway ([config.py])

    The YAML document as a value, and [load_config] with its validators in the
    order they run. The file system, the user database and the expansion of
    paths are parameters. *)

From S2P Require Import Prelude Python Values.
From Stdlib Require Import SpecFloat.
Local Open Scope Z_scope.

(** What [yaml.safe_load] returns. Of a mapping only the string keys are looked
    up; [YOther] is any other object (a date, bytes, a set). Floats are IEEE
    754 double precision numbers. *)
Inductive yaml :=
| YNull
| YBool (b : bool)
| YInt (z : Z)
| YFloat (f : spec_float)
| YStr (s : str)
| YList (l : list yaml)
| YMap (d : list (str * yaml))
| YOther.

Record file_status := mk_status { st_mode : Z; st_uid : Z }.

Class ConfigEnv := {
  lstat : str -> result file_status;
  (** [yaml.safe_load(path.read_text(encoding="utf-8"))] *)
  load_yaml : str -> result yaml;
  (** [except (OSError, yaml.YAMLError)] *)
  is_yaml_error : exn -> bool;
  getpwnam : str -> option Z;
  (** [Path(os.path.expandvars(value)).expanduser()] *)
  expand_path : str -> result str;
  (** [str(value)] of a value that is not a string *)
  text_of : yaml -> str;
}.

Record GatewayConfig := mk_config {
  listen_host : str;
  listen_port : Z;
  accepted_uids : list Z;
  cluster_name : str;
  journal_path : str;
  qfw_activation : str;
  qfw_venv : str;
  qfw_site_config : str;
  request_timeout_seconds : spec_float;
  connect_timeout_seconds : spec_float;
  max_credential_size : Z;
  max_frame_size : Z;
  slurm_command : str;
}.

Fixpoint yget (key : str) (d : list (str * yaml)) : option yaml :=
  match d with
  | [] => None
  | (k, v) :: d => if decide (k = key) then Some v else yget key d
  end.

Definition bad {A} (m : str) : result A := Raise (ConfigurationError m).

Definition _mapping (value : yaml) (label : str) : result (list (str * yaml)) :=
  match value with
  | YMap d => Ok d
  | _ => bad (label ++ txt " must be a mapping")
  end.

(** [value in (None, "")] is true for [None] and for the empty string. *)
Definition _required (mapping : list (str * yaml)) (name : string) (label : str) : result yaml :=
  match default YNull (yget (txt name) mapping) with
  | YNull | YStr [] => bad (label ++ txt "." ++ txt name ++ txt " is required")
  | value => Ok value
  end.

(** [mapping.get(name, default)] *)
Definition optional (mapping : list (str * yaml)) (name : string) (dflt : yaml) : yaml :=
  default dflt (yget (txt name) mapping).

(** IEEE 754 double precision *)
Definition prec : Z := 53.
Definition emax : Z := 1024.

(** [float(z)] of an integer: the nearest double, or [OverflowError] *)
Definition float_of_Z (z : Z) : result spec_float :=
  match binary_normalize prec emax z 0 false with
  | S754_infinity _ => Raise (PyError OverflowError (txt "int too large to convert to float"))
  | f => Ok f
  end.

(** [value <= 0] *)
Definition float_nonpositive (f : spec_float) : bool := SFleb f (S754_zero false).

Definition _positive_number (value : yaml) (label : str) : result spec_float :=
  match value with
  | YInt z =>
      if z <=? 0 then bad (label ++ txt " must be positive") else float_of_Z z
  | YFloat f =>
      if float_nonpositive f then bad (label ++ txt " must be positive") else Ok f
  | _ => bad (label ++ txt " must be numeric")
  end.

Definition _bounded_size (value : yaml) (label : str) (maximum : Z) : result Z :=
  match value with
  | YInt z =>
      if (1 <=? z) && (z <=? maximum) then Ok z
      else bad (label ++ txt " is outside its protocol bound")
  | _ => bad (label ++ txt " must be an integer")
  end.

Definition _port (value : yaml) : result Z :=
  match value with
  | YInt z =>
      if (1 <=? z) && (z <=? 65535) then Ok z
      else bad (txt "gateway.listen-port is outside 1..65535")
  | _ => bad (txt "gateway.listen-port must be an integer")
  end.

Section config.
Context {ucd : UnicodeData} {env : ConfigEnv}.

Definition uint32_uid (uid : Z) : result Z :=
  if (0 <=? uid) && (uid <? Z.shiftl 1 32) then Ok uid
  else bad (txt "accepted UID is outside uint32").

Definition _uid (value : yaml) : result Z :=
  match value with
  | YBool _ => bad (txt "accepted UID cannot be boolean")
  | YInt z => uint32_uid z
  | YStr s =>
      if isdecimal s then
        z ← match int_of_str s with
             | Some z => Ok z
             | None => Raise (PyError ValueError (txt "invalid literal for int() with base 10"))
             end;
        uint32_uid z
      else
        match getpwnam s with
        | Some uid => uint32_uid uid
        | None => bad (txt "unknown accepted user " ++ repr s)
        end
  | _ => bad (txt "accepted UID must be a user name or integer")
  end.

Definition _path (value : yaml) (label : str) : result str :=
  match value with
  | YStr ((_ :: _) as s) => expand_path s
  | _ => bad (label ++ txt " must be a path")
  end.

(** [stat.S_ISREG(mode)]: the file type is 0o100000; [S_IWGRP | S_IWOTH] is
    0o022. *)
Definition is_protected (m : file_status) : bool :=
  (Z.land (st_mode m) 61440 =? 32768) && (st_uid m =? 0) && (Z.land (st_mode m) 18 =? 0).

Definition _validate_protected_file (path : str) : result unit :=
  match lstat path with
  | Raise (PyError OSError m) => bad (txt "cannot inspect " ++ path ++ txt ": " ++ m)
  | Raise e => Raise e
  | Ok m =>
      raise_if (negb (is_protected m))
        (ConfigurationError (txt "gateway configuration must be a protected root-owned file"))
  end.

Definition read_document (path : str) : result yaml :=
  match load_yaml path with
  | Ok raw => Ok raw
  | Raise e =>
      if is_yaml_error e then bad (txt "cannot read " ++ path ++ txt ": " ++ exn_str e)
      else Raise e
  end.

(** The value is that string. *)
Definition is_text (v : yaml) (s : string) : bool :=
  if v is YStr t then bool_decide (t = txt s) else false.

(** A required section of the document *)
Definition section (root : list (str * yaml)) (name : string) : result (list (str * yaml)) :=
  v ← _required root name (txt "configuration"); _mapping v (txt name).

Definition load_config (path : str) (validate_permissions : bool) : result GatewayConfig :=
  _ ← (if validate_permissions then _validate_protected_file path else Ok tt);
  raw ← read_document path;
  root ← _mapping raw (txt "configuration");
  listen ← section root "listen";
  auth ← section root "authentication";
  slurm ← section root "slurm";
  qfw ← section root "qfw";
  journal ← section root "journal";
  _ ← raise_if (negb (is_text (optional auth "mechanism" YNull) "munge"))
        (ConfigurationError (txt "authentication.mechanism must be 'munge'"));
  _ ← raise_if (negb (is_text (optional auth "expected-plugin-name" YNull) "spank_quantum"))
        (ConfigurationError (txt "authentication.expected-plugin-name must be 'spank_quantum'"));
  accepted ← match optional auth "accepted-uids" YNull with
             | YList ((_ :: _) as l) => Ok l
             | _ => bad (txt "authentication.accepted-uids must be nonempty")
             end;
  name ← _required slurm "cluster-name" (txt "slurm");
  cluster_name ← match name with
                 | YStr s => Ok s
                 | _ => bad (txt "slurm.cluster-name must be a string")
                 end;
  _ ← raise_if (negb (is_text (optional slurm "verifier" (YStr (txt "scontrol-json")))
                        "scontrol-json"))
        (ConfigurationError (txt "slurm.verifier must be 'scontrol-json'"));
  _ ← raise_if (bool_decide (is_Some (yget (txt "adapter") qfw)))
        (ConfigurationError
           (txt "qfw.adapter is not a production gateway configuration field"));
  listen_host ← match optional listen "host" (YStr (txt "127.0.0.1")) with
                | YStr ((_ :: _) as s) => Ok s
                | _ => bad (txt "listen.host must be a nonempty string")
                end;
  port ← _required listen "port" (txt "listen");
  listen_port ← _port port;
  uids ← mapR _uid accepted;
  journal_value ← _required journal "path" (txt "journal");
  journal_path ← _path journal_value (txt "journal.path");
  activation_value ← _required qfw "activation" (txt "qfw");
  activation ← _path activation_value (txt "qfw.activation");
  venv_value ← _required qfw "venv" (txt "qfw");
  venv ← _path venv_value (txt "qfw.venv");
  site_value ← _required qfw "site-config" (txt "qfw");
  site_config ← _path site_value (txt "qfw.site-config");
  request_timeout ← _positive_number (optional listen "request-timeout-seconds" (YInt 30))
                      (txt "listen.request-timeout-seconds");
  connect_timeout ← _positive_number (optional listen "connect-timeout-seconds" (YInt 5))
                      (txt "listen.connect-timeout-seconds");
  max_credential ← _bounded_size (optional listen "max-credential-bytes" (YInt (512 * 1024)))
                     (txt "listen.max-credential-bytes") (512 * 1024);
  max_frame ← _bounded_size (optional listen "max-frame-bytes" (YInt (256 * 1024)))
                (txt "listen.max-frame-bytes") (256 * 1024);
  Ok (mk_config listen_host listen_port uids cluster_name journal_path activation venv
        site_config request_timeout connect_timeout max_credential max_frame
        (match optional slurm "command" (YStr (txt "scontrol")) with
         | YStr s => s
         | v => text_of v
         end)).
End config.
