(* ===== verification/ConfigProps.v ===== *)
(** * What an accepted configuration satisfies *)

From S2P Require Import Prelude Python Enums Values Config.
From Stdlib Require Import SpecFloat.
Local Open Scope Z_scope.

Section facts.
Context {ucd : UnicodeData} {env : ConfigEnv}.

(** ** Where a setting comes from *)

(** The mapping [m] has [v] under [key]: the first entry of that key. *)
Definition found (m : yaml) (key : string) (v : yaml) : Prop :=
  exists before after, m = YMap (before ++ (txt key, v) :: after) /\ txt key ∉ map fst before.

Definition absent (m : yaml) (key : string) : Prop :=
  exists d, m = YMap d /\ txt key ∉ map fst d.

(** What the document has under a key of a section *)
Definition set_in (doc : yaml) (sect key : string) (v : yaml) : Prop :=
  exists m, found doc sect m /\ found m key v.

Definition unset_in (doc : yaml) (sect key : string) : Prop :=
  exists m, found doc sect m /\ absent m key.

(** The value of a setting that has a default *)
Definition setting (doc : yaml) (sect key : string) (dflt v : yaml) : Prop :=
  set_in doc sect key v \/ (unset_in doc sect key /\ v = dflt).

(** ** What the values stand for *)

(** An accepted user: a number, a text of digits, or the name of a user *)
Definition user_of (v : yaml) (uid : Z) : Prop :=
  v = YInt uid \/
  exists s, v = YStr s /\
    (isdecimal s = true /\ int_of_str s = Some uid \/ isdecimal s = false /\ getpwnam s = Some uid).

(** A double above zero, or the one that is not a number *)
Definition positive_or_nan (f : spec_float) : Prop :=
  match f with
  | S754_nan | S754_infinity false | S754_finite false _ _ => True
  | S754_zero _ | S754_infinity true | S754_finite true _ _ => False
  end.

(** A timeout: the double of a positive integer, or a double of the document
    that is above zero or not a number *)
Definition timeout_from (v : yaml) (f : spec_float) : Prop :=
  (exists z, v = YInt z /\ 0 < z /\ float_of_Z z = Ok f) \/ (v = YFloat f /\ positive_or_nan f).

(** The configuration [c] is what the document says. *)
Definition configured (doc : yaml) (c : GatewayConfig) : Prop :=
  let path sect key p := exists s, set_in doc sect key (YStr s) /\ s <> [] /\ expand_path s = Ok p in
  let timeout key dflt f :=
    exists v, setting doc "listen" key (YInt dflt) v /\ timeout_from v f in
  set_in doc "authentication" "mechanism" (YStr (txt "munge")) /\
  set_in doc "authentication" "expected-plugin-name" (YStr (txt "spank_quantum")) /\
  (exists l, set_in doc "authentication" "accepted-uids" (YList l) /\ l <> [] /\
     Forall2 user_of l (accepted_uids c)) /\
  Forall (fun u => 0 <= u < 2 ^ 32) (accepted_uids c) /\
  (set_in doc "slurm" "cluster-name" (YStr (cluster_name c)) /\ cluster_name c <> []) /\
  setting doc "slurm" "verifier" (YStr (txt "scontrol-json")) (YStr (txt "scontrol-json")) /\
  unset_in doc "qfw" "adapter" /\
  (setting doc "listen" "host" (YStr (txt "127.0.0.1")) (YStr (listen_host c)) /\
     listen_host c <> []) /\
  (set_in doc "listen" "port" (YInt (listen_port c)) /\ 1 <= listen_port c <= 65535) /\
  path "journal" "path" (journal_path c) /\
  path "qfw" "activation" (qfw_activation c) /\
  path "qfw" "venv" (qfw_venv c) /\
  path "qfw" "site-config" (qfw_site_config c) /\
  timeout "request-timeout-seconds" 30 (request_timeout_seconds c) /\
  timeout "connect-timeout-seconds" 5 (connect_timeout_seconds c) /\
  (setting doc "listen" "max-credential-bytes" (YInt MAX_CREDENTIAL_SIZE)
     (YInt (max_credential_size c)) /\ 1 <= max_credential_size c <= MAX_CREDENTIAL_SIZE) /\
  (setting doc "listen" "max-frame-bytes" (YInt MAX_FRAME_SIZE) (YInt (max_frame_size c)) /\
     1 <= max_frame_size c <= MAX_FRAME_SIZE) /\
  exists v, setting doc "slurm" "command" (YStr (txt "scontrol")) v /\
    match v with YStr s => slurm_command c = s | _ => slurm_command c = text_of v end.

(** ** The validators *)

Lemma yget_found d key v : yget (txt key) d = Some v -> found (YMap d) key v.
Proof.
  induction d as [|[k w] d IH]; simpl; [done|]. destruct (decide (k = txt key)) as [->|Hk].
  - intros [= ->]. exists [], d. split; [done|]. by intros ?%elem_of_nil.
  - intros (before & after & [= ->] & Hn)%IH. exists ((k, w) :: before), after.
    split; [done|]. simpl. rewrite elem_of_cons. intros [?|?]; [congruence|done].
Qed.

Lemma yget_absent d key : yget (txt key) d = None -> absent (YMap d) key.
Proof.
  intros H. exists d. split; [done|]. induction d as [|[k w] d IH]; simpl in *;
    [by intros ?%elem_of_nil|].
  destruct (decide (k = txt key)) as [->|Hk]; [done|].
  rewrite elem_of_cons. intros [?|Hin]; [congruence|by apply IH].
Qed.

Lemma required_found d name label v :
  _required d name label = Ok v -> found (YMap d) name v /\ v <> YNull /\ v <> YStr [].
Proof.
  unfold _required. destruct (yget (txt name) d) as [w|] eqn:E; [|done]. apply yget_found in E.
  simpl. destruct w as [| | | |[|]| | |]; try done; intros [= <-]; by split_and!.
Qed.

Lemma mapping_ok v label d : _mapping v label = Ok d -> v = YMap d.
Proof. destruct v; try done. by intros [= ->]. Qed.

Lemma section_found root name d : section root name = Ok d -> found (YMap root) name (YMap d).
Proof.
  unfold section. intros H. inv_ok. apply mapping_ok in H as ->. by apply required_found in E as [? _].
Qed.

Lemma optional_setting root sect d key dflt :
  found (YMap root) sect (YMap d) -> setting (YMap root) sect key dflt (optional d key dflt).
Proof.
  intros Hs. unfold optional. destruct (yget (txt key) d) as [v|] eqn:E.
  - left. exists (YMap d). split; [done|]. by apply yget_found.
  - right. split; [|done]. exists (YMap d). split; [done|]. by apply yget_absent.
Qed.

Lemma optional_set root sect d key v :
  found (YMap root) sect (YMap d) -> optional d key YNull = v -> v <> YNull ->
  set_in (YMap root) sect key v.
Proof.
  intros Hs <- Hn. destruct (optional_setting root sect d key YNull Hs) as [H|[_ H]]; [exact H|done].
Qed.

Lemma required_set root sect d key label v :
  found (YMap root) sect (YMap d) -> _required d key label = Ok v -> set_in (YMap root) sect key v.
Proof. intros Hs [H _]%required_found. by exists (YMap d). Qed.

Lemma is_text_eq v s : negb (is_text v s) = false -> v = YStr (txt s).
Proof.
  intros H%negb_false_iff. destruct v; try done. simpl in H. apply bool_decide_eq_true in H. by subst.
Qed.

Lemma port_ok v z : _port v = Ok z -> v = YInt z /\ 1 <= z <= 65535.
Proof. destruct v; try done. simpl. destruct (_ && _) eqn:E; [|done]. intros [= <-]. split; [done|lia]. Qed.

Lemma bounded_size_ok v label m z : _bounded_size v label m = Ok z -> v = YInt z /\ 1 <= z <= m.
Proof. destruct v; try done. simpl. destruct (_ && _) eqn:E; [|done]. intros [= <-]. split; [done|lia]. Qed.

Lemma uint32_uid_ok u z : uint32_uid u = Ok z -> z = u /\ 0 <= z < 2 ^ 32.
Proof.
  unfold uint32_uid. change (Z.shiftl 1 32) with (2 ^ 32).
  destruct (_ && _) eqn:E; [|done]. intros [= <-]. split; [done|lia].
Qed.

Lemma uid_ok v z : _uid v = Ok z -> user_of v z /\ 0 <= z < 2 ^ 32.
Proof.
  destruct v; try done; simpl; [intros [-> ?]%uint32_uid_ok; by split; [left|]|].
  intros H. assert (exists u, uint32_uid u = Ok z /\
    (isdecimal s = true /\ int_of_str s = Some u \/ isdecimal s = false /\ getpwnam s = Some u))
    as (u & [-> Hr]%uint32_uid_ok & Hu).
  { destruct (isdecimal s).
    - inv_ok. destruct (int_of_str s) as [u|]; [|done]. injection E as ->. by exists a; auto.
    - destruct (getpwnam s) as [u|]; [|done]. by exists u; auto. }
  split; [|done]. right. by exists s.
Qed.

Lemma uids_ok l uids :
  mapR _uid l = Ok uids -> Forall2 user_of l uids /\ Forall (fun u => 0 <= u < 2 ^ 32) uids.
Proof.
  intros H%mapR_ok_Forall2. induction H as [|v u l us [Hv Hu]%uid_ok _ [IH1 IH2]]; [done|].
  by split; constructor.
Qed.

Lemma positive_ok v label f : _positive_number v label = Ok f -> timeout_from v f.
Proof.
  destruct v as [| |z|g| | | |]; try done; simpl.
  - destruct (Z.leb_spec z 0) as [|Hz]; [done|]. intros H. left. by exists z.
  - destruct (float_nonpositive g) eqn:E; [done|]. intros [= <-]. right. split; [done|].
    by destruct g as [?|[]| |[] m e].
Qed.

Lemma path_ok v label p : _path v label = Ok p -> exists s, v = YStr s /\ s <> [] /\ expand_path s = Ok p.
Proof. destruct v as [| | | |[|c s]| | |]; try done. intros H. exists (c :: s). split_and!; [done|done|exact H]. Qed.

Lemma host_ok v s :
  match v with YStr ((_ :: _) as s) => Ok s | _ => bad (txt "listen.host must be a nonempty string") end
    = Ok s -> v = YStr s /\ s <> [].
Proof. destruct v as [| | | |[|c t]| | |]; try done. by intros [= <-]. Qed.

Lemma users_ok v l :
  match v with
  | YList ((_ :: _) as l) => Ok l
  | _ => bad (txt "authentication.accepted-uids must be nonempty")
  end = Ok l -> v = YList l /\ l <> [].
Proof. destruct v as [| | | | |[|x t]| |]; try done. by intros [= <-]. Qed.

Lemma cluster_ok d name v s :
  _required d name (txt "slurm") = Ok v ->
  match v with YStr s => Ok s | _ => bad (txt "slurm.cluster-name must be a string") end = Ok s ->
  v = YStr s /\ s <> [].
Proof. intros (_ & _ & Hv)%required_found H. destruct v; try done. injection H as <-. split; congruence. Qed.

Lemma document_ok path raw root :
  read_document path = Ok raw -> _mapping raw (txt "configuration") = Ok root ->
  load_yaml path = Ok (YMap root).
Proof.
  unfold read_document. intros H ->%mapping_ok. destruct (load_yaml path) as [v|e].
  - by injection H as ->.
  - by destruct (is_yaml_error e).
Qed.

(** A required path of a section *)
Lemma path_set root sect d key label v vlabel p :
  found (YMap root) sect (YMap d) -> _required d key label = Ok v -> _path v vlabel = Ok p ->
  exists s, set_in (YMap root) sect key (YStr s) /\ s <> [] /\ expand_path s = Ok p.
Proof.
  intros Hs Hr (s & -> & Hne & He)%path_ok. exists s. split_and!; [by eapply required_set|done..].
Qed.

(** A timeout of the section *)
Lemma timeout_set root d key dflt label f :
  found (YMap root) "listen" (YMap d) -> _positive_number (optional d key (YInt dflt)) label = Ok f ->
  exists v, setting (YMap root) "listen" key (YInt dflt) v /\ timeout_from v f.
Proof.
  intros Hs Hp%positive_ok. eexists. split; [|exact Hp]. by apply optional_setting.
Qed.

(** A message bound of the section *)
Lemma size_set root d key label m z :
  found (YMap root) "listen" (YMap d) -> _bounded_size (optional d key (YInt m)) label m = Ok z ->
  setting (YMap root) "listen" key (YInt m) (YInt z) /\ 1 <= z <= m.
Proof.
  intros Hs [Hv Hz]%bounded_size_ok. split; [|done]. rewrite <-Hv. by apply optional_setting.
Qed.

(** The file is regular, owned by root and writable by its owner alone. *)
Definition protected_file (path : str) : Prop :=
  exists m, lstat path = Ok m /\ Z.land (st_mode m) 61440 = 32768 /\ st_uid m = 0 /\
    Z.land (st_mode m) 18 = 0.

Lemma protected_ok path u : _validate_protected_file path = Ok u -> protected_file path.
Proof.
  unfold _validate_protected_file. destruct (lstat path) as [m|e] eqn:E;
    [|by destruct e; repeat case_match].
  intros H. inv_ok. apply negb_false_iff in H. unfold is_protected in H.
  exists m. split; [done|]. lia.
Qed.
End facts.

(** ** Properties *)

(** C35 A configuration the gateway accepts is the one its document gives, and
    safe to run with: the file was a regular root-owned file nobody else can
    write (when permissions are checked); every field comes from its own key
    of its own section, or is the default when the key is missing; the port,
    the accepted UIDs and the message bounds are in range, the last within the
    bounds of the protocol; host, cluster name, accepted UIDs and paths are
    not empty; the authentication mechanism, the plugin and the verifier are
    the supported ones; and a timeout is the double of a positive integer, or
    a double that is above zero, infinite or not a number: zero and negative
    ones are refused. *)
Theorem load_config_sound {ucd : UnicodeData} {env : ConfigEnv} path check c :
  load_config path check = Ok c ->
  (check = true -> protected_file path) /\
  exists doc, load_yaml path = Ok doc /\ configured doc c.
Proof.
  intros H. unfold load_config in H. inv_ok.
  split; [intros ->; by eapply protected_ok|].
  match goal with E : read_document path = Ok _, E' : _mapping _ _ = Ok ?root |- _ =>
    exists (YMap root); split; [by eapply document_ok|] end.
  repeat match goal with H : section _ _ = Ok _ |- _ => apply section_found in H end.
  repeat match goal with H : negb (is_text _ _) = false |- _ => apply is_text_eq in H end.
  match goal with H : mapR _uid _ = Ok _ |- _ => apply uids_ok in H as [Husers Hrange] end.
  match goal with H : match optional _ "accepted-uids" _ with _ => _ end = Ok _ |- _ =>
    apply users_ok in H as [Hacc Hne] end.
  match goal with H : match optional _ "host" _ with _ => _ end = Ok _ |- _ =>
    apply host_ok in H as [Hhost Hhne] end.
  match goal with H : match ?v with YStr _ => _ | _ => _ end = Ok ?n, R : _required _ _ _ = Ok ?v |- _ =>
    apply (cluster_ok _ _ _ _ R) in H as [Hname Hnne] end.
  match goal with H : _port _ = Ok _ |- _ => apply port_ok in H as [Hport Hprange] end.
  pose proof (optional_setting _ _ _ "verifier" (YStr (txt "scontrol-json")) E4) as Hver.
  pose proof (optional_setting _ _ _ "host" (YStr (txt "127.0.0.1")) E2) as Hset.
  pose proof (optional_setting _ _ _ "command" (YStr (txt "scontrol")) E4) as Hcmd.
  rewrite E12 in Hver. rewrite Hhost in Hset. subst. unfold configured. cbv zeta. simpl.
  split; [by eapply optional_set|]. split; [by eapply optional_set|].
  split; [eexists; split; [by eapply optional_set|done]|]. split; [done|].
  split; [split; [by eapply required_set|done]|]. split; [done|].
  split.
  { exists (YMap a5). split; [done|]. apply yget_absent. apply bool_decide_eq_false in E13.
    by apply eq_None_not_Some. }
  split; [done|]. split; [split; [by eapply required_set|done]|].
  do 4 (split; [by eapply path_set|]). do 2 (split; [by eapply timeout_set|]).
  do 2 (split; [by eapply size_set|]). eexists. split; [exact Hcmd|]. by destruct (optional a4 "command" _).
Qed.

(** A site: two accepted users, one of them by name *)
Definition sample_document : yaml := YMap [
  (txt "listen", YMap [(txt "port", YInt 7042); (txt "max-frame-bytes", YInt 65536)]);
  (txt "authentication", YMap [(txt "mechanism", YStr (txt "munge"));
     (txt "expected-plugin-name", YStr (txt "spank_quantum"));
     (txt "accepted-uids", YList [YStr (txt "slurm"); YInt 0; YStr (txt "64030")])]);
  (txt "slurm", YMap [(txt "cluster-name", YStr (txt "alpha"))]);
  (txt "qfw", YMap [(txt "activation", YStr (txt "/opt/qfw/bin/qfw-activate"));
     (txt "venv", YStr (txt "/opt/qfw/venv")); (txt "site-config", YStr (txt "/etc/qfw/site.yaml"))]);
  (txt "journal", YMap [(txt "path", YStr (txt "/var/lib/qfw/journal.sqlite"))])].

Definition sample_env : ConfigEnv := {|
  lstat _ := Ok (mk_status 33188 0);
  load_yaml _ := Ok sample_document;
  is_yaml_error _ := false;
  getpwnam s := if bool_decide (s = txt "slurm") then Some 64030 else None;
  expand_path s := Ok s;
  text_of _ := txt "?";
|}.

Lemma load_config_sound_witness :
  exists c doc, load_config (ucd := ascii_ucd) (env := sample_env) (txt "gateway.yaml") true = Ok c /\
    accepted_uids c = [64030; 0; 64030] /\ protected_file (env := sample_env) (txt "gateway.yaml") /\
    configured (ucd := ascii_ucd) (env := sample_env) doc c.
Proof.
  assert (exists c, load_config (ucd := ascii_ucd) (env := sample_env) (txt "gateway.yaml") true = Ok c /\
    accepted_uids c = [64030; 0; 64030]) as (c & Hc & Hu)
    by (eexists; split; [vm_compute; reflexivity|reflexivity]).
  destruct (load_config_sound (ucd := ascii_ucd) (env := sample_env) (txt "gateway.yaml") true c Hc)
    as (Hp & doc & _ & Hdoc).
  exists c, doc. split; [exact Hc|]. split; [exact Hu|]. split; [exact (Hp eq_refl)|exact Hdoc].
Defined.
