(* ===== verification/Server.v ===== *)
(** * The QSGP server ([server.py])

    One connection: read a length-prefixed MUNGE credential, authenticate it,
    decode the frame, run the request, and write the answer as a credential.
    The state is the coordinator's world, the authenticator's state [A], the
    bytes the peer sends and the bytes written back. The
    authenticator is a parameter, as it is in the code ([Authentication] is the
    one it constructs by default); logging and the transport are not modelled
    beyond what they do to the connection. *)

From S2P Require Import Prelude Python Utf8 Struct Enums Messages Wire Codec Values Effects Journal SlurmVerifier Adapter Service Config.
Local Open Scope Z_scope.

Class Authenticator (A : Type) := {
  (** [decode(credential)]: the sender's uid and the payload *)
  auth_decode : bytes -> A -> result (Z * bytes) * A;
  auth_encode : bytes -> A -> result bytes * A;
}.

(** How the connection behaves once the bytes received so far are read: the
    peer closes it, or nothing arrives until the timeout. [closing] is whether
    the server is shutting down, which cancels the task itself; otherwise a
    cancelled request is one that ran out of time. [drain_fault] is what
    writing the answer raises. *)
Record peer := mk_peer {
  stalls : bool;
  closing : bool;
  drain_fault : option exn;
}.

Record server {X A : Type} := mk_server {
  sv_world : world X;
  sv_auth : A;
  sv_in : bytes;
  sv_out : bytes;
}.
Arguments server : clear implicits.
Arguments mk_server {X A}.

(** How a connection ended, by the clause that handled it *)
Inductive ending :=
| Answered
| Unauthenticated (e : exn)
| Rejected (e : exn)
| Unexpected (e : exn).

Section server.
Context {ucd : UnicodeData} {jenv : JournalEnv} {sha : Sha256} {X H A : Type}.
Context {adapter_ops : AdapterOps X H} {verifier_ops : VerifierOps X} {auth : Authenticator A}.
Context (config : GatewayConfig) (p : peer).
Local Abbreviation S := (server X A).

Definition LENGTH_size : nat := 4.

Definition timed_out : exn := PyError TimeoutError (txt "timed out").

(** [asyncio.wait_for(m, timeout)] *)
Definition wait_for {B} (m : M S B) : M S B :=
  fun s => match m s with
           | (Raise CancelledError, s') => (Raise (if closing p then CancelledError else timed_out), s')
           | r => r
           end.

(** Waiting for bytes that do not come is cancelled at the timeout. *)
Definition readexactly (n : nat) : M S bytes :=
  fun s =>
    if (n <=? length (sv_in s))%nat then
      (Ok (take n (sv_in s)), mk_server (sv_world s) (sv_auth s) (drop n (sv_in s)) (sv_out s))
    else if stalls p then (Raise CancelledError, s)
    else (Raise (PyError IncompleteReadError (txt "bytes read on a total of expected bytes")), s).

Definition _read_credential : M S bytes :=
  encoded_size ← readexactly LENGTH_size;
  let size := be_decode encoded_size in
  _ ← raise_when ((size =? 0) || (max_credential_size config <? size))
        (ProtocolError (txt "QSGP credential size is invalid"));
  readexactly (Z.to_nat size).

(** [writer.write(data)] and [writer.drain()] *)
Definition write_drain (data : bytes) : M S unit :=
  fun s =>
    (match drain_fault p with None => Ok tt | Some e => Raise e end,
     mk_server (sv_world s) (sv_auth s) (sv_in s) (sv_out s ++ data)).

Definition _write_credential (credential : bytes) : M S unit :=
  _ ← raise_when (bool_decide (credential = [])
                  || (max_credential_size config <? Z.of_nat (length credential)))
        (ProtocolError (txt "encoded response credential size is invalid"));
  write_drain (be_encode 4 (Z.of_nat (length credential)) ++ credential).

Definition authenticator {B} (m : A -> result B * A) : M S B :=
  zoom sv_auth (fun a s => mk_server (sv_world s) a (sv_in s) (sv_out s)) m.
Definition service {B} (m : M (world X) B) : M S B :=
  zoom sv_world (fun w s => mk_server w (sv_auth s) (sv_in s) (sv_out s)) m.

(** [except ProtocolError as error] *)
Definition isa_Protocol (e : exn) : bool := if e is ProtocolError _ then true else false.

(** The request of an authenticated frame: the answer and the correlation id *)
Definition respond (uid : Z) (frame : bytes) : M S (response * Z) :=
  try_catch isa_Protocol
    ('(header, request) ← (lift (decode_request frame) : M S (Header.t * request));
     response ← wait_for (service (handle (H := H) request uid));
     mret (response, Header.correlation_id header))
    (fun error =>
       header ← lift (decode_header frame);
       mret (ErrorResponse (ErrorResponse.mk GatewayError.INVALID_REQUEST None
               (Some (bounded_diagnostic (exn_str error)))),
             Header.correlation_id header)).

(** The body of [_client]'s [try] block *)
Definition exchange : M S unit :=
  credential ← wait_for _read_credential;
  '(uid, frame) ← (authenticator (auth_decode credential) : M S (Z * bytes));
  _ ← raise_when (negb (bool_decide (uid ∈ accepted_uids config)))
        (AuthenticationError (txt "MUNGE UID is not authorized"));
  _ ← raise_when (max_frame_size config <? Z.of_nat (length frame))
        (ProtocolError (txt "QSGP frame exceeds configured maximum"));
  '(response, correlation_id) ← (respond uid frame : M S (response * Z));
  response_frame ← lift (encode_response response correlation_id);
  response_credential ← authenticator (auth_encode response_frame);
  wait_for (_write_credential response_credential).

(** The clause that handles an exception of the exchange *)
Definition ending_of (e : exn) : ending :=
  match e with
  | AuthenticationError _ | PyError IncompleteReadError _ => Unauthenticated e
  | ProtocolError _ | PyError TimeoutError _ | PyError OSError _ => Rejected e
  | _ => Unexpected e
  end.

Definition _client : M S ending :=
  try_except (_ ← exchange; mret Answered) (fun e => mret (ending_of e)).
End server.
