(* ===== verification/ServerProps.v ===== *)
(** * Properties of the QSGP server

    What one connection can do to the gateway and what it is answered. *)

From S2P Require Import Prelude Python Utf8 Struct Enums Messages Wire WireFacts Codec RoundTrip Values Effects ProtocolProps Journal SlurmVerifier Adapter Service DefwClient Sample Config Server.
Local Open Scope Z_scope.

(** A request is decoded under the header of its frame. *)
Lemma decode_request_header frame h q : decode_request frame = Ok (h, q) -> decode_header frame = Ok h.
Proof.
  intros H%dispatch_request.
  destruct q; [destruct H as [H _]|destruct H as [H _]|..].
  1,2: by apply admission_header in H as [? _].
  - by apply release_header in H as [? _].
  - by apply lookup_header in H as [? _].
Qed.

Lemma header_correlation h m c f : is_header h m c f -> Header.correlation_id h = c.
Proof. intros H. unfold is_header in H. by subst h. Qed.

(** Case analysis on the steps of a run *)
Ltac step H :=
  let e := fresh "e" in let E := fresh "E" in
  apply m_bind_cases in H as [(e & E & ->)|(? & ? & E & H)].

Section connection.
Context {ucd : UnicodeData} {jenv : JournalEnv} {sha : Sha256} {X H A : Type}.
Context {adapter_ops : AdapterOps X H} {verifier_ops : VerifierOps X} {auth : Authenticator A}.
Context (config : GatewayConfig) (p : peer).
Implicit Types (s : server X A).

(** The credential at the start of the input, behind its 4-byte length *)
Definition has_credential (input credential rest : bytes) : Prop :=
  exists prefix, input = prefix ++ credential ++ rest /\ length prefix = 4%nat /\
    be_decode prefix = Z.of_nat (length credential) /\
    0 < Z.of_nat (length credential) <= max_credential_size config.

(** Only the input of the connection changes. *)
Definition same_but_input s s' : Prop :=
  sv_world s' = sv_world s /\ sv_auth s' = sv_auth s /\ sv_out s' = sv_out s.

Lemma wait_for_cases {B} (m : M (server X A) B) s r s' :
  wait_for p m s = (r, s') -> exists r0, m s = (r0, s') /\
    (r = r0 \/ (r0 = Raise CancelledError /\ r = Raise (if closing p then CancelledError else timed_out))).
Proof.
  unfold wait_for. destruct (m s) as [r0 s0]. destruct r0 as [b|e]; [|destruct e];
    intros [= <- <-]; eauto.
Qed.

Lemma readexactly_cases n s r s' :
  readexactly p n s = (r, s') -> same_but_input s s' /\
    match r with Ok b => sv_in s = b ++ sv_in s' /\ length b = n | Raise _ => True end.
Proof.
  unfold readexactly. destruct (Nat.leb_spec n (length (sv_in s))) as [Hn|].
  - intros [= <- <-]. split; [done|]. simpl. rewrite take_drop. split; [done|].
    rewrite length_take. lia.
  - destruct (stalls p); by intros [= <- <-].
Qed.

Lemma read_credential_cases s r s' :
  wait_for p (_read_credential config p) s = (r, s') -> same_but_input s s' /\
    match r with Ok c => has_credential (sv_in s) c (sv_in s') | Raise _ => True end.
Proof.
  intros (r0 & Hr & Hcase)%wait_for_cases.
  assert (same_but_input s s' /\
    match r0 with Ok c => has_credential (sv_in s) c (sv_in s') | Raise _ => True end) as [Hs Hc].
  { clear Hcase. unfold _read_credential in Hr. step Hr.
    { by apply readexactly_cases in E as [? _]. }
    apply readexactly_cases in E as [(Hw1 & Ha1 & Ho1) [Hin Hlen]]. cbv zeta in Hr. step Hr.
    { unfold raise_when in E. destruct (_ || _); [|done]. by injection E as <- <-. }
    unfold raise_when in E. destruct (_ || _) eqn:Hsize; [done|]. injection E as _ <-.
    apply readexactly_cases in Hr as [(Hw2 & Ha2 & Ho2) Hc].
    split; [split_and!; congruence|]. destruct r0 as [c|]; [|done]. destruct Hc as [Hin2 Hlen2].
    exists x. rewrite Hin, Hin2. pose proof (be_decode_range x). split_and!; [done..|lia|lia|lia]. }
  destruct Hcase as [->|[-> ->]]; [done|]. by split.
Qed.

(** The answer to a frame that is not a valid request *)
Definition invalid_request (m : str) : response :=
  ErrorResponse (ErrorResponse.mk GatewayError.INVALID_REQUEST None (Some (bounded_diagnostic m))).

(** What the coordinator does with an authenticated frame *)
Definition world_after (w : world X) (uid : Z) (frame : bytes) : world X :=
  match decode_request frame with
  | Ok (_, request) => (handle (H := H) request uid w).2
  | Raise _ => w
  end.

(** The answer to an authenticated frame, under the correlation id of its
    header: the coordinator's, or the reason it is not a valid request *)
Definition answer_to (w : world X) (uid : Z) (frame : bytes) (resp : response) (c : Z) : Prop :=
  exists h, decode_header frame = Ok h /\ c = Header.correlation_id h /\
    match decode_request frame with
    | Ok (_, request) =>
        (handle (H := H) request uid w).1 = Ok resp \/
        exists m, (handle (H := H) request uid w).1 = Raise (ProtocolError m) /\
          resp = invalid_request m
    | Raise e => exists m, e = ProtocolError m /\ resp = invalid_request m
    end.

Lemma respond_cases uid frame s r s' :
  respond (H := H) p uid frame s = (r, s') ->
  sv_world s' = world_after (sv_world s) uid frame /\ sv_auth s' = sv_auth s /\
  sv_out s' = sv_out s /\
  match r with Ok (resp, c) => answer_to (sv_world s) uid frame resp c | Raise _ => True end.
Proof.
  unfold respond, world_after, answer_to, try_catch, lift.
  destruct (decode_request frame) as [[h req]|e] eqn:Hd.
  - rewrite (m_bind_ok _ _ s (h, req) s) by done. cbv beta iota.
    pose proof (decode_request_header _ _ _ Hd) as Hh.
    unfold mbind at 1, m_mbind at 1, m_bind at 1, wait_for, service, zoom.
    destruct (handle req uid (sv_world s)) as [res w1]. cbn [fst snd].
    destruct res as [resp|e].
    + intros [= <- <-]. split_and!; [done..|]. exists h. eauto.
    + destruct e; simpl; try (intros [= <- <-]; by split_and!).
      * rewrite Hh. intros [= <- <-]. split_and!; [done..|]. exists h. eauto 10.
      * by destruct (closing p); intros [= <- <-].
  - rewrite (m_bind_raise _ _ s e s) by done. destruct e; simpl;
      try (intros [= <- <-]; by split_and!).
    destruct (decode_header frame) as [h|e]; intros [= <- <-]; [|by split_and!].
    split_and!; [done..|]. exists h. eauto.
Qed.

(** The credential written for a response, and its bounds *)
Definition written (resp : response) (c : Z) (a : A) (out : bytes) : Prop :=
  exists frame credential, encode_response resp c = Ok frame /\
    (auth_encode frame a).1 = Ok credential /\
    0 < Z.of_nat (length credential) <= max_credential_size config /\
    out = be_encode 4 (Z.of_nat (length credential)) ++ credential.

Lemma write_credential_cases credential s r s' :
  wait_for p (_write_credential config p credential) s = (r, s') ->
  sv_world s' = sv_world s /\
  (sv_out s' = sv_out s /\ (exists e, r = Raise e) \/
   0 < Z.of_nat (length credential) <= max_credential_size config /\
   sv_out s' = sv_out s ++ be_encode 4 (Z.of_nat (length credential)) ++ credential).
Proof.
  intros (r0 & Hr & Hcase)%wait_for_cases. unfold _write_credential in Hr. step Hr.
  - unfold raise_when in E. destruct (_ || _); [|done]. injection E as <- <-.
    split; [done|]. left. split; [done|]. destruct Hcase as [->|[[=] _]]. by eexists.
  - unfold raise_when in E. destruct (_ || _) eqn:Hb; [done|]. injection E as _ <-.
    apply orb_false_iff in Hb as [Hne Hmax]. apply bool_decide_eq_false in Hne.
    unfold write_drain in Hr. injection Hr as <- <-. split; [done|]. right.
    split; [|done]. apply Z.ltb_ge in Hmax. destruct credential; [done|]. cbn [length] in *. lia.
Qed.

(** A connection that reached the coordinator: an accepted sender's credential
    carried a frame within the bound *)
Definition admitted s (uid : Z) (frame : bytes) (a : A) : Prop :=
  exists credential rest, has_credential (sv_in s) credential rest /\
    auth_decode credential (sv_auth s) = (Ok (uid, frame), a) /\
    uid ∈ accepted_uids config /\ Z.of_nat (length frame) <= max_frame_size config.

Lemma authenticator_cases {B} (m : A -> result B * A) s r s' :
  authenticator m s = (r, s') ->
  exists a, m (sv_auth s) = (r, a) /\ s' = mk_server (sv_world s) a (sv_in s) (sv_out s).
Proof.
  unfold authenticator, zoom. destruct (m (sv_auth s)) as [r0 a]. intros [= <- <-]. by exists a.
Qed.

Lemma exchange_cases s r s' :
  exchange (H := H) config p s = (r, s') ->
  (sv_world s' = sv_world s /\ sv_out s' = sv_out s /\ exists e, r = Raise e) \/
  exists uid frame a, admitted s uid frame a /\
    sv_world s' = world_after (sv_world s) uid frame /\
    (sv_out s' = sv_out s /\ (exists e, r = Raise e) \/
     exists resp c out, answer_to (sv_world s) uid frame resp c /\ written resp c a out /\
       sv_out s' = sv_out s ++ out).
Proof.
  intros Hr. unfold exchange in Hr. step Hr.
  { apply read_credential_cases in E as [(? & _ & ?) _]. left. by split_and!; [..|eexists]. }
  apply read_credential_cases in E as [(Hw1 & Ha1 & Ho1) Hcred].
  rename x into credential, x0 into s1.
  step Hr.
  { apply authenticator_cases in E as (a & _ & ->). left. by split_and!; [..|eexists]. }
  apply authenticator_cases in E as (a & Hauth & ->). destruct x as [uid frame].
  destruct (negb (bool_decide (uid ∈ accepted_uids config))) eqn:Hu.
  { injection Hr as <- <-. left. by split_and!; [..|eexists]. }
  rewrite (m_bind_ok (raise_when false _) _ _ tt _) in Hr by done.
  destruct (Z.ltb_spec (max_frame_size config) (Z.of_nat (length frame))) as [|Hlen].
  { injection Hr as <- <-. left. by split_and!; [..|eexists]. }
  rewrite (m_bind_ok (raise_when false _) _ _ tt _) in Hr by done.
  apply negb_false_iff, bool_decide_eq_true in Hu.
  assert (admitted s uid frame a) as Had.
  { exists credential, (sv_in s1). rewrite <-Ha1. done. }
  right. exists uid, frame, a. split; [done|]. clear Hcred.
  step Hr.
  { apply respond_cases in E as (Hw & _ & Ho & _). simpl in Hw, Ho.
    rewrite Hw, Hw1, Ho. split; [done|]. left. by split; [|eexists]. }
  destruct x as [resp c]. apply respond_cases in E as (Hw & Ha & Ho & Hans).
  simpl in Hw, Ho, Ha, Hans. rename x0 into s2. rewrite Hw1 in Hw, Hans. rewrite Ho1 in Ho.
  destruct (encode_response resp c) as [rframe|e] eqn:Henc.
  2:{ injection Hr as <- <-. split; [done|]. left. by split; [|eexists]. }
  rewrite (m_bind_ok (lift (Ok rframe)) _ s2 rframe s2) in Hr by done.
  step Hr.
  { apply authenticator_cases in E as (a2 & _ & ->). split; [done|]. left. by split; [|eexists]. }
  apply authenticator_cases in E as (a2 & Hout & ->). rename x into out.
  apply write_credential_cases in Hr as [Hw3 Hcase]. simpl in Hw3, Hcase.
  split; [congruence|]. rewrite Ho in Hcase.
  destruct Hcase as [[? ?]|[Hb Hwr]]; [by left|right].
  exists resp, c, (be_encode 4 (Z.of_nat (length out)) ++ out). split_and!; [done| |done].
  exists rframe, out. split; [done|]. split; [by rewrite <-Ha, Hout|]. by split.
Qed.

(** The steps of a connection that is answered *)

Lemma read_credential_run (w : world X) (a : A) credential out :
  0 < Z.of_nat (length credential) <= max_credential_size config ->
  max_credential_size config < 2 ^ 32 ->
  wait_for p (_read_credential config p)
    (mk_server w a (be_encode 4 (Z.of_nat (length credential)) ++ credential) out)
  = (Ok credential, mk_server w a [] out).
Proof.
  intros Hlen Hmax. set (s := mk_server w a _ out). unfold wait_for, _read_credential.
  rewrite (m_bind_ok _ _ s (be_encode 4 (Z.of_nat (length credential)))
    (mk_server w a credential out)).
  2:{ unfold readexactly, s, LENGTH_size. cbn [sv_in sv_world sv_auth sv_out].
      rewrite length_app, be_encode_length.
      replace (_ <=? _)%nat with true by (symmetry; apply Nat.leb_le; lia).
      by rewrite take_app_length', drop_app_length' by (by rewrite be_encode_length). }
  rewrite be_decode_u32_encode by lia. cbv zeta. replace (_ || _) with false by lia.
  rewrite (m_bind_ok (raise_when false _) _ _ tt (mk_server w a credential out)) by done.
  unfold readexactly. cbn [sv_in]. by rewrite Nat2Z.id, Nat.leb_refl, take_ge, drop_ge by lia.
Qed.

Lemma respond_run (w w1 : world X) (a : A) inp out q c frame uid resp :
  encode_request q c = Ok frame -> handle (H := H) q uid w = (Ok resp, w1) ->
  respond (H := H) p uid frame (mk_server w a inp out) = (Ok (resp, c), mk_server w1 a inp out).
Proof.
  intros Hq Hh. destruct (dispatch_roundtrip _ _ _ Hq) as (h & Hhd & Hd).
  unfold respond, try_catch, lift. rewrite Hd.
  rewrite (m_bind_ok _ _ _ (h, q) (mk_server w a inp out)) by done. cbv beta iota.
  unfold mbind, m_mbind, m_bind, wait_for, service, zoom. simpl. rewrite Hh.
  by rewrite (header_correlation _ _ _ _ Hhd).
Qed.

Lemma write_credential_run (w : world X) (a : A) inp out reply :
  0 < Z.of_nat (length reply) <= max_credential_size config -> drain_fault p = None ->
  wait_for p (_write_credential config p reply) (mk_server w a inp out)
  = (Ok tt, mk_server w a inp (out ++ be_encode 4 (Z.of_nat (length reply)) ++ reply)).
Proof.
  intros Hlen Hdrain. unfold wait_for, _write_credential.
  rewrite bool_decide_eq_false_2 by (intros ->; simpl in Hlen; lia).
  replace (_ <? _) with false by lia. cbn [orb].
  rewrite (m_bind_ok (raise_when false _) _ _ tt (mk_server w a inp out)) by done.
  unfold write_drain. by rewrite Hdrain.
Qed.
End connection.

(** ** Properties *)

(** C28 A connection reaches the coordinator only as an accepted, authenticated
    sender: in every other case neither the gateway nor the connection's output
    changes. It then does exactly what the coordinator does with the decoded
    request, and what is written back, if anything, is one credential within
    its bound, of the answer to that frame under its correlation id: the
    coordinator's response, or INVALID_REQUEST when the frame is not a valid
    request. Nothing derived from Exception escapes. *)
Theorem client_isolated {ucd : UnicodeData} {jenv : JournalEnv} {sha : Sha256} {X H A}
    {adapter_ops : AdapterOps X H} {verifier_ops : VerifierOps X} {auth : Authenticator A}
    config p (s : server X A) r s' :
  _client (H := H) config p s = (r, s') ->
  match r with Ok _ => True | Raise e => isa_Exception e = false end /\
  ((sv_world s' = sv_world s /\ sv_out s' = sv_out s /\ r <> Ok Answered) \/
   exists uid frame a, admitted config s uid frame a /\
     sv_world s' = world_after (H := H) (sv_world s) uid frame /\
     (sv_out s' = sv_out s /\ r <> Ok Answered \/
      exists resp c out, answer_to (H := H) (sv_world s) uid frame resp c /\
        written config resp c a out /\ sv_out s' = sv_out s ++ out)).
Proof.
  unfold _client, try_except. destruct (exchange (H := H) config p s) as [r0 s1] eqn:E.
  assert ((_ ← exchange (H := H) config p; mret Answered) s =
    (_ ← r0; Ok Answered, s1)) as Hx.
  { unfold mbind at 1, m_mbind, m_bind. rewrite E. by destruct r0. }
  rewrite Hx. intros Hr.
  assert (s' = s1 /\ match r with Ok _ => True | Raise e => isa_Exception e = false end /\
    ((exists e, r0 = Raise e) -> r <> Ok Answered)) as (-> & Hout & Hne).
  { destruct r0 as [[]|e]; simpl in Hr.
    - injection Hr as <- <-. split_and!; [done|done|by intros [? [=]]].
    - destruct e; injection Hr as <- <-;
        (split_and!; [done|done|]); intros _; try done;
        intros [= Hend]; revert Hend; by repeat case_match. }
  split; [done|]. apply exchange_cases in E as [(Hw & Ho & Hf)|(uid & frame & a & Had & Hw & Hcase)].
  - left. auto.
  - right. exists uid, frame, a. split_and!; [done..|].
    destruct Hcase as [[Ho Hf]|Hans]; [left; auto|by right].
Qed.

(** C27 A client's request is answered: when a connection carries the credential
    of an accepted sender over a frame the client encoded under a correlation
    id, and the coordinator answers it, the coordinator's response is encoded
    under that correlation id and its credential is written back behind its
    length; nothing of the input is left. *)
Theorem request_answered {ucd : UnicodeData} {jenv : JournalEnv} {sha : Sha256} {X H A}
    {adapter_ops : AdapterOps X H} {verifier_ops : VerifierOps X} {auth : Authenticator A}
    config p (w : world X) a out credential q c frame uid a1 resp w1 rframe reply a2 :
  encode_request q c = Ok frame ->
  0 < Z.of_nat (length credential) <= max_credential_size config ->
  max_credential_size config < 2 ^ 32 ->
  auth_decode credential a = (Ok (uid, frame), a1) ->
  uid ∈ accepted_uids config -> Z.of_nat (length frame) <= max_frame_size config ->
  handle (H := H) q uid w = (Ok resp, w1) ->
  encode_response resp c = Ok rframe -> auth_encode rframe a1 = (Ok reply, a2) ->
  0 < Z.of_nat (length reply) <= max_credential_size config -> drain_fault p = None ->
  _client (H := H) config p
    (mk_server w a (be_encode 4 (Z.of_nat (length credential)) ++ credential) out)
  = (Ok Answered,
     mk_server w1 a2 [] (out ++ be_encode 4 (Z.of_nat (length reply)) ++ reply)).
Proof.
  intros Hq Hlen Hmax Hauth Hu Hf Hh Hr Henc Hrlen Hdrain.
  assert (exchange (H := H) config p
      (mk_server w a (be_encode 4 (Z.of_nat (length credential)) ++ credential) out) =
    (Ok tt, mk_server w1 a2 [] (out ++ be_encode 4 (Z.of_nat (length reply)) ++ reply))) as Hx.
  { unfold exchange. rewrite (m_bind_ok _ _ _ _ _ (read_credential_run _ _ w a credential out Hlen Hmax)).
    rewrite (m_bind_ok _ _ _ (uid, frame) (mk_server w a1 [] out))
      by (unfold authenticator, zoom; simpl; by rewrite Hauth).
    rewrite bool_decide_eq_true_2 by done. replace (_ <? _) with false by lia. cbn [negb].
    do 2 rewrite (m_bind_ok (raise_when false _) _ _ tt (mk_server w a1 [] out)) by done.
    rewrite (m_bind_ok _ _ _ _ _ (respond_run _ _ _ _ _ _ _ _ _ _ _ Hq Hh)). cbv beta iota.
    rewrite Hr, (m_bind_ok (lift (Ok rframe)) _ _ rframe (mk_server w1 a1 [] out)) by done.
    rewrite (m_bind_ok _ _ _ reply (mk_server w1 a2 [] out))
      by (unfold authenticator, zoom; simpl; by rewrite Henc).
    by apply write_credential_run. }
  unfold _client, try_except. by rewrite (m_bind_ok _ _ _ _ _ Hx).
Qed.

(** ** A site: credentials whose first byte names the sender *)

Definition site_auth : Authenticator unit := {|
  auth_decode c a :=
    match c with
    | b :: payload =>
        if b2z b =? 0 then (Raise (AuthenticationError (txt "bad credential")), a)
        else (Ok (200 * b2z b, payload), a)
    | [] => (Raise (AuthenticationError (txt "MUNGE credential framing is invalid")), a)
    end;
  auth_encode payload a := (Ok (z2b 255 :: payload), a);
|}.

Definition site_config : GatewayConfig :=
  mk_config (txt "127.0.0.1") 7042 [1000] (txt "hpc") [] [] [] [] SpecFloat.S754_nan
    SpecFloat.S754_nan 524288 262144 (txt "scontrol").

Definition site_peer : peer := mk_peer false false None.

(** The connection of uid 1000 with an evaluation of two services, and what the
    gateway does with it *)
Definition site_request : request := EvaluateRequest (sample_reserve 5 ["aer"; "busy"]%string).
Definition site_frame : bytes := match encode_request site_request 3 with Ok f => f | Raise _ => [] end.
Definition site_credential : bytes := z2b 5 :: site_frame.
Definition site_connection : server site unit :=
  mk_server sample_world tt (be_encode 4 (Z.of_nat (length site_credential)) ++ site_credential) [].

Lemma client_isolated_witness :
  exists r s', _client (H := str) (auth := site_auth) site_config site_peer site_connection = (r, s') /\
    match r with Ok _ => True | Raise e => isa_Exception e = false end.
Proof.
  destruct (_client (H := str) (auth := site_auth) site_config site_peer site_connection)
    as [r s'] eqn:E.
  exists r, s'. split; [reflexivity|].
  exact (proj1 (client_isolated (H := str) (auth := site_auth) _ _ _ _ _ E)).
Defined.

(** The answer, its frame and its credential *)
Definition site_answer : response :=
  match (handle (H := str) site_request 1000 sample_world).1 with
  | Ok r => r
  | Raise _ => invalid_request []
  end.
Definition site_reply : bytes :=
  z2b 255 :: match encode_response site_answer 3 with Ok f => f | Raise _ => [] end.

Example site_answer_delayed :
  match site_answer with
  | EvaluateResponse r => ReserveResponse.decision r = AdmissionDecision.DELAYED
  | _ => False
  end.
Proof. vm_compute. reflexivity. Qed.

Lemma request_answered_witness :
  _client (H := str) (auth := site_auth) site_config site_peer site_connection =
    (Ok Answered, mk_server (handle (H := str) site_request 1000 sample_world).2 tt []
       ([] ++ be_encode 4 (Z.of_nat (length site_reply)) ++ site_reply)).
Proof.
  apply (request_answered (H := str) (auth := site_auth) site_config site_peer sample_world tt []
    site_credential site_request 3 site_frame 1000 tt site_answer _
    (tail site_reply) site_reply tt).
  - vm_compute. reflexivity.
  - vm_compute. split; [reflexivity|discriminate].
  - vm_compute. reflexivity.
  - vm_compute. reflexivity.
  - apply list_elem_of_singleton. reflexivity.
  - vm_compute. discriminate.
  - apply run_outcome. vm_compute. reflexivity.
  - vm_compute. reflexivity.
  - vm_compute. reflexivity.
  - vm_compute. split; [reflexivity|discriminate].
  - reflexivity.
Defined.
