(* ===== verification/Authentication.v ===== *)
(** * MUNGE authentication ([authentication.py])

    The ctypes binding of libmunge. The library is a parameter; the blocks it
    allocates for its callers are modelled, since the binding has to free them,
    and so is that a C string ends at its first NUL. *)

From S2P Require Import Prelude Python Utf8 Effects Server.
Local Open Scope Z_scope.

Module PeerIdentity.
Record t := mk { uid : Z; gid : Z }.
End PeerIdentity.

(** What [munge_decode] returns and writes through its pointers: [None] is a
    null payload. An error may come with the payload and the identity, as for
    a credential that has expired or was decoded before. *)
Record decode_reply := mk_decode_reply {
  reply_code : Z;
  reply_payload : option bytes;
  reply_uid : Z;
  reply_gid : Z;
}.

Class Libmunge (A : Type) := {
  (** The code, and for 0 the credential *)
  munge_encode : bytes -> A -> (Z * bytes) * A;
  munge_decode : bytes -> A -> decode_reply * A;
  munge_strerror : Z -> option bytes;
}.

(** The library's state and the blocks it has handed out *)
Record munge {A : Type} := mk_munge { m_lib : A; m_heap : gmap positive bytes }.
Arguments munge : clear implicits.
Arguments mk_munge {A}.

(** The library the binding loads: the argument, or what [find_library] found *)
Definition library_name (argument found : option str) : result str :=
  let name := match argument with Some (_ :: _) => argument | _ => found end in
  match name with
  | Some ((_ :: _) as name) => Ok name
  | _ => Raise (AuthenticationError (txt "libmunge is not installed"))
  end.

(** ** C *)

(** A pointer to no block *)
Definition unused (heap : gmap positive bytes) : positive :=
  Pos.succ (foldr (fun block => Pos.max block.1) 1%positive (map_to_list heap)).

(** What C reads of a buffer as a string *)
Fixpoint c_string (bs : bytes) : bytes :=
  match bs with
  | [] => []
  | b :: bs => if bool_decide (b = Byte.x00) then [] else b :: c_string bs
  end.

(** [detail.decode("utf-8", "replace")] *)
Fixpoint utf8_decode_replace_go (fuel : nat) (bs : bytes) : str :=
  match bs, fuel with
  | b :: r, S n =>
      match utf8_step b r with
      | UChar c rest => c :: utf8_decode_replace_go n rest
      | UBad rest => 65533 :: utf8_decode_replace_go n rest
      end
  | _, _ => []
  end.

Definition utf8_decode_replace (bs : bytes) : str := utf8_decode_replace_go (length bs) bs.

Section binding.
Context {A : Type} {lib : Libmunge A}.
Local Abbreviation S := (munge A).

(** A block for a pointer the library writes *)
Definition malloc (content : bytes) : M S positive :=
  fun s => let p := unused (m_heap s) in (Ok p, mk_munge (m_lib s) (<[p := content]> (m_heap s))).

(** [self._free(p)] *)
Definition free (p : positive) : M S unit :=
  modify (fun s => mk_munge (m_lib s) (delete p (m_heap s))).

(** The content of a block; there is no other use of a pointer. *)
Definition block (p : positive) : M S bytes :=
  fun s => (or_raise (m_heap s !! p) (PyError OSError (txt "access violation")), s).

Definition library {B} (call : A -> B * A) : M S B :=
  fun s => let (b, a) := call (m_lib s) in (Ok b, mk_munge a (m_heap s)).

(** [self._error(code)] *)
Definition _error (code : Z) : exn :=
  let message := match munge_strerror code with
                 | Some ((_ :: _) as detail) => utf8_decode_replace detail
                 | _ => str_of_Z code
                 end in
  AuthenticationError (txt "MUNGE operation failed: " ++ message).

(** [encode]; that the payload is bytes holds by its type *)
Definition encode (payload : bytes) : M S bytes :=
  '(code, credential) ← library (munge_encode payload);
  _ ← raise_when (negb (code =? 0)) (_error code);
  credential ← malloc credential;
  try_finally (content ← block credential; mret (c_string content)) (free credential).

(** [if payload.value: self._free(payload)] *)
Definition free_payload (payload : option positive) : M S unit :=
  match payload with Some p => free p | None => mret tt end.

(** The call of [munge_decode], with the block of its payload *)
Definition call_decode (credential : bytes) : M S (decode_reply * option positive) :=
  reply ← library (munge_decode (c_string credential));
  payload ← match reply_payload reply with
            | Some content => p ← malloc content; mret (Some p)
            | None => mret None
            end;
  mret (reply, payload).

Definition decode (credential : bytes) : M S (PeerIdentity.t * bytes) :=
  _ ← raise_when (bool_decide (credential = []) || bool_decide (Byte.x00 ∈ credential))
        (AuthenticationError (txt "MUNGE credential framing is invalid"));
  '(reply, payload) ← call_decode credential;
  _ ← raise_when (negb (reply_code reply =? 0)) (_error (reply_code reply));
  decoded ← try_finally (match payload with Some p => block p | None => mret [] end)
              (free_payload payload);
  mret (PeerIdentity.mk (reply_uid reply) (reply_gid reply), decoded).
End binding.

(** The authenticator the server constructs *)
#[export] Instance munge_authenticator {A} `{Libmunge A} : Authenticator (munge A) := {|
  auth_decode credential := '(identity, frame) ← decode credential;
                            mret (PeerIdentity.uid identity, frame);
  auth_encode := encode;
|}.

(** ** Facts *)

Lemma c_string_whole bs : Byte.x00 ∉ bs -> c_string bs = bs.
Proof.
  induction bs as [|b bs IH]; simpl; [done|]. intros Hn.
  rewrite bool_decide_eq_false_2, IH by set_solver. done.
Qed.

Lemma c_string_no_nul bs : Byte.x00 ∉ c_string bs.
Proof.
  induction bs as [|b bs IH]; simpl; [by apply not_elem_of_nil|]. case_bool_decide; [by apply not_elem_of_nil|].
  apply not_elem_of_cons. by split; [congruence|].
Qed.

Lemma unused_free heap : heap !! unused heap = None.
Proof.
  destruct (heap !! unused heap) as [x|] eqn:E; [|done]. apply elem_of_map_to_list in E.
  assert (forall l, (unused heap, x) ∈ l ->
    (unused heap <= foldr (fun block => Pos.max block.1) 1 l)%positive) as Hmax.
  { induction l as [|b l IH]; [by intros ?%not_elem_of_nil|].
    intros [<-|Hl]%elem_of_cons; simpl; [lia|]. specialize (IH Hl). lia. }
  apply Hmax in E. unfold unused in E. lia.
Qed.

Section facts.
Context {A : Type} {lib : Libmunge A}.
Implicit Types s : munge A.

(** A block that is read and freed leaves the heap as it was. *)
Lemma read_and_free {B} (m : M (munge A) B) x content (a : A) h :
  let p := unused h in
  let s := mk_munge a (<[p := content]> h) in
  m s = (Ok x, s) -> try_finally m (free p) s = (Ok x, mk_munge a h).
Proof.
  intros p s Hm. pose proof (unused_free h) as Hp.
  unfold try_finally. rewrite Hm. unfold free, modify, s. simpl. by rewrite delete_insert_id.
Qed.

Lemma block_fresh content (a : A) h :
  let s := mk_munge a (<[unused h := content]> h) in
  block (unused h) s = (Ok content, s).
Proof. unfold block. simpl. by rewrite lookup_insert_eq. Qed.

(** What [encode] does to the library and the heap *)
Lemma encode_run payload s :
  let '(code, credential, a) := munge_encode payload (m_lib s) in
  encode payload s =
    (if code =? 0 then Ok (c_string credential) else Raise (_error code), mk_munge a (m_heap s)).
Proof.
  destruct (munge_encode payload (m_lib s)) as [[code credential] a] eqn:E.
  unfold encode. rewrite (m_bind_ok _ _ _ (code, credential) (mk_munge a (m_heap s)))
    by (unfold library; by rewrite E).
  destruct (code =? 0) eqn:Hc; cbn [negb raise_when]; [|done].
  apply read_and_free. by rewrite (m_bind_ok _ _ _ _ _ (block_fresh _ _ _)).
Qed.

(** What [decode] does with a well-framed credential *)
Lemma decode_run credential s :
  credential <> [] -> Byte.x00 ∉ credential ->
  let (reply, a) := munge_decode credential (m_lib s) in
  decode credential s =
    if reply_code reply =? 0 then
      (Ok (PeerIdentity.mk (reply_uid reply) (reply_gid reply), default [] (reply_payload reply)),
       mk_munge a (m_heap s))
    else
      (Raise (_error (reply_code reply)),
       mk_munge a (match reply_payload reply with
                   | Some content => <[unused (m_heap s) := content]> (m_heap s)
                   | None => m_heap s
                   end)).
Proof.
  intros Hne Hnul. destruct (munge_decode credential (m_lib s)) as [reply a] eqn:E.
  unfold decode. rewrite !bool_decide_eq_false_2 by done.
  assert (call_decode credential s = (Ok (reply, (fun _ => unused (m_heap s)) <$> reply_payload reply),
    mk_munge a (match reply_payload reply with
                | Some content => <[unused (m_heap s) := content]> (m_heap s)
                | None => m_heap s
                end))) as Hcall.
  { unfold call_decode. rewrite (c_string_whole _ Hnul).
    rewrite (m_bind_ok _ _ _ reply (mk_munge a (m_heap s))) by (unfold library; by rewrite E).
    by destruct (reply_payload reply). }
  cbn [orb raise_when]. rewrite (m_bind_ok _ _ _ tt s) by done.
  rewrite (m_bind_ok _ _ _ _ _ Hcall). cbv beta iota.
  destruct (reply_code reply =? 0); cbn [negb raise_when]; [|done].
  rewrite (m_bind_ok _ _ _ tt _) by done.
  destruct (reply_payload reply) as [content|]; [|done].
  by rewrite (m_bind_ok _ _ _ _ _ (read_and_free _ _ content a (m_heap s) (block_fresh _ _ _))).
Qed.
End facts.
