(* ===== verification/AuthenticationProps.v ===== *)
(** * Properties of the MUNGE authentication *)

From S2P Require Import Prelude Python Utf8 Effects Server Authentication.
Local Open Scope Z_scope.

(** A library that puts a byte before the payload, vouches for uid 1000, and
    refuses a credential it has decoded before, with its payload, as libmunge
    does (EMUNGE_CRED_REPLAYED is 17). Its state is the credentials seen. *)
Definition toy_munge : Libmunge (list bytes) := {|
  munge_encode payload seen := ((0, Byte.xff :: payload), seen);
  munge_decode credential seen :=
    match credential with
    | Byte.xff :: payload =>
        (mk_decode_reply (if bool_decide (credential ∈ seen) then 17 else 0) (Some payload) 1000 100,
         credential :: seen)
    | _ => (mk_decode_reply 5 None 0 0, seen)
    end;
  munge_strerror code := if code =? 17 then Some (map z2b (txt "Replayed credential")) else None;
|}.

(** ** Properties *)

(** C30 A credential is accepted only when libmunge vouches for exactly these
    bytes: it is not empty, no NUL cuts it short, and the library returns no
    error; the identity and the payload are the library's, and its memory is
    freed. In every other case the binding raises [AuthenticationError], and
    the memory is freed except for the payload of a refused credential, which
    stays allocated. *)
Theorem credential_authenticated {A} {lib : Libmunge A} credential (s : munge A) r s' :
  decode credential s = (r, s') ->
  match r with
  | Ok (identity, payload) =>
      credential <> [] /\ (Byte.x00 ∉ credential) /\ m_heap s' = m_heap s /\
      exists reply, munge_decode credential (m_lib s) = (reply, m_lib s') /\ reply_code reply = 0 /\
        identity = PeerIdentity.mk (reply_uid reply) (reply_gid reply) /\
        payload = default [] (reply_payload reply)
  | Raise e =>
      (exists m, e = AuthenticationError m) /\
      (m_heap s' = m_heap s \/
       exists reply content, munge_decode credential (m_lib s) = (reply, m_lib s') /\
         reply_code reply <> 0 /\ reply_payload reply = Some content /\
         m_heap s' = <[unused (m_heap s) := content]> (m_heap s))
  end.
Proof.
  intros Hd.
  destruct (decide (credential = [])) as [->|Hne]; [injection Hd as <- <-; eauto|].
  destruct (decide (Byte.x00 ∈ credential)) as [Hin|Hnul].
  { unfold decode in Hd. rewrite (bool_decide_eq_true_2 (_ ∈ _)), orb_true_r in Hd by done.
    injection Hd as <- <-. eauto. }
  pose proof (decode_run credential s Hne Hnul) as Hrun. rewrite Hd in Hrun.
  destruct (munge_decode credential (m_lib s)) as [reply a] eqn:E.
  destruct (Z.eqb_spec (reply_code reply) 0) as [Hc|Hc]; injection Hrun as -> ->; simpl.
  - split_and!; [done..|]. by exists reply.
  - split; [by eexists|]. destruct (reply_payload reply) as [content|] eqn:Ep; [right|by left].
    by exists reply, content.
Qed.

(** The credential of a payload, seen for the first time and again *)
Lemma credential_authenticated_witness :
  let s := mk_munge (A := list bytes) [] ∅ in
  let credential := [Byte.xff; Byte.x07] in
  let s1 := mk_munge [credential] ∅ in
  let replayed := AuthenticationError (txt "MUNGE operation failed: Replayed credential") in
  decode (lib := toy_munge) credential s = (Ok (PeerIdentity.mk 1000 100, [Byte.x07]), s1) /\
  m_heap s1 = m_heap s /\
  (decode (lib := toy_munge) credential s1).1 = Raise replayed /\
  exists m, replayed = AuthenticationError m.
Proof.
  intros s credential s1 replayed.
  assert (decode (lib := toy_munge) credential s = (Ok (PeerIdentity.mk 1000 100, [Byte.x07]), s1)) as H1
    by (vm_compute; reflexivity).
  assert (decode (lib := toy_munge) credential s1
    = (Raise replayed, (decode (lib := toy_munge) credential s1).2)) as H2
    by (vm_compute; reflexivity).
  split; [exact H1|]. split; [|split; [by rewrite H2|]].
  - exact (proj1 (proj2 (proj2 (credential_authenticated credential s _ s1 H1)))).
  - exact (proj1 (credential_authenticated credential s1 (Raise replayed) _ H2)).
Defined.

(** A replayed credential leaves its payload allocated. *)
Example replay_leaks :
  let s := mk_munge (A := list bytes) [[Byte.xff; Byte.x07]] ∅ in
  let (r, s') := decode (lib := toy_munge) [Byte.xff; Byte.x07] s in
  r = Raise (AuthenticationError (txt "MUNGE operation failed: Replayed credential")) /\
  map_to_list (m_heap s') = [(2%positive, [Byte.x07])].
Proof. vm_compute. split; reflexivity. Qed.

(** A credential that the library encodes is decoded to its payload, whenever
    the library decodes what it encodes. *)
Theorem encoded_credential_decodes {A} {lib : Libmunge A} payload (s : munge A) credential s1 :
  encode payload s = (Ok credential, s1) -> credential <> [] ->
  (forall bs a, munge_encode payload (m_lib s) = ((0, bs), a) ->
     exists reply a', munge_decode (c_string bs) a = (reply, a') /\ reply_code reply = 0 /\
       default [] (reply_payload reply) = payload) ->
  m_heap s1 = m_heap s /\
  exists identity s2, decode credential s1 = (Ok (identity, payload), s2) /\ m_heap s2 = m_heap s.
Proof.
  intros He Hne Hlib. pose proof (encode_run payload s) as Hrun. rewrite He in Hrun.
  destruct (munge_encode payload (m_lib s)) as [[code bs] a] eqn:E.
  destruct (Z.eqb_spec code 0) as [->|]; [|done]. injection Hrun as -> ->.
  destruct (Hlib bs a eq_refl) as (reply & a' & Hd & Hc & <-). split; [done|].
  pose proof (decode_run (c_string bs) (mk_munge a (m_heap s)) Hne (c_string_no_nul bs)) as Hrun.
  simpl in Hrun. rewrite Hd, Hc in Hrun. simpl in Hrun. by do 2 eexists.
Qed.
