(* ===== verification/Paths.v ===== *)
(** * Paths ([pathlib.PurePosixPath])

    A path is its root and its components; empty components and [.] are
    dropped when it is made. *)

From S2P Require Import Prelude Python.
Local Open Scope Z_scope.

Record path := mk_path { path_root : str; path_parts : list str }.

#[export] Instance path_eq_dec : EqDecision path.
Proof. solve_decision. Defined.

(** The root of a path: exactly two leading slashes are kept. *)
Definition root_of (s : str) : str :=
  match s with
  | 47 :: 47 :: 47 :: _ => [47]
  | 47 :: 47 :: _ => [47; 47]
  | 47 :: _ => [47]
  | _ => []
  end.

Definition is_component (s : str) : bool :=
  negb (bool_decide (s = [])) && negb (bool_decide (s = [46])).

(** [Path(s)] *)
Definition Path (s : str) : path := mk_path (root_of s) (List.filter is_component (split_on 47 s)).

(** [str(p)] *)
Definition path_str (p : path) : str :=
  let s := path_root p ++ join [47] (path_parts p) in
  if bool_decide (s = []) then [46] else s.

Definition is_absolute (p : path) : bool := negb (bool_decide (path_root p = [])).

(** [p / q] *)
Definition path_div (p q : path) : path :=
  if is_absolute q then q else mk_path (path_root p) (path_parts p ++ path_parts q).

Definition path_parent (p : path) : path := mk_path (path_root p) (removelast (path_parts p)).
