(* ===== verification/Launcher.v ===== *)
(** * The launchers ([launcher.py], [qfw_slurm_inspect/bootstrap.py], [qfw_slurm_common/defw.py])

    The environment and the command line under which the gateway and the
    inspection commands run as DEFw processes. Files, the resolver and the
    process environment are parameters; the last step, [os.execv], is the value
    the launcher returns. *)

From S2P Require Import Prelude Python Values Config Paths.
From Stdlib Require Import SpecFloat.
Local Open Scope Z_scope.

(** ** [qfw_slurm_common.client_environment] *)

Definition environment := list (str * str).

Definition client_environment : environment :=
  [(txt "DEFW_ONLY_LOAD_MODULE", txt "api_dirsvc")].

(** [environment[key] = value] and [environment.update(other)] *)
Fixpoint env_set (key value : str) (e : environment) : environment :=
  match e with
  | [] => [(key, value)]
  | (k, v) :: e => if decide (k = key) then (k, value) :: e else (k, v) :: env_set key value e
  end.

Definition env_update (e other : environment) : environment :=
  foldl (fun e kv => env_set kv.1 kv.2 e) e other.

(** ** The operating system *)

Class LauncherEnv := {
  getenv : str -> option str;
  (** [json.loads(path.read_text(encoding="utf-8"))] *)
  load_json : path -> result pyval;
  (** [except (OSError, json.JSONDecodeError)] *)
  is_json_error : exn -> bool;
  expanduser : path -> result path;
  resolve : path -> result path;
  is_file : path -> result bool;
  is_executable : path -> bool;
  (** [Path(sys.prefix)] *)
  sys_prefix : str;
  gethostbyname : str -> result str;
  (** The port [bind(("", 0))] gives *)
  free_port : result Z;
  (** [int(v)] and [bool(v)] of [YOther] *)
  int_of_other : result Z;
  truth_of_other : bool;
}.

(** ** Endpoints *)

Fixpoint find_char (c : Z) (s : str) : option nat :=
  match s with
  | [] => None
  | x :: s => if x =? c then Some 0%nat else S <$> find_char c s
  end.

(** [s.rsplit(c, 1)] into two parts; [None] when there is one *)
Fixpoint rsplit (c : Z) (s : str) : option (str * str) :=
  match s with
  | [] => None
  | x :: s =>
      match rsplit c s with
      | Some (a, b) => Some (x :: a, b)
      | None => if x =? c then Some ([], s) else None
      end
  end.

(** The host and the text of the port; [None] where the code gives up *)
Definition host_and_port (endpoint : str) : option (str * str) :=
  if startswith [91] endpoint then
    match find_char 93 endpoint with
    | Some end_ =>
        if Nat.ltb end_ 2 || negb (bool_decide (endpoint !! S end_ = Some 58)) then None
        else Some (take (end_ - 1) (drop 1 endpoint), drop (end_ + 2) endpoint)
    | None => None
    end
  else rsplit 58 endpoint.

Definition valid_port (host : str) (port : Z) : bool :=
  negb (bool_decide (host = [])) && (1 <=? port) && (port <=? 65535).

Section launcher.
Context {ucd : UnicodeData} {cenv : ConfigEnv} {env : LauncherEnv}.

Definition _endpoint (value : option str) : result (str * Z * str) :=
  let invalid e := ConfigurationError (txt "invalid directory service endpoint " ++ repr e) in
  match strip <$> value with
  | None | Some [] => bad (txt "directory service endpoint must be a nonempty string")
  | Some endpoint =>
      match host_and_port endpoint with
      | None => Raise (invalid endpoint)
      | Some (host, port_text) =>
          match int_of_str port_text with
          | None => Raise (invalid endpoint)
          | Some port =>
              if valid_port host port then Ok (host, port, endpoint) else Raise (invalid endpoint)
          end
      end
  end.

(** ** The connection file *)

Definition is_name_start (c : Z) : bool :=
  ((65 <=? c) && (c <=? 90)) || ((97 <=? c) && (c <=? 122)) || (c =? 95).
Definition is_name_char (c : Z) : bool := is_name_start c || ((48 <=? c) && (c <=? 57)).

Fixpoint name_chars (s : str) : str :=
  match s with
  | c :: s => if is_name_char c then c :: name_chars s else []
  | [] => []
  end.

(** What the pattern matches after a dollar sign: the name in braces *)
Definition reference (s : str) : option str :=
  match s with
  | 123 :: s =>
      let name := name_chars s in
      match name with
      | c :: _ =>
          if is_name_start c && bool_decide (s !! length name = Some 125) then Some name else None
      | [] => None
      end
  | _ => None
  end.

(** The value of a reference *)
Definition replace (name : str) : result str :=
  match getenv name with
  | Some ((_ :: _) as selected) => Ok selected
  | _ => bad (txt "directory-service.connection-file references unset or empty environment variable ${"
              ++ name ++ txt "}")
  end.

(** [_ENVIRONMENT_REFERENCE.sub(replace, value)]; [skip] characters belong to
    the match before *)
Fixpoint substitute (skip : nat) (s : str) : result str :=
  match s with
  | [] => Ok []
  | c :: s =>
      match skip with
      | S skip => substitute skip s
      | O =>
          match (if c =? 36 then reference s else None) with
          | Some name => v ← replace name; t ← substitute (length name + 2) s; Ok (v ++ t)
          | None => t ← substitute 0 s; Ok (c :: t)
          end
      end
  end.

Definition _expand_path (value : yaml) (base : path) : result path :=
  match value with
  | YStr ((_ :: _) as value) =>
      expanded ← substitute 0 value;
      _ ← raise_if (bool_decide (36 ∈ expanded)) (ConfigurationError
            (txt "directory-service.connection-file contains an unsupported environment reference"));
      p ← expanduser (Path expanded);
      resolve (if is_absolute p then p else path_div base p)
  | _ => bad (txt "directory-service.connection-file must be a path")
  end.

(** ** The site configuration *)

(** [bool(value)] *)
Definition ytruthy (v : yaml) : bool :=
  match v with
  | YNull => false
  | YBool b => b
  | YInt z => negb (z =? 0)
  | YFloat f => if f is S754_zero _ then false else true
  | YStr s => negb (bool_decide (s = []))
  | YList l => if l is [] then false else true
  | YMap d => if d is [] then false else true
  | YOther => truth_of_other
  end.

Definition ystr (v : yaml) : str := if v is YStr s then s else text_of v.

Definition _read_site_config (site_config : path) : result (list (str * yaml)) :=
  match load_yaml (path_str site_config) with
  | Ok raw => _mapping (if ytruthy raw then raw else YMap []) (txt "QFw site configuration")
  | Raise e =>
      if is_yaml_error e then
        bad (txt "cannot read QFw site config " ++ path_str site_config ++ txt ": " ++ exn_str e)
      else Raise e
  end.

(** [int(x)] of a float: towards zero *)
Definition int_of_float (f : spec_float) : result Z :=
  match f with
  | S754_zero _ => Ok 0
  | S754_finite s m e =>
      let z := if 0 <=? e then Z.pos m * 2 ^ e else Z.pos m / 2 ^ (- e) in
      Ok (if s then - z else z)
  | S754_nan => Raise (PyError ValueError (txt "cannot convert float NaN to integer"))
  | S754_infinity _ => Raise (PyError OverflowError (txt "cannot convert float infinity to integer"))
  end.

(** [int(timeout)] with what the handler does with [TypeError] and [ValueError] *)
Definition timeout_of (timeout : yaml) : result Z :=
  let refused := ConfigurationError (txt "directory-service.connect-timeout-seconds must be positive") in
  match timeout with
  | YBool _ => Raise refused
  | YInt z => Ok z
  | YFloat f =>
      match int_of_float f with Raise (PyError ValueError _) => Raise refused | r => r end
  | YStr s => match int_of_str s with Some z => Ok z | None => Raise refused end
  | YOther =>
      match int_of_other with
      | Raise (PyError TypeError _) | Raise (PyError ValueError _) => Raise refused
      | r => r
      end
  | _ => Raise refused
  end.

(** The endpoint value and name of a connection record *)
Definition record_endpoint (record : pyval) : result (option str * str) :=
  match record with
  | PDict record =>
      let get key := default PNone (assoc (txt key) record) in
      _ ← raise_if (negb (bool_decide (get "schema"%string = PStr (txt "qfw-directory-service-v1"))))
            (ConfigurationError (txt "unsupported directory service connection record schema"));
      _ ← raise_if (negb (bool_decide (get "ready"%string = PBool true)))
            (ConfigurationError (txt "directory service is not ready"));
      let name := get "name"%string in
      let endpoint_name := strip (py_str (if truthy name then name else PStr [])) in
      _ ← raise_if (bool_decide (endpoint_name = []))
            (ConfigurationError (txt "directory service connection record lacks a name"));
      Ok (if get "endpoint"%string is PStr s then Some s else None, endpoint_name)
  | _ => bad (txt "directory service connection record must be a mapping")
  end.

Definition read_record (connection_path : path) : result pyval :=
  match load_json connection_path with
  | Ok record => Ok record
  | Raise e =>
      if is_json_error e then
        bad (txt "cannot read directory service connection record "
             ++ path_str connection_path ++ txt ": " ++ exn_str e)
      else Raise e
  end.

(** Where the directory is: the endpoint, its name and the connection file used *)
Definition located (directory : list (str * yaml)) (name : str) (base : path)
    : result (option str * str * option path) :=
  let connection_file := optional directory "connection-file" YNull in
  let endpoint_value := optional directory "endpoint" YNull in
  if ytruthy endpoint_value then
    Ok (if endpoint_value is YStr s then Some s else None, name, None)
  else if ytruthy connection_file then
    connection_path ← _expand_path connection_file base;
    record ← read_record connection_path;
    '(endpoint, endpoint_name) ← record_endpoint record;
    Ok (endpoint, endpoint_name, Some connection_path)
  else bad (txt "directory-service requires connection-file or endpoint").

(** [try: gethostbyname(host) except OSError: host] *)
Definition parent_address (host : str) : result str :=
  match gethostbyname host with
  | Ok address => Ok address
  | Raise (PyError OSError _) => Ok host
  | Raise e => Raise e
  end.

Definition site_environment (site_config endpoint name timeout address host : str) (listen port : Z)
    : environment :=
  [(txt "QFW_SITE_CONFIG", site_config);
   (txt "QFW_SITE_DIRSVC_ENDPOINTS", endpoint);
   (txt "QFW_SITE_DIRSVC_NAME", name);
   (txt "QFW_DIRSVC_CONNECT_TIMEOUT_SECONDS", timeout);
   (txt "DEFW_DISABLE_DIRSVC", txt "no");
   (txt "DEFW_AGENT_TYPE", txt "agent");
   (txt "DEFW_SHELL_TYPE", txt "cmdline");
   (txt "DEFW_LISTEN_PORT", str_of_Z listen);
   (txt "DEFW_PARENT_ADDR", address);
   (txt "DEFW_PARENT_HOSTNAME", host);
   (txt "DEFW_PARENT_PORT", str_of_Z port);
   (txt "DEFW_PARENT_NAME", name)].

Definition directory_environment (site_config : path) : result environment :=
  root ← _read_site_config site_config;
  directory ← _mapping (optional root "directory-service" YNull) (txt "directory-service");
  let name := optional directory "name" YNull in
  let name := strip (ystr (if ytruthy name then name else YStr (txt "qfw-site-dirsvc"))) in
  timeout ← timeout_of (optional directory "connect-timeout-seconds" (YInt 300));
  _ ← raise_if (bool_decide (name = []) || (timeout <=? 0))
        (ConfigurationError (txt "directory-service name and connect timeout must be valid"));
  '(endpoint_value, endpoint_name, connection_path) ← located directory name (path_parent site_config);
  '(host, port, endpoint) ← _endpoint endpoint_value;
  address ← parent_address host;
  listen ← free_port;
  let e := env_update (site_environment (path_str site_config) endpoint endpoint_name
                         (str_of_Z timeout) address host listen port) client_environment in
  Ok (match connection_path with
      | Some p => env_set (txt "QFW_DIRECTORY_SERVICE_INFO") (path_str p) e
      | None => e
      end).

(** ** The command *)

(** A variable that is set and not empty *)
Definition required_variable (name : string) (e : exn) : result str :=
  match getenv (txt name) with Some ((_ :: _) as v) => Ok v | _ => Raise e end.

Definition defwp_command (config : GatewayConfig) (arguments : list str) : result (list str) :=
  exists_ ← is_file (Path (qfw_activation config));
  _ ← raise_if (negb exists_) (ConfigurationError
        (txt "QFw activation script does not exist: " ++ path_str (Path (qfw_activation config))));
  qfw_prefix ← required_variable "QFW_PREFIX" (ConfigurationError
        (txt "QFW_PREFIX is unset; activate the configured QFw installation"));
  active ← resolve (path_div (Path qfw_prefix) (Path (txt "bin/qfw-activate")));
  configured ← resolve (Path (qfw_activation config));
  _ ← raise_if (negb (bool_decide (active = configured))) (ConfigurationError
        (txt "active QFw prefix " ++ qfw_prefix ++ txt " does not provide configured activation "
         ++ path_str (Path (qfw_activation config))));
  prefix ← resolve (Path sys_prefix);
  venv ← resolve (Path (qfw_venv config));
  _ ← raise_if (negb (bool_decide (prefix = venv))) (ConfigurationError
        (txt "gateway is using " ++ sys_prefix ++ txt ", expected QFw venv "
         ++ path_str (Path (qfw_venv config))));
  defw_prefix ← required_variable "DEFW_PREFIX" (ConfigurationError
        (txt "DEFW_PREFIX is unset; activate the configured QFw installation"));
  let defwp := path_div (Path defw_prefix) (Path (txt "bin/defwp")) in
  exists_ ← is_file defwp;
  _ ← raise_if (negb exists_ || negb (is_executable defwp))
        (ConfigurationError (txt "DEFw launcher does not exist: " ++ path_str defwp));
  Ok (path_str defwp :: txt "-m" :: txt "qfw_slurm_gateway" :: arguments).

(** [main], up to [os.execv] of the command in the updated environment *)
Definition launch (config_path : str) (arguments : list str) : result (environment * list str) :=
  _ ← raise_if (bool_decide (arguments = []))
        (SystemExit (txt "a qfw-slurm-gateway command is required"));
  let prepared :=
    config ← load_config config_path true;
    e ← directory_environment (Path (qfw_site_config config));
    command ← defwp_command config (txt "--config" :: config_path :: arguments);
    Ok (e, command) in
  match prepared with
  | Raise (ConfigurationError m) => Raise (SystemExit (txt "qfw-slurm-gateway-launch: " ++ m))
  | r => r
  end.
End launcher.

(** ** The inspection commands *)

Module Bootstrap.

(** [qfw_runtime.config], which may not be installed *)
Class Runtime := {
  available : bool;
  resolve_site_config : option str -> result path;
  load_yaml : path -> result pyval;
  site_directory : pyval -> path -> result (list (str * pyval));
}.

(** [isinstance(error, ValueError)] and [OSError], by class *)
Definition is_value_error (cls : py_class) : bool :=
  match cls with
  | ValueError | UnicodeEncodeError | UnicodeDecodeError | JSONDecodeError => true
  | _ => false
  end.
Definition is_os_error (cls : py_class) : bool :=
  match cls with OSError | TimeoutError => true | _ => false end.

Definition launch_error (e : exn) : bool :=
  match e with
  | InspectionBootstrapError _ => true
  | PyError cls _ => is_value_error cls || is_os_error cls
  | _ => false
  end.

Section bootstrap.
Context {ucd : UnicodeData} {env : LauncherEnv} {runtime : Runtime}.

Definition _split_endpoint (endpoint : str) : result (str * Z) :=
  let invalid := InspectionBootstrapError (txt "invalid directory endpoint " ++ repr endpoint) in
  match host_and_port endpoint with
  | None => Raise invalid
  | Some (host, port_text) =>
      match int_of_str port_text with
      | None => Raise invalid
      | Some port => if valid_port host port then Ok (host, port) else Raise invalid
      end
  end.

(** The last [--site-config] of the command line *)
Fixpoint explicit_site (explicit : option str) (arguments : list str) : option str :=
  match arguments with
  | [] => explicit
  | argument :: rest =>
      explicit_site
        (match rest with
         | value :: _ =>
             if bool_decide (argument = txt "--site-config") then Some value
             else if startswith (txt "--site-config=") argument then Some (drop 14 argument)
             else explicit
         | [] =>
             if startswith (txt "--site-config=") argument then Some (drop 14 argument)
             else explicit
         end) rest
  end.

Definition _directory_configuration (arguments : list str)
    : result (path * list (str * pyval)) :=
  _ ← raise_if (negb available) (InspectionBootstrapError
        (txt "QFw runtime is unavailable; activate QFw before running this command"));
  site_path ← resolve_site_config (explicit_site None arguments);
  site ← load_yaml site_path;
  directory ← site_directory site site_path;
  _ ← raise_if (negb (truthy (default PNone (assoc (txt "endpoint") directory))))
        (InspectionBootstrapError
           (txt "QFw site configuration did not resolve a directory endpoint"));
  Ok (site_path, directory).

Definition _directory_environment (site_path : path) (directory : list (str * pyval))
    : result environment :=
  endpoint ← py_item (PDict directory) (txt "endpoint");
  '(host, port) ← _split_endpoint (py_str endpoint);
  address ← parent_address host;
  let name := default PNone (assoc (txt "name") directory) in
  let name := if truthy name then py_str name else txt "qfw-site-dirsvc" in
  let timeout := default (PInt 300) (assoc (txt "connect_timeout_seconds") directory) in
  listen ← free_port;
  let e := env_update (site_environment (path_str site_path) (py_str endpoint) name
                         (py_str timeout) address host listen port) client_environment in
  let connection_file := default PNone (assoc (txt "connection_file") directory) in
  Ok (if truthy connection_file
      then env_set (txt "QFW_DIRECTORY_SERVICE_INFO") (py_str connection_file) e else e).

(** What a command becomes: its [main] in this process, to print its help, or
    what [os.execv] is given *)
Inductive launching :=
| InPlace (module : str)
| Executed (e : environment) (command : list str).

Definition asks_help (arguments : list str) : bool :=
  existsb (fun a => bool_decide (a = txt "-h") || bool_decide (a = txt "--help")) arguments.

(** The part of [_launch] for a command that does not ask for help *)
Definition execute (program module : str) (arguments : list str) : result launching :=
  let prepared :=
    '(site_path, directory) ← _directory_configuration arguments;
    e ← _directory_environment site_path directory;
    defw_prefix ← required_variable "DEFW_PREFIX" (InspectionBootstrapError
      (txt "DEFW_PREFIX is unset; activate QFw before running this command"));
    let defwp := path_div (Path defw_prefix) (Path (txt "bin/defwp")) in
    exists_ ← is_file defwp;
    _ ← raise_if (negb exists_ || negb (is_executable defwp))
          (InspectionBootstrapError (txt "DEFw launcher is not executable: " ++ path_str defwp));
    Ok (Executed e (path_str defwp :: txt "-m" :: module :: arguments)) in
  match prepared with
  | Raise e => if launch_error e then Raise (SystemExit (program ++ txt ": " ++ exn_str e)) else Raise e
  | r => r
  end.

Definition _launch (program module help_module : str) (arguments : list str) : result launching :=
  if asks_help arguments then
    Ok (InPlace (if endswith (txt ".sinfo") help_module then txt "sinfo" else txt "squeue"))
  else execute program module arguments.

Definition sinfo_main : list str -> result launching :=
  _launch (txt "qfw-sinfo") (txt "qfw_slurm_inspect.sinfo") (txt "qfw_slurm_inspect.sinfo").
Definition squeue_main : list str -> result launching :=
  _launch (txt "qfw-squeue") (txt "qfw_slurm_inspect.squeue") (txt "qfw_slurm_inspect.squeue").

(** [finish_defw_command], given what [defw.me.exit()] raises *)
Definition finish_defw_command (raised : option exn) (status : Z) : result unit :=
  match raised with
  | None => Ok tt
  | Some (SystemExit _) => Raise (SystemExit (str_of_Z status))
  | Some e => Raise e
  end.
End bootstrap.
End Bootstrap.
