(* ===== verification/LauncherProps.v ===== *)
(** * Properties of the launchers *)

From S2P Require Import Prelude Python Values Config ConfigProps Paths Launcher.
Local Open Scope Z_scope.

(** ** Endpoints *)

Lemma rsplit_none c s : c ∉ s -> rsplit c s = None.
Proof.
  induction s as [|x s IH]; intros Hc; simpl; [done|].
  apply not_elem_of_cons in Hc as [Hx Hs]. rewrite IH by done. by destruct (Z.eqb_spec x c).
Qed.

Lemma rsplit_some c a b : c ∉ b -> rsplit c (a ++ c :: b) = Some (a, b).
Proof.
  intros Hb. induction a as [|x a IH]; simpl; [by rewrite rsplit_none, Z.eqb_refl|]. by rewrite IH.
Qed.

Lemma rsplit_iff c s a b : rsplit c s = Some (a, b) <-> s = a ++ c :: b /\ c ∉ b.
Proof.
  split; [|intros [-> Hb]; by apply rsplit_some].
  intros H. destruct (decide (c ∈ s)) as [Hin|Hno]; [|by rewrite rsplit_none in H].
  apply list_elem_of_split_r in Hin as (l1 & l2 & -> & Hl2).
  rewrite rsplit_some in H by done. by injection H as -> ->.
Qed.

Lemma find_char_iff c s n : find_char c s = Some n <-> s !! n = Some c /\ c ∉ take n s.
Proof.
  revert n. induction s as [|x s IH]; intros n; simpl; [by split; [|intros [? _]]|].
  destruct (Z.eqb_spec x c) as [->|Hne].
  - destruct n as [|n]; simpl; [split; [split; [done|apply not_elem_of_nil]|done]|].
    split; [done|]. intros [_ Hn]. destruct Hn. left.
  - rewrite fmap_Some. destruct n as [|n]; simpl.
    + split; [by intros (? & _ & ?)|]. by intros [[= ?] _].
    + setoid_rewrite IH. rewrite not_elem_of_cons. split.
      * intros (m & Hm & [= ->]). naive_solver.
      * intros (Hl & _ & Hn). by exists n.
Qed.

Lemma startswith_char c s : startswith [c] s = true <-> exists t, s = c :: t.
Proof.
  unfold startswith. rewrite bool_decide_eq_true. simpl. destruct s as [|x s]; simpl.
  - split; [done|]. by intros [? ?].
  - split; [intros [= ->]; by exists s|]. intros [t [= -> ->]]. by destruct t.
Qed.

(** The two forms of an endpoint: the last colon separates the port, or the
    host is in brackets. *)
Definition endpoint_form (endpoint host port_text : str) : Prop :=
  (endpoint = host ++ 58 :: port_text /\ (58 ∉ port_text) /\ ~ (exists t, endpoint = 91 :: t)) \/
  (endpoint = 91 :: host ++ 93 :: 58 :: port_text /\ (93 ∉ host) /\ host <> []).

Lemma host_and_port_iff endpoint host port_text :
  host_and_port endpoint = Some (host, port_text) <-> endpoint_form endpoint host port_text.
Proof.
  unfold host_and_port, endpoint_form. destruct (startswith [91] endpoint) eqn:E.
  - apply startswith_char in E as [s ->]. split.
    + destruct (find_char 93 (91 :: s)) as [n|] eqn:Ef; [|done].
      apply find_char_iff in Ef as [Hn Hno]. destruct n as [|n]; [done|]. simpl in Hn, Hno.
      destruct (Nat.ltb_spec (S n) 2) as [|Hlt]; [done|]. simpl.
      case_bool_decide as Hc; [|done]. simpl. rewrite Nat.sub_0_r, drop_0.
      intros [= <- <-]. right. split_and!.
      * f_equal. rewrite <-(take_drop_middle s n 93 Hn) at 1. do 2 f_equal.
        rewrite <-(take_drop_middle (drop (S n) s) 0 58); [|by rewrite lookup_drop, Nat.add_0_r].
        simpl. rewrite drop_drop. f_equal. f_equal. lia.
      * apply not_elem_of_cons in Hno as [_ Hno]. done.
      * intros Ht. apply (f_equal length) in Ht. rewrite length_take in Ht.
        apply lookup_lt_Some in Hn. simpl in Ht. lia.
    + intros [(_ & _ & Hno)|([= ->] & Hno & Hne)]; [destruct Hno; by eexists|].
      assert (find_char 93 (91 :: host ++ 93 :: 58 :: port_text) = Some (S (length host))) as ->.
      { apply find_char_iff. simpl. rewrite lookup_app_r, Nat.sub_diag, take_app_length by done.
        split; [done|]. by apply not_elem_of_cons. }
      destruct (Nat.ltb_spec (S (length host)) 2) as [Hlt|_]; [destruct host; [done|simpl in Hlt; lia]|].
      simpl. rewrite lookup_app_r by lia. replace (S (length host) - length host)%nat with 1%nat by lia.
      simpl. rewrite Nat.sub_0_r, drop_0, take_app_length. do 2 f_equal.
      rewrite drop_app_ge by lia. by replace (length host + 2 - length host)%nat with 2%nat by lia.
  - rewrite rsplit_iff. split.
    + intros [-> Hno]. left. split_and!; [done..|]. intros Ht. apply startswith_char in Ht. congruence.
    + intros [(-> & Hno & _)|(-> & _)]; [done|].
      assert (startswith [91] (91 :: host ++ 93 :: 58 :: port_text) = true)
        by (apply startswith_char; by eexists). congruence.
Qed.

Section facts.
Context {ucd : UnicodeData}.

(** The gateway's and the inspection commands' parsers agree, the blanks around
    the endpoint apart. *)
Lemma endpoint_agrees value endpoint :
  strip <$> value = Some endpoint -> endpoint <> [] ->
  match _endpoint value, Bootstrap._split_endpoint endpoint with
  | Ok (host, port, e), Ok (host', port') => host = host' /\ port = port' /\ e = endpoint
  | Raise (ConfigurationError _), Raise (InspectionBootstrapError _) => True
  | _, _ => False
  end.
Proof.
  intros E Hne. unfold _endpoint, Bootstrap._split_endpoint. rewrite E.
  destruct endpoint as [|c s]; [done|].
  destruct (host_and_port (c :: s)) as [[host port_text]|]; [|done].
  destruct (int_of_str port_text) as [port|]; [|done]. by destruct (valid_port host port).
Qed.

Lemma valid_port_spec host port : valid_port host port = true <-> host <> [] /\ 1 <= port <= 65535.
Proof.
  unfold valid_port. rewrite !andb_true_iff, negb_true_iff, bool_decide_eq_false, !Z.leb_le. tauto.
Qed.

Lemma split_endpoint_iff endpoint host port :
  Bootstrap._split_endpoint endpoint = Ok (host, port) <->
  exists port_text, endpoint_form endpoint host port_text /\ int_of_str port_text = Some port /\
    host <> [] /\ 1 <= port <= 65535.
Proof.
  unfold Bootstrap._split_endpoint. split.
  - destruct (host_and_port endpoint) as [[h t]|] eqn:Eh; [|done].
    destruct (int_of_str t) as [p|] eqn:Ep; [|done].
    destruct (valid_port h p) eqn:Ev; [|done]. intros [= -> ->].
    exists t. apply host_and_port_iff in Eh. by apply valid_port_spec in Ev.
  - intros (t & Hf & Hp & Hv). apply host_and_port_iff in Hf. apply valid_port_spec in Hv.
    by rewrite Hf, Hp, Hv.
Qed.

Lemma endpoint_ok value host port endpoint :
  _endpoint value = Ok (host, port, endpoint) ->
  strip <$> value = Some endpoint /\ Bootstrap._split_endpoint endpoint = Ok (host, port).
Proof.
  intros H. destruct (strip <$> value) as [[|c s]|] eqn:E.
  - unfold _endpoint in H. by rewrite E in H.
  - pose proof (endpoint_agrees value (c :: s) E ltac:(done)) as Ha. rewrite H in Ha.
    destruct (Bootstrap._split_endpoint (c :: s)) as [[h p]|] eqn:Es; [|done].
    destruct Ha as (-> & -> & ->). by rewrite Es.
  - unfold _endpoint in H. by rewrite E in H.
Qed.
End facts.

(** ** The environment *)

Fixpoint env_get (key : str) (e : environment) : option str :=
  match e with
  | [] => None
  | (k, v) :: e => if decide (k = key) then Some v else env_get key e
  end.

Lemma env_get_set key value e : env_get key (env_set key value e) = Some value.
Proof.
  induction e as [|[k v] e IH]; simpl; [by rewrite decide_True|].
  destruct (decide (k = key)) as [->|Hne]; simpl; [by rewrite decide_True|]. by rewrite decide_False.
Qed.

Lemma env_get_set_ne key key' value e :
  key <> key' -> env_get key (env_set key' value e) = env_get key e.
Proof.
  intros Hne. induction e as [|[k v] e IH]; simpl; [by rewrite decide_False by done|].
  destruct (decide (k = key')) as [->|Hk]; simpl; [by rewrite !decide_False by done|].
  by rewrite IH.
Qed.

(** ** References to variables *)

Inductive segment :=
| Literal (s : str)
| Reference (name : str).

Definition segment_text (g : segment) : str :=
  match g with Literal s => s | Reference name => 36 :: 123 :: name ++ [125] end.

(** A literal has no dollar sign, a reference an identifier. *)
Definition segment_ok (g : segment) : Prop :=
  match g with
  | Literal s => 36 ∉ s
  | Reference name =>
      (exists c t, name = c :: t /\ is_name_start c = true) /\ Forall (fun c => is_name_char c = true) name
  end.

Section substitution.
Context {env : LauncherEnv}.

Definition segment_value (g : segment) : result str :=
  match g with Literal s => Ok s | Reference name => replace name end.

Lemma substitute_skip n s : substitute n s = substitute 0 (drop n s).
Proof. revert n. induction s as [|c s IH]; intros [|n]; [done..|]. apply IH. Qed.

Lemma substitute_literal s t :
  36 ∉ s -> substitute 0 (s ++ t) = (r ← substitute 0 t; Ok (s ++ r)).
Proof.
  induction s as [|c s IH]; intros Hs; [simpl; by destruct (substitute 0 t)|].
  apply not_elem_of_cons in Hs as [Hc Hs]. simpl. destruct (Z.eqb_spec c 36) as [->|_]; [done|].
  rewrite IH by done. by destruct (substitute 0 t).
Qed.

Lemma name_chars_app name t :
  Forall (fun c => is_name_char c = true) name -> name_chars (name ++ 125 :: t) = name.
Proof. induction 1 as [|c name Hc _ IH]; simpl; [done|]. by rewrite Hc, IH. Qed.

Lemma reference_app name t : segment_ok (Reference name) -> reference (123 :: name ++ 125 :: t) = Some name.
Proof.
  intros [(c & r & -> & Hc) Hn]. unfold reference. rewrite name_chars_app by done. cbv zeta.
  rewrite Hc, bool_decide_eq_true_2; [done|].
  by apply (list_lookup_middle (c :: r)).
Qed.

Lemma substitute_reference name t :
  reference t = Some name ->
  substitute 0 (36 :: t) = (v ← replace name; r ← substitute 0 (drop (length name + 2) t); Ok (v ++ r)).
Proof. intros H. rewrite <-substitute_skip. simpl. by rewrite H. Qed.

(** Expansion replaces each reference by its value, left to right, and keeps
    the rest. *)
Lemma substitute_segments l :
  Forall segment_ok l ->
  substitute 0 (l ≫= segment_text) = (parts ← mapR segment_value l; Ok (concat parts)).
Proof.
  induction 1 as [|g l Hg _ IH]; [done|]. rewrite bind_cons. destruct g as [s|name]; simpl segment_text.
  - rewrite substitute_literal, IH by exact Hg. simpl. by destruct (mapR segment_value l).
  - replace ((36 :: 123 :: name ++ [125]) ++ (l ≫= segment_text))
      with (36 :: 123 :: name ++ 125 :: (l ≫= segment_text)) by (simpl; by rewrite <-app_assoc).
    rewrite (substitute_reference name) by (by apply reference_app).
    assert (drop (length name + 2) (123 :: name ++ 125 :: (l ≫= segment_text)) = l ≫= segment_text) as ->.
    { replace (length name + 2)%nat with (S (length name + 1)) by lia. cbn [drop].
      by rewrite <-drop_drop, drop_app_length. }
    rewrite IH. simpl. destruct (replace name); [|done]. simpl. by destruct (mapR segment_value l).
Qed.
End substitution.

(** The variables that name the directory to a DEFw process *)
Record directory_variables (e : environment) (site_config : path) (endpoint host : str) (port : Z)
    : Prop := {
  dv_site : env_get (txt "QFW_SITE_CONFIG") e = Some (path_str site_config);
  dv_endpoint : env_get (txt "QFW_SITE_DIRSVC_ENDPOINTS") e = Some endpoint;
  dv_name : exists name, name <> [] /\ env_get (txt "QFW_SITE_DIRSVC_NAME") e = Some name /\
    env_get (txt "DEFW_PARENT_NAME") e = Some name;
  dv_timeout : exists timeout, 0 < timeout /\
    env_get (txt "QFW_DIRSVC_CONNECT_TIMEOUT_SECONDS") e = Some (str_of_Z timeout);
  dv_host : env_get (txt "DEFW_PARENT_HOSTNAME") e = Some host;
  dv_port : env_get (txt "DEFW_PARENT_PORT") e = Some (str_of_Z port);
  dv_module : env_get (txt "DEFW_ONLY_LOAD_MODULE") e = Some (txt "api_dirsvc");
  dv_enabled : env_get (txt "DEFW_DISABLE_DIRSVC") e = Some (txt "no");
}.

Section launch.
Context {ucd : UnicodeData} {cenv : ConfigEnv} {env : LauncherEnv}.

(** The name of a located directory is not empty. *)
Lemma located_name directory name base endpoint endpoint_name p :
  name <> [] -> located directory name base = Ok (endpoint, endpoint_name, p) -> endpoint_name <> [].
Proof.
  unfold located. intros Hname H.
  destruct (ytruthy (optional directory "endpoint" YNull)); [by injection H as <- <- <-|].
  destruct (ytruthy _); [|done]. inv_ok. destruct a1 as [endpoint' name'].
  injection H as <- <- <-. unfold record_endpoint in E1.
  destruct a0; try discriminate E1. cbv zeta in E1. inv_ok. simplify_eq/=.
  by repeat match goal with H : bool_decide _ = false |- _ => apply bool_decide_eq_false in H end.
Qed.

Lemma directory_environment_ok site_config e :
  directory_environment site_config = Ok e ->
  exists endpoint host port, Bootstrap._split_endpoint endpoint = Ok (host, port) /\
    directory_variables e site_config endpoint host port.
Proof.
  unfold directory_environment. intros H. inv_ok.
  destruct a3 as [[value name] connection]. inv_ok.
  match goal with r : str * Z * str |- _ => destruct r as [[host port] endpoint] end. inv_ok.
  exists endpoint, host, port.
  assert (name <> [] /\ 0 < a1) as [Hname Ht].
  { match goal with H : orb _ _ = false |- _ => apply orb_false_iff in H as [Hn Ht] end.
    apply bool_decide_eq_false in Hn. split; [by eapply located_name|lia]. }
  match goal with H : _endpoint _ = Ok _ |- _ => apply endpoint_ok in H as [_ He] end.
  split; [exact He|].
  destruct connection as [p|]; constructor; rewrite ?env_get_set_ne by done; simpl; eauto.
Qed.

Lemma required_variable_ok name e v :
  required_variable name e = Ok v -> getenv (txt name) = Some v /\ v <> [].
Proof. unfold required_variable. destruct (getenv _) as [[|c s]|]; try done. by intros [= <-]. Qed.

(** The command runs in the installation the configuration names. *)
Record activated (config : GatewayConfig) (defwp : path) : Prop := {
  act_installed : is_file (Path (qfw_activation config)) = Ok true;
  act_prefix : exists prefix script,
    getenv (txt "QFW_PREFIX") = Some prefix /\ prefix <> [] /\
    resolve (path_div (Path prefix) (Path (txt "bin/qfw-activate"))) = Ok script /\
    resolve (Path (qfw_activation config)) = Ok script;
  act_venv : exists venv, resolve (Path sys_prefix) = Ok venv /\ resolve (Path (qfw_venv config)) = Ok venv;
  act_defwp : exists prefix, getenv (txt "DEFW_PREFIX") = Some prefix /\ prefix <> [] /\
    defwp = path_div (Path prefix) (Path (txt "bin/defwp"));
  act_executable : is_file defwp = Ok true /\ is_executable defwp = true;
}.

Lemma defwp_command_ok config arguments command :
  defwp_command config arguments = Ok command ->
  exists defwp, activated config defwp /\
    command = path_str defwp :: txt "-m" :: txt "qfw_slurm_gateway" :: arguments.
Proof.
  unfold defwp_command. intros H. inv_ok.
  repeat match goal with
  | H : required_variable _ _ = Ok _ |- _ => apply required_variable_ok in H as [? ?]
  | H : negb _ = false |- _ => apply negb_false_iff in H
  | H : orb _ _ = false |- _ => apply orb_false_iff in H as [? ?]
  | H : bool_decide _ = true |- _ => apply bool_decide_eq_true in H
  end. subst. eexists. split; [|done].
  constructor; eauto 10.
Qed.
End launch.

(** ** Properties *)

(** C39 What the launcher executes is ready to run: the configuration is valid
    and its file protected, the activated installation and the interpreter are
    the configured ones, the program is an executable file of the activated
    DEFw, and the environment names the directory: an endpoint with a host and
    a port in range, a name, a positive timeout. A configuration error ends the
    launcher. *)
Theorem launch_ready {ucd : UnicodeData} {cenv : ConfigEnv} {env : LauncherEnv}
    config_path arguments e command :
  launch config_path arguments = Ok (e, command) ->
  exists config defwp endpoint port_text host port,
    load_config config_path true = Ok config /\
    activated config defwp /\
    command = path_str defwp :: txt "-m" :: txt "qfw_slurm_gateway"
                :: txt "--config" :: config_path :: arguments /\
    directory_variables e (Path (qfw_site_config config)) endpoint host port /\
    endpoint_form endpoint host port_text /\ int_of_str port_text = Some port /\
    host <> [] /\ 1 <= port <= 65535.
Proof.
  unfold launch. intros H. inv_ok.
  match goal with H : (match ?p with _ => _ end) = Ok _ |- _ =>
    assert (p = Ok (e, command)) as Hp by (destruct p as [|[]]; congruence) end.
  clear H. inv_ok. simplify_eq/=.
  match goal with H : directory_environment _ = Ok _ |- _ =>
    apply directory_environment_ok in H as (endpoint & host & port & Hs & Hd) end.
  match goal with H : defwp_command _ _ = Ok _ |- _ => apply defwp_command_ok in H as (defwp & Ha & ->) end.
  apply split_endpoint_iff in Hs as (t & Hf & Hi & Hh & Hr).
  by exists a0, defwp, endpoint, t, host, port.
Qed.

(** ** A site whose directory is found through its connection record *)

Definition site_document : yaml := YMap [
  (txt "directory-service", YMap [(txt "connection-file", YStr (txt "${QFW_STATE}/directory.json"))])].

Definition launch_env : ConfigEnv := {|
  Config.lstat _ := Ok (mk_status 33188 0);
  Config.load_yaml p := Ok (if bool_decide (p = txt "/etc/qfw/site.yaml") then site_document
                            else ConfigProps.sample_document);
  Config.is_yaml_error _ := false;
  Config.getpwnam s := if bool_decide (s = txt "slurm") then Some 64030 else None;
  Config.expand_path s := Ok s;
  Config.text_of _ := txt "?";
|}.

Definition directory_record : pyval := PDict [
  (txt "schema", PStr (txt "qfw-directory-service-v1")); (txt "ready", PBool true);
  (txt "name", PStr (txt "site-directory")); (txt "endpoint", PStr (txt " [fd00::7]:8090 "))].

Definition host_env : LauncherEnv := {|
  getenv name :=
    if bool_decide (name = txt "QFW_STATE") then Some (txt "/run/qfw")
    else if bool_decide (name = txt "QFW_PREFIX") then Some (txt "/opt/qfw")
    else if bool_decide (name = txt "DEFW_PREFIX") then Some (txt "/opt/defw/") else None;
  load_json p :=
    if bool_decide (p = Path (txt "/run/qfw/directory.json")) then Ok directory_record
    else Raise (PyError OSError (txt "no such file"));
  is_json_error _ := true;
  expanduser p := Ok p;
  resolve p := Ok p;
  is_file _ := Ok true;
  is_executable _ := true;
  sys_prefix := txt "/opt/qfw/venv";
  gethostbyname _ := Raise (PyError OSError (txt "unknown host"));
  free_port := Ok 40001;
  int_of_other := Raise (PyError TypeError (txt "int()"));
  truth_of_other := true;
|}.

Definition launched : environment * list str :=
  match launch (ucd := ascii_ucd) (cenv := launch_env) (env := host_env) (txt "gateway.yaml") [txt "serve"] with
  | Ok r => r
  | Raise _ => ([], [])
  end.

Example launched_command :
  launched.2 = map txt ["/opt/defw/bin/defwp"; "-m"; "qfw_slurm_gateway"; "--config"; "gateway.yaml"; "serve"]%string /\
  env_get (txt "QFW_DIRECTORY_SERVICE_INFO") launched.1 = Some (txt "/run/qfw/directory.json") /\
  env_get (txt "DEFW_PARENT_HOSTNAME") launched.1 = Some (txt "fd00::7").
Proof. vm_compute. auto. Qed.

Lemma launch_ready_witness :
  exists config defwp endpoint host port,
    launched.2 <> [] /\ activated (env := host_env) config defwp /\
    directory_variables launched.1 (Path (qfw_site_config config)) endpoint host port.
Proof.
  destruct (launch_ready (ucd := ascii_ucd) (cenv := launch_env) (env := host_env)
    (txt "gateway.yaml") [txt "serve"] launched.1 launched.2)
    as (config & defwp & endpoint & t & host & port & _ & Ha & _ & Hd & _).
  - vm_compute. reflexivity.
  - exists config, defwp, endpoint, host, port. split; [vm_compute; discriminate|]. split; assumption.
Defined.
