(* ===== verification/Entry.v ===== *)
(** * The administrative commands ([__main__.py])

    The start of the adapter ([QFwAdapter.start] of [defw_client.py]) and the
    commands that run once: retry a release, check services, list and inspect
    allocations. [serve] is the server of [Server]. *)

From S2P Require Import Prelude Python Messages Values ResponseDict Effects Journal SlurmVerifier Adapter DefwClient Service Config Paths Launcher.
Local Open Scope Z_scope.

(** ** Starting the adapter *)

(** The process environment and the DEFw modules *)
Class DefwImport (E : Type) := {
  set_environ : str -> str -> E -> E;
  import_defw : M E unit;
  is_import_error : exn -> bool;
  get_directory_service : M E unit;
}.

Section start.
Context {ucd : UnicodeData} {lenv : LauncherEnv} {E L : Type}.
Context {imports : DefwImport E}.

Definition set_started : M (adapter E L) unit :=
  modify (fun a => mk_adapter true (bindings a) (ext a)).

Definition start (site_config : path) (activation venv : option path) : M (adapter E L) unit :=
  exists_ ← lift (is_file site_config);
  _ ← raise_when (negb exists_) (adapter_error
        (txt "QFw site configuration does not exist: " ++ path_str site_config));
  _ ← match activation with
      | Some activation =>
          exists_ ← lift (is_file activation);
          raise_when (negb exists_) (adapter_error
            (txt "QFw activation script does not exist: " ++ path_str activation))
      | None => mret tt
      end;
  _ ← match venv with
      | Some venv =>
          prefix ← lift (resolve (Path sys_prefix));
          expected ← lift (resolve venv);
          raise_when (negb (bool_decide (prefix = expected))) (adapter_error
            (txt "gateway is using " ++ sys_prefix ++ txt ", expected QFw venv " ++ path_str venv))
      | None => mret tt
      end;
  _ ← modify (fun a => mk_adapter (started a) (bindings a)
        (set_environ (txt "QFW_SITE_CONFIG") (path_str site_config) (ext a)));
  _ ← try_catch is_import_error (zoom ext (fun e a => mk_adapter (started a) (bindings a) e) import_defw)
        (fun _ => raise (adapter_error (txt "QFw environment is not active for the gateway")));
  try_except
    (_ ← zoom ext (fun e a => mk_adapter (started a) (bindings a) e) get_directory_service;
     set_started)
    (fun error => raise (adapter_error
       (txt "cannot connect to the DEFw directory service: " ++ exn_str error))).

(** The adapter the commands construct, started *)
Definition start_configured (config : GatewayConfig) : M (adapter E L) unit :=
  start (Path (qfw_site_config config)) (Some (Path (qfw_activation config)))
    (Some (Path (qfw_venv config))).
End start.

(** ** The commands

    They run over the journal and the adapter; [close] of the journal frees its
    connection and changes no table. *)
Section commands.
Context {ucd : UnicodeData} {jenv : JournalEnv} {lenv : LauncherEnv} {E L H : Type}.
Context {denv : DefwEnv E L H} {imports : DefwImport E}.

Abbreviation X := (adapter E L).
Abbreviation W := (world X).

Definition close_adapter : M W unit := external (X := X) (close (H := H)).

(** [args.request_id or (time.time_ns() & ((1 << 64) - 1))], never 0 *)
Definition retry_request_id (request_id : option Z) (now : Z) : Z :=
  let id := match request_id with
            | Some z => if z =? 0 then Z.land now (Z.shiftl 1 64 - 1) else z
            | None => Z.land now (Z.shiftl 1 64 - 1)
            end in
  if id =? 0 then 1 else id.

Definition _retry (config : GatewayConfig) (job_id reason : Z) (request_id : option Z) (now : Z)
    : M W pyval :=
  _ ← external (X := X) (start_configured config);
  let request := ReleaseRequest.mk (retry_request_id request_id now) (cluster_name config) job_id reason in
  try_finally
    (response ← retry_release (H := H) request;
     mret (response_to_dict (ReleaseResponse response)))
    close_adapter.

Definition binding_dict (b : QPMBinding H) : pyval := PDict [
  (txt "service_id", PStr (Adapter.service_id b));
  (txt "runtime_id", PStr (runtime_id b));
  (txt "generation", PStr (str_of_Z (generation b)))].

Definition check_body (config : GatewayConfig) (services : list str) : M W pyval :=
  _ ← external (X := X) (start_configured config);
  resolved ← mapM (fun service_id =>
    b ← external (X := X) (DefwClient.resolve (H := H) service_id); mret (binding_dict b)) services;
  mret (PDict [(txt "status", PStr (txt "ready")); (txt "services", PList resolved)]).

Definition _check (config : GatewayConfig) (services : list str) : M W pyval :=
  try_finally (check_body config services) close_adapter.

Inductive command :=
| Status (job_id : Z)
| ListAllocations
| RetryRelease (job_id reason : Z) (request_id : option Z)
| CheckServices (services : list str).

(** What [main] prints for a command, its configuration loaded *)
Definition administer (config : GatewayConfig) (c : command) (now : Z) : M W str :=
  document ← match c with
    | RetryRelease job_id reason request_id => _retry config job_id reason request_id now
    | CheckServices services => _check config services
    | ListAllocations => l ← journal (X := X) nonterminal_allocations; mret (PList l)
    | Status job_id => journal (X := X) (allocation_status (cluster_name config) job_id)
    end;
  mret (json_pretty 0 document).
End commands.
