(* ===== verification/EntryProps.v ===== *)
(** * Properties of the administrative commands *)

From S2P Require Import Prelude Python Messages Values ResponseDict Effects Journal SlurmVerifier Adapter DefwClient AdapterProps Service Config Paths Launcher Entry.
Local Open Scope Z_scope.

Section facts.
Context {ucd : UnicodeData} {lenv : LauncherEnv} {E L H : Type}.
Context {denv : DefwEnv E L H} {imports : DefwImport E}.
Abbreviation W := (world (adapter E L)).

(** Calls on the adapter leave the journal and the log alone. *)
Definition same_journal : relation W := fun w w' => w_db w' = w_db w /\ w_log w' = w_log w.

#[local] Instance same_journal_preorder : PreOrder same_journal.
Proof. split; [done|]. intros x y z [??] [??]. split; congruence. Qed.

Lemma external_same_journal {A} (m : M (adapter E L) A) : preserves same_journal (external m).
Proof. intros w. unfold external, zoom. by destruct (m (w_ext w)). Qed.

Lemma close_same_journal : preserves same_journal (close_adapter (H := H)).
Proof. apply external_same_journal. Qed.

Definition same_bindings : relation (adapter E L) := fun a a' => bindings a' = bindings a.
#[local] Instance same_bindings_preorder : PreOrder same_bindings.
Proof. split; [done|]. intros x y z ??. unfold same_bindings in *. congruence. Qed.

Lemma close_clears (a : adapter E L) : bindings (close (H := H) a).2 = [].
Proof.
  pose proof (preserves_mapM same_bindings (fun p => extern (binding_close (H := H) p.2)) (bindings a)
    (fun p b => ltac:(by unfold extern, zoom; destruct (binding_close _ _)))
    (mk_adapter (started a) [] (ext a))) as Hb.
  unfold close, gets, modify, mbind, m_mbind, m_bind. simpl.
  destruct (mapM _ _ _) as [[y|e] a2]; exact Hb.
Qed.

(** The services resolved, in the order they were asked for *)
Lemma resolve_all services (w w' : W) l :
  mapM (fun s => b ← external (DefwClient.resolve (H := H) s); mret (binding_dict (H := H) b)) services w = (Ok l, w') ->
  exists bs : list (QPMBinding H), map Adapter.service_id bs = services /\ l = map binding_dict bs.
Proof.
  revert w w' l. induction services as [|s services IH]; intros w w' l; simpl; [intros [= <- _]; by exists []|].
  intros H1. apply m_bind_inv in H1 as (d & w1 & H1 & H2).
  apply m_bind_inv in H1 as (b & w2 & Hb & [= <- _]).
  apply m_bind_inv in H2 as (ds & w3 & Hm & [= <- _]).
  apply IH in Hm as (bs & <- & ->). exists (b :: bs). split; [|done]. simpl. f_equal.
  unfold external, zoom in Hb. destruct (DefwClient.resolve s (w_ext w)) as [rb a'] eqn:Er.
  injection Hb as -> _. by apply (resolve_service (AdapterLaws := defw_adapter_laws)) in Er.
Qed.
Lemma check_same_journal config services :
  preserves same_journal (check_body (H := H) config services).
Proof.
  unfold check_body. apply preserves_bind; [apply _|apply external_same_journal|intros _].
  apply preserves_bind; [apply _| |intros ?; apply preserves_mret, _].
  apply preserves_mapM; [apply _|intros s].
  apply preserves_bind; [apply _|apply external_same_journal|intros ?; apply preserves_mret, _].
Qed.
End facts.

(** ** Properties *)

(** The check of services runs over the journal without changing it and leaves
    the adapter without bindings, whatever happens; it reports ready only
    when the adapter started and every service resolved, and then lists them in
    their order, each as the binding of that service. *)
Theorem check_services {ucd : UnicodeData} {lenv : LauncherEnv} {E L H}
    {denv : DefwEnv E L H} {imports : DefwImport E} config services (w : world (adapter E L)) r w' :
  _check (H := H) config services w = (r, w') ->
  w_db w' = w_db w /\ w_log w' = w_log w /\ bindings (w_ext w') = [] /\
  forall document, r = Ok document ->
    exists bs : list (QPMBinding H), map Adapter.service_id bs = services /\
      document = PDict [(txt "status", PStr (txt "ready")); (txt "services", PList (map binding_dict bs))].
Proof.
  unfold _check. intros (r1 & w1 & r2 & Hm & Hc & ->)%try_finally_cases.
  pose proof (check_same_journal config services w) as Hp. rewrite Hm in Hp. destruct Hp as [Hdb Hlog].
  pose proof (close_same_journal (H := H) w1) as Hq. rewrite Hc in Hq. destruct Hq as [Hdb' Hlog'].
  simpl in *. split_and!; [congruence..| |].
  - unfold close_adapter, external, zoom in Hc. pose proof (close_clears (H := H) (w_ext w1)) as Hcl.
    destruct (close (w_ext w1)) as [rc ac]. injection Hc as _ <-. exact Hcl.
  - intros document Hr. destruct r2; [|done]. subst r1.
    apply m_bind_inv in Hm as (? & w2 & _ & Hm). apply m_bind_inv in Hm as (l & w3 & Hm & [= <- _]).
    apply resolve_all in Hm as (bs & Hs & ->). by exists bs.
Qed.
