(* ===== verification/Lifecycle.v ===== *)
(** * The life of the service ([_serve] of [__main__.py], [server.py])

    From the start of the adapter to the closed journal: the listener, the set
    of client tasks, the notifications to the service manager, and the
    shutdown, which stops the listener, waits for the clients, cancels those
    that do not end in time, and closes the adapter and the journal. The
    coroutine and the clients share an event loop, so what happens is a
    sequence of events. What a client does in between is [Server]. A signal
    that comes before its handler is installed ends the process at once and is
    no event here. *)

From S2P Require Import Prelude Python Effects.
Local Open Scope Z_scope.

(** The service manager's socket, what sending to it raises, the outcome of
    starting the adapter, of binding the listener and of closing the adapter,
    and whether [Server.wait_closed] waits for the connections that are open:
    it does from Python 3.12 on, and returns at once before *)
Class ServeEnv := {
  notify_socket : option str;
  send_datagram : str -> str -> result unit;
  adapter_start : result unit;
  start_server : result unit;
  adapter_close : result unit;
  wait_closed_waits : bool;
}.

(** Where the coroutine waits *)
Inductive point :=
| Starting
| Stopped       (* [stopped.wait()] *)
| ListenerClosed   (* [self._server.wait_closed()] *)
| ClientsWait   (* [asyncio.wait(clients, timeout)] *)
| PendingGather   (* [asyncio.gather( *pending)] *)
| Returned
| Failed (e : exn).

Record serving := mk_serving {
  at_point : point;
  stop_signal : bool;
  listening : bool;
  (** connections whose task has not begun, and [self._clients] *)
  accepted : gset nat;
  clients : gset nat;
  (** the clients the shutdown waits for, and those it has cancelled *)
  awaited : gset nat;
  cancelled : gset nat;
  (** ghost: the connections whose task had not begun when it took that set *)
  backlog : gset nat;
  (** what [_notify_service_manager] was called with, and returned *)
  messages : list str;
  adapter_closed : bool;
  journal_closed : bool;
}.

(** What happens in the event loop *)
Inductive loop_event :=
| Accept (i : nat)    (* the listener accepts a connection *)
| Begin (i : nat)     (* its task begins *)
| End (i : nat)       (* its task ends *)
| Signal              (* SIGINT or SIGTERM *)
| Expire              (* the timeout of [asyncio.wait] *)
| Resume.             (* the coroutine goes on *)

Section serve.
Context {env : ServeEnv}.

(** [_notify_service_manager]: an address that begins with an at sign is
    abstract, one with a leading NUL. *)
Definition notify_address (address : str) : str :=
  match address with
  | 64 :: rest => 0 :: rest
  | _ => address
  end.

Definition _notify_service_manager (message : str) : result unit :=
  match notify_socket with
  | None | Some [] => Ok tt
  | Some address => send_datagram (notify_address address) message
  end.

Definition READY : str := txt "READY=1" ++ [10] ++ txt "STATUS=QSGP listener is ready".
Definition STOPPING : str := txt "STOPPING=1" ++ [10] ++ txt "STATUS=QSGP listener is stopping".

Definition go (p : point) (s : serving) : serving :=
  mk_serving p (stop_signal s) (listening s) (accepted s) (clients s) (awaited s) (cancelled s) (backlog s)
    (messages s) (adapter_closed s) (journal_closed s).

Definition with_listener (b : bool) (s : serving) : serving :=
  mk_serving (at_point s) (stop_signal s) b (accepted s) (clients s) (awaited s) (cancelled s) (backlog s)
    (messages s) (adapter_closed s) (journal_closed s).

Definition with_tasks (acc cl : gset nat) (s : serving) : serving :=
  mk_serving (at_point s) (stop_signal s) (listening s) acc cl (awaited s) (cancelled s) (backlog s)
    (messages s) (adapter_closed s) (journal_closed s).

Definition with_waits (aw ca bl : gset nat) (s : serving) : serving :=
  mk_serving (at_point s) (stop_signal s) (listening s) (accepted s) (clients s) aw ca bl
    (messages s) (adapter_closed s) (journal_closed s).

(** Notify the manager and go on, or fail. *)
Definition notifying (message : str) (next : serving -> serving) (s : serving) : serving :=
  match _notify_service_manager message with
  | Raise e => go (Failed e) s
  | Ok _ => next (mk_serving (at_point s) (stop_signal s) (listening s) (accepted s) (clients s)
                    (awaited s) (cancelled s) (backlog s) (messages s ++ [message]) (adapter_closed s)
                    (journal_closed s))
  end.

(** [adapter.close(); journal.close()] *)
Definition finish (s : serving) : serving :=
  match adapter_close with
  | Raise e => go (Failed e) s
  | Ok _ => mk_serving Returned (stop_signal s) (listening s) (accepted s) (clients s) (awaited s)
              (cancelled s) (backlog s) (messages s) true true
  end.

(** [server.start()] and the notification, after the adapter *)
Definition begin_serving (s : serving) : serving :=
  match adapter_start with
  | Raise e => go (Failed e) s
  | Ok _ =>
      match start_server with
      | Raise e => go (Failed e) s
      | Ok _ => notifying READY (go Stopped) (with_listener true s)
      end
  end.

(** The rest of [GatewayServer.close] once the listener is closed *)
Definition await_clients (s : serving) : serving :=
  let s := with_waits (clients s) ∅ (accepted s) s in
  if bool_decide (clients s = ∅) then finish s else go ClientsWait s.

(** Cancel what has not ended in time. *)
Definition cancel_pending (s : serving) : serving :=
  let pending := awaited s ∩ clients s in
  if bool_decide (pending = ∅) then finish s
  else go PendingGather (with_waits (awaited s) pending (backlog s) s).

(** [asyncio.run] ends the loop with the coroutine. *)
Definition ended (s : serving) : bool :=
  match at_point s with Returned | Failed _ => true | _ => false end.

(** One event; [None] when it cannot happen now. *)
Definition happens (e : loop_event) (s : serving) : option serving :=
  if ended s then None else
  match e with
  | Accept i =>
      if listening s && negb (bool_decide (i ∈ accepted s ∪ clients s))
      then Some (with_tasks ({[i]} ∪ accepted s) (clients s) s) else None
  | Begin i =>
      if bool_decide (i ∈ accepted s)
      then Some (with_tasks (accepted s ∖ {[i]}) ({[i]} ∪ clients s) s) else None
  | End i =>
      if bool_decide (i ∈ clients s)
      then Some (with_tasks (accepted s) (clients s ∖ {[i]}) s) else None
  | Signal =>
      Some (mk_serving (at_point s) true (listening s) (accepted s) (clients s) (awaited s)
              (cancelled s) (backlog s) (messages s) (adapter_closed s) (journal_closed s))
  | Expire => if at_point s is ClientsWait then Some (cancel_pending s) else None
  | Resume =>
      match at_point s with
      | Starting => Some (begin_serving s)
      | Stopped =>
          if stop_signal s
          then Some (notifying STOPPING (fun s => go ListenerClosed (with_listener false s)) s)
          else None
      | ListenerClosed =>
          if wait_closed_waits && negb (bool_decide (accepted s ∪ clients s = ∅)) then None
          else Some (await_clients s)
      | ClientsWait => if bool_decide (awaited s ∩ clients s = ∅) then Some (finish s) else None
      | PendingGather => if bool_decide (cancelled s ∩ clients s = ∅) then Some (finish s) else None
      | Returned | Failed _ => None
      end
  end.

Fixpoint life (l : list loop_event) (s : serving) : option serving :=
  match l with
  | [] => Some s
  | e :: l => s' ← happens e s; life l s'
  end.

(** The process starts with nothing open but the journal. *)
Definition idle : serving := mk_serving Starting false false ∅ ∅ ∅ ∅ ∅ [] false false.

Definition lives (s : serving) : Prop := exists l, life l idle = Some s.
End serve.
