(* ===== verification/LifecycleProps.v ===== *)
(** * Properties of the shutdown of the service *)

From S2P Require Import Prelude Python Effects Lifecycle.
Local Open Scope Z_scope.

Section facts.
Context {env : ServeEnv}.

(** The listener is closed for good, and who may still run. *)
Definition stopping (s : serving) : Prop :=
  stop_signal s = true /\ listening s = false /\ messages s = [READY; STOPPING].
Definition covered (s : serving) : Prop :=
  (wait_closed_waits = true -> awaited s ∪ backlog s = ∅) /\ stopping s /\ accepted s ⊆ backlog s /\ accepted s ## awaited s /\
  clients s ⊆ awaited s ∪ backlog s.

(** What holds at each point of the coroutine *)
Definition well_placed (s : serving) : Prop :=
  match at_point s with
  | Starting => listening s = false /\ accepted s = ∅ /\ clients s = ∅ /\ messages s = []
  | Stopped => listening s = true /\ messages s = [READY]
  | ListenerClosed => stopping s
  | ClientsWait => covered s
  | PendingGather => covered s /\ awaited s ∩ clients s ⊆ cancelled s
  | Returned => covered s /\ awaited s ∩ clients s = ∅
  | Failed _ => True
  end /\
  accepted s ## clients s /\ (journal_closed s = true <-> at_point s = Returned).

Lemma finish_placed s :
  covered s -> awaited s ∩ clients s = ∅ -> accepted s ## clients s -> journal_closed s = false ->
  well_placed (finish s).
Proof.
  intros Hc Ha Hd Hj. unfold finish. destruct adapter_close; [split; [by split|by split]|].
  split; [done|]. simpl. by rewrite Hj.
Qed.

Lemma notifying_placed m next s :
  accepted s ## clients s -> journal_closed s = false ->
  (forall t, t = mk_serving (at_point s) (stop_signal s) (listening s) (accepted s) (clients s)
       (awaited s) (cancelled s) (backlog s) (messages s ++ [m]) (adapter_closed s)
       (journal_closed s) -> well_placed (next t)) ->
  well_placed (notifying m next s).
Proof.
  intros Hd Hj Hn. unfold notifying. destruct (_notify_service_manager m); [by apply Hn|].
  split; [done|]. simpl. by rewrite Hj.
Qed.

Lemma begin_covered s i :
  i ∈ accepted s -> covered s -> covered (with_tasks (accepted s ∖ {[i]}) ({[i]} ∪ clients s) s).
Proof. intros Hi (Hw & Hs & Ha & Hd & Hc). split; [exact Hw|]. split; [exact Hs|]. simpl. set_solver. Qed.

Lemma end_covered s i : covered s -> covered (with_tasks (accepted s) (clients s ∖ {[i]}) s).
Proof. intros (Hw & Hs & Ha & Hd & Hc). split; [exact Hw|]. split; [exact Hs|]. simpl. set_solver. Qed.

(** The tasks come and go. *)
Lemma task_placed s i (b : bool) :
  ended s = false -> well_placed s -> (b = true -> i ∈ accepted s) ->
  well_placed (if b then with_tasks (accepted s ∖ {[i]}) ({[i]} ∪ clients s) s
               else with_tasks (accepted s) (clients s ∖ {[i]}) s).
Proof.
  intros He (Hp & Hd & Hj) Hb. unfold ended in He. destruct b.
  - specialize (Hb eq_refl). split; [|split; [simpl; set_solver|exact Hj]]. simpl.
    destruct (at_point s) eqn:E; try done.
    + destruct Hp as (_ & Ha & _). set_solver.
    + by apply begin_covered.
    + destruct Hp as [Hc Hp]. split; [by apply begin_covered|]. simpl.
      destruct Hc as (_ & _ & _ & Haw & _). set_solver.
  - split; [|split; [simpl; set_solver|exact Hj]]. simpl. destruct (at_point s) eqn:E; try done.
    + destruct Hp as (? & ? & -> & ?). split_and!; [done..| |done]. set_solver.
    + by apply end_covered.
    + destruct Hp as [Hc Hp]. split; [by apply end_covered|]. simpl. set_solver.
Qed.

Lemma resume_placed s s' :
  journal_closed s = false -> ended s = false ->
  happens Resume s = Some s' -> well_placed s -> well_placed s'.
Proof.
  intros Hopen He Hs (Hp & Hd & Hj). unfold happens in Hs. rewrite He in Hs.
  destruct (at_point s) eqn:E; try done.
  - injection Hs as <-. unfold begin_serving.
    destruct adapter_start as [[]|e]; [|by split_and!; simpl; rewrite ?Hopen].
    destruct start_server as [[]|e]; [|by split_and!; simpl; rewrite ?Hopen].
    apply notifying_placed; [exact Hd|exact Hopen|]. intros t ->.
    destruct Hp as (_ & _ & _ & Hm).
    split; [by simpl; rewrite Hm|]. split; [exact Hd|]. simpl. by rewrite Hopen.
  - destruct (stop_signal s) eqn:Hst; [|done]. injection Hs as <-.
    apply notifying_placed; [exact Hd|exact Hopen|]. intros t ->. destruct Hp as [_ Hm].
    split; [by unfold stopping; simpl; rewrite Hm|]. split; [exact Hd|]. simpl. by rewrite Hopen.
  - destruct (wait_closed_waits && _) eqn:Hw; [done|]. injection Hs as <-.
    unfold await_clients. simpl.
    assert (covered (with_waits (clients s) ∅ (accepted s) s)) as Hc.
    { split; [|split; [exact Hp|simpl; set_solver]]. simpl. intros Hwait.
      rewrite Hwait in Hw. apply negb_false_iff, bool_decide_eq_true in Hw. set_solver. }
    clear Hw.
    case_bool_decide as Hcl.
    + apply finish_placed; [done| |done|done]. simpl. set_solver.
    + split; [exact Hc|]. split; [exact Hd|]. simpl. by rewrite Hopen.
  - case_bool_decide; [|done]. injection Hs as <-. by apply finish_placed.
  - case_bool_decide; [|done]. injection Hs as <-. destruct Hp as [Hc Hp].
    apply finish_placed; [done| |done|done]. set_solver.
Qed.

Lemma happens_placed e s s' : happens e s = Some s' -> well_placed s -> well_placed s'.
Proof.
  intros Hs Hw. pose proof Hw as (Hp & Hd & Hj). destruct (ended s) eqn:He;
    [by unfold happens in Hs; rewrite He in Hs|].
  assert (journal_closed s = false) as Hopen.
  { destruct (journal_closed s); [|done]. unfold ended in He. by rewrite (proj1 Hj eq_refl) in He. }
  destruct e as [i|i|i| | |]; [..|by eapply resume_placed]; unfold happens in Hs; rewrite He in Hs.
  - destruct (listening s) eqn:Hl; [|done]. simpl in Hs. case_bool_decide; [done|].
    injection Hs as <-. split; [|split; [simpl; set_solver|exact Hj]]. simpl.
    destruct (at_point s); try done; unfold covered, stopping in Hp; destruct_and?; first [congruence|by split].
  - case_bool_decide; [|done]. injection Hs as <-. by apply (task_placed s i true).
  - case_bool_decide; [|done]. injection Hs as <-. by apply (task_placed s i false).
  - injection Hs as <-. split; [|split; [exact Hd|exact Hj]]. simpl.
    destruct (at_point s); try done; unfold covered, stopping in *; simpl; tauto.
  - destruct (at_point s) eqn:E; try done. injection Hs as <-. unfold cancel_pending. simpl.
    case_bool_decide; [by apply finish_placed|]. split; [by split|]. split; [exact Hd|].
    simpl. by rewrite Hopen.
Qed.

Lemma lives_well_placed s : lives s -> well_placed s.
Proof.
  intros [l Hl]. assert (well_placed idle) as Hi by (split_and!; done). revert Hl Hi.
  generalize idle. induction l as [|e l IH]; intros s0; simpl; [by intros [= ->]|].
  destruct (happens e s0) as [s1|] eqn:He; [|done]. intros Hl Hi.
  by eapply IH, happens_placed.
Qed.

(** Nothing is cancelled before the timeout. *)
Definition spared (s : serving) : Prop :=
  match at_point s with
  | Starting | Stopped | ListenerClosed | ClientsWait => cancelled s = ∅
  | _ => True
  end.

Lemma finish_spared s : spared (finish s).
Proof. unfold finish. by destruct adapter_close. Qed.

Lemma notifying_spared m next s :
  (forall t, cancelled t = cancelled s -> spared (next t)) -> spared (notifying m next s).
Proof. intros Hn. unfold notifying. destruct (_notify_service_manager m); [by apply Hn|done]. Qed.

Lemma happens_spared e s s' : happens e s = Some s' -> spared s -> spared s'.
Proof.
  unfold happens. destruct (ended s) eqn:He; [done|]. intros Hs Hsp. destruct e as [i|i|i| | |].
  1-4: by repeat case_match; simplify_eq.
  - destruct (at_point s) eqn:E; try done. injection Hs as <-. unfold cancel_pending.
    simpl. case_bool_decide; [apply finish_spared|done].
  - unfold spared in Hsp. destruct (at_point s) eqn:E; try done.
    + injection Hs as <-. unfold begin_serving. destruct adapter_start; [|done].
      destruct start_server; [|done]. apply notifying_spared. by intros t Ht; etrans.
    + destruct (stop_signal s); [|done]. injection Hs as <-. apply notifying_spared.
      by intros t Ht; etrans.
    + destruct (wait_closed_waits && _); [done|]. injection Hs as <-. unfold await_clients.
      case_bool_decide; [apply finish_spared|done].
    + case_bool_decide; [|done]. injection Hs as <-. apply finish_spared.
    + case_bool_decide; [|done]. injection Hs as <-. apply finish_spared.
Qed.

Lemma lives_spared s : lives s -> spared s.
Proof.
  intros [l Hl]. assert (spared idle) as Hi by done. revert Hl Hi.
  generalize idle. induction l as [|e l IH]; intros s0; simpl; [by intros [= ->]|].
  destruct (happens e s0) as [s1|] eqn:He; [|done]. intros Hl Hi.
  by eapply IH, happens_spared.
Qed.

(** ** The shutdown comes to its end *)

(** The events that depend on no client and no sender: the coroutine goes on,
    its timeout expires, and a client that it has cancelled ends. *)
Definition own (s : serving) (e : loop_event) : Prop :=
  match e with Resume | Expire => True | End i => i ∈ cancelled s ∩ clients s | _ => False end.

(** By such events alone, in whichever order they come, the process returns:
    one of them can happen until it has, and there are finitely many. *)
Inductive returns : serving -> Prop :=
| returned s : at_point s = Returned -> returns s
| returns_on s :
    (exists e s', own s e /\ happens e s = Some s') ->
    (forall e s', own s e -> happens e s = Some s' -> returns s') ->
    returns s.

(** Nothing the process opens or closes fails, and the listener's close does
    not wait for the clients. *)
Definition sound_env : Prop :=
  adapter_start = Ok tt /\ start_server = Ok tt /\ adapter_close = Ok tt /\
  (forall m, _notify_service_manager m = Ok tt) /\ wait_closed_waits = false.

Context (Hok : sound_env).

Lemma finish_returns s : returns (finish s).
Proof. apply returned. unfold finish. by destruct Hok as (_ & _ & -> & _). Qed.

(** A point at which the coroutine goes on and nothing else of it can happen *)
Lemma only_resume s next :
  ended s = false -> cancelled s = ∅ -> at_point s <> ClientsWait ->
  happens Resume s = Some next -> returns next -> returns s.
Proof.
  intros He Hc Hp Hs Hn. apply returns_on; [by exists Resume, next|].
  intros [i|i|i| | |] s' Ho Hs'; try done.
  - simpl in Ho. rewrite Hc in Ho. set_solver.
  - unfold happens in Hs'. rewrite He in Hs'. by destruct (at_point s).
  - rewrite Hs in Hs'. by injection Hs' as <-.
Qed.

Lemma gather_returns s : at_point s = PendingGather -> returns s.
Proof.
  remember (size (cancelled s ∩ clients s)) as n eqn:Hn. revert s Hn.
  induction (lt_wf n) as [n _ IH]. intros s -> Hp. apply returns_on.
  - destruct (decide (cancelled s ∩ clients s = ∅)) as [Hd|[i Hi]%set_choose_L].
    + exists Resume, (finish s). split; [done|]. unfold happens, ended. rewrite Hp.
      by rewrite bool_decide_eq_true_2.
    + exists (End i), (with_tasks (accepted s) (clients s ∖ {[i]}) s). split; [exact Hi|].
      unfold happens, ended. rewrite Hp. rewrite bool_decide_eq_true_2; [done|set_solver].
  - intros [i|i|i| | |] s' Ho Hs; try done; unfold happens, ended in Hs; rewrite Hp in Hs; try done.
    + case_bool_decide; [|done]. injection Hs as <-. simpl in Ho.
      eapply (IH (size (cancelled s ∩ (clients s ∖ {[i]})))); [|done|done].
      apply subset_size. set_solver.
    + case_bool_decide; [|done]. injection Hs as <-. apply finish_returns.
Qed.

Lemma clients_return s : at_point s = ClientsWait -> cancelled s = ∅ -> returns s.
Proof.
  intros Hp Hc. apply returns_on.
  - exists Expire, (cancel_pending s). split; [done|]. unfold happens, ended. by rewrite Hp.
  - intros [i|i|i| | |] s' Ho Hs; try done; unfold happens, ended in Hs; rewrite Hp in Hs.
    + simpl in Ho. rewrite Hc in Ho. set_solver.
    + injection Hs as <-. unfold cancel_pending.
      case_bool_decide; [apply finish_returns|by apply gather_returns].
    + case_bool_decide; [|done]. injection Hs as <-. apply finish_returns.
Qed.

Lemma listener_returns s : at_point s = ListenerClosed -> cancelled s = ∅ -> returns s.
Proof.
  intros Hp Hc. apply (only_resume s (await_clients s)); [|done|congruence| |].
  - unfold ended. by rewrite Hp.
  - unfold happens, ended. rewrite Hp. by destruct Hok as (_ & _ & _ & _ & ->).
  - unfold await_clients. case_bool_decide; [apply finish_returns|by apply clients_return].
Qed.

Lemma stopped_returns s :
  at_point s = Stopped -> stop_signal s = true -> cancelled s = ∅ -> returns s.
Proof.
  intros Hp Hst Hc. eapply only_resume; [|done|congruence| |].
  - unfold ended. by rewrite Hp.
  - unfold happens, ended. by rewrite Hp, Hst.
  - unfold notifying. destruct Hok as (_ & _ & _ & Hm & _). rewrite Hm. by apply listener_returns.
Qed.

Lemma signalled_returns s : stop_signal s = true -> ended s = false -> spared s -> returns s.
Proof.
  intros Hst He Hsp. unfold spared in Hsp.
  destruct (at_point s) eqn:Hp; [|by apply stopped_returns|by apply listener_returns
    |by apply clients_return|by apply gather_returns|unfold ended in He; by rewrite Hp in He..].
  eapply only_resume; [exact He|done|congruence| |].
  - unfold happens. by rewrite He, Hp.
  - unfold begin_serving, notifying. destruct Hok as (-> & -> & _ & Hm & _). rewrite Hm.
    by apply stopped_returns.
Qed.
End facts.

(** ** Properties *)

(** C29 The shutdown of the service. When the journal is closed, the process
    was asked to stop, the service manager was told READY and then STOPPING,
    nothing listens, every client task that the shutdown found has ended, and
    a task that still runs is one whose connection was accepted, but whose
    task had not begun, when the shutdown took the set of clients; where the
    close of the listener waits for open connections (Python 3.12 and later),
    no connection is left at all. Where it does not, once the process is asked
    to stop, wherever it is, it comes to its return by its own events alone,
    in whatever order these come: the coroutine going on, the timeout that
    cancels the clients, and cancelled clients ending; no client has to end by
    itself. This holds as long as the manager can be notified and the start
    and the close of the adapter and the listener succeed. *)
Theorem serve_shutdown {env : ServeEnv} s :
  lives s ->
  (journal_closed s = true ->
     stop_signal s = true /\ messages s = [READY; STOPPING] /\ listening s = false /\
     awaited s ∩ clients s = ∅ /\ clients s ∪ accepted s ⊆ backlog s /\
     (wait_closed_waits = true -> clients s ∪ accepted s = ∅)) /\
  (sound_env -> stop_signal s = true -> ended s = false -> returns s).
Proof.
  intros Hs. pose proof (lives_spared s Hs) as Hsp. apply lives_well_placed in Hs as (Hp & _ & Hj).
  split; [|intros Hok Hst He; by apply signalled_returns].
  intros Hc%Hj. rewrite Hc in Hp. destruct Hp as [(Hw & (? & ? & ?) & Ha & _ & Hcl) Hd].
  split_and!; [done..|set_solver|]. intros Hwait%Hw. set_solver.
Qed.

(** Where the close of the listener waits for open connections, a client that
    never ends keeps the shutdown waiting: the timeout has not been armed. *)
Lemma wait_closed_unbounded {env : ServeEnv} s :
  wait_closed_waits = true -> at_point s = ListenerClosed -> cancelled s = ∅ ->
  accepted s ∪ clients s <> ∅ -> forall e, own s e -> happens e s = None.
Proof.
  intros Hw Hp Hc Hn [i|i|i| | |] Ho; try done.
  - simpl in Ho. rewrite Hc in Ho. set_solver.
  - unfold happens, ended. by rewrite Hp.
  - unfold happens, ended. by rewrite Hp, Hw, bool_decide_eq_false_2.
Qed.

(** A manager that cannot be notified of the stop leaves the listener, the
    adapter and the journal open. *)
Lemma stop_notification_fails {env : ServeEnv} s e :
  at_point s = Stopped -> stop_signal s = true -> listening s = true -> journal_closed s = false ->
  _notify_service_manager STOPPING = Raise e ->
  exists s', happens Resume s = Some s' /\ at_point s' = Failed e /\
    listening s' = true /\ journal_closed s' = false.
Proof.
  intros Hp Hst Hl Hj He. unfold happens, ended, notifying. rewrite Hp, Hst, He. by eexists.
Qed.

(** ** A run *)

Definition managed : ServeEnv := {|
  notify_socket := Some (txt "@manager");
  send_datagram := fun address _ =>
    if bool_decide (address = 0 :: txt "manager") then Ok tt
    else Raise (PyError OSError (txt "no such socket"));
  adapter_start := Ok tt; start_server := Ok tt; adapter_close := Ok tt;
  wait_closed_waits := false;
|}.

(** Three clients: one ends, one is cancelled, one is accepted too late. *)
Definition busy_stop : list loop_event :=
  [Resume; Accept 1; Begin 1; Accept 2; Begin 2; Accept 3; End 1; Signal; Resume; Resume; Begin 3;
   Expire; End 2; Resume].

(** The same, asked to stop and waiting for its clients *)
Definition stopping_run : list loop_event := take 10 busy_stop.

Lemma serve_shutdown_witness :
  (exists s, lives (env := managed) s /\ journal_closed s = true /\ clients s = {[3%nat]} /\
    stop_signal s = true /\ messages s = [READY; STOPPING] /\ listening s = false /\
    awaited s ∩ clients s = ∅ /\ clients s ∪ accepted s ⊆ backlog s) /\
  exists s, lives (env := managed) s /\ at_point s = ClientsWait /\ clients s = {[2%nat]} /\
    returns (env := managed) s.
Proof.
  split.
  - destruct (life (env := managed) busy_stop idle) as [s|] eqn:Hl; [|by vm_compute in Hl].
    assert (lives (env := managed) s) as Hs by (by exists busy_stop).
    assert (journal_closed s = true) as Hj by (vm_compute in Hl; by injection Hl as <-).
    assert (clients s = {[3%nat]}) as Hc by (vm_compute in Hl; by injection Hl as <-).
    exists s. split; [exact Hs|]. split; [exact Hj|]. split; [exact Hc|].
    destruct (proj1 (serve_shutdown s Hs) Hj) as (H1 & H2 & H3 & H4 & H5 & _). auto.
  - destruct (life (env := managed) stopping_run idle) as [s|] eqn:Hl; [|by vm_compute in Hl].
    assert (lives (env := managed) s) as Hs by (by exists stopping_run).
    assert (at_point s = ClientsWait /\ clients s = {[2%nat]} /\ stop_signal s = true /\
      ended s = false) as (Hp & Hc & Hst & He) by (vm_compute in Hl; by injection Hl as <-).
    exists s. split; [exact Hs|]. split; [exact Hp|]. split; [exact Hc|].
    apply (proj2 (serve_shutdown s Hs)); [|exact Hst|exact He]. by split_and!.
Defined.
