(* ===== verification/Grouping.v ===== *)
(** * Grouping a list by a key

    [groups[key(x)].append(x)] over a [defaultdict(list)] (or with
    [setdefault]): the groups in the order of their first elements, each in the
    order of the list. *)

From S2P Require Import Prelude.

Lemma elem_of_concat {A} (x : A) ls : x ∈ concat ls <-> exists l, x ∈ l /\ l ∈ ls.
Proof.
  rewrite list_elem_of_In, in_concat. setoid_rewrite <-list_elem_of_In. naive_solver.
Qed.

(** [next(x for x in l if f(x))] is the first that satisfies [f]. *)
Lemma find_first {A} (f : A -> bool) l x :
  List.find f l = Some x ->
  exists before after, l = before ++ x :: after /\ f x = true /\ forall y, y ∈ before -> f y = false.
Proof.
  induction l as [|y l IH]; simpl; [done|]. destruct (f y) eqn:E.
  - intros [= ->]. exists [], l. split_and!; [done..|]. by intros z ?%elem_of_nil.
  - intros (before & after & -> & Hx & Hb)%IH. exists (y :: before), after. split_and!; [done..|].
    intros z [->|Hz]%elem_of_cons; auto.
Qed.

Lemma find_skip {A} (f : A -> bool) l x l' :
  (forall y, y ∈ l -> f y = false) -> f x = true -> List.find f (l ++ x :: l') = Some x.
Proof.
  intros Hl Hx. induction l as [|y l IH]; simpl; [by rewrite Hx|].
  rewrite Hl by left. apply IH. intros z Hz. apply Hl. by right.
Qed.

Section grouping.
Context {K V : Type} `{EqDecision K}.

(** [groups[k].append(v)] *)
Fixpoint group_add (k : K) (v : V) (groups : list (K * list V)) : list (K * list V) :=
  match groups with
  | [] => [(k, [v])]
  | (k', vs) :: groups =>
      if decide (k' = k) then (k', vs ++ [v]) :: groups else (k', vs) :: group_add k v groups
  end.

Definition group_by (key : V -> K) (l : list V) : list (K * list V) :=
  foldl (fun groups v => group_add (key v) v groups) [] l.

(** [groups.get(k)] *)
Fixpoint group_get (k : K) (groups : list (K * list V)) : option (list V) :=
  match groups with
  | [] => None
  | (k', vs) :: groups => if decide (k' = k) then Some vs else group_get k groups
  end.

(** The elements with a key, by a pass over the list; the keys of the list in
    the order they first occur. *)
Definition with_key (key : V -> K) (k : K) (l : list V) : list V :=
  List.filter (fun v => bool_decide (key v = k)) l.

Fixpoint first_occurrences (ks : list K) : list K :=
  match ks with
  | [] => []
  | k :: ks => k :: List.filter (fun k' => negb (bool_decide (k' = k))) (first_occurrences ks)
  end.

Lemma with_key_app key k l l' : with_key key k (l ++ l') = with_key key k l ++ with_key key k l'.
Proof. apply List.filter_app. Qed.

Lemma elem_of_with_key key k l v : v ∈ with_key key k l <-> v ∈ l /\ key v = k.
Proof. unfold with_key. rewrite elem_of_filter_bool, bool_decide_eq_true. done. Qed.

Lemma elem_of_first_occurrences ks k : k ∈ first_occurrences ks <-> k ∈ ks.
Proof.
  induction ks as [|k' ks IH]; simpl; [done|].
  rewrite !elem_of_cons, elem_of_filter_bool, IH, negb_true_iff, bool_decide_eq_false.
  destruct (decide (k = k')); naive_solver.
Qed.

Lemma NoDup_filter_bool (P : K -> bool) ks : NoDup ks -> NoDup (List.filter P ks).
Proof.
  intros H. rewrite <-(List.map_id (List.filter P ks)). apply (NoDup_map_filter id).
  by rewrite List.map_id.
Qed.

Lemma first_occurrences_NoDup ks : NoDup (first_occurrences ks).
Proof.
  induction ks as [|k ks IH]; simpl; constructor.
  - rewrite elem_of_filter_bool, negb_true_iff, bool_decide_eq_false. naive_solver.
  - by apply NoDup_filter_bool.
Qed.

Lemma filter_filter (P Q : K -> bool) ks :
  List.filter P (List.filter Q ks) = List.filter Q (List.filter P ks).
Proof.
  induction ks as [|k ks IH]; [done|]. simpl.
  destruct (Q k) eqn:EQ, (P k) eqn:EP; simpl; rewrite ?EQ, ?EP; congruence.
Qed.

Lemma first_occurrences_filter (P : K -> bool) ks :
  first_occurrences (List.filter P ks) = List.filter P (first_occurrences ks).
Proof.
  induction ks as [|k ks IH]; [done|]. simpl. destruct (P k) eqn:E; simpl; [by rewrite IH, filter_filter|].
  rewrite IH, filter_filter. symmetry. apply forallb_filter_id, forallb_forall.
  intros x [_ Hx]%List.filter_In. apply negb_true_iff, bool_decide_eq_false. congruence.
Qed.

(** One more key at the end is new or changes nothing. *)
Lemma first_occurrences_snoc ks k :
  first_occurrences (ks ++ [k]) =
  if decide (k ∈ ks) then first_occurrences ks else first_occurrences ks ++ [k].
Proof.
  induction ks as [|k' ks IH]; [done|]. cbn [first_occurrences app].
  rewrite IH. destruct (decide (k ∈ ks)) as [H|H].
  - by rewrite decide_True by (by right).
  - rewrite List.filter_app. cbn [List.filter]. destruct (decide (k = k')) as [->|Hne].
    + rewrite bool_decide_eq_true_2 by done. cbn [negb]. rewrite app_nil_r.
      by rewrite decide_True by left.
    + rewrite bool_decide_eq_false_2 by done. cbn [negb].
      rewrite decide_False by (rewrite elem_of_cons; naive_solver). done.
Qed.

Lemma group_add_keys k v groups :
  map fst (group_add k v groups) =
  if decide (k ∈ map fst groups) then map fst groups else map fst groups ++ [k].
Proof.
  induction groups as [|[k' vs] groups IH]; [done|]. cbn [group_add map fst].
  destruct (decide (k' = k)) as [->|Hne]; cbn [map fst]; [by rewrite decide_True by left|].
  rewrite IH. destruct (decide (k ∈ map fst groups)).
  - by rewrite decide_True by (by right).
  - by rewrite decide_False by (rewrite elem_of_cons; naive_solver).
Qed.

Lemma group_add_get k v k' groups :
  group_get k' (group_add k v groups) =
  if decide (k = k') then Some (default [] (group_get k' groups) ++ [v]) else group_get k' groups.
Proof.
  induction groups as [|[k0 vs] groups IH]; simpl.
  - destruct (decide (k = k')); done.
  - destruct (decide (k0 = k)) as [->|Hne]; simpl.
    + destruct (decide (k = k')); done.
    + rewrite IH. repeat destruct (decide _); done || congruence.
Qed.

Section correct.
Context (key : V -> K).

Lemma group_by_snoc l v : group_by key (l ++ [v]) = group_add (key v) v (group_by key l).
Proof. unfold group_by. by rewrite foldl_app. Qed.

Lemma group_by_keys l : map fst (group_by key l) = first_occurrences (map key l).
Proof.
  induction l as [|v l IH] using rev_ind; [done|].
  rewrite group_by_snoc, group_add_keys, IH, map_app. cbn [map]. rewrite first_occurrences_snoc.
  destruct (decide (key v ∈ map key l)) as [H|H].
  - by rewrite decide_True by (by apply elem_of_first_occurrences).
  - by rewrite decide_False by (by rewrite elem_of_first_occurrences).
Qed.

Lemma group_by_get l k :
  group_get k (group_by key l) = if decide (k ∈ map key l) then Some (with_key key k l) else None.
Proof.
  induction l as [|v l IH] using rev_ind; [done|].
  rewrite group_by_snoc, group_add_get, IH, map_app, with_key_app. cbn [map with_key List.filter].
  assert (k ∈ map key l ++ [key v] <-> k ∈ map key l \/ key v = k) as Hin.
  { rewrite elem_of_app, list_elem_of_singleton. naive_solver. }
  rewrite (decide_ext _ _ _ _ Hin).
  destruct (decide (key v = k)) as [E|Hne].
  - rewrite (decide_True (P := _ \/ _)) by (by right).
    rewrite bool_decide_eq_true_2 by done. f_equal. f_equal.
    destruct (decide (k ∈ map key l)) as [H|H]; [done|]. simpl. symmetry.
    apply elem_of_nil_inv. intros x [Hx Hk]%elem_of_with_key. apply H. subst k. rewrite <-Hk.
    by apply list_elem_of_fmap_2.
  - rewrite bool_decide_eq_false_2 by done. rewrite app_nil_r.
    destruct (decide (k ∈ map key l)), (decide (_ \/ _)); naive_solver.
Qed.

Lemma group_get_elem k vs groups :
  NoDup (map fst groups) -> (k, vs) ∈ groups -> group_get k groups = Some vs.
Proof.
  induction groups as [|[k' vs'] groups IH]; simpl; [by intros _ ?%not_elem_of_nil|].
  intros [Hk Hnd]%NoDup_cons. rewrite elem_of_cons. intros [[= -> ->]|Hin].
  - by rewrite decide_True.
  - rewrite decide_False; [by apply IH|]. intros ->. apply Hk.
    by apply (list_elem_of_fmap_2 fst _ (k, vs)).
Qed.

(** The groups are the passes over the list, one for each key. *)
Lemma group_by_spec l :
  group_by key l = map (fun k => (k, with_key key k l)) (first_occurrences (map key l)).
Proof.
  rewrite <-group_by_keys, map_map, <-(List.map_id (group_by key l)) at 1.
  apply List.map_ext_in. intros [k vs] Hin%list_elem_of_In. simpl. f_equal.
  assert (NoDup (map fst (group_by key l))) as Hnd
    by (rewrite group_by_keys; apply first_occurrences_NoDup).
  pose proof (group_get_elem k vs _ Hnd Hin) as Hg. rewrite group_by_get in Hg.
  destruct (decide _); by simplify_eq.
Qed.

(** Nothing is lost and nothing is counted twice. *)
Lemma group_add_concat k v groups : concat (map snd (group_add k v groups)) ≡ₚ v :: concat (map snd groups).
Proof.
  induction groups as [|[k' vs] groups IH]; simpl; [done|].
  destruct (decide (k' = k)); simpl.
  - rewrite <-app_assoc. simpl. symmetry. apply Permutation_middle.
  - rewrite IH. symmetry. apply Permutation_middle.
Qed.

Lemma group_by_concat l : concat (map snd (group_by key l)) ≡ₚ l.
Proof.
  induction l as [|v l IH] using rev_ind; [done|].
  rewrite group_by_snoc, group_add_concat, IH. apply Permutation_cons_append.
Qed.
End correct.
End grouping.

(** Renaming the keys by a map that is injective on them *)
Lemma first_occurrences_map {K K' : Type} `{EqDecision K, EqDecision K'} (f : K -> K') (ks : list K) :
  (forall k k', k ∈ ks -> k' ∈ ks -> f k = f k' -> k = k') ->
  first_occurrences (map f ks) = map f (first_occurrences ks).
Proof.
  induction ks as [|k ks IH]; [done|]. intros Hinj. simpl. f_equal.
  rewrite IH by (intros; apply Hinj; by try right). rewrite List.filter_map_swap. f_equal.
  apply List.filter_ext_in. intros k' Hk'%list_elem_of_In. f_equal. apply bool_decide_ext.
  split; [|by intros ->]. intros E. apply Hinj; [|by left|done]. right.
  by apply elem_of_first_occurrences.
Qed.
