(* ===== verification/Render.v ===== *)
(** * Table rendering ([qfw_slurm_inspect/render.py])

    Left-aligned columns, two blanks apart, trailing blanks cut. *)

From S2P Require Import Prelude Python Values.
Local Open Scope Z_scope.

(** [s.ljust(n)] *)
Definition ljust (n : nat) (s : str) : str := s ++ replicate (n - length s) 32.

Section render.
Context {ucd : UnicodeData}.

(** [s.rstrip()] *)
Definition rstrip (s : str) : str := reverse (lstrip (reverse s)).

(** [zip(values, widths, strict=True)], padded *)
Definition _line (values : list str) (widths : list nat) : str :=
  join (txt "  ") (zip_with ljust widths values).

(** The widths after one more row *)
Definition widen (widths : list nat) (row : list str) : list nat :=
  zip_with (fun w (v : str) => Nat.max w (length v)) widths row.

Fixpoint column_widths (headers : list str) (widths : list nat) (rows : list (list str))
    : result (list nat) :=
  match rows with
  | [] => Ok widths
  | row :: rows =>
      if negb (Nat.eqb (length row) (length headers)) then
        Raise (PyError ValueError (txt "table row width differs from header width"))
      else column_widths headers (widen widths row) rows
  end.

Definition table (headers : list str) (rows : list (list pyval)) : result str :=
  let rows := map (map py_str) rows in
  widths ← column_widths headers (map (fun header : str => length header) headers) rows;
  Ok (join [10] (map (fun row => rstrip (_line row widths)) (headers :: rows))).
End render.
