(* ===== verification/RenderProps.v ===== *)
(** * Properties of the table rendering *)

From S2P Require Import Prelude Python Values Render.
Local Open Scope Z_scope.

Section facts.
Context {ucd : UnicodeData}.

Lemma column_widths_ok headers rows widths :
  column_widths headers widths rows =
  if forallb (fun row : list str => Nat.eqb (length row) (length headers)) rows
  then Ok (foldl widen widths rows)
  else Raise (PyError ValueError (txt "table row width differs from header width")).
Proof.
  revert widths. induction rows as [|row rows IH]; intros widths; simpl; [done|].
  destruct (Nat.eqb (length row) (length headers)); [apply IH|done].
Qed.

Lemma widen_length widths row : length row = length widths -> length (widen widths row) = length widths.
Proof. intros H. unfold widen. rewrite length_zip_with. apply Nat.min_l, Nat.eq_le_incl. done. Qed.

Lemma widen_lookup widths (row : list str) i w (v : str) :
  widths !! i = Some w -> row !! i = Some v -> widen widths row !! i = Some (Nat.max w (length v)).
Proof. intros Hw Hv. unfold widen. rewrite lookup_zip_with, Hw. simpl. by rewrite Hv. Qed.

(** A width bounds the cells of its column, and one of them has it (or it is
    the width the column started with). *)
Lemma widths_bound rows widths :
  Forall (fun row : list str => length row = length widths) rows ->
  length (foldl widen widths rows) = length widths /\
  forall i w, foldl widen widths rows !! i = Some w ->
    (exists w0, widths !! i = Some w0 /\ (w0 <= w)%nat /\
       (w = w0 \/ exists (row : list str) (v : str), row ∈ rows /\ row !! i = Some v /\ w = length v)) /\
    forall (row : list str) (v : str), row ∈ rows -> row !! i = Some v -> (length v <= w)%nat.
Proof.
  revert widths. induction rows as [|row rows IH]; intros widths H; simpl.
  - split; [done|]. intros i w Hw. split; [by exists w; auto|]. by intros ? ? ?%not_elem_of_nil.
  - apply Forall_cons in H as [Hrow Hrows].
    pose proof (widen_length _ _ Hrow) as Hlen.
    destruct (IH (widen widths row)) as [Hl Hb]; [by rewrite Hlen|]. split; [congruence|].
    intros i w Hw. destruct (Hb i w Hw) as [(w1 & Hw1 & Hle & Hex) Hall].
    assert (is_Some (widths !! i)) as [w0 Hw0].
    { apply lookup_lt_is_Some. rewrite <-Hlen. by apply lookup_lt_Some in Hw1. }
    assert (is_Some (row !! i)) as [v Hv].
    { apply lookup_lt_is_Some. rewrite Hrow, <-Hlen. by apply lookup_lt_Some in Hw1. }
    rewrite (widen_lookup _ _ _ _ _ Hw0 Hv) in Hw1. injection Hw1 as <-. split.
    + exists w0. split_and!; [done|lia|].
      destruct Hex as [->|(row' & v' & Hin & Hv' & ->)].
      * destruct (decide (w0 = Nat.max w0 (length v))) as [E|E]; [by left|].
        right. exists row, v. split_and!; [by left|done|lia].
      * right. exists row', v'. split_and!; [by right|done..].
    + intros row' v' [->|Hin]%elem_of_cons Hv'; [|by eapply Hall].
      rewrite Hv in Hv'. injection Hv' as <-. lia.
Qed.

(** ** Columns *)

(** Where the column [i] starts *)
Definition column_start (widths : list nat) (i : nat) : nat := list_sum (take i widths) + 2 * i.

Lemma ljust_length n s : length (ljust n s) = Nat.max n (length s).
Proof. unfold ljust. rewrite length_app, length_replicate. lia. Qed.

Lemma line_cons v row w widths :
  _line (v :: row) (w :: widths) =
  if bool_decide (zip_with ljust widths row = []) then ljust w v
  else ljust w v ++ txt "  " ++ _line row widths.
Proof. unfold _line. simpl. by destruct (zip_with ljust widths row). Qed.

Lemma line_column (row : list str) widths i (v : str) w :
  row !! i = Some v -> widths !! i = Some w ->
  (forall j (v : str) w, row !! j = Some v -> widths !! j = Some w -> (length v <= w)%nat) ->
  take (length v) (drop (column_start widths i) (_line row widths)) = v.
Proof.
  revert row widths. induction i as [|i IH]; intros [|v0 row] [|w0 widths]; try done; simpl; intros Hv Hw Hle.
  - injection Hv as ->. injection Hw as ->. unfold column_start. simpl. rewrite drop_0, line_cons.
    unfold ljust. case_bool_decide; by rewrite <-?app_assoc, take_app_length.
  - pose proof (Hle 0%nat v0 w0 eq_refl eq_refl) as H0.
    rewrite line_cons, bool_decide_eq_false_2.
    + rewrite <-(IH row widths Hv Hw (fun j => Hle (S j))) at 2. f_equal.
      replace (column_start (w0 :: widths) (S i))
        with (length (ljust w0 v0 ++ txt "  ") + column_start widths i)%nat.
      { rewrite app_assoc, <-drop_drop, drop_app_length. done. }
      rewrite length_app, ljust_length. unfold column_start. simpl. lia.
    + intros E. destruct row, widths; try done; by destruct i.
Qed.

End facts.

(** ** Properties *)

(** A table is refused exactly when a row has not one cell for each header.
    Otherwise it is one line for the headers and one for each row, trailing
    blanks cut, in which the cells of a column start at the same place and are
    whole; a column is as wide as its widest cell. *)
Theorem table_columns {ucd : UnicodeData} headers rows :
  (forall text, table headers rows = Ok text ->
    exists widths,
      text = join [10] (map (fun row => rstrip (_line row widths))
               (headers :: map (map py_str) rows)) /\
      length widths = length headers /\
      (forall (row : list str) i (v : str) w, row ∈ headers :: map (map py_str) rows ->
        row !! i = Some v -> widths !! i = Some w ->
        take (length v) (drop (column_start widths i) (_line row widths)) = v) /\
      (forall i w, widths !! i = Some w ->
        exists (row : list str) (v : str), row ∈ headers :: map (map py_str) rows /\ row !! i = Some v /\ w = length v)) /\
  (is_ok (table headers rows) = true <-> Forall (fun row => length row = length headers) rows).
Proof.
  unfold table. cbv zeta. rewrite column_widths_ok.
  set (cells := map (map py_str) rows).
  assert (Forall (fun row => length row = length headers) rows <->
    Forall (fun row : list str => length row = length headers) cells) as Hlen.
  { unfold cells. rewrite Forall_map. apply Forall_iff. intros row. by rewrite length_map. }
  rewrite Hlen. destruct (forallb _ cells) eqn:E.
  - assert (Forall (fun row : list str => length row = length headers) cells) as Hc.
    { apply Forall_forall. intros row Hrow%list_elem_of_In. apply Nat.eqb_eq.
      by apply (proj1 (forallb_forall _ _) E). }
    split; [|split; done]. simpl. intros text [= <-].
    destruct (widths_bound cells (map (fun header : str => length header) headers)) as [Hl Hb].
    { rewrite length_map. done. }
    eexists. split; [done|]. rewrite length_map in Hl. split; [done|].
    assert (forall (row : list str) i (v : str) w, row ∈ headers :: cells -> row !! i = Some v ->
      foldl widen (map (fun header : str => length header) headers) cells !! i = Some w -> (length v <= w)%nat) as Hle.
    { intros row i v w Hrow Hv Hw. destruct (Hb i w Hw) as [(w0 & Hw0 & Hle & _) Hall].
      apply elem_of_cons in Hrow as [->|Hrow]; [|by eapply Hall].
      rewrite list_lookup_fmap, Hv in Hw0. simpl in Hw0. injection Hw0 as <-. done. }
    split.
    + intros row i v w Hrow Hv Hw. apply (line_column _ _ i v w); [done..|].
      intros j v' w' Hv' Hw'. by eapply Hle.
    + intros i w Hw. destruct (Hb i w Hw) as [(w0 & Hw0 & _ & Hex) _].
      destruct Hex as [->|(row & v & Hrow & Hv & Hlv)].
      * apply list_lookup_fmap_Some in Hw0 as (v & -> & Hv). exists headers, v. by split; [left|].
      * exists row, v. by split; [right|].
  - split; [done|]. split; [done|]. intros H. exfalso. apply not_true_iff_false in E. apply E.
    apply forallb_forall. intros row Hrow%list_elem_of_In. apply Nat.eqb_eq.
    by apply (proj1 (Forall_forall _ _) H).
Qed.
