(* ===== verification/Inspect.v ===== *)
(** * Slurm and QPM records of the inspection commands

    [qfw_slurm_inspect/models.py], [slurm.py] and [qpm.py]: the JSON of [sinfo]
    and [squeue] and the replies of the directory and the QPMs, normalised into
    records. The commands and DEFw are parameters. *)

From S2P Require Import Prelude Python Values Effects.
Local Open Scope Z_scope.

(** ** Records *)

Module SlurmNode.
Record t := mk { name : str; state : str; partition : str; features : list str }.
End SlurmNode.

Module SlurmJob.
Record t := mk {
  job_id : str;
  user : str;
  state : str;
  nodes : list str;
  cluster_name : str;
  heterogeneous_job_id : str;
  heterogeneous_job_offset : option Z;
}.
End SlurmJob.

Module QPMService.
Record t := mk {
  service_id : str;
  runtime_id : str;
  generation : Z;
  backend : str;
  state : str;
  ready : bool;
  active_reservations : Z;
  active_tasks : Z;
  assigned_hosts : list str;
  dvm_ready : pyval;
  error : str;
  raw : list (str * pyval);
}.
End QPMService.

Module QPMAllocation.
Record t := mk {
  service_id : str;
  scheduler : str;
  cluster_name : str;
  allocation_id : str;
  job_id : str;
  user : str;
  state : str;
  active_tasks : Z;
  workload_kind : str;
  created_ns : pyval;
  updated_ns : pyval;
}.
End QPMAllocation.

Record command_result := mk_command { cmd_returncode : Z; cmd_stdout : str; cmd_stderr : str }.

(** The Slurm commands, the JSON parser ([inl] is the parser's message; numbers
    with a fraction are left out of the values), the directory and the
    inspection calls of a QPM binding. *)
Class InspectEnv (X : Type) := {
  run_command : list str -> X -> result command_result * X;
  parse_json : str -> str + pyval;
  connect_directory : X -> result unit * X;
  resolve_services : string -> X -> result pyval * X;
  get_service_summary : pyval -> X -> result pyval * X;
  list_scheduler_allocations : pyval -> pyval -> X -> result pyval * X;
}.

(** [d.get(key)] on a dict *)
Definition dget (key : string) (d : list (str * pyval)) : pyval := default PNone (assoc (txt key) d).

Section inspect.
Context {ucd : UnicodeData} {X : Type} {env : InspectEnv X}.

(** ** Slurm *)

Definition slurm_error {A} (m : str) : result A := Raise (SlurmCommandError m).

Fixpoint _nested (value : pyval) (path : list string) : pyval :=
  match path with
  | [] => value
  | name :: path =>
      match value with
      | PDict d => _nested (dget name d) path
      | _ => PNone
      end
  end.

Definition _nested_list (mapping : pyval) (path : list string) : list pyval :=
  match _nested mapping path with PList l => l | _ => [] end.

Definition nonempty (s : str) : bool := negb (bool_decide (s = [])).

Definition _texts (value : pyval) : list str :=
  match value with
  | PNone => []
  | PStr s => List.filter nonempty (split_on 44 s)
  | PList l => List.filter nonempty (map py_str l)
  | _ => [py_str value]
  end.

Definition _first_text (value : pyval) (dflt : str) : str :=
  match _texts value with v :: _ => v | [] => dflt end.

Definition _identifier (value : pyval) : str :=
  match match value with PDict d => dget "number" d | _ => value end with
  | PNone => []
  | v => py_str v
  end.

Definition _optional_identifier (value : pyval) : str :=
  let identifier := _identifier value in
  if bool_decide (identifier ∈ [[]; txt "0"]) then [] else identifier.

(** [offset]: a number, the number of a dict, or nothing that converts *)
Definition offset_of (row : list (str * pyval)) : option Z :=
  let offset := default (dget "heterogeneous_job_offset" row) (assoc (txt "het_job_offset") row) in
  let offset := match offset with PDict d => dget "number" d | _ => offset end in
  match offset with
  | PNone => None
  | v => match py_int v with Ok z => Some z | Raise _ => None end
  end.

Definition _job (row : pyval) (default_cluster : str) : result SlurmJob.t :=
  match row with
  | PDict d =>
      let job_id := _identifier (dget "job_id" d) in
      _ ← raise_if (bool_decide (job_id = [])) (SlurmCommandError (txt "squeue job lacks job_id"));
      Ok (SlurmJob.mk job_id
            (py_str (py_or (dget "user_name" d) (py_or (dget "user" d) (PStr []))))
            (_first_text (dget "job_state" d) (txt "UNKNOWN"))
            (_texts (dget "nodes" d))
            (py_str (py_or (dget "cluster" d) (PStr default_cluster)))
            (_optional_identifier (py_or (dget "het_job_id" d) (dget "heterogeneous_job_id" d)))
            (offset_of d))
  | _ => slurm_error (txt "squeue JSON contains a malformed job")
  end.

(** The nodes of one row of [sinfo] *)
Definition row_nodes (row : pyval) : result (list SlurmNode.t) :=
  match row with
  | PDict _ =>
      let state := _first_text (_nested row ["node"; "state"]%string) (txt "UNKNOWN") in
      let partition := py_str (py_or (_nested row ["partition"; "name"]%string) (PStr [])) in
      let active := _texts (_nested row ["features"; "active"]%string) in
      let features :=
        match active with [] => _texts (_nested row ["features"; "total"]%string) | _ => active end in
      Ok (map (fun name => SlurmNode.mk (py_str name) state partition features)
            (_nested_list row ["nodes"; "nodes"]%string))
  | _ => slurm_error (txt "sinfo JSON contains a malformed row")
  end.

(** A command that did not complete *)
Definition incomplete (e : exn) : bool :=
  match e with PyError OSError _ | PyError TimeoutExpired _ => true | _ => false end.

Definition check_payload (command : str) (c : command_result) : result (list (str * pyval)) :=
  if negb (cmd_returncode c =? 0) then
    let detail := strip (if bool_decide (cmd_stderr c = []) then cmd_stdout c else cmd_stderr c) in
    slurm_error (command ++ txt " exited with " ++ str_of_Z (cmd_returncode c) ++ txt ": "
      ++ if bool_decide (detail = []) then txt "no diagnostic" else detail)
  else
    match parse_json (cmd_stdout c) with
    | inl error => slurm_error (command ++ txt " returned malformed JSON: " ++ error)
    | inr (PDict d) =>
        let errors := py_or (dget "errors" d) (PList []) in
        if truthy errors then slurm_error (command ++ txt " reported errors: " ++ py_str errors)
        else Ok d
    | inr _ => slurm_error (command ++ txt " JSON response must be an object")
    end.

Definition _run (command : str) (arguments : list str) : M X (list (str * pyval)) :=
  completed ← try_catch incomplete
    (run_command (command :: arguments ++ [txt "--json"]))
    (fun error => raise (SlurmCommandError
       (command ++ txt " did not complete: " ++ exn_str error)));
  lift (check_payload command completed).

Definition nodes : M X (list SlurmNode.t) :=
  payload ← _run (txt "sinfo") [txt "--Node"];
  match dget "sinfo" payload with
  | PList rows => lift (l ← mapR row_nodes rows; Ok (concat l))
  | _ => raise (SlurmCommandError (txt "sinfo JSON response lacks a sinfo list"))
  end.

Definition jobs : M X (list SlurmJob.t) :=
  payload ← _run (txt "squeue") [];
  match dget "jobs" payload with
  | PList rows =>
      let cluster_name :=
        py_str (py_or (_nested (PDict payload) ["meta"; "slurm"; "cluster"]%string) (PStr [])) in
      lift (mapR (fun row => _job row cluster_name) rows)
  | _ => raise (SlurmCommandError (txt "squeue JSON response lacks a jobs list"))
  end.

(** ** QPMs *)

Definition qpm_error {A} (m : str) : result A := Raise (QPMInspectionError m).

Definition connect : M X unit :=
  try_except connect_directory
    (fun error => raise (QPMInspectionError
       (txt "cannot connect to the DEFw directory service: " ++ exn_str error))).

Definition _records (binding_name : string) : M X (list pyval) :=
  records ← try_except (resolve_services binding_name)
    (fun error => raise (QPMInspectionError (txt "QPM discovery failed: " ++ exn_str error)));
  match records with
  | PList l =>
      if forallb is_dict l then mret l
      else raise (QPMInspectionError (txt "directory returned malformed QPM binding records"))
  | _ => raise (QPMInspectionError (txt "directory returned malformed QPM binding records"))
  end.

Definition _service_record (record : pyval) : result (list (str * pyval)) :=
  service ← py_get record (txt "service_record");
  match service with
  | PDict d => Ok d
  | _ => qpm_error (txt "directory QPM result lacks service_record")
  end.

(** [value.get(key)] of [d.get(name) or {}] *)
Definition sub_get (d : list (str * pyval)) (name key : string) : result pyval :=
  py_get (py_or (dget name d) (PDict [])) (txt key).

Definition int_or_zero (v : pyval) : result Z := py_int (py_or v (PInt 0)).

Definition _service (service_id : str) (record : list (str * pyval)) (summary : pyval)
    : result QPMService.t :=
  match summary with
  | PDict s =>
      _ ← raise_if (bool_decide (service_id = []))
            (QPMInspectionError (txt "QPM returned a malformed service summary"));
      _ ← raise_if (negb (bool_decide (dget "schema" s = PStr (txt "qfw-qpm-service-summary-v1"))))
            (QPMInspectionError (txt "QPM " ++ repr service_id
               ++ txt " returned an unsupported summary schema"));
      name ← (if truthy (dget "target_id" s) then Ok PNone else sub_get record "selector" "name");
      let target := py_or (dget "target_id" s) (py_or name (PStr service_id)) in
      generation ← int_or_zero (dget "generation" record);
      provider ← sub_get record "properties" "provider";
      reservations ← int_or_zero (dget "active_reservation_count" s);
      tasks ← int_or_zero (dget "active_task_count" s);
      hosts ← py_iter (py_or (dget "assigned_hosts" s) (PList []));
      Ok (QPMService.mk service_id (py_str (py_or (dget "runtime_id" record) (PStr [])))
            generation (py_str (py_or provider target))
            (upper (py_str (py_or (dget "state" s) (PStr (txt "DOWN"))))) (truthy (dget "ready" s))
            reservations tasks (map py_str hosts) (dget "dvm_ready" s) [] s)
  | _ => qpm_error (txt "QPM returned a malformed service summary")
  end.

Definition _unavailable_service (service_id : str) (record : list (str * pyval)) (error : str)
    : result QPMService.t :=
  generation ← int_or_zero (dget "generation" record);
  provider ← sub_get record "properties" "provider";
  Ok (QPMService.mk service_id (py_str (py_or (dget "runtime_id" record) (PStr []))) generation
        (py_str (py_or provider (PStr (txt "unknown")))) (txt "DOWN") false 0 0 [] PNone error []).

Definition service_id_of (service : list (str * pyval)) : str :=
  py_str (py_or (dget "service_id" service) (PStr [])).

Definition inspect_service (record : pyval) : M X QPMService.t :=
  service ← lift (_service_record record);
  let service_id := service_id_of service in
  try_except
    (summary ← get_service_summary record;
     lift (_service service_id service summary))
    (fun error => lift (_unavailable_service service_id service (exn_str error))).

Definition services : M X (list QPMService.t) :=
  records ← _records "control"; mapM inspect_service records.

Definition _allocation (service_id : str) (entry : pyval) : result QPMAllocation.t :=
  match entry with
  | PDict d =>
      let text key := py_str (py_or (dget key d) (PStr [])) in
      tasks ← int_or_zero (dget "active_task_count" d);
      Ok (QPMAllocation.mk service_id (text "scheduler") (text "cluster_name")
            (text "allocation_id") (text "job_id") (text "user")
            (upper (py_str (py_or (dget "qstate" d)
                              (py_or (dget "state" d) (PStr (txt "UNKNOWN"))))))
            tasks (text "workload_kind") (dget "created_at_ns" d) (dget "updated_at_ns" d))
  | _ => qpm_error (txt "QPM " ++ repr service_id ++ txt " returned a malformed allocation")
  end.

(** The allocations of one binding, or what is appended to [self.errors] *)
Definition inspect_allocations (filters : pyval) (record : pyval)
    : M X (list QPMAllocation.t + str) :=
  service ← lift (_service_record record);
  let service_id := service_id_of service in
  response ← try_except
    (r ← list_scheduler_allocations record filters; mret (inl r))
    (fun error => mret (inr (txt "cannot inspect QPM " ++ repr service_id ++ txt ": "
                             ++ exn_str error)));
  match response with
  | inr error => mret (inr error)
  | inl response =>
      match response with
      | PDict d =>
          match dget "allocations" d with
          | PList l => l ← lift (mapR (_allocation service_id) l); mret (inl l)
          | _ => mret (inr (txt "QPM " ++ repr service_id ++ txt " returned malformed telemetry"))
          end
      | _ => mret (inr (txt "QPM " ++ repr service_id ++ txt " returned malformed telemetry"))
      end
  end.

(** The allocations and the errors of the bindings, in their order *)
Definition allocations (filters : pyval) : M X (list QPMAllocation.t * list str) :=
  records ← _records "telemetry";
  outcomes ← mapM (inspect_allocations filters) records;
  mret (concat (map (fun o => match o with inl l => l | inr _ => [] end) outcomes),
        omap (fun o => match o with inr e => Some e | inl _ => None end) outcomes).
End inspect.
