(* ===== verification/Squeue.v ===== *)
(** * The [qfw-squeue] command ([qfw_slurm_inspect/squeue.py])

    Slurm jobs joined with the QPM allocations of their cluster and allocation
    leader. *)

From S2P Require Import Prelude Python Values Effects Grouping Render Inspect.
From Stdlib Require Import SpecFloat.
Local Open Scope Z_scope.

(** [sorted(set(l))] *)
Definition sorted_set (l : list str) : list str := sorted_str (remove_dups l).

(** A row of the report *)
Module SqueueRow.
Record t := mk {
  job_id : str;
  user : str;
  state : str;
  nodes : str;
  qpu : str;
  qstate : str;
  cluster_name : str;
  components : list str;
  allocations : list (str * str * Z);
}.
End SqueueRow.

(** What a command prints and the status it returns *)
Record command_output := mk_output { out_stdout : str; out_stderr : list str; out_status : Z }.

(** [parser.error(m)]: exit 2 with the usage *)
Definition parser_error {A} (m : str) : result A := Raise (SystemExit m).

(** [timeout <= 0] on a float *)
Definition not_positive (timeout : spec_float) : bool := SFleb timeout (S754_zero false).

(** The value of an option that was given and is not empty *)
Definition given (o : option str) : option str :=
  match o with Some [] => None | o => o end.

Section squeue.
Context {ucd : UnicodeData}.

Definition canonical_job_id (job : SlurmJob.t) : str :=
  if bool_decide (SlurmJob.heterogeneous_job_id job = []) then SlurmJob.job_id job
  else SlurmJob.heterogeneous_job_id job.

Definition state_priority : list str :=
  map txt ["COMPLETING"; "RUNNING"; "PENDING"; "SUSPENDED"; "CONFIGURING"]%string.

Definition _combined_slurm_state (components : list SlurmJob.t) : str :=
  let states := map (fun c => upper (SlurmJob.state c)) components in
  match List.find (fun state => bool_decide (state ∈ states)) state_priority with
  | Some state => state
  | None => default (txt "UNKNOWN") (head (sorted_set states))
  end.

(** [states <= {"ACTIVE", "ACCEPTED"}] *)
Definition all_held (states : list str) : bool :=
  forallb (fun s => bool_decide (s ∈ [txt "ACTIVE"; txt "ACCEPTED"])) states.

Definition _quantum_state (slurm_state : str) (allocations : list QPMAllocation.t) : str :=
  let states := map QPMAllocation.state allocations in
  let pending := bool_decide (slurm_state = txt "PENDING") in
  if bool_decide (states = []) then
    if pending then txt "EVALUATING" else txt "UNAVAILABLE"
  else if bool_decide (slurm_state = txt "COMPLETING") then txt "RELEASING"
  else if pending && all_held states then txt "ACCEPTED"
  else if all_held states then txt "ACTIVE"
  else join (txt ",") (sorted_set states).

(** [sys.maxsize] *)
Definition maxsize : Z := 2 ^ 63 - 1.

Definition _job_sort_key (value : str) : Z * str :=
  match int_of_str value with Some z => (z, value) | None => (maxsize, value) end.

(** [<=] on the keys, which are tuples *)
Definition sort_key_leb (a b : Z * str) : bool :=
  if a.1 =? b.1 then str_leb a.2 b.2 else a.1 <? b.1.

Definition job_key (job : SlurmJob.t) : str * str :=
  (SlurmJob.cluster_name job, canonical_job_id job).
Definition allocation_key (a : QPMAllocation.t) : str * str :=
  (QPMAllocation.cluster_name a, QPMAllocation.job_id a).

Definition is_slurm (a : QPMAllocation.t) : bool :=
  bool_decide (lower (QPMAllocation.scheduler a) = txt "slurm").

(** The allocations of a row: those of its key; for a job without a cluster,
    the only group with its job id. *)
Definition matches_of (allocation_groups : list ((str * str) * list QPMAllocation.t))
    (cluster_name job_id : str) : list QPMAllocation.t :=
  let matches := default [] (group_get (cluster_name, job_id) allocation_groups) in
  if bool_decide (matches = []) && bool_decide (cluster_name = []) then
    match List.filter (fun '((_, selected_job), _) => bool_decide (selected_job = job_id))
            allocation_groups with
    | [(_, values)] => values
    | _ => matches
    end
  else matches.

(** [components[0].user]; a group is never empty *)
Definition first_user (components : list SlurmJob.t) : str :=
  match components with c :: _ => SlurmJob.user c | [] => [] end.

(** The row of a group *)
Definition row_of (cluster_name job_id : str) (components : list SlurmJob.t)
    (matches : list QPMAllocation.t) : SqueueRow.t :=
  let slurm_state := _combined_slurm_state components in
  SqueueRow.mk job_id (first_user components) slurm_state
    (join (txt ",") (sorted_set (concat (map SlurmJob.nodes components))))
    (join (txt ",") (sorted_set (map QPMAllocation.service_id matches)))
    (_quantum_state slurm_state matches) cluster_name
    (map SlurmJob.job_id components)
    (map (fun a => (QPMAllocation.service_id a, QPMAllocation.state a, QPMAllocation.active_tasks a))
       (sort_by str_leb QPMAllocation.service_id matches)).

Definition correlate (jobs : list SlurmJob.t) (allocations : list QPMAllocation.t)
    : list SqueueRow.t :=
  let job_groups := group_by job_key jobs in
  let allocation_groups := group_by allocation_key (List.filter is_slurm allocations) in
  let rows :=
    map (fun '((cluster_name, job_id), components) =>
           row_of cluster_name job_id components (matches_of allocation_groups cluster_name job_id))
      job_groups in
  sort_by sort_key_leb (fun row => _job_sort_key (SqueueRow.job_id row)) rows.

(** ** The report *)

Definition SCHEMA : str := txt "qfw-squeue-v1".

Definition row_json (row : SqueueRow.t) : pyval :=
  PDict [(txt "job_id", PStr (SqueueRow.job_id row)); (txt "user", PStr (SqueueRow.user row));
    (txt "state", PStr (SqueueRow.state row)); (txt "nodes", PStr (SqueueRow.nodes row));
    (txt "qpu", PStr (SqueueRow.qpu row)); (txt "qstate", PStr (SqueueRow.qstate row));
    (txt "cluster_name", PStr (SqueueRow.cluster_name row));
    (txt "components", PList (map PStr (SqueueRow.components row)));
    (txt "allocations",
     PList (map (fun '(service_id, state, active_tasks) =>
       PDict [(txt "service_id", PStr service_id); (txt "state", PStr state);
              (txt "active_tasks", PInt active_tasks)]) (SqueueRow.allocations row)))].

(** [text or "-"] *)
Definition or_dash (s : str) : pyval := py_or (PStr s) (PStr (txt "-")).

Definition row_cells (row : SqueueRow.t) : list pyval :=
  [PStr (SqueueRow.job_id row); PStr (SqueueRow.user row); PStr (SqueueRow.state row);
   or_dash (SqueueRow.nodes row); or_dash (SqueueRow.qpu row); PStr (SqueueRow.qstate row)].

Definition headers : list str := map txt ["JOBID"; "USER"; "STATE"; "NODES"; "QPU"; "QSTATE"]%string.

Record arguments := mk_arguments {
  arg_job : option str;
  arg_user : option str;
  arg_json : bool;
  arg_timeout : spec_float;
}.

(** [--job] and [--user] *)
Definition selected (args : arguments) (rows : list SqueueRow.t) : list SqueueRow.t :=
  let rows := match given (arg_job args) with
              | Some job => List.filter (fun r => bool_decide (SqueueRow.job_id r = job)) rows
              | None => rows
              end in
  match given (arg_user args) with
  | Some user => List.filter (fun r => bool_decide (SqueueRow.user r = user)) rows
  | None => rows
  end.

Definition report (args : arguments) (rows : list SqueueRow.t) (errors : list str)
    : result command_output :=
  let status := if bool_decide (errors = []) then 0 else 1 in
  if arg_json args then
    Ok (mk_output (json_pretty 0 (PDict
      [(txt "schema", PStr SCHEMA); (txt "jobs", PList (map row_json rows));
       (txt "errors", PList (map PStr errors))])) [] status)
  else
    text ← table headers (map row_cells rows);
    Ok (mk_output text (map (fun error => txt "qfw-squeue: " ++ error) errors) status).

Definition isa_SlurmCommandError (e : exn) : bool :=
  match e with SlurmCommandError _ => true | _ => false end.
Definition isa_QPMInspectionError (e : exn) : bool :=
  match e with QPMInspectionError _ => true | _ => false end.

(** [{"scheduler": "slurm"}] *)
Definition slurm_filter : pyval := PDict [(txt "scheduler", PStr (txt "slurm"))].

Definition main {X : Type} {env : InspectEnv X} (args : arguments) : M X command_output :=
  _ ← lift (if not_positive (arg_timeout args) then parser_error (txt "--timeout must be positive")
            else Ok tt);
  '(jobs, errors) ← try_catch isa_SlurmCommandError (l ← jobs; mret (l, []))
      (fun error => mret ([], [exn_str error]));
  '(allocations, qpm_errors) ← try_catch isa_QPMInspectionError
      (_ ← connect; allocations slurm_filter)
      (fun error => mret ([], [exn_str error]));
  lift (report args (selected args (correlate jobs allocations)) (errors ++ qpm_errors)).
End squeue.
