(* ===== verification/SqueueProps.v ===== *)
(** * Properties of the [qfw-squeue] command *)

From S2P Require Import Prelude Python Values Effects Grouping Render RenderProps Inspect Squeue.
Local Open Scope Z_scope.

(** ** What a row of the report says

    The join, in terms of the jobs and the allocations alone. *)
Section rows.
Context {ucd : UnicodeData}.

(** [l'] is what [l] has that satisfies [P], in order. *)
Inductive picks {A} (P : A -> Prop) : list A -> list A -> Prop :=
| picks_nil : picks P [] []
| picks_take x l l' : P x -> picks P l l' -> picks P (x :: l) (x :: l')
| picks_skip x l l' : ~ P x -> picks P l l' -> picks P (x :: l) l'.

(** The job belongs to the allocation that [id] leads on the cluster: the
    leader of its heterogeneous job, when it is part of one, or itself. *)
Definition led_by (cluster id : str) (job : SlurmJob.t) : Prop :=
  SlurmJob.cluster_name job = cluster /\
  ((SlurmJob.heterogeneous_job_id job = [] /\ SlurmJob.job_id job = id) \/
   (SlurmJob.heterogeneous_job_id job <> [] /\ SlurmJob.heterogeneous_job_id job = id)).

(** A QPM's allocation for the Slurm job [id] *)
Definition for_job (id : str) (a : QPMAllocation.t) : Prop :=
  lower (QPMAllocation.scheduler a) = txt "slurm" /\ QPMAllocation.job_id a = id.
Definition for_key (cluster id : str) (a : QPMAllocation.t) : Prop :=
  for_job id a /\ QPMAllocation.cluster_name a = cluster.

(** The allocations of a leader: those of its cluster; where the jobs name no
    cluster and none has an empty one, those of its id, provided that one
    cluster has them all. *)
Definition held_by (allocations : list QPMAllocation.t) (cluster id : str)
    (held : list QPMAllocation.t) : Prop :=
  (picks (for_key cluster id) allocations held /\ (cluster <> [] \/ held <> [])) \/
  (cluster = [] /\ picks (for_key cluster id) allocations [] /\
   picks (for_job id) allocations held /\
   forall a a', a ∈ held -> a' ∈ held ->
     QPMAllocation.cluster_name a = QPMAllocation.cluster_name a') \/
  (cluster = [] /\ picks (for_key cluster id) allocations [] /\ held = [] /\
   exists a a', a ∈ allocations /\ a' ∈ allocations /\ for_job id a /\ for_job id a' /\
     QPMAllocation.cluster_name a <> QPMAllocation.cluster_name a').

(** The texts [l] has, once each and in order, with commas *)
Definition listed (l : list str) (text : str) : Prop :=
  exists once, text = join (txt ",") once /\ NoDup once /\
    Sorted (fun x y => str_leb x y = true) once /\ forall x, x ∈ once <-> x ∈ l.

(** The state of the components: the first of the usual ones that one of them
    is in, or else the least of all *)
Definition combined (components : list SlurmJob.t) (st : str) : Prop :=
  let states := map (fun job => upper (SlurmJob.state job)) components in
  let usual := map txt ["COMPLETING"; "RUNNING"; "PENDING"; "SUSPENDED"; "CONFIGURING"]%string in
  (exists before after, usual = before ++ st :: after /\ st ∈ states /\
     forall s, s ∈ before -> s ∉ states) \/
  ((forall s, s ∈ usual -> s ∉ states) /\ st ∈ states /\
   forall s, s ∈ states -> str_leb st s = true).

(** The state of the quantum part *)
Definition quantum (st : str) (held : list QPMAllocation.t) (text : str) : Prop :=
  let states := map QPMAllocation.state held in
  let holding := forall s, s ∈ states -> s = txt "ACTIVE" \/ s = txt "ACCEPTED" in
  (held = [] /\ text = (if decide (st = txt "PENDING") then txt "EVALUATING" else txt "UNAVAILABLE")) \/
  (held <> [] /\ st = txt "COMPLETING" /\ text = txt "RELEASING") \/
  (held <> [] /\ st <> txt "COMPLETING" /\ holding /\
   text = (if decide (st = txt "PENDING") then txt "ACCEPTED" else txt "ACTIVE")) \/
  (held <> [] /\ st <> txt "COMPLETING" /\ ~ holding /\ listed states text).

(** A row joins the components of its leader with the allocations held. *)
Definition joins (jobs : list SlurmJob.t) (allocations : list QPMAllocation.t)
    (row : SqueueRow.t) : Prop :=
  let cluster := SqueueRow.cluster_name row in
  let id := SqueueRow.job_id row in
  exists first rest held,
    let components := first :: rest in
    picks (led_by cluster id) jobs components /\
    held_by allocations cluster id held /\
    SqueueRow.components row = map SlurmJob.job_id components /\
    SqueueRow.user row = SlurmJob.user first /\
    combined components (SqueueRow.state row) /\
    listed (concat (map SlurmJob.nodes components)) (SqueueRow.nodes row) /\
    listed (map QPMAllocation.service_id held) (SqueueRow.qpu row) /\
    quantum (SqueueRow.state row) held (SqueueRow.qstate row) /\
    SqueueRow.allocations row ≡ₚ
      map (fun a => (QPMAllocation.service_id a, QPMAllocation.state a, QPMAllocation.active_tasks a))
        held /\
    Sorted (fun x y => str_leb x.1.1 y.1.1 = true) (SqueueRow.allocations row).

(** Rows go by the number of the leader, those without one last. *)
Definition number_of (row : SqueueRow.t) : Z :=
  match int_of_str (SqueueRow.job_id row) with Some z => z | None => 2 ^ 63 - 1 end.
Definition before_row (r r' : SqueueRow.t) : Prop :=
  number_of r < number_of r' \/
  (number_of r = number_of r' /\ str_leb (SqueueRow.job_id r) (SqueueRow.job_id r') = true).

(** *** The code's passes pick *)

Lemma picks_filter {A} (P : A -> Prop) (f : A -> bool) l :
  (forall x, f x = true <-> P x) -> picks P l (List.filter f l).
Proof.
  intros Hf. induction l as [|x l IH]; simpl; [constructor|].
  destruct (f x) eqn:E; constructor; try done; [by apply Hf|].
  intros Hp%Hf. congruence.
Qed.

Lemma picks_nil_iff {A} (P : A -> Prop) l l' : picks P l l' -> (l' = [] <-> forall x, x ∈ l -> ~ P x).
Proof.
  induction 1 as [|x l l' Hx Hp IH|x l l' Hx Hp IH].
  - split; [by intros _ x ?%elem_of_nil|done].
  - split; [done|]. intros H. destruct (H x); [by left|done].
  - rewrite IH. split; intros H y; [intros [->|Hy]%elem_of_cons; auto|]. intros Hy. apply H. by right.
Qed.

Lemma job_key_led job c id : job_key job = (c, id) <-> led_by c id job.
Proof.
  unfold job_key, canonical_job_id, led_by. case_bool_decide as Hh; split.
  - intros [= <- <-]. auto.
  - intros [<- [[_ <-]|[? _]]]; done.
  - intros [= <- <-]. auto.
  - intros [<- [[? _]|[_ <-]]]; done.
Qed.

Lemma slurm_for_job id a :
  is_slurm a && bool_decide (QPMAllocation.job_id a = id) = true <-> for_job id a.
Proof. unfold is_slurm, for_job. by rewrite andb_true_iff, !bool_decide_eq_true. Qed.

Lemma slurm_for_key c id a :
  is_slurm a && bool_decide (allocation_key a = (c, id)) = true <-> for_key c id a.
Proof.
  unfold is_slurm, for_key, for_job, allocation_key. rewrite andb_true_iff, !bool_decide_eq_true.
  split; [by intros [? [= ? ?]]|]. intros [[? ?] ?]. split; congruence.
Qed.

Lemma filter_and {A} (f g : A -> bool) l :
  List.filter g (List.filter f l) = List.filter (fun x => f x && g x) l.
Proof.
  induction l as [|x l IH]; [done|]. simpl. destruct (f x); simpl; [|done].
  destruct (g x); by rewrite IH.
Qed.
End rows.

Section reference.
Context {ucd : UnicodeData}.

(** ** The join, by passes over the lists

    The allocations of a job group: those of Slurm with its cluster and leader;
    when there are none and the jobs name no cluster, those of the leader's id
    in any cluster, provided one cluster alone has some. *)
Definition matches_ref (allocations : list QPMAllocation.t) (cluster_name job_id : str)
    : list QPMAllocation.t :=
  let slurm := List.filter is_slurm allocations in
  let exact := with_key allocation_key (cluster_name, job_id) slurm in
  let same_job := with_key QPMAllocation.job_id job_id slurm in
  if bool_decide (exact = []) && bool_decide (cluster_name = []) then
    match first_occurrences (map QPMAllocation.cluster_name same_job) with
    | [_] => same_job
    | _ => []
    end
  else exact.

Definition row_ref (jobs : list SlurmJob.t) (allocations : list QPMAllocation.t)
    (k : str * str) : SqueueRow.t :=
  row_of k.1 k.2 (with_key job_key k jobs) (matches_ref allocations k.1 k.2).

(** The groups of an allocation id *)
Lemma groups_of_job (l : list QPMAllocation.t) job_id :
  List.filter (fun '((_, selected_job), _) => bool_decide (selected_job = job_id))
    (group_by allocation_key l) =
  map (fun c => ((c, job_id), with_key allocation_key (c, job_id) l))
    (first_occurrences (map QPMAllocation.cluster_name (with_key QPMAllocation.job_id job_id l))).
Proof.
  rewrite group_by_spec, List.filter_map_swap.
  transitivity (map (fun k => (k, with_key allocation_key k l))
    (List.filter (fun k => bool_decide (k.2 = job_id)) (first_occurrences (map allocation_key l)))).
  { f_equal. apply List.filter_ext. by intros []. }
  rewrite <-first_occurrences_filter, List.filter_map_swap.
  change (List.filter (fun a => bool_decide ((allocation_key a).2 = job_id)) l)
    with (with_key QPMAllocation.job_id job_id l).
  transitivity (map (fun k => (k, with_key allocation_key k l))
    (first_occurrences (map (fun c => (c, job_id))
       (map QPMAllocation.cluster_name (with_key QPMAllocation.job_id job_id l))))).
  { do 2 f_equal. rewrite map_map. apply List.map_ext_in.
    intros a [_ Ha]%list_elem_of_In%elem_of_with_key. unfold allocation_key. congruence. }
  rewrite first_occurrences_map by congruence. by rewrite map_map.
Qed.

Lemma matches_of_groups allocations cluster_name job_id :
  matches_of (group_by allocation_key (List.filter is_slurm allocations)) cluster_name job_id =
  matches_ref allocations cluster_name job_id.
Proof.
  unfold matches_of, matches_ref. set (l := List.filter is_slurm allocations).
  set (exact := with_key allocation_key (cluster_name, job_id) l).
  assert (default [] (group_get (cluster_name, job_id) (group_by allocation_key l)) = exact) as ->.
  { rewrite group_by_get. destruct (decide _) as [|Hno]; [done|]. symmetry.
    apply elem_of_nil_inv. intros a [Ha Hk]%elem_of_with_key. apply Hno. rewrite <-Hk.
    by apply list_elem_of_fmap_2. }
  destruct (bool_decide (exact = [])) eqn:Hex; [|done].
  apply bool_decide_eq_true in Hex. rewrite Hex.
  destruct (bool_decide (cluster_name = [])); [|done]. cbn [andb].
  rewrite groups_of_job.
  set (same := with_key QPMAllocation.job_id job_id l).
  destruct (first_occurrences (map QPMAllocation.cluster_name same)) as [|c [|? ?]] eqn:E; [done| |done].
  simpl. unfold same, with_key. apply List.filter_ext_in. intros a Ha%list_elem_of_In.
  apply bool_decide_ext. unfold allocation_key. split; [congruence|]. intros Hj.
  assert (QPMAllocation.cluster_name a ∈ [c]) as Hc%list_elem_of_singleton; [|congruence].
  rewrite <-E. apply elem_of_first_occurrences, list_elem_of_fmap_2, elem_of_with_key. done.
Qed.

Lemma correlate_ref jobs allocations :
  correlate jobs allocations =
  sort_by sort_key_leb (fun row => _job_sort_key (SqueueRow.job_id row))
    (map (row_ref jobs allocations) (first_occurrences (map job_key jobs))).
Proof.
  unfold correlate. cbv zeta. f_equal. rewrite (group_by_spec job_key), map_map. apply List.map_ext.
  intros [c j]. simpl. by rewrite matches_of_groups.
Qed.

Lemma sort_key_before x y :
  sort_key_leb (_job_sort_key (SqueueRow.job_id x)) (_job_sort_key (SqueueRow.job_id y)) = true ->
  before_row x y.
Proof.
  assert (forall r, _job_sort_key (SqueueRow.job_id r) = (number_of r, SqueueRow.job_id r)) as Hk
    by (intros r; unfold _job_sort_key, number_of; by case_match).
  rewrite !Hk. unfold sort_key_leb, before_row. cbn [fst snd].
  destruct (Z.eqb_spec (number_of x) (number_of y)); [auto|intros ?%Z.ltb_lt; auto].
Qed.

Lemma sort_key_leb_total a b : sort_key_leb a b = true \/ sort_key_leb b a = true.
Proof.
  unfold sort_key_leb. destruct (Z.eqb_spec a.1 b.1) as [->|Hne].
  - rewrite Z.eqb_refl. apply str_leb_total.
  - replace (b.1 =? a.1) with false by lia. lia.
Qed.

(** The components of the rows are the jobs. *)
Lemma correlate_components jobs allocations :
  concat (map SqueueRow.components (correlate jobs allocations)) ≡ₚ map SlurmJob.job_id jobs.
Proof.
  rewrite correlate_ref, sort_by_perm, map_map. simpl.
  rewrite <-(group_by_concat job_key jobs) at 2. rewrite group_by_spec, concat_map, !map_map. done.
Qed.

(** ** The rows are the join *)

Lemma sorted_set_listed l : listed l (join (txt ",") (sorted_set l)).
Proof.
  exists (sorted_set l). split_and!; [done| | |].
  - unfold sorted_set, sorted_str. apply NoDup_sort_by, NoDup_remove_dups.
  - apply (sort_by_sorted str_leb id), str_leb_total.
  - intros x. unfold sorted_set. by rewrite elem_of_sorted_str, elem_of_remove_dups.
Qed.

Lemma sorted_head_least l st :
  head (sorted_set l) = Some st -> st ∈ l /\ forall s, s ∈ l -> str_leb st s = true.
Proof.
  intros Hh. destruct (sorted_set_listed l) as (once & _ & _ & _ & Hin).
  assert (Hs : Sorted (fun x y => str_leb x y = true) (sorted_set l))
    by (apply (sort_by_sorted str_leb id), str_leb_total).
  assert (Hm : forall x, x ∈ sorted_set l <-> x ∈ l)
    by (intros x; unfold sorted_set; by rewrite elem_of_sorted_str, elem_of_remove_dups).
  destruct (sorted_set l) as [|y ys] eqn:E; [done|]. injection Hh as ->.
  split; [apply Hm; by left|]. intros s Hsl%Hm.
  apply Sorted_StronglySorted in Hs; [|intros a b c; apply str_leb_trans].
  apply StronglySorted_inv in Hs as [_ Hs]. rewrite Forall_forall in Hs.
  apply elem_of_cons in Hsl as [->|Hsl]; [apply str_leb_refl|by apply Hs].
Qed.

Lemma combined_state first rest :
  combined (first :: rest) (_combined_slurm_state (first :: rest)).
Proof.
  unfold combined, _combined_slurm_state, state_priority. cbv zeta.
  set (states := map (fun job => upper (SlurmJob.state job)) (first :: rest)).
  destruct (List.find _ _) as [st|] eqn:E.
  - left. apply find_first in E as (before & after & Hu & Hst & Hb).
    apply bool_decide_eq_true in Hst. exists before, after. split_and!; [done..|].
    intros s Hs. by apply Hb, bool_decide_eq_false in Hs.
  - right. split.
    { intros s Hs%list_elem_of_In. pose proof (List.find_none _ _ E s Hs) as Hn.
      by apply bool_decide_eq_false in Hn. }
    destruct (head (sorted_set states)) as [st|] eqn:Hh; [exact (sorted_head_least _ _ Hh)|].
    exfalso. assert (upper (SlurmJob.state first) ∈ sorted_set states) as Hin
      by (unfold sorted_set; rewrite elem_of_sorted_str, elem_of_remove_dups; by left).
    destruct (sorted_set states); [by apply elem_of_nil in Hin|done].
Qed.

Lemma all_held_spec states :
  all_held states = true <-> forall s, s ∈ states -> s = txt "ACTIVE" \/ s = txt "ACCEPTED".
Proof.
  unfold all_held. rewrite forallb_forall. setoid_rewrite bool_decide_eq_true.
  setoid_rewrite <-list_elem_of_In. split; intros H s Hs; specialize (H s Hs).
  - apply elem_of_cons in H as [?|[?|[]%elem_of_nil]%elem_of_cons]; auto.
  - rewrite !elem_of_cons. tauto.
Qed.

Lemma quantum_state st held : quantum st held (_quantum_state st held).
Proof.
  unfold quantum, _quantum_state. cbv zeta.
  destruct held as [|a held]; [left; split; [done|]; simpl; by destruct (decide _), (bool_decide_reflect (st = txt "PENDING"))|].
  right. set (states := map QPMAllocation.state (a :: held)).
  rewrite (bool_decide_eq_false_2 (states = [])) by done.
  destruct (bool_decide_reflect (st = txt "COMPLETING")) as [Hc|Hc]; [left; by split_and!|right].
  destruct (all_held states) eqn:Hall; [left|right]; rewrite ?andb_true_r, ?andb_false_r.
  - pose proof (proj1 (all_held_spec states) Hall). split_and!; [done..|].
    by destruct (decide _), (bool_decide_reflect (st = txt "PENDING")).
  - split_and!; [done|done| |apply sorted_set_listed]. intros H. apply (proj2 (all_held_spec states)) in H. congruence.
Qed.

Lemma matches_held allocations c id : held_by allocations c id (matches_ref allocations c id).
Proof.
  unfold matches_ref, with_key. rewrite !filter_and.
  assert (Hexact := picks_filter (for_key c id)
    (fun a => is_slurm a && bool_decide (allocation_key a = (c, id))) allocations (slurm_for_key c id)).
  assert (Hjob := picks_filter (for_job id)
    (fun a => is_slurm a && bool_decide (QPMAllocation.job_id a = id)) allocations (slurm_for_job id)).
  set (exact := List.filter _ _) in *. set (same := List.filter _ _) in Hjob |- *.
  assert (Hsame : forall a, a ∈ same -> a ∈ allocations /\ for_job id a)
    by (intros a [Ha Hp]%elem_of_filter_bool; by apply slurm_for_job in Hp).
  destruct (bool_decide_reflect (exact = [])) as [He|He]; cbn [andb].
  2: { left. split; [done|by right]. }
  rewrite He in Hexact. destruct (bool_decide_reflect (c = [])) as [Hc|Hc].
  2: { left. rewrite He. split; [done|by left]. }
  right. pose proof (first_occurrences_NoDup (map QPMAllocation.cluster_name same)) as Hnd.
  pose proof (elem_of_first_occurrences (map QPMAllocation.cluster_name same)) as Hin.
  destruct (first_occurrences _) as [|c1 [|c2 cs]].
  - left. destruct same as [|a l].
    + split_and!; try done. by intros ? ? ?%elem_of_nil.
    + exfalso. by apply (elem_of_nil (QPMAllocation.cluster_name a)), Hin; left.
  - left. split_and!; try done.
    assert (forall a, a ∈ same -> QPMAllocation.cluster_name a = c1) as Hc1.
    { intros a Ha. apply list_elem_of_singleton, Hin. by apply list_elem_of_fmap_2. }
    intros a a' Ha Ha'. by rewrite (Hc1 a Ha), (Hc1 a' Ha').
  - right. assert (c1 <> c2) as Hne by (apply NoDup_cons in Hnd as [Hn _]; set_solver).
    pose proof (proj1 (Hin c1) ltac:(by left)) as (a1 & -> & [H1 J1]%Hsame)%list_elem_of_fmap.
    pose proof (proj1 (Hin c2) ltac:(right; by left)) as (a2 & -> & [H2 J2]%Hsame)%list_elem_of_fmap.
    split_and!; try done. by exists a1, a2.
Qed.

Lemma row_joins jobs allocations k :
  k ∈ map job_key jobs -> joins jobs allocations (row_ref jobs allocations k).
Proof.
  intros (job & -> & Hjob)%list_elem_of_fmap. unfold row_ref. set (k := job_key job).
  assert (picks (led_by k.1 k.2) jobs (with_key job_key k jobs)) as Hp.
  { apply picks_filter. intros x. rewrite bool_decide_eq_true, <-job_key_led.
    by rewrite <-surjective_pairing. }
  destruct (with_key job_key k jobs) as [|first rest] eqn:Hk.
  { exfalso. apply (elem_of_nil job). rewrite <-Hk. by apply elem_of_with_key. }
  exists first, rest, (matches_ref allocations k.1 k.2).
  split; [exact Hp|]. split; [apply matches_held|]. split; [done|]. split; [done|].
  split; [apply combined_state|]. split; [apply sorted_set_listed|].
  split; [apply sorted_set_listed|]. split; [apply quantum_state|]. split.
  - simpl. by rewrite sort_by_perm.
  - simpl. eapply Sorted_fmap; [|apply (sort_by_sorted str_leb QPMAllocation.service_id), str_leb_total]. done.
Qed.
End reference.

Section command.
Context {ucd : UnicodeData} {X : Type} {env : InspectEnv X}.

(** What a source gave, or the message of the error the command reports *)
Definition given_or {A} (none : A) (r : result A) : A := match r with Ok a => a | Raise _ => none end.
Definition failure {A} (r : result A) : list str :=
  match r with Ok _ => [] | Raise e => [exn_str e] end.

(** An outcome the command goes on after *)
Definition reported {A} (catches : exn -> bool) (r : result A) : Prop :=
  match r with Ok _ => True | Raise e => catches e = true end.

Lemma table_rows (rows : list SqueueRow.t) : exists text, table headers (map row_cells rows) = Ok text.
Proof.
  unfold table. rewrite column_widths_ok.
  replace (forallb _ _) with true; [by eexists|]. symmetry. apply forallb_forall.
  intros row Hrow. apply in_map_iff in Hrow as (cells & <- & Hc).
  apply in_map_iff in Hc as (r & <- & _). reflexivity.
Qed.

(** The report never raises: its rows have a cell for each header. *)
Lemma report_ok args rows errors :
  exists text, report args rows errors =
    Ok (mk_output text (if arg_json args then [] else map (app (txt "qfw-squeue: ")) errors)
          (if bool_decide (errors = []) then 0 else 1)).
Proof.
  unfold report. destruct (arg_json args); [by eexists|].
  destruct (table_rows rows) as [text ->]. by eexists.
Qed.

(** The rest of the command, given what [squeue] gave *)
Definition main_from (args : arguments) (jobs : list SlurmJob.t) (errors : list str)
    : M X command_output :=
  '(allocations, qpm_errors) ← try_catch isa_QPMInspectionError
      (_ ← connect; allocations slurm_filter)
      (fun error => mret ([], [exn_str error]));
  lift (report args (selected args (correlate jobs allocations)) (errors ++ qpm_errors)).

Lemma try_catch_run {A} (catches : exn -> bool) (m : M X A) h x r x' :
  m x = (r, x') ->
  try_catch catches m h x =
  match r with
  | Ok a => (Ok a, x')
  | Raise e => if catches e then h e x' else (Raise e, x')
  end.
Proof. intros H. unfold try_catch. rewrite H. by destruct r. Qed.

(** The command from its two sources on *)
Lemma main_run args x rj x1 :
  not_positive (arg_timeout args) = false -> jobs x = (rj, x1) ->
  main args x =
  match rj with
  | Raise e =>
      if isa_SlurmCommandError e then main_from args [] [exn_str e] x1 else (Raise e, x1)
  | Ok l => main_from args l [] x1
  end.
Proof.
  intros Ht Hj. unfold main. rewrite Ht.
  rewrite (m_bind_ok (lift (Ok tt)) _ _ tt x) by done.
  assert ((l ← jobs; mret (l, [] : list str)) x = (l ← rj; Ok (l, []), x1)) as Hs.
  { unfold mbind at 1, m_mbind, m_bind. rewrite Hj. by destruct rj. }
  unfold mbind at 1, m_mbind, m_bind at 1. rewrite (try_catch_run _ _ _ _ _ _ Hs).
  destruct rj as [l|e]; simpl; [done|]. by destruct (isa_SlurmCommandError e).
Qed.
End command.

(** ** Properties *)

(** C37 The rows of the report are the join of the jobs with the allocations.
    There is one row for each cluster and allocation leader that some job has,
    the leader being that of the heterogeneous job, or the job itself. A row
    has the jobs of its leader as components, in order, the user of the first
    and the state and nodes they have together; it carries the Slurm
    allocations of its cluster and leader, or, where its jobs name no cluster,
    those of the only cluster that has some for the leader, with the state of
    the quantum part that follows. Rows go by the numbers of the leaders, and
    every job is a component of exactly one. *)
Theorem correlate_joins {ucd : UnicodeData} jobs allocations :
  let rows := correlate jobs allocations in
  (forall cluster id,
     (exists row, row ∈ rows /\ SqueueRow.cluster_name row = cluster /\ SqueueRow.job_id row = id) <->
     exists job, job ∈ jobs /\ led_by cluster id job) /\
  NoDup (map (fun row => (SqueueRow.cluster_name row, SqueueRow.job_id row)) rows) /\
  Forall (joins jobs allocations) rows /\
  Sorted before_row rows /\
  concat (map SqueueRow.components rows) ≡ₚ map SlurmJob.job_id jobs.
Proof.
  intros rows. assert (Hrows : forall row, row ∈ rows <->
    exists k, k ∈ map job_key jobs /\ row = row_ref jobs allocations k).
  { intros row. unfold rows. rewrite correlate_ref, elem_of_sort_by, list_elem_of_fmap.
    setoid_rewrite elem_of_first_occurrences. naive_solver. }
  split_and!; [| | | |apply correlate_components].
  - intros c id. setoid_rewrite Hrows. setoid_rewrite list_elem_of_fmap. split.
    + intros (row & ([c' id'] & (job & Hk & Hj) & ->) & <- & <-). exists job.
      split; [done|]. by apply job_key_led.
    + intros (job & Hj & Hk%job_key_led). eexists. split; [exists (c, id); split; [by exists job|done]|done].
  - unfold rows. rewrite correlate_ref, sort_by_perm, map_map.
    rewrite (List.map_ext _ id) by (by intros []). rewrite List.map_id.
    apply first_occurrences_NoDup.
  - apply Forall_forall. intros row (k & Hk & ->)%Hrows. by apply row_joins.
  - rewrite <-(List.map_id rows). eapply Sorted_fmap; [|apply (sort_by_sorted sort_key_leb
      (fun row => _job_sort_key (SqueueRow.job_id row))), sort_key_leb_total].
    intros x y. apply sort_key_before.
Qed.

(** The report goes on when a source fails: a Slurm command that fails and
    a QPM inspection that fails leave no jobs and no allocations, and an error;
    the command joins what it has, never raises, reports the errors after the
    rest, and its status is 0 exactly when nothing failed. Any other exception
    of a source escapes. *)
Theorem squeue_report {ucd : UnicodeData} {X} {env : InspectEnv X} args x rj x1 ra x2 :
  not_positive (arg_timeout args) = false ->
  jobs x = (rj, x1) -> (connect ≫= fun _ => allocations slurm_filter) x1 = (ra, x2) ->
  (reported isa_SlurmCommandError rj -> reported isa_QPMInspectionError ra ->
   let found := given_or ([], []) ra in
   let errors := failure rj ++ found.2 ++ failure ra in
   exists text,
     report args (selected args (correlate (given_or [] rj) found.1)) errors =
       Ok (mk_output text (if arg_json args then [] else map (app (txt "qfw-squeue: ")) errors)
             (if bool_decide (errors = []) then 0 else 1)) /\
     main args x =
       (Ok (mk_output text (if arg_json args then [] else map (app (txt "qfw-squeue: ")) errors)
             (if bool_decide (errors = []) then 0 else 1)), x2)) /\
  (forall e, rj = Raise e -> isa_SlurmCommandError e = false -> main args x = (Raise e, x1)) /\
  (forall e, reported isa_SlurmCommandError rj -> ra = Raise e ->
     isa_QPMInspectionError e = false -> main args x = (Raise e, x2)).
Proof.
  intros Ht Hj Ha. rewrite (main_run _ _ _ _ Ht Hj).
  assert (forall l errors, main_from args l errors x1 =
    match ra with
    | Raise e =>
        if isa_QPMInspectionError e
        then (report args (selected args (correlate l [])) (errors ++ [exn_str e]), x2)
        else (Raise e, x2)
    | Ok (found, more) => (report args (selected args (correlate l found)) (errors ++ more), x2)
    end) as Hfrom.
  { intros l errors. unfold main_from, mbind at 1, m_mbind, m_bind at 1.
    rewrite (try_catch_run _ _ _ _ _ _ Ha).
    destruct ra as [[found more]|e]; [done|]. by destruct (isa_QPMInspectionError e). }
  split_and!.
  - intros Hrj Hra found errors.
    destruct (report_ok args (selected args (correlate (given_or [] rj) found.1)) errors) as [text E].
    exists text. split; [exact E|]. rewrite <-E. unfold errors, found.
    destruct rj as [l|e]; simpl in Hrj |- *; rewrite ?Hrj, Hfrom;
      (destruct ra as [[found' more]|e']; simpl in Hra |- *; rewrite ?Hra, ?app_nil_r; done).
  - intros e -> He. by rewrite He.
  - intros e Hrj -> He. rewrite He in Hfrom.
    destruct rj as [l|e']; simpl in Hrj; by rewrite ?Hrj, Hfrom.
Qed.

(** ** A site where one QPM cannot be asked *)

Definition sample_jobs : pyval := PDict [(txt "jobs", PList [
  PDict [(txt "job_id", PInt 41); (txt "user_name", PStr (txt "ada"));
    (txt "job_state", PList [PStr (txt "RUNNING")]); (txt "nodes", PStr (txt "n1,n2"));
    (txt "cluster", PStr (txt "alpha")); (txt "het_job_id", PDict [(txt "number", PInt 40)])];
  PDict [(txt "job_id", PInt 40); (txt "user_name", PStr (txt "ada"));
    (txt "job_state", PList [PStr (txt "COMPLETING")]); (txt "nodes", PStr (txt "n3"));
    (txt "cluster", PStr (txt "alpha")); (txt "het_job_id", PDict [(txt "number", PInt 40)])];
  PDict [(txt "job_id", PInt 7); (txt "user", PStr (txt "bob"));
    (txt "job_state", PStr (txt "PENDING"))]])].

Definition binding_record (service_id : string) : pyval :=
  PDict [(txt "service_record", PDict [(txt "service_id", PStr (txt service_id))])].

Definition inspect_env : InspectEnv unit := {|
  run_command c x := (Ok (mk_command 0 [] []), x);
  parse_json _ := inr sample_jobs;
  connect_directory x := (Ok tt, x);
  resolve_services _ x := (Ok (PList [binding_record "aer"; binding_record "ion"]), x);
  get_service_summary _ x := (Ok PNone, x);
  list_scheduler_allocations record _ x :=
    if bool_decide (record = binding_record "ion") then (Raise (PyError RuntimeError (txt "timed out")), x)
    else (Ok (PDict [(txt "allocations", PList [
      PDict [(txt "scheduler", PStr (txt "Slurm")); (txt "cluster_name", PStr (txt "alpha"));
        (txt "job_id", PInt 40); (txt "qstate", PStr (txt "active"))];
      PDict [(txt "scheduler", PStr (txt "slurm")); (txt "cluster_name", PStr (txt "beta"));
        (txt "job_id", PStr (txt "7")); (txt "state", PStr (txt "accepted"))]])]), x);
|}.

Definition table_arguments : arguments := mk_arguments None None false (SpecFloat.S754_finite false 5 1).

Definition run_squeue : result command_output :=
  (main (ucd := ascii_ucd) (env := inspect_env) table_arguments tt).1.

Example squeue_output :
  exists out, run_squeue = Ok out /\
    out_stdout out = join [10] (map txt [
      "JOBID  USER  STATE       NODES     QPU  QSTATE";
      "7      bob   PENDING     -         aer  ACCEPTED";
      "40     ada   COMPLETING  n1,n2,n3  aer  RELEASING"]%string) /\ out_status out = 1.
Proof. eexists. split; [vm_compute; reflexivity|]. vm_compute. auto. Qed.

Lemma squeue_report_witness :
  exists text, run_squeue = Ok (mk_output text [txt "qfw-squeue: cannot inspect QPM 'ion': timed out"] 1).
Proof.
  pose proof (squeue_report (ucd := ascii_ucd) (env := inspect_env) table_arguments tt
    (jobs (ucd := ascii_ucd) (env := inspect_env) tt).1 tt
    ((connect (env := inspect_env)
       ≫= fun _ => allocations (ucd := ascii_ucd) (env := inspect_env) slurm_filter) tt).1 tt) as H.
  destruct H as [H _]; [vm_compute; reflexivity..|].
  destruct H as (text & _ & Hm); [vm_compute; exact I..|].
  exists text. unfold run_squeue. rewrite Hm. vm_compute. reflexivity.
Defined.
