(* ===== verification/Sinfo.v ===== *)
(** * The [qfw-sinfo] command ([qfw_slurm_inspect/sinfo.py])

    QPM services, registered or only configured, with the Slurm state of their
    hosts. The site configuration is read by the QFw runtime, a parameter. *)

From S2P Require Import Prelude Python Values Effects Grouping Render Inspect Squeue.
From Stdlib Require Import SpecFloat.
Local Open Scope Z_scope.

(** [qfw_runtime.config]; that it cannot be imported is an exception of the
    first call. *)
Class QfwRuntime (X : Type) := {
  resolve_site_config : option str -> X -> result str * X;
  load_yaml : str -> X -> result pyval * X;
  site_service_config : pyval -> str -> X -> result pyval * X;
  load_service_manifest : pyval -> X -> result pyval * X;
  expand_config_value : pyval -> X -> result pyval * X;
}.

(** A row of the report *)
Module SinfoRow.
Record t := mk {
  node : str;
  service_id : str;
  backend : str;
  state : str;
  active_reservations : Z;
  active_tasks : Z;
  slurm_state : str;
  partition : str;
  features : list str;
  runtime_id : str;
  generation : Z;
  assigned_hosts : list str;
  dvm_ready : pyval;
  error : str;
}.
End SinfoRow.

Section sinfo.
Context {ucd : UnicodeData}.

(** [{node.name: node for node in nodes}.get(host)]: the last one *)
Definition node_by_name (nodes : list SlurmNode.t) (host : str) : option SlurmNode.t :=
  List.find (fun node => bool_decide (SlurmNode.name node = host)) (reverse nodes).

Definition service_hosts (service : QPMService.t) : list str :=
  match QPMService.assigned_hosts service with [] => [txt "-"] | hosts => hosts end.

Definition shown_state (service : QPMService.t) : str :=
  if QPMService.ready service || bool_decide (QPMService.state service = txt "MAINT")
  then QPMService.state service else txt "DOWN".

Definition row_of_host (nodes : list SlurmNode.t) (service : QPMService.t) (host : str) : SinfoRow.t :=
  let node := node_by_name nodes host in
  SinfoRow.mk host (QPMService.service_id service) (QPMService.backend service)
    (shown_state service) (QPMService.active_reservations service)
    (QPMService.active_tasks service)
    (match node with Some n => SlurmNode.state n | None => txt "UNKNOWN" end)
    (match node with Some n => SlurmNode.partition n | None => [] end)
    (match node with Some n => SlurmNode.features n | None => [] end)
    (QPMService.runtime_id service) (QPMService.generation service)
    (QPMService.assigned_hosts service) (QPMService.dvm_ready service) (QPMService.error service).

(** [<=] on pairs of strings *)
Definition pair_leb (a b : str * str) : bool :=
  if bool_decide (a.1 = b.1) then str_leb a.2 b.2 else str_leb a.1 b.1.

Definition row_key (row : SinfoRow.t) : str * str := (SinfoRow.node row, SinfoRow.service_id row).

Definition _rows (nodes : list SlurmNode.t) (services : list QPMService.t) : list SinfoRow.t :=
  sort_by pair_leb row_key
    (concat (map (fun service => map (row_of_host nodes service) (service_hosts service)) services)).

(** A service that is configured and not registered *)
Definition unregistered (service_id backend : str) (hosts : list str) : QPMService.t :=
  QPMService.mk service_id [] 0 backend (txt "DOWN") false 0 0 hosts PNone
    (txt "service is not registered") [].

(** [feature.removeprefix("qpm-") ... if feature.startswith("qpm-")] *)
Definition qpm_features (features : list str) : list str :=
  map (drop 4) (List.filter (startswith (txt "qpm-")) features).

(** The service and node names the loop appends *)
Definition node_services (node : SlurmNode.t) : list (str * str) :=
  map (fun service_id => (service_id, SlurmNode.name node)) (qpm_features (SlurmNode.features node)).

Definition _configured_from_nodes (nodes : list SlurmNode.t) : list QPMService.t :=
  let grouped := group_by fst (concat (map node_services nodes)) in
  map (fun '(service_id, pairs) => unregistered service_id service_id (sorted_str (map snd pairs)))
    (sort_by str_leb fst grouped).

Definition _merge_configured_services (active configured : list QPMService.t) : list QPMService.t :=
  active ++ List.filter
    (fun service => negb (bool_decide
       (QPMService.service_id service ∈ map QPMService.service_id active))) configured.

Definition _optional_bool (value : pyval) : str :=
  match value with PNone => txt "unknown" | v => if truthy v then txt "yes" else txt "no" end.

Definition int_or_dash (z : Z) : str := if z =? 0 then txt "-" else str_of_Z z.
Definition text_or_dash (s : str) : str := if bool_decide (s = []) then txt "-" else s.

Definition detail_fields (row : SinfoRow.t) : list (str * str) :=
  [(txt "Node", SinfoRow.node row);
   (txt "Service", SinfoRow.service_id row);
   (txt "Backend", SinfoRow.backend row);
   (txt "QPM state", SinfoRow.state row);
   (txt "Slurm state", SinfoRow.slurm_state row);
   (txt "Runtime ID", text_or_dash (SinfoRow.runtime_id row));
   (txt "Generation", int_or_dash (SinfoRow.generation row));
   (txt "Active reservations", str_of_Z (SinfoRow.active_reservations row));
   (txt "Active tasks", str_of_Z (SinfoRow.active_tasks row));
   (txt "Assigned hosts", text_or_dash (join (txt ",") (SinfoRow.assigned_hosts row)));
   (txt "DVM ready", _optional_bool (SinfoRow.dvm_ready row));
   (txt "Features", text_or_dash (join (txt ",") (SinfoRow.features row)));
   (txt "Error", text_or_dash (SinfoRow.error row))].

Definition _detail (row : SinfoRow.t) : str :=
  let fields := detail_fields row in
  let width := foldr Nat.max 0%nat (map (fun f : str * str => length f.1) fields) in
  join [10] (map (fun '(name, value) => ljust width name ++ txt "  " ++ value) fields).
End sinfo.

(** ** The command *)

Section command.
Context {ucd : UnicodeData} {X : Type} {env : InspectEnv X} {runtime : QfwRuntime X}.

(** The service of an entry of the manifest *)
Definition manifest_service (item : pyval) : M X QPMService.t :=
  hosts ← lift (py_get item (txt "assigned-hosts"));
  hosts ← expand_config_value (py_or hosts (PStr []));
  name ← lift (py_item item (txt "name"));
  device ← lift (py_get item (txt "device-id"));
  backend ← (if truthy device then mret device else lift (py_item item (txt "name")) : M X pyval);
  mret (unregistered (py_str name) (py_str backend)
          (words (map (fun c => if c =? 44 then 32 else c) (py_str hosts)))).

Definition site_manifest (explicit_site : option str) : M X pyval :=
  site_path ← resolve_site_config explicit_site;
  site ← load_yaml site_path;
  config ← site_service_config site site_path;
  manifest ← lift (py_item config (txt "manifest"));
  load_service_manifest manifest.

(** [services or fallback] *)
Definition services_or (services fallback : list QPMService.t) : list QPMService.t :=
  match services with [] => fallback | _ => services end.

Definition _configured_services (explicit_site : option str) (nodes : list SlurmNode.t)
    : M X (list QPMService.t) :=
  let configured := _configured_from_nodes nodes in
  if negb (bool_decide (nodes = [])) && negb (bool_decide (configured = [])) then mret configured
  else
    manifest ← try_except (m ← site_manifest explicit_site; mret (Some m)) (fun _ => mret None);
    match manifest with
    | None => mret configured
    | Some manifest =>
        items ← lift (py_iter manifest);
        services ← mapM manifest_service items;
        mret (services_or services configured)
    end.

Definition sinfo_schema : str := txt "qfw-sinfo-v1".

Definition sinfo_json (row : SinfoRow.t) : pyval :=
  PDict [(txt "node", PStr (SinfoRow.node row)); (txt "service_id", PStr (SinfoRow.service_id row));
    (txt "backend", PStr (SinfoRow.backend row)); (txt "state", PStr (SinfoRow.state row));
    (txt "active_reservations", PInt (SinfoRow.active_reservations row));
    (txt "active_tasks", PInt (SinfoRow.active_tasks row));
    (txt "slurm_state", PStr (SinfoRow.slurm_state row));
    (txt "partition", PStr (SinfoRow.partition row));
    (txt "features", PList (map PStr (SinfoRow.features row)));
    (txt "runtime_id", PStr (SinfoRow.runtime_id row));
    (txt "generation", PInt (SinfoRow.generation row));
    (txt "assigned_hosts", PList (map PStr (SinfoRow.assigned_hosts row)));
    (txt "dvm_ready", SinfoRow.dvm_ready row); (txt "error", PStr (SinfoRow.error row))].

Definition sinfo_cells (row : SinfoRow.t) : list pyval :=
  [PStr (SinfoRow.node row); PStr (SinfoRow.service_id row); PStr (SinfoRow.backend row);
   PStr (SinfoRow.state row); PInt (SinfoRow.active_reservations row);
   PStr (SinfoRow.slurm_state row)].

Definition sinfo_headers : list str :=
  map txt ["NODE"; "SERVICE"; "BACKEND"; "STATE"; "ACTIVE"; "SLURM_STATE"]%string.

Record sinfo_arguments := mk_sinfo_arguments {
  sinfo_node : option str;
  sinfo_as_json : bool;
  sinfo_site_config : option str;
  sinfo_timeout : spec_float;
}.

(** From the rows on *)
Definition sinfo_report (args : sinfo_arguments) (rows : list SinfoRow.t) (errors : list str)
    : result command_output :=
  rows ← match given (sinfo_node args) with
         | Some node =>
             let rows := List.filter (fun r => bool_decide (SinfoRow.node r = node)) rows in
             if bool_decide (rows = []) then
               Raise (SystemExit (txt "qfw-sinfo: unknown service node " ++ repr node))
             else Ok rows
         | None => Ok rows
         end;
  let status := if bool_decide (errors = []) then 0 else 1 in
  let printed_errors := map (fun error => txt "qfw-sinfo: " ++ error) errors in
  if sinfo_as_json args then
    Ok (mk_output (json_pretty 0 (PDict
      [(txt "schema", PStr sinfo_schema); (txt "services", PList (map sinfo_json rows));
       (txt "errors", PList (map PStr errors))])) [] status)
  else
    match given (sinfo_node args), rows with
    | Some _, row :: _ => Ok (mk_output (_detail row) printed_errors status)
    | _, _ =>
        text ← table sinfo_headers (map sinfo_cells rows);
        Ok (mk_output text printed_errors status)
    end.

Definition main (args : sinfo_arguments) : M X command_output :=
  _ ← lift (if not_positive (sinfo_timeout args) then parser_error (txt "--timeout must be positive")
            else Ok tt);
  '(nodes, errors) ← try_catch isa_SlurmCommandError (l ← nodes; mret (l, []))
      (fun error => mret ([], [exn_str error]));
  '(services, qpm_errors) ← try_catch isa_QPMInspectionError
      (_ ← connect; l ← services; mret (l, []))
      (fun error => mret ([], [exn_str error]));
  configured ← _configured_services (sinfo_site_config args) nodes;
  lift (sinfo_report args (_rows nodes (_merge_configured_services services configured))
          (errors ++ qpm_errors)).
End command.
