(* ===== verification/SinfoProps.v ===== *)
(** * Properties of the [qfw-sinfo] command *)

From S2P Require Import Prelude Python Values Effects Grouping Render Inspect Squeue Sinfo.
Local Open Scope Z_scope.

Section facts.
Context {ucd : UnicodeData}.

(** The node advertises the service. *)
Definition advertises (node : SlurmNode.t) (service_id : str) : Prop :=
  txt "qpm-" ++ service_id ∈ SlurmNode.features node.

Lemma elem_of_qpm_features features service_id :
  service_id ∈ qpm_features features <-> txt "qpm-" ++ service_id ∈ features.
Proof.
  unfold qpm_features. rewrite list_elem_of_fmap. setoid_rewrite elem_of_filter_bool.
  unfold startswith. setoid_rewrite bool_decide_eq_true. split.
  - intros (f & -> & Hf & Hp). change (length (txt "qpm-")) with 4%nat in Hp.
    by rewrite <-Hp, take_drop.
  - intros Hf. exists (txt "qpm-" ++ service_id). split_and!; [done|done|].
    apply take_app_length.
Qed.

(** The pairs of a service and a node that the loop collects *)
Lemma elem_of_node_services nodes service_id host :
  (service_id, host) ∈ concat (map node_services nodes) <->
  exists n, n ∈ nodes /\ SlurmNode.name n = host /\ advertises n service_id.
Proof.
  rewrite elem_of_concat. setoid_rewrite list_elem_of_fmap. split.
  - intros (l & Hin & n & -> & Hn). apply list_elem_of_fmap in Hin as (f & [= -> ->] & Hf).
    exists n. split_and!; [done..|by apply elem_of_qpm_features].
  - intros (n & Hn & <- & Ha). exists (node_services n). split; [|by exists n].
    apply list_elem_of_fmap. exists service_id. split; [done|]. by apply elem_of_qpm_features.
Qed.

Lemma configured_spec nodes s :
  s ∈ _configured_from_nodes nodes <->
  exists service_id, (exists n, n ∈ nodes /\ advertises n service_id) /\
    s = unregistered service_id service_id
          (sorted_str (map snd (with_key fst service_id (concat (map node_services nodes))))).
Proof.
  unfold _configured_from_nodes. cbv zeta. rewrite list_elem_of_fmap.
  setoid_rewrite elem_of_sort_by. rewrite group_by_spec. setoid_rewrite list_elem_of_fmap.
  setoid_rewrite elem_of_first_occurrences. split.
  - intros ([? ?] & -> & service_id & [= -> ->] & Hk). exists service_id. split; [|done].
    apply list_elem_of_fmap in Hk as ([? host] & -> & Hin).
    apply elem_of_node_services in Hin as (n & Hn & _ & Ha). by exists n.
  - intros (service_id & (n & Hn & Ha) & ->). eexists (_, _). split; [done|].
    exists service_id. split; [done|]. apply (list_elem_of_fmap_2 fst _ (service_id, SlurmNode.name n)).
    apply elem_of_node_services. by exists n.
Qed.

(** A configured service is placed on the nodes that advertise it. *)
Lemma configured_hosts nodes service_id host :
  host ∈ sorted_str (map snd (with_key fst service_id (concat (map node_services nodes)))) <->
  exists n, n ∈ nodes /\ SlurmNode.name n = host /\ advertises n service_id.
Proof.
  rewrite elem_of_sorted_str, list_elem_of_fmap, <-elem_of_node_services. split.
  - intros ([k h] & -> & [Hin E]%elem_of_with_key). simpl in *. by subst.
  - intros Hin. exists (service_id, host). split; [done|]. by apply elem_of_with_key.
Qed.

Lemma elem_of_merged active configured s :
  s ∈ _merge_configured_services active configured <->
  s ∈ active \/ (s ∈ configured /\ QPMService.service_id s ∉ map QPMService.service_id active).
Proof.
  unfold _merge_configured_services.
  by rewrite elem_of_app, elem_of_filter_bool, negb_true_iff, bool_decide_eq_false.
Qed.

Lemma elem_of_report nodes services r :
  r ∈ _rows nodes services <->
  exists s host, s ∈ services /\ host ∈ service_hosts s /\ r = row_of_host nodes s host.
Proof.
  unfold _rows. rewrite elem_of_sort_by, elem_of_concat. setoid_rewrite list_elem_of_fmap.
  split.
  - intros (l & Hl & s & -> & Hs). apply list_elem_of_fmap in Hl as (host & -> & Hh). eauto.
  - intros (s & host & Hs & Hh & ->). exists (map (row_of_host nodes s) (service_hosts s)).
    split; [by apply list_elem_of_fmap_2|eauto].
Qed.

(** *** The row of a service on a host *)

(** The service is shown on its hosts; one without a host on a dash. *)
Definition placed (s : QPMService.t) (host : str) : Prop :=
  host ∈ QPMService.assigned_hosts s \/ (QPMService.assigned_hosts s = [] /\ host = txt "-").

(** What Slurm says of the host: its last node of that name, if any *)
Definition known_as (nodes : list SlurmNode.t) (host st partition : str) (features : list str) : Prop :=
  (exists before n after, nodes = before ++ n :: after /\ SlurmNode.name n = host /\
     (forall n', n' ∈ after -> SlurmNode.name n' <> host) /\
     st = SlurmNode.state n /\ partition = SlurmNode.partition n /\ features = SlurmNode.features n) \/
  ((forall n, n ∈ nodes -> SlurmNode.name n <> host) /\
   st = txt "UNKNOWN" /\ partition = [] /\ features = []).

(** A service is up that is ready or in maintenance. *)
Definition up (s : QPMService.t) : Prop :=
  QPMService.ready s = true \/ QPMService.state s = txt "MAINT".

Definition shows (nodes : list SlurmNode.t) (s : QPMService.t) (r : SinfoRow.t) : Prop :=
  placed s (SinfoRow.node r) /\
  (up s /\ SinfoRow.state r = QPMService.state s \/ (~ up s) /\ SinfoRow.state r = txt "DOWN") /\
  known_as nodes (SinfoRow.node r) (SinfoRow.slurm_state r) (SinfoRow.partition r)
    (SinfoRow.features r) /\
  SinfoRow.service_id r = QPMService.service_id s /\
  SinfoRow.backend r = QPMService.backend s /\
  SinfoRow.active_reservations r = QPMService.active_reservations s /\
  SinfoRow.active_tasks r = QPMService.active_tasks s /\
  SinfoRow.runtime_id r = QPMService.runtime_id s /\
  SinfoRow.generation r = QPMService.generation s /\
  SinfoRow.assigned_hosts r = QPMService.assigned_hosts s /\
  SinfoRow.dvm_ready r = QPMService.dvm_ready s /\
  SinfoRow.error r = QPMService.error s.

Lemma elem_of_service_hosts s host : host ∈ service_hosts s <-> placed s host.
Proof.
  unfold service_hosts, placed. destruct (QPMService.assigned_hosts s) as [|h hs].
  - rewrite list_elem_of_singleton. split; [intros ?; by right|]. intros [Hh|[_ ?]]; [by apply elem_of_nil in Hh|done].
  - split; [intros ?; by left|]. intros [?|[? _]]; done.
Qed.

Lemma node_by_name_known nodes host st partition features :
  known_as nodes host st partition features <->
  match node_by_name nodes host with
  | Some n => st = SlurmNode.state n /\ partition = SlurmNode.partition n /\
              features = SlurmNode.features n
  | None => st = txt "UNKNOWN" /\ partition = [] /\ features = []
  end.
Proof.
  unfold node_by_name. split.
  - intros [(before & n & after & -> & Hn & Ha & Hs)|(Hno & Hs)].
    + rewrite reverse_app, reverse_cons, <-app_assoc. simpl.
      rewrite find_skip; [exact Hs| |by apply bool_decide_eq_true].
      intros y Hy. rewrite elem_of_reverse in Hy. apply bool_decide_eq_false. exact (Ha y Hy).
    + destruct (List.find _ _) as [n|] eqn:E; [|exact Hs].
      apply List.find_some in E as [Hin%list_elem_of_In Hn%bool_decide_eq_true].
      rewrite elem_of_reverse in Hin. by destruct (Hno n Hin).
  - destruct (List.find _ _) as [n|] eqn:E; intros Hs.
    + left. apply find_first in E as (before & after & Hr & Hn%bool_decide_eq_true & Hb).
      exists (reverse after), n, (reverse before). split_and!; [|done| |tauto..].
      * rewrite <-(reverse_involutive nodes), Hr, reverse_app, reverse_cons, <-app_assoc. done.
      * intros n' Hn'. rewrite elem_of_reverse in Hn'. exact (proj1 (bool_decide_eq_false _) (Hb n' Hn')).
    + right. split; [|exact Hs]. intros n Hin. rewrite <-elem_of_reverse in Hin. apply list_elem_of_In in Hin.
      pose proof (List.find_none _ _ E n Hin) as Hn. by apply bool_decide_eq_false in Hn.
Qed.

Lemma shown_state_spec s st :
  st = shown_state s <->
  (up s /\ st = QPMService.state s) \/ ((~ up s) /\ st = txt "DOWN").
Proof.
  unfold shown_state. assert (QPMService.ready s || bool_decide (QPMService.state s = txt "MAINT") = true
    <-> up s) as Hup by (by rewrite orb_true_iff, bool_decide_eq_true).
  destruct (_ || _); [pose proof (proj1 Hup eq_refl)|assert (~ up s) by (by intros ?%Hup)]; tauto.
Qed.

Lemma shows_row nodes s r :
  shows nodes s r <-> exists host, host ∈ service_hosts s /\ r = row_of_host nodes s host.
Proof.
  unfold shows. rewrite <-shown_state_spec, node_by_name_known. split.
  - intros (Hp & Hst & Hn & H). exists (SinfoRow.node r).
    split; [by apply elem_of_service_hosts|]. destruct r. unfold row_of_host. simpl in *.
    destruct_and?. destruct (node_by_name nodes node); destruct_and?; by subst.
  - intros (host & Hh%elem_of_service_hosts & ->). simpl.
    split_and!; try done; by destruct (node_by_name nodes host).
Qed.

Lemma placed_row nodes s host :
  placed s host -> exists r, shows nodes s r /\ SinfoRow.node r = host.
Proof.
  intros Hp. exists (row_of_host nodes s host). split; [|done]. apply shows_row. exists host.
  split; [by apply elem_of_service_hosts|done].
Qed.

Lemma pair_leb_total a b : pair_leb a b = true \/ pair_leb b a = true.
Proof.
  unfold pair_leb. destruct (decide (a.1 = b.1)) as [E|E].
  - rewrite E, bool_decide_eq_true_2 by done. apply str_leb_total.
  - rewrite !bool_decide_eq_false_2 by congruence. apply str_leb_total.
Qed.

End facts.

(** ** The services that are not registered *)
Section configured.
Context {ucd : UnicodeData} {X : Type} {runtime : QfwRuntime X}.

Definition not_registered (s : QPMService.t) : Prop :=
  QPMService.runtime_id s = [] /\ QPMService.generation s = 0 /\ QPMService.state s = txt "DOWN" /\
  QPMService.ready s = false /\ QPMService.active_reservations s = 0 /\
  QPMService.active_tasks s = 0 /\ QPMService.dvm_ready s = PNone /\
  QPMService.error s = txt "service is not registered".

(** A service that nodes advertise is on these nodes. *)
Definition advertised (nodes : list SlurmNode.t) (s : QPMService.t) : Prop :=
  let id := QPMService.service_id s in
  (exists n, n ∈ nodes /\ advertises n id) /\ QPMService.backend s = id /\ not_registered s /\
  Sorted (fun x y => str_leb x y = true) (QPMService.assigned_hosts s) /\
  forall host, host ∈ QPMService.assigned_hosts s <->
    exists n, n ∈ nodes /\ SlurmNode.name n = host /\ advertises n id.

(** The manifest of the site, read from [x] on *)
Definition manifest_read (site : option str) (x : X) (manifest : pyval) (x' : X) : Prop :=
  exists path x1 doc x2 config x3 m,
    resolve_site_config site x = (Ok path, x1) /\ load_yaml path x1 = (Ok doc, x2) /\
    site_service_config doc path x2 = (Ok config, x3) /\
    py_item config (txt "manifest") = Ok m /\ load_service_manifest m x3 = (Ok manifest, x').

(** The service an entry of the manifest declares *)
Definition declares (item : pyval) (s : QPMService.t) : Prop :=
  exists raw x expanded x' name device,
    py_get item (txt "assigned-hosts") = Ok raw /\
    expand_config_value (if truthy raw then raw else PStr []) x = (Ok expanded, x') /\
    py_item item (txt "name") = Ok name /\ py_get item (txt "device-id") = Ok device /\
    QPMService.service_id s = py_str name /\
    QPMService.backend s = py_str (if truthy device then device else name) /\
    QPMService.assigned_hosts s =
      words (map (fun c => if c =? 44 then 32 else c) (py_str expanded)) /\
    not_registered s.

(** The services a site is configured for: those its nodes advertise, or, when
    no node advertises any, those of its manifest, if it can be read *)
Definition configured_as (site : option str) (nodes : list SlurmNode.t) (x : X)
    (configured : list QPMService.t) : Prop :=
  ((exists n id, n ∈ nodes /\ advertises n id) /\
   Forall (advertised nodes) configured /\
   (forall id, (exists n, n ∈ nodes /\ advertises n id) ->
      exists s, s ∈ configured /\ QPMService.service_id s = id)) \/
  ((forall n id, n ∈ nodes -> ~ advertises n id) /\
   ((exists manifest x1 items, manifest_read site x manifest x1 /\ py_iter manifest = Ok items /\
       Forall2 declares items configured) \/
    ((forall manifest x1, ~ manifest_read site x manifest x1) /\ configured = []))).

Lemma site_manifest_read site x manifest x' :
  site_manifest site x = (Ok manifest, x') <-> manifest_read site x manifest x'.
Proof.
  unfold site_manifest, manifest_read. split.
  - intros H. apply m_bind_inv in H as (path & x1 & H1 & H).
    apply m_bind_inv in H as (doc & x2 & H2 & H). apply m_bind_inv in H as (config & x3 & H3 & H).
    apply m_bind_inv in H as (m & x4 & H4 & H). injection H4 as H4 ->.
    by exists path, x1, doc, x2, config, x4, m.
  - intros (path & x1 & doc & x2 & config & x3 & m & H1 & H2 & H3 & H4 & H5).
    rewrite (m_bind_ok _ _ _ _ _ H1), (m_bind_ok _ _ _ _ _ H2), (m_bind_ok _ _ _ _ _ H3).
    rewrite (m_bind_ok (lift _) _ _ m x3) by (unfold lift; by rewrite H4). exact H5.
Qed.

Lemma manifest_service_ok item x s x' :
  manifest_service item x = (Ok s, x') -> declares item s.
Proof.
  intros H. unfold manifest_service in H.
  apply m_bind_inv in H as (raw & x1 & H1 & H). injection H1 as H1 <-.
  apply m_bind_inv in H as (expanded & x2 & H2 & H).
  apply m_bind_inv in H as (name & x3 & H3 & H). injection H3 as H3 <-.
  apply m_bind_inv in H as (device & x3 & H4 & H). injection H4 as H4 <-.
  apply m_bind_inv in H as (backend & x3 & H5 & H). injection H as <- <-.
  exists raw, x, expanded, x2, name, device. split_and!; try done. simpl. f_equal.
  destruct (truthy device); [by injection H5|]. injection H5 as H5 _. congruence.
Qed.

Lemma manifest_services_ok items x services x' :
  mapM manifest_service items x = (Ok services, x') -> Forall2 declares items services.
Proof.
  revert x services x'. induction items as [|item items IH]; intros x services x' H; simpl in H.
  { by injection H as <- <-. }
  apply m_bind_inv in H as (s & x1 & Hs & H). apply m_bind_inv in H as (l & x2 & Hl & H).
  injection H as <- <-. constructor; [by eapply manifest_service_ok|by eapply IH].
Qed.

Lemma from_nodes_advertised nodes :
  Forall (advertised nodes) (_configured_from_nodes nodes) /\
  forall id, (exists n, n ∈ nodes /\ advertises n id) ->
    exists s, s ∈ _configured_from_nodes nodes /\ QPMService.service_id s = id.
Proof.
  split.
  - apply Forall_forall. intros s (sid & Hn & ->)%configured_spec. unfold advertised. simpl.
    split_and!; try done; [apply (sort_by_sorted str_leb id), str_leb_total|].
    intros host. apply configured_hosts.
  - intros id Hn. eexists. split; [apply configured_spec; by exists id|done].
Qed.

Lemma configured_services_ok site nodes x configured x' :
  _configured_services site nodes x = (Ok configured, x') -> configured_as site nodes x configured.
Proof.
  intros H. unfold _configured_services in H. cbv zeta in H.
  destruct (from_nodes_advertised nodes) as [Hadv Hall].
  destruct (_configured_from_nodes nodes) as [|s0 l] eqn:Hc.
  - right. split.
    { intros n id Hn Ha. destruct (Hall id) as (s & Hs & _); [by exists n|]. by apply elem_of_nil in Hs. }
    rewrite (bool_decide_eq_true_2 ([] = [])), andb_false_r in H by done.
    apply m_bind_inv in H as (found & x1 & Hm & H). destruct found as [manifest|].
    + left. apply m_bind_inv in H as (items & x2 & Hi & H). injection Hi as Hi <-.
      apply m_bind_inv in H as (services & x3 & Hs & H). injection H as <- <-.
      exists manifest, x1, items. split_and!; [|done|].
      * apply site_manifest_read. apply try_except_cases in Hm as [[Hm _]|(e & y & _ & _ & [=])].
        apply m_bind_inv in Hm as (m & y & Hm & Hr). by injection Hr as -> ->.
      * replace (services_or services []) with services by (by destruct services).
        by eapply manifest_services_ok.
    + right. injection H as <- <-. split; [|done]. intros manifest y Hread%site_manifest_read.
      apply try_except_cases in Hm as [[Hm _]|(e & z & Hm & _ & _)].
      * apply m_bind_inv in Hm as (m & z & _ & [=]).
      * apply m_bind_cases in Hm as [(e' & Hm & _)|(m & z' & _ & [=])]. congruence.
  - left. assert (nodes <> []) as Hne by (by intros ->).
    rewrite (bool_decide_eq_false_2 (nodes = [])) in H by done.
    rewrite (bool_decide_eq_false_2 (_ = [])) in H by done. injection H as <- <-.
    split; [|by split]. apply Forall_cons in Hadv as [((n & Hn & Ha) & _) _]. by eexists n, _.
Qed.

Lemma configured_down site nodes x configured s :
  configured_as site nodes x configured -> s ∈ configured -> not_registered s.
Proof.
  intros [(_ & Hf & _)|(_ & [(manifest & x1 & items & _ & _ & Hf)|[_ ->]])] Hs.
  - rewrite Forall_forall in Hf. apply Hf, Hs.
  - apply list_elem_of_lookup in Hs as [i Hi]. eapply Forall2_lookup_r in Hf as (item & _ & Hd); [|exact Hi].
    by destruct Hd as (? & ? & ? & ? & ? & ? & _ & _ & _ & _ & _ & _ & _ & ?).
  - by apply elem_of_nil in Hs.
Qed.
End configured.

(** ** Properties *)

(** C38 The services the command shows are the registered ones and, of those
    the site is configured for, the ones that are not registered: these are
    what nodes advertise in their features, each on the nodes that advertise
    it, or, when no node advertises any, what the manifest of the site
    declares, if it can be read. The rows are exactly theirs: one for each
    host of each service, or a dash for a service without hosts, with the
    service's own fields and what Slurm says of the host, in the order of the
    hosts and services. A row is up only for a registered service that is
    ready or in maintenance. *)
Theorem sinfo_rows {ucd : UnicodeData} {X} {runtime : QfwRuntime X} site nodes active (x : X) configured x' :
  _configured_services site nodes x = (Ok configured, x') ->
  let rows := _rows nodes (_merge_configured_services active configured) in
  let shown s := s ∈ active \/
    (s ∈ configured /\ QPMService.service_id s ∉ map QPMService.service_id active) in
  configured_as site nodes x configured /\
  (forall r, r ∈ rows <-> exists s, shown s /\ shows nodes s r) /\
  (forall s host, shown s -> placed s host ->
     exists r, r ∈ rows /\ shows nodes s r /\ SinfoRow.node r = host) /\
  (forall r, r ∈ rows -> SinfoRow.state r <> txt "DOWN" ->
     exists s, s ∈ active /\ shows nodes s r /\ up s) /\
  Sorted (fun r r' =>
    if decide (SinfoRow.node r = SinfoRow.node r')
    then str_leb (SinfoRow.service_id r) (SinfoRow.service_id r') = true
    else str_leb (SinfoRow.node r) (SinfoRow.node r') = true) rows.
Proof.
  intros Hc%configured_services_ok rows shown.
  assert (Hrows : forall r, r ∈ rows <-> exists s, shown s /\ shows nodes s r).
  { intros r. unfold rows. rewrite elem_of_report. setoid_rewrite elem_of_merged.
    setoid_rewrite shows_row. unfold shown. naive_solver. }
  split_and!; [done|done| | |].
  - intros s host Hs (r & Hr & Hn)%(placed_row nodes). exists r. split_and!; [|done..].
    apply Hrows. by exists s.
  - intros r (s & Hs & Hsh)%Hrows Hd. exists s. pose proof Hsh as (_ & [[Hup _]|[_ ?]] & _); [|done].
    destruct Hs as [Hs|[Hs _]]; [done|].
    destruct (configured_down _ _ _ _ _ Hc Hs) as (_ & _ & Hst & Hr & _). destruct Hup as [E|E]; [congruence|by rewrite E in Hst].
  - rewrite <-(List.map_id rows). eapply Sorted_fmap;
      [|apply (sort_by_sorted pair_leb row_key), pair_leb_total].
    intros r r'. unfold pair_leb, row_key. cbn [fst snd]. unfold id.
    destruct (decide _); case_bool_decide; done.
Qed.

(** ** A site whose nodes advertise nothing *)

Definition site_runtime : QfwRuntime unit := {|
  resolve_site_config _ x := (Ok (txt "/etc/qfw/site.yaml"), x);
  load_yaml _ x := (Ok (PDict []), x);
  site_service_config _ _ x := (Ok (PDict [(txt "manifest", PStr (txt "services.yaml"))]), x);
  load_service_manifest _ x := (Ok (PList [
    PDict [(txt "name", PStr (txt "aer")); (txt "assigned-hosts", PStr (txt "n1,n2"))];
    PDict [(txt "name", PStr (txt "ion")); (txt "device-id", PStr (txt "ion-1"))]]), x);
  expand_config_value v x := (Ok v, x);
|}.

Definition plain_nodes : list SlurmNode.t :=
  [SlurmNode.mk (txt "n1") (txt "IDLE") (txt "batch") [txt "gpu"]].

(** ["aer"] is registered and ready, on one of its hosts. *)
Definition ready_services : list QPMService.t :=
  [QPMService.mk (txt "aer") (txt "rt") 3 (txt "aer") (txt "READY") true 1 0 [txt "n1"] PNone [] []].

Lemma sinfo_rows_witness :
  exists configured, _configured_services (ucd := ascii_ucd) (runtime := site_runtime) None plain_nodes tt
      = (Ok configured, tt) /\
    map QPMService.service_id configured = [txt "aer"; txt "ion"] /\
    configured_as (ucd := ascii_ucd) (runtime := site_runtime) None plain_nodes tt configured /\
    exists r, r ∈ _rows plain_nodes (_merge_configured_services ready_services configured) /\
      SinfoRow.node r = txt "n1".
Proof.
  destruct (_configured_services (ucd := ascii_ucd) (runtime := site_runtime) None plain_nodes tt)
    as [[configured|e] []] eqn:Hc; [|by vm_compute in Hc].
  exists configured. split; [done|]. split; [vm_compute in Hc; by injection Hc as <-|].
  destruct (sinfo_rows (ucd := ascii_ucd) (runtime := site_runtime) None plain_nodes ready_services tt
    configured tt Hc) as (Has & _ & Hhost & _).
  split; [exact Has|].
  destruct (Hhost (QPMService.mk (txt "aer") (txt "rt") 3 (txt "aer") (txt "READY") true 1 0
    [txt "n1"] PNone [] []) (txt "n1")) as (r & Hr & _ & Hn); [left; by left|left; by left|].
  by exists r.
Defined.
